(* ===== verification/_CoqProject ===== *)
-Q . S2P
Prelude.v
Block.v
SimpleBlock.v
ForkTree.v
MemoryForkTree.v
MemoryForkTreeInv.v
MemoryForkTreeWalk.v
MemoryForkTreeSkip.v
FlatState.v
MemoryFlatState.v
Transactional.v
SimpleChain.v
PeerInfoProtocol.v
PeerInfoHandler.v
PeerInfoBehaviour.v
PeerInfoNode.v
SyncExtra.v
Service.v
Worker.v
WorkerRequests.v
SimpleNode.v
