(* ===== verification/Prelude.v ===== *)
(** * A verification of rust-chain

    The repository holds a small blockchain framework ([blockchain]), a peer-to-peer
    network layer ([blocknet]), a lock helper crate ([util/sync-extra]) and an empty
    shell ([tinyjam]).  This development embeds them as functions and step relations and
    proves what they compute.

    ** The program and the files

    [blockchain] stores blocks in a tree of forks and, per block, the changes of a
    key-value state.

    - [Block.v]: the traits of [block.rs].
    - [SimpleBlock.v]: the blocks of [tests/simple.rs], used for evaluation.
    - [ForkTree.v]: the traits of [chain.rs] with the provided method [is_ancestor], and
      the contract of a fork tree, [ForkTreeSpec]: a depth per block that grows by one from
      the parent, and ancestor queries that answer with the ancestor.
    - [MemoryForkTree.v]: [memory/chain.rs], the tree with its depth index and its skip
      lists: [block], [block_depth], [ancestor_id_at_depth], [insert].
    - [MemoryForkTreeInv.v]: well-formedness, its preservation by [insert], the result of
      [insert] on every branch, and what reachable trees look like.
    - [MemoryForkTreeWalk.v]: correctness and termination of the ancestor walk, when the
      tree as written honours the contract, and a reference tree that always does, which
      models no code and serves the examples.
    - [MemoryForkTreeSkip.v]: what the skip lists record, the number of hops of the walk,
      and its equivalence with following the parents.
    - [FlatState.v]: the traits of [state.rs] and the overlay (module [Overlay]).
    - [MemoryFlatState.v]: [memory/state.rs], proved against the contract of [ForkTree.v]
      and then for the tree of [MemoryForkTree.v].
    - [Transactional.v]: [memory/mod.rs], the two-copy transaction.
    - [SimpleChain.v]: the chain of [tests/simple.rs], which composes tree, state,
      overlay and transaction, its block builder and the test itself.

    [blocknet] runs a libp2p node: a worker owns the swarm, services send it requests
    over a channel, and the peer-info protocol exchanges a record with every peer.

    - [PeerInfoProtocol.v]: [protocol.rs], [codec.rs], [json.rs] of [libp2p/peer_info]:
      the info, the codec trait and the JSON codec over byte streams.
    - [PeerInfoHandler.v]: [handler.rs], one handler per connection: timer, bounded set of
      running streams, event queue.
    - [PeerInfoBehaviour.v]: [behaviour.rs], the table of connections and the queue of
      events and notifications.
    - [PeerInfoNode.v]: a behaviour with the handlers of its connections, driven as the
      swarm does, with a mailbox per connection and reports under way; and two such nodes
      exchanging their infos over a stream.
    - [SyncExtra.v]: the crate [util/sync-extra], locks with poisoning, shared cells.
    - [Service.v]: the traits of [service.rs].
    - [Worker.v]: [libp2p/mod.rs]: [Worker::new], [step], [run], the services with
      [local_info], [set_local_info], [peers], [listen] and [broadcast].
    - [WorkerRequests.v]: services and worker over the action channel.
    - [SimpleNode.v]: the example program of [blocknet], and the record of [tinyjam].

    ** How code is represented

    A call that returns [Result] is an [outcome]: [Ok], [Err], [Panicked], or
    [OutOfFuel] for a loop whose step budget ran out.  A function on [&mut self] is
    [stateful]: it returns the receiver also when it fails.  Futures give [Poll].
    [usize] is [N] with its 64-bit bound, and an addition that overflows panics, as in a
    build with overflow checks (a release build wraps; on reachable trees the branch is
    never taken, because depths stay at most three).  Hash
    maps are [gmap]; where their order of iteration matters it is the parameter
    [HashIter], so that theorems hold for every order.  B-tree maps are [gmap N] with
    sorted ranges.  [Arc] is a reference into a store, so that handles that share a cell
    share it in the model.

    Third-party code is a class of operations, with its documented behaviour as a class
    of laws where a theorem needs it: [AsyncIo], [SerdeJson] (byte streams, serde; reading
    and writing have separate laws),
    [Timer], [FuturesSet], [SwarmTypes] (handler), [AddressBook] (behaviour), [Channel],
    [GossipsubLib], [NodeLib] (worker).  Each has a concrete instance, on which the
    theorems are evaluated.

    ** What is proved

    - Ancestor walk: on a well-formed tree the loop of [ancestor_id_at_depth] ends within
      the difference of the depths plus one iterations, with the right ancestor.  The
      fuel given to it, the depth of the block plus one, is therefore enough.  It agrees
      with the walk over the parents.  [insert] keeps the skip lists exact, and on a
      well-formed tree with exact skip lists the loop takes at most [6 * K + m] hops to a
      target less than [(m + 1) * 4^K] levels up, for [K] at most 16 and [m] at most 3
      (any [m] for [K = 16]).
    - The guard before that loop is reversed in the source.  The theorems state what
      follows for the code as it is (only the block itself is found, [insert] refuses
      depths divisible by four, no reachable tree is deeper than three, state reads fail
      for inherited values, the chain cannot grow, a failed or repeated [insert] damages
      the tree; the contract holds exactly while there are only genesis blocks).
    - State: over every tree that honours the contract, [get] finds the change of the
      nearest ancestor; committing an overlay makes the new block read like it and
      does not disturb other forks.  The order of a changeset does not matter.  Over the
      tree as written, the exact result of [get] is stated instead.
    - Transactions: all or nothing, and the two copies agree in every reachable state.
    - Chain: the result of [import] on every branch, reading back what was imported, and
      that what the builder builds is imported.
    - Peer info: reading and writing round trip, when a change of protocols is pushed, the
      recorded info is the last one reported; the table of connections is that of the
      swarm, with the addresses at establishment; notices reach every connection once;
      reports are delivered once and in order.  For a behaviour together with its handlers:
      every handler ends with the current addresses, every [Received] of the owner has a
      source in a stream of a live connection, and an identification between two nodes
      gives the owners the events of the exchange, with the info the other node wrote.
    - Worker: broadcasts are published in order, a subscription is in place after one turn,
      the table of listeners is keyed by topic, services of one worker share one info.  The predicate of
      [retain] is reversed in the source: no listener ever receives a message, and one
      listener that is gone ends the worker.

    ** What is not modelled

    Logging and the re-exports of the crate roots.  Waiting for a lock and the scheduling
    of tasks: operations are interleaved as whole calls, and [select!] takes the branch
    that is ready as an argument.  The internals of libp2p, serde and futures; of the
    swarm only the order of its calls is represented, and its mailboxes are unbounded.

    ** Planned extensions

    [BroadcastService] as an instance over the worker's channels; several nodes with
    gossip between their workers. *)
From stdpp Require Export base gmap list sorting strings relations.

(** * Outcomes of a Rust call

    A Rust function of type [Result<A, E>] either returns [Ok] or [Err], or it
    does not return: it panics, or (for a loop run with a step budget) the
    budget is exhausted.  Functions that return a plain [A] use [E := Empty_set]. *)
Inductive outcome (E A : Type) : Type :=
| Ok (a : A)
| Err (e : E)
| Panicked
| OutOfFuel.
Arguments Ok {E A} a.
Arguments Err {E A} e.
Arguments Panicked {E A}.
Arguments OutOfFuel {E A}.

#[global] Instance outcome_ret E : MRet (outcome E) := λ A a, Ok a.
#[global] Instance outcome_bind E : MBind (outcome E) := λ A B k m,
  match m with
  | Ok a => k a
  | Err e => Err e
  | Panicked => Panicked
  | OutOfFuel => OutOfFuel
  end.
#[global] Instance outcome_fmap E : FMap (outcome E) := λ A B f m,
  match m with
  | Ok a => Ok (f a)
  | Err e => Err e
  | Panicked => Panicked
  | OutOfFuel => OutOfFuel
  end.
#[global] Instance outcome_eq_dec `{EqDecision E, EqDecision A} : EqDecision (outcome E A).
Proof. solve_decision. Defined.

(** [Option::ok_or]. *)
Definition ok_or {E A} (o : option A) (e : E) : outcome E A :=
  match o with Some a => Ok a | None => Err e end.

(** [Result::map_err]; also the [From] conversion done by the [?] operator. *)
Definition map_err {E E' A} (f : E → E') (m : outcome E A) : outcome E' A :=
  match m with
  | Ok a => Ok a
  | Err e => Err (f e)
  | Panicked => Panicked
  | OutOfFuel => OutOfFuel
  end.

(** The call comes back to its caller, with a value or with an error. *)
Definition returns {E A} (m : outcome E A) : Prop :=
  match m with Ok _ | Err _ => True | Panicked | OutOfFuel => False end.

Definition is_ok {E A} (m : outcome E A) : Prop :=
  match m with Ok _ => True | _ => False end.

(** A [Result] value that was returned. *)
Inductive result (E A : Type) : Type := ROk (a : A) | RErr (e : E).
Arguments ROk {E A} a.
Arguments RErr {E A} e.

(** The outcome of the call that returned it. *)
Definition returned {E A} (r : result E A) : outcome E A :=
  match r with ROk a => Ok a | RErr e => Err e end.

(** [core::task::Poll]. *)
Inductive Poll (A : Type) : Type := Ready (a : A) | Pending.
Arguments Ready {A} a.
Arguments Pending {A}.
#[global] Instance poll_fmap : FMap Poll := λ A B f p,
  match p with Ready a => Ready (f a) | Pending => Pending end.

(** A future that is awaited and whose result is handled by [k]. *)
#[global] Instance poll_bind : MBind Poll := λ A B k p,
  match p with Ready a => k a | Pending => Pending end.

(** * Functions that take [&mut self]

    They thread the receiver explicitly; an early return with [?] leaves the
    receiver as it was mutated so far. *)
Definition stateful (S E A : Type) : Type := S → S * outcome E A.

#[global] Instance stateful_ret S E : MRet (stateful S E) := λ A a s, (s, Ok a).
#[global] Instance stateful_bind S E : MBind (stateful S E) := λ A B k m s,
  match m s with
  | (s', Ok a) => k a s'
  | (s', Err e) => (s', Err e)
  | (s', Panicked) => (s', Panicked)
  | (s', OutOfFuel) => (s', OutOfFuel)
  end.

(** Read through the receiver ([&self] calls inside a [&mut self] function). *)
Definition query {S E A} (f : S → outcome E A) : stateful S E A := λ s, (s, f s).
(** Assign to a place inside the receiver. *)
Definition modify {S E} (f : S → S) : stateful S E unit := λ s, (f s, Ok tt).

(** Call a [&mut self] function on a field of the receiver and convert its error
    with [?]. *)
Definition zoom {S T E E' A} (get : S → T) (set : T → S → S) (conv : E → E')
    (m : stateful T E A) : stateful S E' A := λ s,
  let '(t, r) := m (get s) in (set t s, map_err conv r).

(** The specification of a call is a lemma [let '(s, r) := call in P s r]: name the
    results of the call everywhere and keep what the lemma says of them. *)
Tactic Notation "run_spec" constr(lem) "as" simple_intropattern(results) "in" simple_intropattern(spec) :=
  let H := fresh "Hspec" in
  pose proof lem as H;
  lazymatch type of H with
  | match ?call with _ => _ end => destruct call as results
  end;
  destruct H as spec.

(** * Machine integers

    [usize] and [u32] are modelled by [N] with their bounds; an addition that leaves
    the range panics, as in a build with overflow checks (the debug profile).  A release
    build wraps instead.  For the depth of a block the two agree on every reachable tree:
    depths stay at most three ([reachable_depth_bound]), so the branch is never taken;
    for the number of a block the theorems assume a sum within [u32]. *)
Definition usize_max : N := (2 ^ 64 - 1)%N.
Definition usize_add {E} (a b : N) : outcome E N :=
  if decide (a + b ≤ usize_max)%N then Ok (a + b)%N else Panicked.

Definition u32_max : N := (2 ^ 32 - 1)%N.
Definition u32_add {E} (a b : N) : outcome E N :=
  if decide (a + b ≤ u32_max)%N then Ok (a + b)%N else Panicked.

(** * Iterators *)

(** [Iterator::reduce]. *)
Definition reduce {A} (f : A → A → A) (l : list A) : option A :=
  match l with [] => None | x :: l => Some (foldl f x l) end.

(** [Itertools::unique]: keep the first occurrence of every element. *)
Fixpoint unique `{EqDecision A} (l : list A) : list A :=
  match l with
  | [] => []
  | x :: l => x :: filter (λ y, y ≠ x) (unique l)
  end.

(** The iteration order of a [HashMap] is unspecified: any function that lists
    every entry exactly once. *)
Class HashIter (K : Type) `{Countable K} : Type := {
  hash_iter : ∀ {A : Type}, gmap K A → list (K * A);
  hash_iter_perm : ∀ {A : Type} (m : gmap K A), hash_iter m ≡ₚ map_to_list m
}.

(** One such order, for evaluation. *)
Definition default_hash_iter (K : Type) `{Countable K} : HashIter K :=
  {| hash_iter := λ A m, map_to_list m; hash_iter_perm := λ A m, reflexivity _ |}.

(** Another one, to exhibit that results do not depend on the choice. *)
Program Definition reversed_hash_iter (K : Type) `{Countable K} : HashIter K :=
  {| hash_iter := λ A m, reverse (map_to_list m) |}.
Next Obligation. intros K ?? A m. apply reverse_Permutation. Qed.

(** [BTreeMap::range((Unbounded, Included(hi))).rev()] on [usize] keys. *)
Definition descending {A} (x y : N * A) : Prop := (y.1 ≤ x.1)%N.
#[global] Instance descending_dec {A} (x y : N * A) : Decision (descending x y).
Proof. unfold descending. apply _. Defined.
Definition btree_range_rev {A} (m : gmap N A) (hi : N) : list (N * A) :=
  merge_sort descending (filter (λ e, (e.1 ≤ hi)%N) (map_to_list m)).

(** * Facts about iterators *)

#[global] Instance descending_trans {A} : Transitive (@descending A).
Proof. intros x y z. unfold descending. lia. Qed.
#[global] Instance descending_total {A} : Total (@descending A).
Proof. intros x y. unfold descending. lia. Qed.

Lemma elem_of_btree_range_rev {A} (m : gmap N A) hi d x :
  (d, x) ∈ btree_range_rev m hi ↔ m !! d = Some x ∧ (d ≤ hi)%N.
Proof.
  unfold btree_range_rev. rewrite merge_sort_Permutation, list_elem_of_filter, elem_of_map_to_list.
  simpl. naive_solver.
Qed.

Lemma btree_range_rev_NoDup {A} (m : gmap N A) hi : NoDup (btree_range_rev m hi).
Proof.
  unfold btree_range_rev. rewrite merge_sort_Permutation. apply NoDup_filter, NoDup_map_to_list.
Qed.

(** The range up to [hi] starts with the entry at [hi], if there is one. *)
Lemma btree_range_rev_unfold {A} (m : gmap N A) hi :
  btree_range_rev m hi =
    match m !! hi with Some x => [(hi, x)] | None => [] end ++
    (if decide (hi = 0%N) then [] else btree_range_rev m (hi - 1)).
Proof.
  apply (StronglySorted_unique_strong descending).
  - intros [d1 x1] [d2 x2] H1%elem_of_btree_range_rev H2. unfold descending. simpl. intros.
    assert (d1 = d2) as -> by lia. apply elem_of_app in H2 as [H2|H2].
    + destruct (m !! hi) eqn:?; set_solver.
    + case_decide; [set_solver|]. apply elem_of_btree_range_rev in H2. naive_solver congruence.
  - apply (StronglySorted_merge_sort _ _).
  - apply StronglySorted_app. split_and!.
    + intros [d1 x1] [d2 x2] H1 H2. destruct (m !! hi); [|set_solver].
      apply list_elem_of_singleton in H1 as [= -> ->]. case_decide; [set_solver|].
      apply elem_of_btree_range_rev in H2. unfold descending. simpl. lia.
    + destruct (m !! hi); repeat constructor.
    + case_decide; [constructor|]. apply (StronglySorted_merge_sort _ _).
  - apply NoDup_Permutation.
    + apply btree_range_rev_NoDup.
    + apply NoDup_app. split_and!.
      * destruct (m !! hi); [apply NoDup_singleton|apply NoDup_nil_2].
      * intros [d x] H1 H2. destruct (m !! hi); [|set_solver].
        apply list_elem_of_singleton in H1 as [= -> ->]. case_decide; [set_solver|].
        apply elem_of_btree_range_rev in H2. lia.
      * case_decide; [apply NoDup_nil_2|apply btree_range_rev_NoDup].
    + intros [d x]. rewrite elem_of_btree_range_rev, elem_of_app. split.
      * intros [Hd Hle]. destruct (decide (d = hi)) as [->|Hne]; [left; rewrite Hd; by left|right].
        rewrite decide_False by lia. apply elem_of_btree_range_rev. split; [done|lia].
      * intros [H1|H2].
        -- destruct (m !! hi) eqn:?; [|set_solver]. apply list_elem_of_singleton in H1. naive_solver lia.
        -- case_decide; [set_solver|]. apply elem_of_btree_range_rev in H2. naive_solver lia.
Qed.

Lemma elem_of_hash_iter `{HashIter K} {A} (m : gmap K A) k x :
  (k, x) ∈ hash_iter m ↔ m !! k = Some x.
Proof. by rewrite hash_iter_perm, elem_of_map_to_list. Qed.

Lemma hash_iter_NoDup_fst `{HashIter K} {A} (m : gmap K A) : NoDup (hash_iter m).*1.
Proof. rewrite hash_iter_perm. apply NoDup_fst_map_to_list. Qed.

Lemma list_to_map_hash_iter `{HashIter K} {A} (m : gmap K A) :
  list_to_map (hash_iter m) = m.
Proof.
  rewrite <-(list_to_map_to_list m) at 2. apply list_to_map_proper; [|apply hash_iter_perm].
  apply hash_iter_NoDup_fst.
Qed.
