(* ===== verification/Block.v ===== *)
(** Block: the traits of [blockchain/src/block.rs]: what identifies a block
    ([Identified]), indexes it ([Keyed]) and abbreviates it ([Headered]). *)
From S2P Require Import Prelude.

(** [trait Identified]: the identifier of a block and of its parent; [None] for
    a genesis block.  The bounds [Eq + Hash] on the identifier are the
    [EqDecision] and [Countable] arguments of the clients. *)
Class Identified (Block Identifier : Type) : Type := {
  id : Block → Identifier;
  parent_id : Block → option Identifier
}.
#[global] Hint Mode Identified ! - : typeclass_instances.

(** [trait Keyed<Key>]. *)
Class Keyed (Block Key : Type) : Type := key : Block → Key.

(** [trait Headered]. *)
Class Headered (Block Header : Type) : Type := header : Block → Header.
