(* ===== verification/SimpleBlock.v ===== *)
(** SimpleBlock: the block type of the simple chain in
    [blockchain/tests/simple.rs], the repository's own implementation of the
    block traits.  It is also the block type of the concrete instances used as
    witnesses throughout the development. *)
From S2P Require Import Prelude Block.

(** [enum Seal]. *)
Inductive Seal : Type := ValidSeal | InvalidSeal.
#[global] Instance seal_eq_dec : EqDecision Seal.
Proof. solve_decision. Defined.

(** [struct BlockId]; both fields are [u32]. *)
Record BlockId : Type := mk_block_id { fork : N; number : N }.
#[global] Instance block_id_eq_dec : EqDecision BlockId.
Proof. solve_decision. Defined.
#[global] Instance block_id_countable : Countable BlockId.
Proof.
  refine (inj_countable' (λ i, (fork i, number i)) (λ '(f, n), mk_block_id f n) _). by intros [].
Defined.

(** [enum Extrinsic]. *)
Inductive Extrinsic : Type := Set_ (key value : N).

(** [struct Block]. *)
Record SimpleBlock : Type := mk_block {
  block_seal : Seal;
  block_id : BlockId;
  block_parent_id : option BlockId;
  block_number : N;
  block_extrinsics : list Extrinsic
}.

(** [struct Header]. *)
Record SimpleHeader : Type := mk_header {
  header_seal : Seal;
  header_id : BlockId;
  header_parent_id : option BlockId;
  header_number : N
}.

#[global] Instance simple_identified : Identified SimpleBlock BlockId :=
  {| id := block_id; parent_id := block_parent_id |}.
#[global] Instance simple_keyed : Keyed SimpleBlock N := block_number.
#[global] Instance simple_headered : Headered SimpleBlock SimpleHeader := λ b,
  mk_header (block_seal b) (block_id b) (block_parent_id b) (block_number b).

(** A straight line of blocks on one fork: the genesis and its descendants. *)
Definition sample_id (f n : N) : BlockId := mk_block_id f n.
Definition sample_genesis : SimpleBlock := mk_block InvalidSeal (sample_id 0 0) None 0 [].
Definition sample_child (f : N) (parent : SimpleBlock) (xs : list Extrinsic) : SimpleBlock :=
  mk_block ValidSeal (sample_id f (block_number parent + 1)) (Some (block_id parent))
    (block_number parent + 1) xs.
