(* ===== verification/ForkTree.v ===== *)
(** ForkTree: the traits of [blockchain/src/chain.rs] and their contract.

    [ForkTree] is the query interface of a tree of blocks, [is_ancestor] its
    provided method.  [ForkTreeSpec] states what the trait documents, against
    which the clients of the trait are proved. *)
From S2P Require Import Prelude Block.

(** [trait ForkTree]: the required methods. *)
Class ForkTree (FT Block Identifier QueryError : Type) : Type := {
  ft_block : FT → Identifier → outcome QueryError Block;
  ft_block_depth : FT → Identifier → outcome QueryError N;
  ft_ancestor_id_at_depth : FT → Identifier → N → outcome QueryError Identifier
}.
#[global] Hint Mode ForkTree ! - - - : typeclass_instances.

(** [ForkTree::is_ancestor], the provided method. *)
Definition is_ancestor {FT Block Identifier QueryError : Type}
    `{ForkTree0 : !ForkTree FT Block Identifier QueryError, !EqDecision Identifier}
    (ft : FT) (id ancestor_id : Identifier) : outcome QueryError bool :=
  ancestor_depth ← ft_block_depth ft ancestor_id;
  found ← ft_ancestor_id_at_depth ft id ancestor_depth;
  mret (bool_decide (found = ancestor_id)).

(** [trait ForkTreeMut]. *)
Class ForkTreeMut (FT Block InsertError : Type) : Type :=
  ft_insert : Block → stateful FT InsertError unit.

(** [trait ForkTreeTransactional]: insertion recorded in a transaction. *)
Class ForkTreeTransactional (FT Block Transaction InsertError : Type) : Type :=
  ft_insert_transactional : FT → Block → stateful Transaction InsertError unit.

(** [trait ImportBlock]. *)
Class ImportBlock (Chain Block Error : Type) : Type :=
  import : Block → stateful Chain Error unit.

(** [trait BlockBuilder]. *)
Class BlockBuilder (Builder Chain Block Identifier Extrinsic Error PreLog PostLog : Type) : Type := {
  initialize : Chain → Identifier → PreLog → outcome Error Builder;
  apply_extrinsic : Extrinsic → stateful Builder Error unit;
  finalize : Builder → PostLog → outcome Error Block
}.

(** * The contract of a fork tree *)
Section contract.
Context `{!Identified Block Identifier, !ForkTree FT Block Identifier QueryError}.
Context `{!EqDecision Identifier}.

(** [p] is the identifier of the parent of the block known as [i]. *)
Definition parent_of (ft : FT) (i p : Identifier) : Prop :=
  ∃ b, ft_block ft i = Ok b ∧ parent_id b = Some p.

(** [a] is [i] or an ancestor of [i]. *)
Definition ancestor_of (ft : FT) : relation Identifier := rtc (parent_of ft).

(** What the documentation of the trait promises of one tree: depths count the
    distance to the genesis, [ancestor_id_at_depth] finds the ancestor at any
    depth up to the depth of the block, and refuses a greater depth. *)
Record ForkTreeSpec (ft : FT) : Prop := {
  spec_block_id : ∀ i b, ft_block ft i = Ok b → id b = i;
  spec_known : ∀ i, is_ok (ft_block ft i) ↔ is_ok (ft_block_depth ft i);
  spec_genesis : ∀ i b, ft_block ft i = Ok b → parent_id b = None → ft_block_depth ft i = Ok 0%N;
  spec_child : ∀ i p, parent_of ft i p →
    ∃ d, ft_block_depth ft p = Ok d ∧ ft_block_depth ft i = Ok (d + 1)%N;
  spec_ancestor : ∀ i d a, ft_block_depth ft i = Ok d → (a ≤ d)%N →
    ∃ x, ft_ancestor_id_at_depth ft i a = Ok x ∧ ancestor_of ft i x ∧ ft_block_depth ft x = Ok a;
  spec_too_deep : ∀ i d a, ft_block_depth ft i = Ok d → (d < a)%N →
    ∃ e, ft_ancestor_id_at_depth ft i a = Err e
}.

Section lemmas.
Context (ft : FT) (Hspec : ForkTreeSpec ft).

Lemma parent_of_functional i p q : parent_of ft i p → parent_of ft i q → p = q.
Proof using Type. intros (b & Hb & Hp) (b' & Hb' & Hq). congruence. Qed.

Lemma parent_of_depth i p d :
  parent_of ft i p → ft_block_depth ft i = Ok d →
  ∃ dp, ft_block_depth ft p = Ok dp ∧ d = (dp + 1)%N.
Proof using Hspec.
  intros Hp Hd. destruct (spec_child _ Hspec _ _ Hp) as (dp & ? & ?). exists dp. split; congruence.
Qed.

(** Going up never increases the depth, and keeps it only by staying. *)
Lemma ancestor_depth i x d :
  ancestor_of ft i x → ft_block_depth ft i = Ok d →
  ∃ dx, ft_block_depth ft x = Ok dx ∧ (dx ≤ d)%N ∧ (dx = d → x = i).
Proof using Hspec.
  intros Hix. revert d. induction Hix as [i|i p x Hip _ IH]; intros d Hd; [eauto|].
  destruct (parent_of_depth _ _ _ Hip Hd) as (dp & Hdp & ->).
  destruct (IH _ Hdp) as (dx & Hdx & Hle & _). exists dx. split_and!; [done|lia|lia].
Qed.

(** Parents are unique, so two ancestors of a block are on one line. *)
Lemma ancestors_linear i x y :
  ancestor_of ft i x → ancestor_of ft i y → ancestor_of ft x y ∨ ancestor_of ft y x.
Proof using Type.
  intros Hx. revert y. induction Hx as [i|i p x Hip Hpx IH]; intros y Hy; [by left|].
  destruct Hy as [i|i q y Hiq Hqy]; [right; by econstructor|].
  rewrite (parent_of_functional _ _ _ Hip Hiq) in *. by apply IH.
Qed.

Lemma ancestor_at_depth_unique i x y a :
  ancestor_of ft i x → ancestor_of ft i y →
  ft_block_depth ft x = Ok a → ft_block_depth ft y = Ok a → x = y.
Proof using Hspec.
  intros Hx Hy Hdx Hdy. destruct (ancestors_linear _ _ _ Hx Hy) as [H|H];
    destruct (ancestor_depth _ _ _ H ltac:(eassumption)) as (a' & Ha' & _ & Heq);
    [symmetry|]; apply Heq; congruence.
Qed.

End lemmas.
End contract.

Create HintDb fork_tree.
#[export] Hint Resolve parent_of_functional ancestor_at_depth_unique : fork_tree.

Section theorems.
Context `{!Identified Block Identifier, !ForkTree FT Block Identifier QueryError}.
Context `{!EqDecision Identifier}.

(** On a tree that honours the contract, asking about a candidate that is not
    deeper than the block gives the right answer. *)
Lemma is_ancestor_shallower (ft : FT) (i x : Identifier) (d dx : N) :
  ForkTreeSpec ft → ft_block_depth ft i = Ok d → ft_block_depth ft x = Ok dx → (dx ≤ d)%N →
  ∃ answer, is_ancestor ft i x = Ok answer ∧ (answer = true ↔ ancestor_of ft i x).
Proof.
  intros Hspec Hd Hdx Hle. unfold is_ancestor. rewrite Hdx. simpl.
  destruct (spec_ancestor _ Hspec _ _ _ Hd Hle) as (y & -> & Hy & Hdy). simpl.
  eexists. split; [done|]. rewrite bool_decide_eq_true. split; [by intros <-|eauto with fork_tree].
Qed.

(** C15: [ForkTree::is_ancestor] is correct on every tree that honours the trait's
    contract: for a candidate that is not deeper than the block it answers [Ok],
    and the answer is [true] exactly when the candidate is the block itself or one
    of its ancestors; a deeper candidate is an error. *)
Theorem is_ancestor_correct (ft : FT) (i x : Identifier) (d dx : N) :
  ForkTreeSpec ft → ft_block_depth ft i = Ok d → ft_block_depth ft x = Ok dx →
  if decide (dx ≤ d)%N
  then ∃ answer, is_ancestor ft i x = Ok answer ∧ (answer = true ↔ ancestor_of ft i x)
  else ∃ e, is_ancestor ft i x = Err e.
Proof.
  intros Hspec Hd Hdx. case_decide as Hle; [eauto using is_ancestor_shallower|].
  unfold is_ancestor. rewrite Hdx. simpl.
  destruct (spec_too_deep _ Hspec i d dx) as [e ->]; [done|lia|]. by exists e.
Qed.
End theorems.
