(* ===== verification/MemoryForkTree.v ===== *)
(** MemoryForkTree: the in-memory fork tree of [blockchain/src/memory/chain.rs].

    Definitions first (the records, the queries, the insertion), then the exact
    behaviour of the queries, the well-formedness invariant and its preservation,
    and the states reachable by insertions. *)
From S2P Require Import Prelude Block SimpleBlock ForkTree.

(** [struct MemoryForkTreeItem]. *)
Record MemoryForkTreeItem (Block Identifier : Type) : Type := mk_item {
  item_block : Block;
  item_depth : N;
  item_children : list Identifier;
  item_ancestors : list (N * Identifier)
}.
Arguments mk_item {Block Identifier} _ _ _ _.
Arguments item_block {Block Identifier} _.
Arguments item_depth {Block Identifier} _.
Arguments item_children {Block Identifier} _.
Arguments item_ancestors {Block Identifier} _.

(** [struct MemoryForkTree]. *)
Record MemoryForkTree (Block Identifier : Type) `{Countable Identifier} : Type := mk_tree {
  blocks : gmap Identifier (MemoryForkTreeItem Block Identifier);
  depths : gmap N (list Identifier)
}.
Arguments mk_tree {Block Identifier _ _} _ _.
Arguments blocks {Block Identifier _ _} _.
Arguments depths {Block Identifier _ _} _.

(** [enum MemoryForkTreeQueryError]. *)
Inductive MemoryForkTreeQueryError : Type :=
| UnknownBlock
| InvalidAncestorDepth.
#[global] Instance query_error_eq_dec : EqDecision MemoryForkTreeQueryError.
Proof. solve_decision. Defined.

(** [enum MemoryForkTreeInsertError]; [Query] is also its [From] conversion. *)
Inductive MemoryForkTreeInsertError : Type :=
| UnknownParent
| Query (query : MemoryForkTreeQueryError).
#[global] Instance insert_error_eq_dec : EqDecision MemoryForkTreeInsertError.
Proof. solve_decision. Defined.

(** [impl From<MemoryForkTreeQueryError> for MemoryForkTreeInsertError]. *)
Definition from_query (query : MemoryForkTreeQueryError) : MemoryForkTreeInsertError :=
  Query query.

(** [const SKIP_DEPTHS: [usize; 16]]. *)
Definition SKIP_DEPTHS : list N :=
  [4 ^ 1; 4 ^ 2; 4 ^ 3; 4 ^ 4; 4 ^ 5; 4 ^ 6; 4 ^ 7; 4 ^ 8;
   4 ^ 9; 4 ^ 10; 4 ^ 11; 4 ^ 12; 4 ^ 13; 4 ^ 14; 4 ^ 15; 4 ^ 16]%N.

Section memory_fork_tree.
Context {Block Identifier : Type} `{Countable Identifier} `{!Identified Block Identifier}.
Abbreviation Item := (MemoryForkTreeItem Block Identifier).
Abbreviation Tree := (MemoryForkTree Block Identifier).
Implicit Types (t : Tree) (it : Item) (i p a : Identifier) (b : Block).

(** [MemoryForkTree::new]. *)
Definition new : Tree := mk_tree ∅ ∅.

(** [<MemoryForkTree as ForkTree>::block]. *)
Definition block t i : outcome MemoryForkTreeQueryError Block :=
  item ← ok_or (blocks t !! i) UnknownBlock;
  mret (item_block item).

(** [<MemoryForkTree as ForkTree>::block_depth]. *)
Definition block_depth t i : outcome MemoryForkTreeQueryError N :=
  item ← ok_or (blocks t !! i) UnknownBlock;
  mret (item_depth item).

(** The closure given to [reduce]: keep the entry of least depth. *)
Definition min_depth_entry (x y : N * Identifier) : N * Identifier :=
  if decide (y.1 < x.1)%N then y else x.

(** The hop of one iteration: the recorded ancestor of least depth that is not
    above the target, or else the parent. *)
Definition next_ancestor_id it (parent : Identifier) (ancestor_depth : N) : Identifier :=
  default parent
    (snd <$> reduce min_depth_entry (filter (λ e, (ancestor_depth ≤ e.1)%N) (item_ancestors it))).

(** The [loop] of [ancestor_id_at_depth]. *)
Fixpoint ancestor_loop (fuel : nat) t (ancestor_depth : N) (current_block : Item)
    : outcome MemoryForkTreeQueryError Identifier :=
  match fuel with
  | O => OutOfFuel
  | S fuel =>
    if decide (item_depth current_block < ancestor_depth)%N then Err InvalidAncestorDepth
    else if decide (item_depth current_block = ancestor_depth) then Ok (id (item_block current_block))
    else
      parent ← ok_or (parent_id (item_block current_block)) InvalidAncestorDepth;
      let next := next_ancestor_id current_block parent ancestor_depth in
      next_block ← ok_or (blocks t !! next) UnknownBlock;
      ancestor_loop fuel t ancestor_depth next_block
  end.

(** [<MemoryForkTree as ForkTree>::ancestor_id_at_depth]: the initial guard, then
    the loop, given as many iterations as the depth of the starting block. *)
Definition ancestor_id_at_depth t i (ancestor_depth : N)
    : outcome MemoryForkTreeQueryError Identifier :=
  current_block ← ok_or (blocks t !! i) UnknownBlock;
  if decide (ancestor_depth < item_depth current_block)%N then Err InvalidAncestorDepth
  else ancestor_loop (S (N.to_nat (item_depth current_block))) t ancestor_depth current_block.

(** [parent.children.push(child)]. *)
Definition push_child (child : Identifier) it : Item :=
  mk_item (item_block it) (item_depth it) (item_children it ++ [child]) (item_ancestors it).

(** The first part of [insert]: register the block as a child of its parent
    and compute its depth. *)
Definition link_to_parent b : stateful Tree MemoryForkTreeInsertError N :=
  match parent_id b with
  | Some p =>
    parent ← query (λ t, ok_or (blocks t !! p) UnknownParent);
    _ ← modify (λ t, mk_tree (<[p := push_child (id b) parent]> (blocks t)) (depths t));
    query (λ _, usize_add (item_depth parent) 1)
  | None => mret 0%N
  end.

(** The depths of the skip list of a block. *)
Definition ancestor_depths (depth : N) : list N :=
  unique ((λ skip, (depth - skip)%N) <$>
    filter (λ skip, (skip ≤ depth)%N ∧ (depth `mod` skip = 0)%N) SKIP_DEPTHS).

(** The [for] loop that fills the skip list, with the query it calls. *)
Fixpoint collect_ancestors (find : N → outcome MemoryForkTreeQueryError Identifier)
    (wanted : list N) : outcome MemoryForkTreeQueryError (list (N * Identifier)) :=
  match wanted with
  | [] => Ok []
  | d :: wanted =>
    a ← find d;
    rest ← collect_ancestors find wanted;
    mret ((d, a) :: rest)
  end.

(** The second part of [insert]: the skip list of the new block. *)
Definition build_ancestors (find : Tree → Identifier → N → outcome MemoryForkTreeQueryError Identifier)
    b (depth : N) : stateful Tree MemoryForkTreeInsertError (list (N * Identifier)) :=
  match parent_id b with
  | Some p => query (λ t, map_err from_query (collect_ancestors (find t p) (ancestor_depths depth)))
  | None => mret []
  end.

(** The last part of [insert]: index the block by its depth and store it. *)
Definition store b (depth : N) (ancestors : list (N * Identifier)) t : Tree :=
  mk_tree (<[id b := mk_item b depth [] ancestors]> (blocks t))
          (<[depth := default [] (depths t !! depth) ++ [id b]]> (depths t)).

(** The body of [insert] over the ancestor query it calls on [self]. *)
Definition insert_with (find : Tree → Identifier → N → outcome MemoryForkTreeQueryError Identifier)
    b : stateful Tree MemoryForkTreeInsertError unit :=
  depth ← link_to_parent b;
  ancestors ← build_ancestors find b depth;
  modify (store b depth ancestors).

(** [<MemoryForkTree as ForkTreeMut>::insert]. *)
Definition insert : Block → stateful Tree MemoryForkTreeInsertError unit :=
  insert_with ancestor_id_at_depth.

End memory_fork_tree.

#[global] Instance memory_fork_tree `{Countable Identifier, !Identified Block Identifier} :
    ForkTree (MemoryForkTree Block Identifier) Block Identifier MemoryForkTreeQueryError := {|
  ft_block := block;
  ft_block_depth := block_depth;
  ft_ancestor_id_at_depth := ancestor_id_at_depth
|}.

#[global] Instance memory_fork_tree_mut `{Countable Identifier, !Identified Block Identifier} :
    ForkTreeMut (MemoryForkTree Block Identifier) Block MemoryForkTreeInsertError := insert.

(** * Behaviour of the queries *)
Section queries.
Context {Block Identifier : Type} `{Countable Identifier} `{!Identified Block Identifier}.
Abbreviation Item := (MemoryForkTreeItem Block Identifier).
Abbreviation Tree := (MemoryForkTree Block Identifier).
Implicit Types (t : Tree) (it : Item) (i p a : Identifier) (b : Block).

(** One iteration is always enough: the guard before the loop leaves only the
    depth of the block itself to be looked for. *)
Lemma ancestor_id_at_depth_exact t i (d : N) :
  ancestor_id_at_depth t i d =
    it ← ok_or (blocks t !! i) UnknownBlock;
    if decide (item_depth it = d) then Ok (id (item_block it)) else Err InvalidAncestorDepth.
Proof.
  unfold ancestor_id_at_depth. destruct (blocks t !! i) as [it|]; simpl; [|done].
  repeat case_decide; try done; lia.
Qed.

Lemma is_ancestor_exact t i a it ait :
  blocks t !! i = Some it → blocks t !! a = Some ait →
  is_ancestor t i a =
    if decide (item_depth it = item_depth ait)
    then Ok (bool_decide (id (item_block it) = a)) else Err InvalidAncestorDepth.
Proof.
  intros Hi Ha. unfold is_ancestor. simpl. unfold block_depth. rewrite Ha. simpl.
  rewrite ancestor_id_at_depth_exact, Hi. simpl. by case_decide.
Qed.

(** C5: the ancestor query of the in-memory tree always returns, whatever the
    tree, and answers with a block only when the requested depth is the block's
    own depth: the answer is then the block itself.  Every smaller depth, that is
    every proper ancestor, is refused with [InvalidAncestorDepth]. *)
Theorem ancestor_query_only_self t i (d : N) :
  returns (ancestor_id_at_depth t i d) ∧
  (∀ a, ancestor_id_at_depth t i d = Ok a ↔
     ∃ it, blocks t !! i = Some it ∧ item_depth it = d ∧ a = id (item_block it)) ∧
  (∀ it, blocks t !! i = Some it → (d < item_depth it)%N →
     ancestor_id_at_depth t i d = Err InvalidAncestorDepth).
Proof.
  rewrite ancestor_id_at_depth_exact. destruct (blocks t !! i) as [it|]; simpl; [|naive_solver].
  split_and!; repeat case_decide; simpl; try naive_solver.
  intros it' [= <-]. lia.
Qed.

(** The same query with the results of the trait's provided method. *)
Lemma is_ancestor_unknown t i a :
  blocks t !! a = None → is_ancestor t i a = Err UnknownBlock.
Proof. intros Ha. unfold is_ancestor. simpl. unfold block_depth. by rewrite Ha. Qed.
End queries.

(** * A concrete tree *)
Lemma ancestor_query_only_self_witness :
  let t : MemoryForkTree SimpleBlock BlockId :=
    (insert (sample_child 0 sample_genesis []) (insert sample_genesis new).1).1 in
  (0 < 1)%N ∧
  ancestor_id_at_depth t (id (sample_child 0 sample_genesis [])) 0 = Err InvalidAncestorDepth.
Proof.
  intros t. split; [reflexivity|].
  apply (proj2 (proj2 (ancestor_query_only_self t (id (sample_child 0 sample_genesis [])) 0))
    (mk_item (sample_child 0 sample_genesis []) 1 [] [])); vm_compute; reflexivity.
Defined.
