(* ===== verification/MemoryForkTreeInv.v ===== *)
(** MemoryForkTreeInv: the well-formedness invariant of the in-memory fork tree
    and its preservation by [insert]; the states reachable by insertions. *)
From S2P Require Import Prelude Block SimpleBlock ForkTree MemoryForkTree.

Section invariant.
Context {Block Identifier : Type} `{Countable Identifier} `{!Identified Block Identifier}.
Abbreviation Item := (MemoryForkTreeItem Block Identifier).
Abbreviation Tree := (MemoryForkTree Block Identifier).
Abbreviation Find := (Tree → Identifier → N → outcome MemoryForkTreeQueryError Identifier).
Implicit Types (t : Tree) (it : Item) (i p a c : Identifier) (b : Block) (find : Find).

(** [p] is the parent of the stored block [i]. *)
Definition tree_parent t i p : Prop :=
  ∃ it, blocks t !! i = Some it ∧ parent_id (item_block it) = Some p.

(** [a] is stored at depth [d] and is [i] or an ancestor of it. *)
Definition tree_ancestor t i (d : N) a : Prop :=
  rtc (tree_parent t) i a ∧ ∃ ait, blocks t !! a = Some ait ∧ item_depth ait = d.

(** The well-formedness of a tree: blocks are stored under their own id, depths
    count the distance to the genesis, the skip lists hold true ancestors, the
    depth index lists exactly the stored blocks, and every block is among the
    children of its parent. *)
Record wf t : Prop := {
  wf_id : ∀ i it, blocks t !! i = Some it → id (item_block it) = i;
  wf_genesis : ∀ i it, blocks t !! i = Some it → parent_id (item_block it) = None →
    item_depth it = 0%N;
  wf_parent : ∀ i it p, blocks t !! i = Some it → parent_id (item_block it) = Some p →
    ∃ pit, blocks t !! p = Some pit ∧ item_depth it = (item_depth pit + 1)%N ∧ i ∈ item_children pit;
  wf_ancestors : ∀ i it d a, blocks t !! i = Some it → (d, a) ∈ item_ancestors it →
    (d < item_depth it)%N ∧ tree_ancestor t i d a;
  wf_depths : ∀ i d, i ∈ default [] (depths t !! d) ↔
    ∃ it, blocks t !! i = Some it ∧ item_depth it = d;
  wf_depths_nodup : ∀ d, NoDup (default [] (depths t !! d));
  wf_usize : ∀ i it, blocks t !! i = Some it → (item_depth it ≤ usize_max)%N
}.

(** Every recorded child is a stored block with that parent. *)
Definition children_sound t : Prop := ∀ i it c,
  blocks t !! i = Some it → c ∈ item_children it → tree_parent t c i.

(** The block registered as a child of its parent, before it is stored. *)
Definition linked (child : Identifier) p (parent : Item) t : Tree :=
  mk_tree (<[p := push_child child parent]> (blocks t)) (depths t).

(** [insert] by cases: no parent, unknown parent, depth overflow, and the
    outcome of the ancestor queries. *)
Lemma insert_with_eq find b t :
  insert_with find b t =
    match parent_id b with
    | None => (store b 0 [] t, Ok tt)
    | Some p =>
      match blocks t !! p with
      | None => (t, Err UnknownParent)
      | Some parent =>
        let t1 := linked (id b) p parent t in
        let depth := (item_depth parent + 1)%N in
        if decide (depth ≤ usize_max)%N then
          match collect_ancestors (find t1 p) (ancestor_depths depth) with
          | Ok ancestors => (store b depth ancestors t1, Ok tt)
          | Err e => (t1, Err (Query e))
          | Panicked => (t1, Panicked)
          | OutOfFuel => (t1, OutOfFuel)
          end
        else (t1, Panicked)
      end
    end.
Proof.
  unfold insert_with, link_to_parent, build_ancestors, query, modify, usize_add, linked.
  unfold mbind, stateful_bind, mret, stateful_ret.
  destruct (parent_id b) as [p|]; [|done]. destruct (blocks t !! p) as [parent|]; [|done].
  simpl. case_decide; [|done]. by destruct (collect_ancestors _ _).
Qed.

(** [t'] keeps every item of [t], up to more children. *)
Definition extends t t' : Prop := ∀ i it, blocks t !! i = Some it →
  ∃ it', blocks t' !! i = Some it' ∧ item_block it' = item_block it ∧
    item_depth it' = item_depth it ∧ item_ancestors it' = item_ancestors it ∧
    item_children it ⊆ item_children it'.

Lemma extends_parent t t' i p : extends t t' → tree_parent t i p → tree_parent t' i p.
Proof.
  intros Hext (it & Hi & Hp). destruct (Hext _ _ Hi) as (it' & Hi' & Hb & _).
  exists it'. by rewrite Hb.
Qed.

Lemma extends_ancestor t t' i d a :
  extends t t' → tree_ancestor t i d a → tree_ancestor t' i d a.
Proof.
  intros Hext (Hr & ait & Ha & Hd). split.
  - eapply rtc_subrel; [|done]. intros x y. by apply extends_parent.
  - destruct (Hext _ _ Ha) as (ait' & ? & _ & Hd' & _). exists ait'. by rewrite Hd'.
Qed.

Lemma linked_extends child p parent t :
  blocks t !! p = Some parent → extends t (linked child p parent t).
Proof.
  intros Hp i it Hi. simpl. destruct (decide (p = i)) as [->|Hne].
  - simplify_eq. eexists. rewrite lookup_insert_eq. split; [done|]. simpl. set_solver.
  - rewrite lookup_insert_ne by done. naive_solver.
Qed.

(** The items of a linked tree come from the tree. *)
Lemma linked_lookup_inv child p parent t i it' :
  blocks t !! p = Some parent → blocks (linked child p parent t) !! i = Some it' →
  ∃ it, blocks t !! i = Some it ∧ item_block it' = item_block it ∧
    item_depth it' = item_depth it ∧ item_ancestors it' = item_ancestors it ∧
    item_children it' = item_children it ++ (if decide (p = i) then [child] else []).
Proof.
  intros Hp. simpl. destruct (decide (p = i)) as [->|Hne].
  - rewrite lookup_insert_eq. intros [= <-]. eauto 10.
  - rewrite lookup_insert_ne by done. intros Hi. exists it'. by rewrite app_nil_r.
Qed.

Lemma linked_wf child p parent t :
  wf t → blocks t !! p = Some parent → wf (linked child p parent t).
Proof.
  intros Hwf Hp. pose proof (linked_extends child p parent t Hp) as Hext. split.
  - intros i it' (it & Hi & -> & _)%(linked_lookup_inv _ _ _ _ _ _ Hp). by eapply wf_id.
  - intros i it' (it & Hi & -> & -> & _)%(linked_lookup_inv _ _ _ _ _ _ Hp). by eapply wf_genesis.
  - intros i it' q (it & Hi & -> & -> & _)%(linked_lookup_inv _ _ _ _ _ _ Hp) Hq.
    destruct (wf_parent _ Hwf _ _ _ Hi Hq) as (qit & Hqit & -> & Hin).
    destruct (Hext _ _ Hqit) as (qit' & ? & _ & <- & _ & Hsub). eauto 10.
  - intros i it' d a (it & Hi & _ & -> & -> & _)%(linked_lookup_inv _ _ _ _ _ _ Hp) Ha.
    destruct (wf_ancestors _ Hwf _ _ _ _ Hi Ha). eauto using extends_ancestor.
  - intros i d. simpl. rewrite (wf_depths _ Hwf). split.
    + intros (it & Hi & <-). destruct (Hext _ _ Hi) as (it' & ? & _ & ? & _). eauto.
    + intros (it' & (it & Hi & _ & -> & _)%(linked_lookup_inv _ _ _ _ _ _ Hp) & <-). eauto.
  - intros d. by apply (wf_depths_nodup _ Hwf).
  - intros i it' (it & Hi & _ & -> & _)%(linked_lookup_inv _ _ _ _ _ _ Hp). by eapply wf_usize.
Qed.

Lemma store_extends b depth ancestors t :
  blocks t !! id b = None → extends t (store b depth ancestors t).
Proof.
  intros Hfresh i it Hi. exists it. simpl. rewrite lookup_insert_ne by congruence. done.
Qed.

(** Storing a fresh block under a stored parent that already lists it. *)
Lemma store_wf b depth ancestors t :
  wf t → blocks t !! id b = None → (depth ≤ usize_max)%N →
  match parent_id b with
  | None => depth = 0%N
  | Some p => ∃ pit, blocks t !! p = Some pit ∧ depth = (item_depth pit + 1)%N ∧ id b ∈ item_children pit
  end →
  (∀ d a, (d, a) ∈ ancestors → (d < depth)%N ∧ ∃ p, parent_id b = Some p ∧ tree_ancestor t p d a) →
  wf (store b depth ancestors t).
Proof.
  intros Hwf Hfresh Hmax Hpar Hanc. pose proof (store_extends b depth ancestors t Hfresh) as Hext.
  assert (∀ i it, blocks (store b depth ancestors t) !! i = Some it →
    (i = id b ∧ it = mk_item b depth [] ancestors) ∨ (i ≠ id b ∧ blocks t !! i = Some it)) as Hinv.
  { intros i it. simpl. rewrite lookup_insert. case_decide; naive_solver. }
  split.
  - intros i it [[-> ->]|[? Hi]]%Hinv; [done|by eapply wf_id].
  - intros i it [[-> ->]|[? Hi]]%Hinv Hnone; [simpl in *; by rewrite Hnone in Hpar|by eapply wf_genesis].
  - intros i it p Hit Hp.
    assert (∃ pit, blocks t !! p = Some pit ∧ item_depth it = (item_depth pit + 1)%N ∧
      i ∈ item_children pit) as (pit & Hpit & -> & Hin).
    { apply Hinv in Hit as [[-> ->]|[? Hi]]; [simpl in *; by rewrite Hp in Hpar|by eapply wf_parent]. }
    destruct (Hext _ _ Hpit) as (pit' & ? & _ & <- & _ & Hsub). eauto 10.
  - intros i it d a [[-> ->]|[? Hi]]%Hinv Hin; simpl in *.
    + destruct (Hanc _ _ Hin) as [Hlt (p & Hp & Ha)]. split; [done|].
      destruct (extends_ancestor _ _ _ _ _ Hext Ha) as [Hr ?]. split; [|done].
      eapply rtc_l; [|done]. eexists. simpl. by rewrite lookup_insert_eq.
    + destruct (wf_ancestors _ Hwf _ _ _ _ Hi Hin). eauto using extends_ancestor.
  - intros i d. simpl. rewrite lookup_insert. case_decide as Heq; simpl.
    + subst d. rewrite elem_of_app, (wf_depths _ Hwf), list_elem_of_singleton. split.
      * intros [(it & Hi & Hd)| ->]; [|rewrite lookup_insert_eq; eauto].
        exists it. rewrite lookup_insert_ne by congruence. done.
      * rewrite lookup_insert. case_decide; [by right|eauto].
    + rewrite (wf_depths _ Hwf), lookup_insert. case_decide; [|done]. subst.
      split; [naive_solver congruence|]. intros (it & [= <-] & ?). by simpl in *.
  - intros d. simpl. rewrite lookup_insert. case_decide as Heq; simpl; [|by apply wf_depths_nodup].
    apply NoDup_app. split_and!; [by apply wf_depths_nodup| |apply NoDup_singleton].
    intros i Hi ->%list_elem_of_singleton. apply (wf_depths _ Hwf) in Hi. naive_solver congruence.
  - intros i it [[-> ->]|[? Hi]]%Hinv; [done|by eapply wf_usize].
Qed.

(** * Skip lists *)

Lemma skip_depths_multiple s : s ∈ SKIP_DEPTHS → (4 ≤ s)%N ∧ (s `mod` 4 = 0)%N.
Proof.
  revert s. apply Forall_forall. unfold SKIP_DEPTHS. repeat (constructor; [split; [by vm_compute|done]|]).
  constructor.
Qed.

Lemma elem_of_unique `{EqDecision A} (l : list A) x : x ∈ unique l ↔ x ∈ l.
Proof.
  induction l as [|y l IH]; simpl; [done|]. rewrite !elem_of_cons, list_elem_of_filter, IH.
  destruct (decide (x = y)); naive_solver.
Qed.

Lemma elem_of_ancestor_depths (d depth : N) :
  d ∈ ancestor_depths depth ↔
  ∃ s, s ∈ SKIP_DEPTHS ∧ d = (depth - s)%N ∧ (s ≤ depth)%N ∧ (depth `mod` s = 0)%N.
Proof.
  unfold ancestor_depths. rewrite elem_of_unique, list_elem_of_fmap.
  setoid_rewrite list_elem_of_filter. naive_solver.
Qed.

Lemma ancestor_depths_lt (d depth : N) : d ∈ ancestor_depths depth → (d + 4 ≤ depth)%N.
Proof. intros (s & Hs & -> & ? & _)%elem_of_ancestor_depths. apply skip_depths_multiple in Hs. lia. Qed.

(** Only the positive multiples of four have a skip list. *)
Lemma ancestor_depths_nil (depth : N) :
  depth ≠ 0%N → ancestor_depths depth = [] ↔ (depth `mod` 4 ≠ 0)%N.
Proof.
  intros Hpos. split.
  - intros Hnil Hmod. assert ((depth - 4)%N ∈ ancestor_depths depth) as Hin.
    { apply elem_of_ancestor_depths. exists 4%N. split_and!; [by left|done| |done].
      pose proof (N.div_mod depth 4). lia. }
    rewrite Hnil in Hin. by apply not_elem_of_nil in Hin.
  - intros Hmod. destruct (ancestor_depths depth) as [|d l] eqn:Hl; [done|]. exfalso.
    assert (d ∈ ancestor_depths depth) as (s & Hs & _ & _ & Hdiv)%elem_of_ancestor_depths
      by (rewrite Hl; left).
    apply skip_depths_multiple in Hs as [Hs4 Hs]. apply Hmod.
    apply N.Lcm0.mod_divide in Hdiv, Hs. apply N.Lcm0.mod_divide. by etrans.
Qed.

Lemma collect_ancestors_elem (find : N → outcome MemoryForkTreeQueryError Identifier) wanted l d a :
  collect_ancestors find wanted = Ok l → (d, a) ∈ l → d ∈ wanted ∧ find d = Ok a.
Proof.
  revert l. induction wanted as [|w wanted IH]; intros l; simpl.
  - intros [= <-] Hin. by apply not_elem_of_nil in Hin.
  - destruct (find w) as [x| | |] eqn:Hw; simpl; try done.
    destruct (collect_ancestors find wanted) as [r| | |]; simpl; try done.
    intros [= <-] [[= -> ->]|Hin]%elem_of_cons; [by split; [left|]|].
    destruct (IH r eq_refl Hin). split; [by right|done].
Qed.

(** * Preservation by insertion *)

(** An ancestor query that only answers with true ancestors. *)
Definition find_sound find : Prop := ∀ t i d a,
  wf t → find t i d = Ok a → tree_ancestor t i d a.

Lemma new_wf : wf (new : Tree).
Proof.
  split; intros *; simpl; rewrite ?lookup_empty; try done.
  - split; [by intros ?%not_elem_of_nil|]. by intros (it & ? & _).
  - apply NoDup_nil_2.
Qed.

Lemma stored_ancestors_sound find p parent child t l d a :
  wf t → find_sound find → blocks t !! p = Some parent →
  collect_ancestors (find (linked child p parent t) p) (ancestor_depths (item_depth parent + 1)) = Ok l →
  (d, a) ∈ l → (d < item_depth parent + 1)%N ∧ tree_ancestor (linked child p parent t) p d a.
Proof.
  intros Hwf Hfind Hp Hl [Hd Hfd]%(collect_ancestors_elem _ _ _ _ _ Hl).
  split; [apply ancestor_depths_lt in Hd; lia|]. by apply Hfind; [apply linked_wf|].
Qed.

(** Inserting a block with a new id keeps the tree well-formed, whatever the
    result of the call. *)
Lemma insert_with_wf find b t :
  wf t → find_sound find → blocks t !! id b = None → wf (insert_with find b t).1.
Proof.
  intros Hwf Hfind Hfresh. rewrite insert_with_eq. destruct (parent_id b) as [p|] eqn:Hpar.
  - destruct (blocks t !! p) as [parent|] eqn:Hp; [|done]. simpl.
    assert (wf (linked (id b) p parent t)) as Hwf1 by by apply linked_wf.
    case_decide as Hmax; [|done].
    destruct (collect_ancestors _ _) as [l| | |] eqn:Hl; simpl; try done.
    apply store_wf; try done.
    + simpl. rewrite lookup_insert_ne by congruence. done.
    + rewrite Hpar. exists (push_child (id b) parent). simpl. rewrite lookup_insert_eq.
      split_and!; [done|done|set_solver].
    + intros d a Hin. destruct (stored_ancestors_sound _ _ _ _ _ _ _ _ Hwf Hfind Hp Hl Hin). eauto.
  - apply store_wf; try done; [by rewrite Hpar|]. intros d a Hin. by apply not_elem_of_nil in Hin.
Qed.

Lemma source_find_sound : find_sound ancestor_id_at_depth.
Proof.
  intros t i d a Hwf. rewrite ancestor_id_at_depth_exact.
  destruct (blocks t !! i) as [it|] eqn:Hi; simpl; [|done]. case_decide as Hd; [|done].
  intros [= <-]. rewrite (wf_id _ Hwf _ _ Hi). split; [done|eauto].
Qed.

(** C6: [insert] keeps the fork tree well-formed when the id of the new block is
    not in use (the uniqueness of hashes that [Identified] documents), on every
    branch of the call, error returns included. *)
Theorem insert_preserves_wf b t : wf t → blocks t !! id b = None → wf (insert b t).1.
Proof. intros Hwf Hfresh. apply insert_with_wf; [done|apply source_find_sound|done]. Qed.

(** When the candidate is as deep as the block, [is_ancestor] answers whether
    they are the same block; two different blocks of one depth are not ancestors of
    each other.  When the depths differ, the answer is [InvalidAncestorDepth]. *)
Theorem is_ancestor_same_depth t i a it ait :
  wf t → blocks t !! i = Some it → blocks t !! a = Some ait →
  is_ancestor t i a =
    if decide (item_depth it = item_depth ait) then Ok (bool_decide (i = a))
    else Err InvalidAncestorDepth.
Proof. intros Hwf Hi Ha. by rewrite (is_ancestor_exact _ _ _ _ _ Hi Ha), (wf_id _ Hwf _ _ Hi). Qed.

(** * The exact result of [insert] *)

Lemma collect_ancestors_refused (find : N → outcome MemoryForkTreeQueryError Identifier) wanted :
  Forall (λ d, find d = Err InvalidAncestorDepth) wanted → wanted ≠ [] →
  collect_ancestors find wanted = Err InvalidAncestorDepth.
Proof. destruct 1 as [|d wanted Hd _]; [done|]. intros _. simpl. by rewrite Hd. Qed.

(** The skip list of a block cannot be built with the source's query: every
    wanted depth is smaller than that of the parent. *)
Lemma source_skip_list child p parent t :
  let depth := (item_depth parent + 1)%N in
  collect_ancestors (ancestor_id_at_depth (linked child p parent t) p) (ancestor_depths depth) =
    if decide (depth `mod` 4 = 0)%N then Err InvalidAncestorDepth else Ok [].
Proof.
  simpl. assert (item_depth parent + 1 ≠ 0)%N as Hpos by lia. case_decide as Hmod.
  - apply collect_ancestors_refused.
    + apply Forall_forall. intros d Hd%ancestor_depths_lt. rewrite ancestor_id_at_depth_exact.
      simpl. rewrite lookup_insert_eq. simpl. by rewrite decide_False by lia.
    + by intros ?%(ancestor_depths_nil _ Hpos).
  - apply (ancestor_depths_nil _ Hpos) in Hmod. by rewrite Hmod.
Qed.

Lemma insert_eq b t :
  insert b t =
    match parent_id b with
    | None => (store b 0 [] t, Ok tt)
    | Some p =>
      match blocks t !! p with
      | None => (t, Err UnknownParent)
      | Some parent =>
        let t1 := linked (id b) p parent t in
        let depth := (item_depth parent + 1)%N in
        if decide (usize_max < depth)%N then (t1, Panicked)
        else if decide (depth `mod` 4 = 0)%N then (t1, Err (Query InvalidAncestorDepth))
        else (store b depth [] t1, Ok tt)
      end
    end.
Proof.
  unfold insert. rewrite insert_with_eq. destruct (parent_id b) as [p|]; [|done].
  destruct (blocks t !! p) as [parent|]; [|done]. cbv zeta. rewrite source_skip_list.
  repeat case_decide; try done; lia.
Qed.

(** C7: the result of [insert] on every branch and on every tree: a block without
    parent becomes a root; an unknown parent is refused and nothing changes; a
    block whose depth would be a multiple of four is always refused with
    [Query(InvalidAncestorDepth)], after its id was already pushed to the
    parent's children; every other block is stored one level below its parent
    with an empty skip list; only a depth beyond [usize] panics. *)
Theorem insert_result b t :
  match parent_id b with
  | None => insert b t = (store b 0 [] t, Ok tt)
  | Some p =>
    match blocks t !! p with
    | None => insert b t = (t, Err UnknownParent)
    | Some parent =>
      let depth := (item_depth parent + 1)%N in
      let t1 := mk_tree (<[p := push_child (id b) parent]> (blocks t)) (depths t) in
      ((depth ≤ usize_max)%N ∧ (depth `mod` 4 = 0)%N →
         insert b t = (t1, Err (Query InvalidAncestorDepth))) ∧
      ((depth ≤ usize_max)%N ∧ (depth `mod` 4 ≠ 0)%N →
         insert b t = (store b depth [] t1, Ok tt)) ∧
      ((usize_max < depth)%N → insert b t = (t1, Panicked))
    end
  end.
Proof.
  rewrite insert_eq. destruct (parent_id b) as [p|]; [|done].
  destruct (blocks t !! p) as [parent|]; [|done]. cbv zeta.
  split_and!; intros; destruct_and?; repeat case_decide; done || lia.
Qed.

(** * Reachable trees *)

(** The trees that insertions can build, whatever their results. *)
Inductive reachable : Tree → Prop :=
| reachable_new : reachable new
| reachable_insert t b : reachable t → reachable (insert b t).1.

Definition shallow t : Prop := ∀ i it, blocks t !! i = Some it →
  (item_depth it ≤ 3)%N ∧ item_ancestors it = [].

Lemma linked_shallow child p parent t :
  blocks t !! p = Some parent → shallow t → shallow (linked child p parent t).
Proof.
  intros Hp Ht i it' (it & Hi & _ & -> & -> & _)%(linked_lookup_inv _ _ _ _ _ _ Hp). eauto.
Qed.

Lemma store_shallow b (depth : N) t : (depth ≤ 3)%N → shallow t → shallow (store b depth [] t).
Proof. intros ? Ht i it. simpl. rewrite lookup_insert. case_decide; [by intros [= <-]|apply Ht]. Qed.

Lemma insert_shallow b t : shallow t → shallow (insert b t).1.
Proof.
  intros Ht. rewrite insert_eq. destruct (parent_id b) as [p|]; [|by apply store_shallow].
  destruct (blocks t !! p) as [parent|] eqn:Hp; [|done]. cbv zeta.
  pose proof (linked_shallow (id b) _ _ _ Hp Ht) as Hl. destruct (Ht _ _ Hp) as [Hd _].
  repeat case_decide; try done. apply store_shallow; [|done].
  assert (item_depth parent ≠ 3)%N; [by intros Heq; rewrite Heq in *|lia].
Qed.

Lemma reachable_shallow t : reachable t → shallow t.
Proof. induction 1; [by intros ?|by apply insert_shallow]. Qed.

(** C8: no sequence of insertions stores a block deeper than three, and every
    skip list stays empty: the tree cannot hold a chain of more than four
    blocks. *)
Theorem reachable_depth_bound t i it :
  reachable t → blocks t !! i = Some it → (item_depth it ≤ 3)%N ∧ item_ancestors it = [].
Proof. intros Ht%reachable_shallow Hi. by eapply Ht. Qed.

(** C9: on every reachable tree [insert] returns: the depth never overflows, and
    the ancestor queries never run out of steps. *)
Theorem reachable_insert_returns t b : reachable t → returns (insert b t).2.
Proof.
  intros Ht%reachable_shallow. rewrite insert_eq. destruct (parent_id b) as [p|]; [|done].
  destruct (blocks t !! p) as [parent|] eqn:Hp; [|done]. cbv zeta. destruct (Ht _ _ Hp) as [Hd _].
  rewrite decide_False by (unfold usize_max; lia). by case_decide.
Qed.

(** * Children *)

Lemma store_children_sound b depth ancestors p parent t :
  children_sound t → parent_id b = Some p → blocks t !! p = Some parent → blocks t !! id b = None →
  children_sound (store b depth ancestors (linked (id b) p parent t)).
Proof.
  intros Hsound Hpar Hp Hfresh i it c. simpl.
  set (t' := store b depth ancestors (linked (id b) p parent t)).
  assert (tree_parent t' (id b) p) as Hb.
  { eexists. simpl. by rewrite lookup_insert_eq. }
  assert (extends t t') as Hext.
  { intros j jt Hj. destruct (linked_extends (id b) _ _ _ Hp _ _ Hj) as (jt' & Hj' & Hrest).
    exists jt'. split; [|done]. simpl in *. rewrite lookup_insert_ne by congruence. done. }
  rewrite lookup_insert. case_decide as Heq.
  - intros [= <-] Hc. by apply not_elem_of_nil in Hc.
  - intros (it0 & Hi & _ & _ & _ & ->)%(linked_lookup_inv _ _ _ _ _ _ Hp) [Hc|Hc]%elem_of_app.
    + eapply extends_parent, Hsound; eauto.
    + case_decide; [|by apply not_elem_of_nil in Hc]. by apply list_elem_of_singleton in Hc as ->; subst.
Qed.

(** A successful insertion of a new block keeps the children lists exact. *)
Lemma insert_children_sound b t :
  children_sound t → blocks t !! id b = None → (insert b t).2 = Ok tt → children_sound (insert b t).1.
Proof.
  intros Hsound Hfresh. rewrite insert_eq. destruct (parent_id b) as [p|] eqn:Hpar.
  - destruct (blocks t !! p) as [parent|] eqn:Hp; [|done]. cbv zeta.
    repeat case_decide; try done. intros _. by apply store_children_sound.
  - intros _ i it c. simpl. rewrite lookup_insert. case_decide as Heq.
    + intros [= <-] Hc. by apply not_elem_of_nil in Hc.
    + intros Hi Hc. eapply (extends_parent t); [by apply store_extends|by eapply Hsound].
Qed.

(** C18: a refused insertion is not undone: when the skip list of a new block cannot
    be built, the call fails but its id stays among the children of the parent,
    although no such block is stored. *)
Theorem failed_insert_leaves_child b t p parent :
  parent_id b = Some p → blocks t !! p = Some parent → blocks t !! id b = None →
  (item_depth parent + 1 ≤ usize_max)%N → ((item_depth parent + 1) `mod` 4 = 0)%N →
  ∃ t', insert b t = (t', Err (Query InvalidAncestorDepth)) ∧
    blocks t' !! id b = None ∧
    (∃ parent', blocks t' !! p = Some parent' ∧ id b ∈ item_children parent') ∧
    ¬ children_sound t'.
Proof.
  intros Hpar Hp Hfresh Hmax Hmod. exists (linked (id b) p parent t).
  assert (blocks (linked (id b) p parent t) !! id b = None) as Hnone.
  { simpl. rewrite lookup_insert_ne by congruence. done. }
  assert (∃ parent', blocks (linked (id b) p parent t) !! p = Some parent' ∧
    id b ∈ item_children parent') as Hin.
  { exists (push_child (id b) parent). simpl. rewrite lookup_insert_eq. split; [done|set_solver]. }
  split_and!; [|done|done|].
  - rewrite insert_eq, Hpar, Hp. cbv zeta. by rewrite decide_False, decide_True by lia.
  - destruct Hin as (parent' & Hp' & Hc). intros Hsound.
    destruct (Hsound _ _ _ Hp' Hc) as (it & Hit & _). congruence.
Qed.

(** * Inserting a stored block again *)

(** What storing the block [b] at its old depth leaves. *)
Lemma store_again b t t1 it :
  wf t → blocks t !! id b = Some it → depths t1 = depths t →
  let t' := store b (item_depth it) [] t1 in
  blocks t' !! id b = Some (mk_item b (item_depth it) [] []) ∧
  depths t' !! item_depth it = Some (default [] (depths t !! item_depth it) ++ [id b]) ∧ ¬ wf t'.
Proof.
  intros Hwf Hb Hd t'. assert (depths t' !! item_depth it = Some (default [] (depths t !! item_depth it) ++ [id b])) as Hd'.
  { subst t'. simpl. by rewrite Hd, lookup_insert_eq. }
  split_and!; [subst t'; simpl; by rewrite lookup_insert_eq|done|].
  intros Hwf'. pose proof (wf_depths_nodup _ Hwf' (item_depth it)) as Hnd. rewrite Hd' in Hnd. simpl in Hnd.
  apply NoDup_app in Hnd as (_ & Hnd & _). apply (Hnd (id b)); [|by left].
  apply (wf_depths _ Hwf). eauto.
Qed.

(** C19: [insert] does not notice that a block is already stored: on a well-formed tree a
    second insertion of it, when it succeeds, forgets the children of the block, lists
    its id twice at its depth, and leaves a tree that is not well-formed. *)
Theorem reinsert_not_wf b t it :
  wf t → blocks t !! id b = Some it → item_block it = b → (insert b t).2 = Ok tt →
  let t' := (insert b t).1 in
  blocks t' !! id b = Some (mk_item b (item_depth it) [] []) ∧
  depths t' !! item_depth it = Some (default [] (depths t !! item_depth it) ++ [id b]) ∧ ¬ wf t'.
Proof.
  intros Hwf Hb Hit. rewrite insert_eq. destruct (parent_id b) as [p|] eqn:Hpar.
  - rewrite <-Hit in Hpar. destruct (wf_parent _ Hwf _ _ _ Hb Hpar) as (parent & Hp & Hd & _). rewrite Hp.
    cbv zeta. repeat case_decide; try done. intros _. simpl fst. rewrite <-Hd. by apply store_again.
  - rewrite <-Hit in Hpar. pose proof (wf_genesis _ Hwf _ _ Hb Hpar) as Hd. intros _. simpl fst.
    rewrite <-Hd. by apply store_again.
Qed.
End invariant.

(** * Concrete trees *)

(** The tree after inserting a list of blocks in order. *)
Definition insert_all (bs : list SimpleBlock) : MemoryForkTree SimpleBlock BlockId :=
  foldl (λ t b, (insert b t).1) new bs.

Definition sample_1 : SimpleBlock := sample_child 0 sample_genesis [].
Definition sample_2 : SimpleBlock := sample_child 0 sample_1 [].
Definition sample_3 : SimpleBlock := sample_child 0 sample_2 [].
Definition sample_4 : SimpleBlock := sample_child 0 sample_3 [].
Definition sample_line : list SimpleBlock := [sample_genesis; sample_1; sample_2; sample_3].

Lemma insert_all_reachable bs : reachable (insert_all bs).
Proof.
  unfold insert_all. generalize (reachable_new (Block := SimpleBlock) (Identifier := BlockId)).
  generalize (new : MemoryForkTree SimpleBlock BlockId).
  induction bs as [|b bs IH]; intros t Ht; simpl; [done|]. by apply IH, reachable_insert.
Qed.

Lemma insert_preserves_wf_witness :
  wf (insert_all [sample_genesis]) ∧ wf (insert sample_1 (insert_all [sample_genesis])).1.
Proof.
  assert (wf (insert_all [sample_genesis])) as Hwf.
  { apply (insert_preserves_wf sample_genesis new); [apply new_wf|done]. }
  split; [exact Hwf|]. apply (insert_preserves_wf sample_1 (insert_all [sample_genesis])); [exact Hwf|].
  vm_compute. reflexivity.
Defined.

Lemma reachable_depth_bound_witness :
  ∃ it, blocks (insert_all sample_line) !! block_id sample_3 = Some it ∧ item_depth it = 3%N ∧
    ((item_depth it ≤ 3)%N ∧ item_ancestors it = []).
Proof.
  eexists. split; [vm_compute; reflexivity|]. split; [reflexivity|].
  apply (reachable_depth_bound (insert_all sample_line) (block_id sample_3)).
  - apply insert_all_reachable.
  - vm_compute. reflexivity.
Defined.

Lemma reachable_insert_returns_witness :
  (insert sample_4 (insert_all sample_line)).2 = Err (Query InvalidAncestorDepth) ∧
  returns (insert sample_4 (insert_all sample_line)).2.
Proof.
  split; [vm_compute; reflexivity|].
  apply (reachable_insert_returns (insert_all sample_line) sample_4), insert_all_reachable.
Defined.

Lemma failed_insert_leaves_child_witness :
  ∃ t', insert sample_4 (insert_all sample_line) = (t', Err (Query InvalidAncestorDepth)) ∧
    blocks t' !! id sample_4 = None ∧
    (∃ parent', blocks t' !! id sample_3 = Some parent' ∧
       id sample_4 ∈ item_children parent') ∧
    ¬ children_sound t'.
Proof.
  apply (failed_insert_leaves_child sample_4 (insert_all sample_line) (id sample_3)
    (mk_item sample_3 3 [] [])).
  - reflexivity.
  - vm_compute. reflexivity.
  - vm_compute. reflexivity.
  - vm_compute. discriminate.
  - vm_compute. reflexivity.
Defined.

Definition sample_fork : SimpleBlock := sample_child 1 sample_genesis [].

Lemma fork_wf : wf (insert_all [sample_genesis; sample_1; sample_fork]).
Proof.
  unfold insert_all. cbn [foldl].
  repeat (apply insert_with_wf; [|apply source_find_sound|vm_compute; reflexivity]).
  apply new_wf.
Qed.

Lemma is_ancestor_same_depth_witness :
  is_ancestor (insert_all [sample_genesis; sample_1; sample_fork]) (id sample_1) (id sample_fork) =
    if decide (1 = 1)%N then Ok (bool_decide (id sample_1 = id sample_fork)) else Err InvalidAncestorDepth.
Proof.
  apply (is_ancestor_same_depth (insert_all [sample_genesis; sample_1; sample_fork])
    (id sample_1) (id sample_fork) (mk_item sample_1 1 [] []) (mk_item sample_fork 1 [] [])).
  - exact fork_wf.
  - vm_compute. reflexivity.
  - vm_compute. reflexivity.
Defined.

Lemma insert_result_witness :
  (3 + 1 ≤ usize_max)%N ∧ ((3 + 1) `mod` 4 = 0)%N ∧
  insert sample_4 (insert_all sample_line) =
    (mk_tree (<[id sample_3 := push_child (id sample_4) (mk_item sample_3 3 [] [])]>
       (blocks (insert_all sample_line))) (depths (insert_all sample_line)),
     Err (Query InvalidAncestorDepth)).
Proof.
  split; [vm_compute; discriminate|]. split; [vm_compute; reflexivity|].
  pose proof (insert_result sample_4 (insert_all sample_line)) as Hres.
  assert (parent_id sample_4 = Some (id sample_3)) as Hp by reflexivity.
  assert (blocks (insert_all sample_line) !! id sample_3 = Some (mk_item sample_3 3 [] [])) as Hb
    by (vm_compute; reflexivity).
  rewrite Hp, Hb in Hres. apply (proj1 Hres). split; [vm_compute; discriminate|reflexivity].
Defined.

Lemma reinsert_not_wf_witness :
  let t' := (insert sample_1 (insert_all sample_line)).1 in
  blocks t' !! id sample_1 = Some (mk_item sample_1 1 [] []) ∧
  depths t' !! 1%N = Some ([id sample_1] ++ [id sample_1]) ∧ ¬ wf t'.
Proof.
  apply (reinsert_not_wf sample_1 (insert_all sample_line) (mk_item sample_1 1 [id sample_2] [])).
  - unfold insert_all, sample_line. cbn [foldl].
    repeat (apply insert_with_wf; [|apply source_find_sound|vm_compute; reflexivity]). apply new_wf.
  - vm_compute. reflexivity.
  - reflexivity.
  - vm_compute. reflexivity.
Defined.
