(* ===== verification/MemoryForkTreeWalk.v ===== *)
(** MemoryForkTreeWalk: the skip-list walk of [ancestor_id_at_depth]
    ([blockchain/src/memory/chain.rs], the [loop]) is correct on well-formed trees,
    and what the guard in front of it makes of the trait's contract.

    [parent_walk] is the specification of an ancestor query as a function, following
    one parent after the other; [reference_fork_tree] is a tree that answers with it.
    It models no code: it shows that the contract of the trait can be met and serves
    the examples. *)
From S2P Require Import Prelude Block SimpleBlock ForkTree MemoryForkTree MemoryForkTreeInv.

Section walk.
Context {Block Identifier : Type} `{Countable Identifier} `{!Identified Block Identifier}.
Abbreviation Item := (MemoryForkTreeItem Block Identifier).
Abbreviation Tree := (MemoryForkTree Block Identifier).
Implicit Types (t : Tree) (it : Item) (i p a c x : Identifier) (b : Block).

Lemma foldl_min_depth_elem (l : list (N * Identifier)) e : foldl min_depth_entry e l ∈ e :: l.
Proof.
  revert e. induction l as [|y l IH]; intros e; simpl; [by left|].
  assert (min_depth_entry e y = e ∨ min_depth_entry e y = y) as Hcase.
  { unfold min_depth_entry. case_decide; auto. }
  rewrite !elem_of_cons. pose proof (IH (min_depth_entry e y)) as [->|Hin]%elem_of_cons; naive_solver.
Qed.

(** A hop goes to the parent or to a recorded ancestor not above the target. *)
Lemma next_ancestor_id_cases it p (d : N) :
  next_ancestor_id it p d = p ∨
  ∃ e, (e, next_ancestor_id it p d) ∈ item_ancestors it ∧ (d ≤ e)%N.
Proof.
  unfold next_ancestor_id. destruct (filter _ _) as [|e l] eqn:Hl; simpl; [by left|]. right.
  assert (foldl min_depth_entry e l ∈ filter (λ e, (d ≤ e.1)%N) (item_ancestors it)) as Hin.
  { rewrite Hl. apply foldl_min_depth_elem. }
  apply list_elem_of_filter in Hin as [Hle Hin].
  exists (foldl min_depth_entry e l).1. by rewrite <-surjective_pairing.
Qed.

(** A hop stays on the line of ancestors, gets strictly closer to the genesis and
    does not pass the target. *)
Lemma next_ancestor_step t i it p (d : N) :
  wf t → blocks t !! i = Some it → parent_id (item_block it) = Some p → (d < item_depth it)%N →
  ∃ nit, blocks t !! next_ancestor_id it p d = Some nit ∧
    (d ≤ item_depth nit < item_depth it)%N ∧ rtc (tree_parent t) i (next_ancestor_id it p d).
Proof.
  intros Hwf Hi Hp Hd. destruct (next_ancestor_id_cases it p d) as [->|(e & Hin & Hle)].
  - destruct (wf_parent _ Hwf _ _ _ Hi Hp) as (pit & Hpit & Heq & _). exists pit.
    split_and!; [done|lia|lia|]. apply rtc_once. by exists it.
  - destruct (wf_ancestors _ Hwf _ _ _ _ Hi Hin) as [Hlt (Hr & nit & Hn & Hnd)].
    exists nit. split_and!; [done|lia|lia|done].
Qed.

Lemma ancestor_loop_finds t (d : N) fuel i it :
  wf t → blocks t !! i = Some it → (d ≤ item_depth it)%N → (item_depth it - d < N.of_nat fuel)%N →
  ∃ x, ancestor_loop fuel t d it = Ok x ∧ tree_ancestor t i d x.
Proof.
  intros Hwf. revert i it. induction fuel as [|fuel IH]; intros i it Hi Hd Hfuel; [lia|].
  simpl. rewrite decide_False by lia. case_decide as Heq.
  - exists i. rewrite (wf_id _ Hwf _ _ Hi). split; [done|]. split; [done|eauto].
  - destruct (parent_id (item_block it)) as [p|] eqn:Hp; simpl.
    + destruct (next_ancestor_step t i it p d) as (nit & Hn & Hbound & Hr); [done..|lia|].
      rewrite Hn. simpl. destruct (IH _ _ Hn) as (x & Hx & Hanc & Hxd); [lia|lia|].
      exists x. split; [done|]. split; [by etrans|done].
    + rewrite (wf_genesis _ Hwf _ _ Hi Hp) in *. lia.
Qed.

(** C1: the [loop] of [ancestor_id_at_depth] is a correct and terminating search:
    on a well-formed tree, from any stored block and for any depth up to that of
    the block, it returns within [depth - ancestor_depth + 1] iterations the id of
    the ancestor stored at that depth. *)
Theorem ancestor_loop_correct t i it (ancestor_depth : N) (fuel : nat) :
  wf t → blocks t !! i = Some it → (ancestor_depth ≤ item_depth it)%N →
  (N.to_nat (item_depth it - ancestor_depth) < fuel)%nat →
  ∃ x, ancestor_loop fuel t ancestor_depth it = Ok x ∧ tree_ancestor t i ancestor_depth x.
Proof. intros. apply ancestor_loop_finds; [done..|lia]. Qed.

(** * The reference walk *)

(** Follow [n] parents. *)
Fixpoint parent_walk t (n : nat) i : option Identifier :=
  match n with
  | O => Some i
  | S n =>
    it ← blocks t !! i;
    p ← parent_id (item_block it);
    parent_walk t n p
  end.

(** On a well-formed tree, the ancestor at a depth is the one reached by as many
    parents as the depths differ. *)
Lemma tree_ancestor_walk t i it (d : N) x :
  wf t → blocks t !! i = Some it → tree_ancestor t i d x →
  parent_walk t (N.to_nat (item_depth it - d)) i = Some x ∧ (d ≤ item_depth it)%N.
Proof.
  intros Hwf Hi [Hr Hx]. revert it Hi. induction Hr as [i|i p x (it' & Hi' & Hp) Hr IH]; intros it Hi.
  - destruct Hx as (it' & Hi' & <-). simplify_eq. by rewrite N.sub_diag.
  - rewrite Hi in Hi'. injection Hi' as <-. destruct (wf_parent _ Hwf _ _ _ Hi Hp) as (pit & Hpit & Hd & _).
    destruct (IH Hx pit Hpit) as [Hw Hle]. split; [|lia].
    replace (N.to_nat (item_depth it - d)) with (S (N.to_nat (item_depth pit - d))) by lia.
    simpl. rewrite Hi. simpl. by rewrite Hp.
Qed.

(** Every depth up to that of a block is reached that way. *)
Lemma parent_walk_total t i it (d : N) :
  wf t → blocks t !! i = Some it → (d ≤ item_depth it)%N →
  ∃ x, parent_walk t (N.to_nat (item_depth it - d)) i = Some x ∧ tree_ancestor t i d x.
Proof.
  intros Hwf Hi Hd.
  destruct (ancestor_loop_finds t d (S (N.to_nat (item_depth it - d))) i it)
    as (x & _ & Hx); [done..|lia|].
  exists x. split; [|done]. by apply (tree_ancestor_walk t i it).
Qed.

(** The ancestor query answered by the reference walk. *)
Definition reference_find t i (ancestor_depth : N) : outcome MemoryForkTreeQueryError Identifier :=
  it ← ok_or (blocks t !! i) UnknownBlock;
  if decide (item_depth it < ancestor_depth)%N then Err InvalidAncestorDepth
  else ok_or (parent_walk t (N.to_nat (item_depth it - ancestor_depth)) i) UnknownBlock.

Lemma reference_find_total t i it (d : N) :
  wf t → blocks t !! i = Some it → (d ≤ item_depth it)%N →
  ∃ x, reference_find t i d = Ok x ∧ tree_ancestor t i d x.
Proof.
  intros Hwf Hi Hd. destruct (parent_walk_total t i it d) as (x & Hx & Hanc); [done..|].
  exists x. split; [|done]. unfold reference_find. rewrite Hi. simpl.
  rewrite decide_False by lia. by rewrite Hx.
Qed.

Lemma reference_find_sound : find_sound reference_find.
Proof.
  intros t i d a Hwf Hf. destruct (blocks t !! i) as [it|] eqn:Hi; unfold reference_find in Hf;
    rewrite Hi in Hf; simpl in Hf; [|done]. case_decide as Hd; [done|].
  destruct (parent_walk_total t i it d) as (x & Hx & Hanc); [done..|lia|].
  rewrite Hx in Hf. by injection Hf as <-.
Qed.

(** * The contract *)

(** The tree as a [ForkTree] over an ancestor query. *)
Definition fork_tree_with (find : Tree → Identifier → N → outcome MemoryForkTreeQueryError Identifier) :
    ForkTree Tree Block Identifier MemoryForkTreeQueryError := {|
  ft_block := block;
  ft_block_depth := block_depth;
  ft_ancestor_id_at_depth := find
|}.

Lemma block_ok t i b : block t i = Ok b ↔ ∃ it, blocks t !! i = Some it ∧ item_block it = b.
Proof.
  unfold block. destruct (blocks t !! i) as [it|]; simpl; [|naive_solver].
  split; [intros [= <-]; eauto|by intros (it' & [= <-] & <-)].
Qed.

Lemma block_depth_ok t i (d : N) :
  block_depth t i = Ok d ↔ ∃ it, blocks t !! i = Some it ∧ item_depth it = d.
Proof.
  unfold block_depth. destruct (blocks t !! i) as [it|]; simpl; [|naive_solver].
  split; [intros [= <-]; eauto|by intros (it' & [= <-] & <-)].
Qed.

Lemma fork_tree_parent_of find t i p :
  parent_of (ForkTree0 := fork_tree_with find) t i p ↔ tree_parent t i p.
Proof. unfold parent_of, tree_parent. simpl. setoid_rewrite block_ok. naive_solver. Qed.

Lemma fork_tree_ancestor_of find t i x :
  ancestor_of (ForkTree0 := fork_tree_with find) t i x ↔ rtc (tree_parent t) i x.
Proof.
  split; apply rtc_subrel; intros y z; apply fork_tree_parent_of.
Qed.

(** A well-formed tree honours the contract as soon as its ancestor query is
    total up to the depth of the block and refuses greater depths. *)
Lemma wf_contract find t :
  wf t →
  (∀ i it d, blocks t !! i = Some it → (d ≤ item_depth it)%N →
     ∃ x, find t i d = Ok x ∧ tree_ancestor t i d x) →
  (∀ i it d, blocks t !! i = Some it → (item_depth it < d)%N → ∃ e, find t i d = Err e) →
  ForkTreeSpec (ForkTree0 := fork_tree_with find) t.
Proof.
  intros Hwf Hfind Hdeep. split; simpl.
  - intros i b (it & Hi & <-)%block_ok. by eapply wf_id.
  - intros i. unfold block, block_depth. by destruct (blocks t !! i).
  - intros i b (it & Hi & <-)%block_ok Hb. apply block_depth_ok. exists it.
    split; [done|by eapply wf_genesis].
  - intros i p (it & Hi & Hp)%fork_tree_parent_of.
    destruct (wf_parent _ Hwf _ _ _ Hi Hp) as (pit & Hpit & Hd & _).
    exists (item_depth pit). rewrite !block_depth_ok. split; by eexists.
  - intros i d a (it & Hi & <-)%block_depth_ok Hle.
    destruct (Hfind _ _ _ Hi Hle) as (x & Hx & Hr & Hd). exists x.
    rewrite fork_tree_ancestor_of, block_depth_ok. done.
  - intros i d a (it & Hi & <-)%block_depth_ok. by apply Hdeep.
Qed.

Definition reference_fork_tree : ForkTree Tree Block Identifier MemoryForkTreeQueryError :=
  fork_tree_with reference_find.

Lemma reference_spec t : wf t → ForkTreeSpec (ForkTree0 := reference_fork_tree) t.
Proof.
  intros Hwf. apply (wf_contract reference_find t Hwf).
  - intros i it d Hi Hd. by apply (reference_find_total t i it).
  - intros i it d Hi Hd. unfold reference_find. rewrite Hi. simpl.
    exists InvalidAncestorDepth. by rewrite decide_True.
Qed.

(** C14: the tree as written honours the contract of [ForkTree] only while it holds
    no block below a genesis: any block with a parent has an ancestor that
    [ancestor_id_at_depth] refuses to find. *)
Theorem source_contract_only_genesis t :
  wf t → ForkTreeSpec t ↔ (∀ i it, blocks t !! i = Some it → item_depth it = 0%N).
Proof.
  intros Hwf. split.
  - intros Hspec i it Hi. destruct (decide (item_depth it = 0%N)) as [|Hne]; [done|].
    destruct (spec_ancestor _ Hspec i (item_depth it) 0) as (x & Hx & _);
      [apply block_depth_ok; eauto|lia|].
    simpl in Hx. rewrite ancestor_id_at_depth_exact, Hi in Hx. simpl in Hx.
    by rewrite decide_False in Hx by done.
  - intros Hzero. apply (wf_contract ancestor_id_at_depth t Hwf); intros i it d Hi;
      rewrite ancestor_id_at_depth_exact, Hi; simpl; rewrite (Hzero _ _ Hi); intros Hd.
    + exists i. rewrite decide_True by lia. rewrite (wf_id _ Hwf _ _ Hi). split; [done|].
      split; [done|]. exists it. rewrite (Hzero _ _ Hi). split; [done|lia].
    + exists InvalidAncestorDepth. by rewrite decide_False by lia.
Qed.

End walk.

(** * Concrete trees *)

Definition sample_5 : SimpleBlock := sample_child 0 sample_4 [].

(** A line of six blocks, filled over the reference query: the block at depth four
    has a skip list. *)
Definition deep_tree : MemoryForkTree SimpleBlock BlockId :=
  foldl (λ t b, (insert_with reference_find b t).1) new (sample_line ++ [sample_4; sample_5]).

Lemma deep_tree_wf : wf deep_tree.
Proof.
  unfold deep_tree, sample_line. simpl app. cbn [foldl].
  repeat (apply insert_with_wf; [|apply reference_find_sound|vm_compute; reflexivity]).
  apply new_wf.
Qed.

Lemma ancestor_loop_correct_witness :
  ∃ x, ancestor_loop 5 deep_tree 1 (mk_item sample_5 5 [] []) = Ok x ∧
    tree_ancestor deep_tree (id sample_5) 1 x.
Proof.
  apply (ancestor_loop_correct deep_tree (id sample_5) (mk_item sample_5 5 [] []) 1 5).
  - exact deep_tree_wf.
  - vm_compute. reflexivity.
  - vm_compute. discriminate.
  - vm_compute. lia.
Defined.

(** The jump over the skip list: from depth five to the genesis in three steps
    (the block, its parent at depth four, the recorded ancestor at depth zero). *)
Example deep_tree_jump :
  ancestor_loop 3 deep_tree 0 (mk_item sample_5 5 [] []) = Ok (id sample_genesis).
Proof. vm_compute. reflexivity. Qed.

Lemma source_contract_only_genesis_witness :
  ForkTreeSpec deep_tree ↔ (∀ i it, blocks deep_tree !! i = Some it → item_depth it = 0%N).
Proof. apply (source_contract_only_genesis deep_tree), deep_tree_wf. Defined.

Lemma is_ancestor_correct_witness :
  ∃ answer, is_ancestor (ForkTree0 := reference_fork_tree) deep_tree (id sample_5) (id sample_1) = Ok answer ∧
    (answer = true ↔ ancestor_of (ForkTree0 := reference_fork_tree) deep_tree (id sample_5) (id sample_1)).
Proof.
  apply (is_ancestor_correct (ForkTree0 := reference_fork_tree) deep_tree (id sample_5) (id sample_1) 5 1).
  - apply reference_spec, deep_tree_wf.
  - vm_compute. reflexivity.
  - vm_compute. reflexivity.
Defined.
