(* ===== verification/MemoryForkTreeSkip.v ===== *)
(** MemoryForkTreeSkip: how far the skip lists of the in-memory fork tree carry
    ([blockchain/src/memory/chain.rs], [SKIP_DEPTHS], [insert] and the [loop] of
    [ancestor_id_at_depth]).

    [insert] records in a block at depth [n] the ancestors at the depths [n - 4^k] for
    the powers that divide [n].  The loop always takes the longest recorded hop that
    does not pass the target: it climbs to ever higher powers, then descends again, with
    at most three hops per power each way.  The walk is also compared with the
    reference that follows the parents one by one. *)
From S2P Require Import Prelude Block SimpleBlock ForkTree MemoryForkTree MemoryForkTreeInv MemoryForkTreeWalk.

Section skip.
Context {Block Identifier : Type} `{Countable Identifier} `{!Identified Block Identifier}.
Abbreviation Item := (MemoryForkTreeItem Block Identifier).
Abbreviation Tree := (MemoryForkTree Block Identifier).
Abbreviation Find := (Tree → Identifier → N → outcome MemoryForkTreeQueryError Identifier).
Implicit Types (t : Tree) (it : Item) (i p a x : Identifier) (b : Block) (find : Find) (d n : N).

(** * The recorded depths *)

(** The skip list of every block records exactly the depths wanted for its depth. *)
Definition skips_exact t : Prop := ∀ i it,
  blocks t !! i = Some it → (item_ancestors it).*1 = ancestor_depths (item_depth it).

Lemma collect_ancestors_depths (f : N → outcome MemoryForkTreeQueryError Identifier) wanted l :
  collect_ancestors f wanted = Ok l → l.*1 = wanted.
Proof.
  revert l. induction wanted as [|w wanted IH]; intros l; simpl; [by intros [= <-]|].
  destruct (f w); simpl; try done. destruct (collect_ancestors f wanted) as [r| | |]; simpl; try done.
  intros [= <-]. rewrite fmap_cons. f_equal. by apply IH.
Qed.

Lemma linked_skips_exact child p parent t :
  blocks t !! p = Some parent → skips_exact t → skips_exact (linked child p parent t).
Proof.
  intros Hp Hex i it' (it & Hi & _ & -> & -> & _)%(linked_lookup_inv _ _ _ _ _ _ Hp). by eapply Hex.
Qed.

Lemma store_skips_exact b depth l t :
  l.*1 = ancestor_depths depth → skips_exact t → skips_exact (store b depth l t).
Proof.
  intros Hl Hex i it. simpl. destruct (decide (id b = i)) as [->|Hne].
  - rewrite lookup_insert_eq. by intros [= <-].
  - rewrite lookup_insert_ne by done. apply Hex.
Qed.

(** Every insertion keeps the skip lists exact, whatever its ancestor query answers. *)
Lemma insert_with_skips_exact find b t : skips_exact t → skips_exact (insert_with find b t).1.
Proof.
  intros Hex. rewrite insert_with_eq. destruct (parent_id b) as [p|]; [|by apply store_skips_exact].
  destruct (blocks t !! p) as [parent|] eqn:Hp; [|done]. cbv zeta.
  pose proof (linked_skips_exact (id b) p parent t Hp Hex). case_decide; [|done].
  destruct (collect_ancestors _ _) as [l| | |] eqn:Hl; simpl; try done.
  apply store_skips_exact; [by eapply collect_ancestors_depths|done].
Qed.

Lemma new_skips_exact : skips_exact (new : Tree).
Proof. intros i it. simpl. by rewrite lookup_empty. Qed.

(** * One hop *)

Lemma elem_of_skip_depths n : n ∈ SKIP_DEPTHS ↔ ∃ k, (1 ≤ k ≤ 16)%N ∧ n = (4 ^ k)%N.
Proof.
  split.
  - revert n. apply Forall_forall. unfold SKIP_DEPTHS.
    repeat (constructor; [eexists; split; [|reflexivity]; lia|]). constructor.
  - intros (k & Hk & ->). unfold SKIP_DEPTHS. rewrite !elem_of_cons.
    assert (k = 1 ∨ k = 2 ∨ k = 3 ∨ k = 4 ∨ k = 5 ∨ k = 6 ∨ k = 7 ∨ k = 8 ∨ k = 9 ∨ k = 10 ∨ k = 11 ∨
      k = 12 ∨ k = 13 ∨ k = 14 ∨ k = 15 ∨ k = 16)%N as Hcases by lia.
    clear Hk. naive_solver.
Qed.

Lemma pow4_pos (k : N) : (0 < 4 ^ k)%N.
Proof. apply N.neq_0_lt_0, N.pow_nonzero. lia. Qed.

Lemma pow4_succ (k : N) : (4 ^ (k + 1) = 4 * 4 ^ k)%N.
Proof. rewrite N.add_1_r. by rewrite N.pow_succ_r'. Qed.

Lemma pow4_divide (j k : N) : (j ≤ k)%N → (4 ^ j | 4 ^ k)%N.
Proof. intros Hjk. exists (4 ^ (k - j))%N. rewrite <-N.pow_add_r. f_equal. lia. Qed.

(** The depths recorded at depth [n]. *)
Lemma ancestor_depths_pow n e :
  e ∈ ancestor_depths n ↔ ∃ k, (1 ≤ k ≤ 16)%N ∧ (4 ^ k | n)%N ∧ (4 ^ k ≤ n)%N ∧ e = (n - 4 ^ k)%N.
Proof.
  rewrite elem_of_ancestor_depths. setoid_rewrite elem_of_skip_depths.
  setoid_rewrite N.Lcm0.mod_divide. naive_solver.
Qed.

(** C4: what [insert] records: whatever its ancestor query answers, and on every branch,
    if the skip lists of the tree were exact then afterwards every stored block at depth
    [n] records ancestors at exactly the depths [n - 4^k], for the powers of four up to
    [4^16] that divide [n] and do not exceed it.  Over the query as written, only blocks
    at depths without such a power are accepted ([reachable_depth_bound]). *)
Theorem insert_skip_depths find b t i it (e : N) :
  skips_exact t → blocks (insert_with find b t).1 !! i = Some it →
  e ∈ (item_ancestors it).*1 ↔
  ∃ k, (1 ≤ k ≤ 16)%N ∧ (4 ^ k | item_depth it)%N ∧ (4 ^ k ≤ item_depth it)%N ∧ e = (item_depth it - 4 ^ k)%N.
Proof.
  intros Hex Hi. rewrite (insert_with_skips_exact find b t Hex i it Hi). apply ancestor_depths_pow.
Qed.

(** The least of the recorded depths that are not above the target. *)
Lemma foldl_min_depth_least (l : list (N * Identifier)) e y :
  y ∈ e :: l → ((foldl min_depth_entry e l).1 ≤ y.1)%N.
Proof.
  revert e y. induction l as [|z l IH]; intros e y; simpl.
  - rewrite list_elem_of_singleton. by intros ->.
  - assert ((min_depth_entry e z).1 ≤ e.1 ∧ (min_depth_entry e z).1 ≤ z.1)%N as [He Hz].
    { unfold min_depth_entry. case_decide; lia. }
    rewrite !elem_of_cons. intros [->|[->|Hy]].
    + etrans; [apply IH; left|done].
    + etrans; [apply IH; left|done].
    + apply IH. by right.
Qed.

(** [k] is the exponent of the longest hop from depth [n] that does not pass [d]. *)
Definition longest_hop n d (k : N) : Prop :=
  (k ≤ 16)%N ∧ (4 ^ k | n)%N ∧ (d + 4 ^ k ≤ n)%N ∧
  (k = 16 ∨ ¬ (4 ^ (k + 1) | n) ∨ n < d + 4 ^ (k + 1))%N.

(** No recorded hop that does not pass the target is longer. *)
Lemma longest_hop_max n d k j :
  longest_hop n d k → (1 ≤ j ≤ 16)%N → (4 ^ j | n)%N → (d + 4 ^ j ≤ n)%N → (j ≤ k)%N.
Proof.
  intros (Hk & _ & _ & Hmax) Hj Hdiv Hle. destruct (decide (j ≤ k)%N) as [|Hgt]; [done|].
  assert (4 ^ (k + 1) | 4 ^ j)%N as Hd by (apply pow4_divide; lia).
  assert (4 ^ (k + 1) ≤ 4 ^ j)%N as Hp by (apply N.pow_le_mono_r; lia).
  destruct Hmax as [->|[Hnd|Hlt]]; [lia| |lia]. destruct Hnd. by etrans.
Qed.

Lemma recorded_depth t i it n x :
  skips_exact t → blocks t !! i = Some it → (n, x) ∈ item_ancestors it → n ∈ ancestor_depths (item_depth it).
Proof.
  intros Hex Hi Hin. rewrite <-(Hex _ _ Hi). apply list_elem_of_fmap. by exists (n, x).
Qed.

(** With a recorded depth not above the target, the loop jumps to the least one. *)
Lemma least_recorded t i it p d n :
  skips_exact t → blocks t !! i = Some it → n ∈ ancestor_depths (item_depth it) → (d ≤ n)%N →
  ∃ e, (e, next_ancestor_id it p d) ∈ item_ancestors it ∧ (d ≤ e)%N ∧ (e ≤ n)%N.
Proof.
  intros Hex Hi Hn Hd. rewrite <-(Hex _ _ Hi) in Hn. apply list_elem_of_fmap in Hn as ([n' x] & -> & Hn).
  assert ((n', x) ∈ filter (λ e, (d ≤ e.1)%N) (item_ancestors it)) as Hf by by apply list_elem_of_filter.
  unfold next_ancestor_id. destruct (filter _ _) as [|e l] eqn:Hl; [by apply not_elem_of_nil in Hf|]. simpl.
  assert (foldl min_depth_entry e l ∈ filter (λ e, (d ≤ e.1)%N) (item_ancestors it)) as Hin.
  { rewrite Hl. apply foldl_min_depth_elem. }
  apply list_elem_of_filter in Hin as [Hle Hin]. exists (foldl min_depth_entry e l).1.
  rewrite <-surjective_pairing. split_and!; [done..|]. by apply (foldl_min_depth_least l e (n', x)).
Qed.

(** The loop takes the longest hop. *)
Lemma next_hop t i it p d k :
  wf t → skips_exact t → blocks t !! i = Some it → parent_id (item_block it) = Some p →
  longest_hop (item_depth it) d k →
  ∃ nit, blocks t !! next_ancestor_id it p d = Some nit ∧ item_depth nit = (item_depth it - 4 ^ k)%N ∧
    rtc (tree_parent t) i (next_ancestor_id it p d).
Proof.
  intros Hwf Hex Hi Hp Hk. pose proof Hk as (Hk16 & Hdiv & Hle & _). pose proof (pow4_pos k).
  destruct (decide (k = 0)%N) as [->|Hk0].
  - destruct (next_ancestor_id_cases it p d) as [->|(e & Hin & Hde)].
    + destruct (wf_parent _ Hwf _ _ _ Hi Hp) as (pit & Hpit & Heq & _). exists pit.
      split_and!; [done|simpl; lia|]. apply rtc_once. by exists it.
    + assert (e ∈ ancestor_depths (item_depth it)) as (j & Hj & Hjd & Hjle & ->)%ancestor_depths_pow
        by (by eapply recorded_depth).
      pose proof (longest_hop_max _ _ _ _ Hk Hj Hjd). lia.
  - destruct (least_recorded t i it p d (item_depth it - 4 ^ k)) as (e & Hin & Hde & Hmin); [done..| |lia|].
    { apply ancestor_depths_pow. exists k. split_and!; [lia|lia|done|lia|done]. }
    destruct (wf_ancestors _ Hwf _ _ _ _ Hi Hin) as [_ (Hr & nit & Hn & Hnd)].
    exists nit. split_and!; [done| |done]. rewrite Hnd.
    assert (e ∈ ancestor_depths (item_depth it)) as (j & Hj & Hjd & Hjle & ->)%ancestor_depths_pow
      by (by eapply recorded_depth).
    assert (j ≤ k)%N as Hjk by (apply (longest_hop_max _ _ _ _ Hk); [done..|lia]).
    pose proof (N.pow_le_mono_r 4 j k). lia.
Qed.

(** * The number of hops *)

(** [hops d n h]: taking the longest hop each time leads from depth [n] to [d] in [h]
    hops. *)
Inductive hops d : N → N → Prop :=
| hops_here : hops d d 0
| hops_step n k h : longest_hop n d k → hops d (n - 4 ^ k) h → hops d n (h + 1).

Lemma ancestor_loop_hops t i it d h (fuel : nat) :
  wf t → skips_exact t → blocks t !! i = Some it → hops d (item_depth it) h → (h < N.of_nat fuel)%N →
  ∃ x, ancestor_loop fuel t d it = Ok x ∧ tree_ancestor t i d x.
Proof.
  intros Hwf Hex Hi Hh. remember (item_depth it) as n eqn:Hn.
  revert i it Hn Hi fuel. induction Hh as [|n k h Hk Hh IH]; intros i it Hn Hi fuel Hfuel;
    (destruct fuel as [|fuel]; [lia|]); simpl; rewrite <-Hn.
  - rewrite decide_False, decide_True by lia. exists i. rewrite (wf_id _ Hwf _ _ Hi).
    split; [done|]. split; [done|eauto].
  - pose proof Hk as (_ & _ & Hle & _). pose proof (pow4_pos k). rewrite !decide_False by lia.
    destruct (parent_id (item_block it)) as [p|] eqn:Hp; [|rewrite (wf_genesis _ Hwf _ _ Hi Hp) in Hn; lia].
    simpl. destruct (next_hop t i it p d k) as (nit & Hnext & Hdepth & Hr); [done..|by subst|].
    rewrite Hnext. simpl. destruct (IH _ nit ltac:(congruence) Hnext fuel) as (x & Hx & Hanc & Hxd); [lia|].
    exists x. split; [done|]. split; [by etrans|done].
Qed.

(** Descending: from a multiple of [4^k] less than [m + 1] times [4^k] above the target,
    [m] hops of length [4^k] and three of every shorter length are enough. *)
Lemma hops_down (k m : N) n d :
  (k ≤ 16)%N → (k = 16 ∨ m ≤ 3)%N → (4 ^ k | n)%N → (d ≤ n)%N → (n - d < (m + 1) * 4 ^ k)%N →
  ∃ h, hops d n h ∧ (h ≤ m + 3 * k)%N.
Proof.
  revert m n. induction k as [|k IHk] using N.peano_ind; intros m.
  - induction m as [|m IHm] using N.peano_ind; intros n _ Hm _ Hd Hlt.
    + assert (n = d) as -> by (simpl in Hlt; lia). exists 0%N. split; [constructor|lia].
    + destruct (decide (n = d)) as [->|Hne]; [exists 0%N; split; [constructor|lia]|].
      destruct (IHm (n - 4 ^ 0)%N) as (h & Hh & Hle); [lia|lia|by apply N.divide_1_l|simpl; lia|simpl in *; lia|].
      exists (h + 1)%N. split; [|lia]. apply (hops_step _ _ 0); [|done].
      split_and!; [lia|by apply N.divide_1_l|simpl; lia|right; right; simpl in *; lia].
  - rewrite <-N.add_1_r in *. pose proof (pow4_succ k) as Hpow. pose proof (pow4_pos k).
    induction m as [|m IHm] using N.peano_ind; intros n Hk Hm Hdiv Hd Hlt;
      (destruct (decide (n - d < 4 ^ (k + 1))%N) as [Hshort|Hlong];
       [destruct (IHk 3%N n) as (h & Hh & Hle); [lia|lia| |lia|lia|exists h; split; [done|lia]];
        etrans; [|exact Hdiv]; apply pow4_divide; lia|]).
    + lia.
    + destruct (IHm (n - 4 ^ (k + 1))%N) as (h & Hh & Hle); [lia|lia|by apply N.divide_sub_r|lia|lia|].
      exists (h + 1)%N. split; [|lia]. apply (hops_step _ _ (k + 1)); [|done].
      split_and!; [lia|done|lia|]. destruct Hm as [->|Hm]; [by left|]. right. right.
      rewrite (pow4_succ (k + 1)). nia.
Qed.
(** A number [r] times [4^k] above a multiple of [4^(k+1)], for [r] from one to three,
    is not one. *)
Lemma not_aligned (k r q n : N) :
  (0 < r < 4)%N → n = (4 ^ k * (4 * q + r))%N → ¬ (4 ^ (k + 1) | n)%N.
Proof.
  intros Hr -> [z Hz]. rewrite pow4_succ in Hz. pose proof (pow4_pos k).
  assert (4 * q + r = z * 4)%N by nia. lia.
Qed.

(** Climbing: at most three hops of every length below [4^K] lead to a multiple of
    [4^K], unless the target is reached before. *)
Lemma hops_up (j K m : N) n d :
  (j ≤ K)%N → (K ≤ 16)%N → (K = 16 ∨ m ≤ 3)%N → (4 ^ (K - j) | n)%N → (d ≤ n)%N →
  (n - d < (m + 1) * 4 ^ K)%N →
  ∃ h, hops d n h ∧ (h ≤ 3 * j + m + 3 * K)%N.
Proof.
  revert n. induction j as [|j IHj] using N.peano_ind; intros n Hj HK Hm Hdiv Hd Hlt.
  - rewrite N.sub_0_r in Hdiv. destruct (hops_down K m n d) as (h & Hh & Hle); [done..|].
    exists h. split; [done|lia].
  - set (k := (K - N.succ j)%N) in *. assert (K - j = k + 1)%N as Hk by lia. pose proof (pow4_pos k).
    assert (∀ r n q, (r < 4)%N → n = (4 ^ k * (4 * q + r))%N → (d ≤ n)%N → (n - d < (m + 1) * 4 ^ K)%N →
      ∃ h, hops d n h ∧ (h ≤ r + 3 * j + m + 3 * K)%N) as Hclimb.
    { clear n Hdiv Hd Hlt. induction r as [|r IHr] using N.peano_ind; intros n q Hr Hn Hd Hlt.
      - destruct (IHj n) as (h & Hh & Hle); [lia|done|done| |done|done|exists h; split; [done|lia]].
        rewrite Hk, pow4_succ. exists q. lia.
      - destruct (decide (n - d < 4 ^ k)%N) as [Hshort|Hlong].
        + destruct (hops_down k 0 n d) as (h & Hh & Hle); [lia|lia| |done|lia|exists h; split; [done|lia]].
          exists (4 * q + N.succ r)%N. lia.
        + destruct (IHr (n - 4 ^ k)%N q) as (h & Hh & Hle); [lia|nia|lia|lia|].
          exists (h + 1)%N. split; [|lia]. apply (hops_step _ _ k); [|done].
          split_and!; [lia|exists (4 * q + N.succ r)%N; lia|lia|]. right. left.
          apply (not_aligned k (N.succ r) q); [lia|done]. }
    destruct Hdiv as [z Hz]. pose proof (N.div_mod z 4) as Hdm. pose proof (N.mod_lt z 4).
    destruct (Hclimb (z `mod` 4)%N n (z / 4)%N) as (h & Hh & Hle); [lia| |done|done|exists h; split; [done|lia]].
    rewrite <-Hdm by lia. lia.
Qed.

(** C3: the skip lists make the walk logarithmic.  On a well-formed tree whose skip lists
    are exact, from a stored block to a target less than [(m + 1) * 4^K] levels above it,
    where [K] is at most 16 (the largest recorded power) and [m] at most three unless
    [K = 16], the [loop] of [ancestor_id_at_depth] reaches the ancestor with no more than
    [6 * K + m] hops.  Beyond [4^17] levels the bound grows linearly, with [m]. *)
Theorem ancestor_loop_fast t i it (ancestor_depth K m : N) (fuel : nat) :
  wf t → skips_exact t → blocks t !! i = Some it → (ancestor_depth ≤ item_depth it)%N →
  (K ≤ 16)%N → (K = 16 ∨ m ≤ 3)%N → (item_depth it - ancestor_depth < (m + 1) * 4 ^ K)%N →
  (6 * K + m < N.of_nat fuel)%N →
  ∃ x, ancestor_loop fuel t ancestor_depth it = Ok x ∧ tree_ancestor t i ancestor_depth x.
Proof.
  intros Hwf Hex Hi Hd HK Hm Hlt Hfuel.
  destruct (hops_up K K m (item_depth it) ancestor_depth) as (h & Hh & Hle); [done..| |done|done|].
  - rewrite N.sub_diag. apply N.divide_1_l.
  - eapply ancestor_loop_hops; [done..|lia].
Qed.

(** * The reference walk *)

(** C2: the walk over the skip lists is equivalent to the reference: with enough fuel
    the [loop] answers for every depth up to that of the block, with the id that following
    one parent after the other leads to. *)
Theorem ancestor_loop_equiv t i it (ancestor_depth : N) (fuel : nat) :
  wf t → blocks t !! i = Some it → (ancestor_depth ≤ item_depth it)%N →
  (N.to_nat (item_depth it - ancestor_depth) < fuel)%nat →
  ancestor_loop fuel t ancestor_depth it =
    ok_or (parent_walk t (N.to_nat (item_depth it - ancestor_depth)) i) UnknownBlock.
Proof.
  intros Hwf Hi Hd Hfuel.
  destruct (ancestor_loop_finds t ancestor_depth fuel i it) as (x & -> & Hx); [done..|lia|].
  by destruct (tree_ancestor_walk _ _ _ _ _ Hwf Hi Hx) as [-> _].
Qed.
End skip.

(** * A concrete tree *)

(** A line of [n] blocks below the genesis. *)
Fixpoint line_below (n : nat) (b : SimpleBlock) : list SimpleBlock :=
  match n with
  | O => []
  | S n => let c := sample_child 0 b [] in c :: line_below n c
  end.

(** Blocks inserted one after the other over the reference query. *)
Definition build (bs : list SimpleBlock) (t : MemoryForkTree SimpleBlock BlockId) :=
  foldl (λ t b, (insert_with reference_find b t).1) t bs.

(** No inserted id is in use. *)
Fixpoint fresh_all (bs : list SimpleBlock) (t : MemoryForkTree SimpleBlock BlockId) : bool :=
  match bs with
  | [] => true
  | b :: bs => bool_decide (blocks t !! id b = None) && fresh_all bs (insert_with reference_find b t).1
  end.

Lemma build_wf bs t :
  wf t → skips_exact t → fresh_all bs t = true → wf (build bs t) ∧ skips_exact (build bs t).
Proof.
  revert t. induction bs as [|b bs IH]; intros t Hwf Hex; simpl; [done|].
  intros [Hb%bool_decide_eq_true Hfresh]%andb_prop. apply IH; [|by apply insert_with_skips_exact|done].
  by apply insert_with_wf; [|apply reference_find_sound|].
Qed.

Definition long_line : MemoryForkTree SimpleBlock BlockId :=
  build (sample_genesis :: line_below 21 sample_genesis) new.
Definition long_line_tip : MemoryForkTreeItem SimpleBlock BlockId :=
  mk_item (mk_block ValidSeal (sample_id 0 21) (Some (sample_id 0 20)) 21 []) 21 [] [].

Lemma long_line_wf : wf long_line ∧ skips_exact long_line.
Proof. apply build_wf; [apply new_wf|apply new_skips_exact|vm_compute; reflexivity]. Qed.

(** From depth 21 to the genesis: over 20, 16 and 0. *)
Example long_line_hops : ancestor_loop 4 long_line 0 long_line_tip = Ok (sample_id 0 0).
Proof. vm_compute. reflexivity. Qed.

Lemma ancestor_loop_fast_witness :
  ∃ x, ancestor_loop 14 long_line 0 long_line_tip = Ok x ∧ tree_ancestor long_line (sample_id 0 21) 0 x.
Proof.
  apply (ancestor_loop_fast long_line (sample_id 0 21) long_line_tip 0 2 1 14).
  - apply long_line_wf.
  - apply long_line_wf.
  - vm_compute. reflexivity.
  - vm_compute. discriminate.
  - lia.
  - lia.
  - vm_compute. reflexivity.
  - vm_compute. reflexivity.
Defined.

Lemma ancestor_loop_equiv_witness :
  ancestor_loop 20 long_line 2 long_line_tip = ok_or (parent_walk long_line 19 (sample_id 0 21)) UnknownBlock.
Proof.
  apply (ancestor_loop_equiv long_line (sample_id 0 21) long_line_tip 2 20).
  - apply long_line_wf.
  - vm_compute. reflexivity.
  - vm_compute. discriminate.
  - vm_compute. lia.
Defined.

(** The block at depth 16 of a line records the ancestors 4 and 16 levels above it. *)
Lemma insert_skip_depths_witness :
  12%N ∈ [12%N; 0%N] ↔ ∃ k, (1 ≤ k ≤ 16)%N ∧ (4 ^ k | 16)%N ∧ (4 ^ k ≤ 16)%N ∧ 12%N = (16 - 4 ^ k)%N.
Proof.
  apply (insert_skip_depths reference_find sample_5 long_line (sample_id 0 16)
    (mk_item (mk_block ValidSeal (sample_id 0 16) (Some (sample_id 0 15)) 16 [])
       16 [sample_id 0 17] [(12%N, sample_id 0 12); (0%N, sample_id 0 0)])).
  - apply long_line_wf.
  - vm_compute. reflexivity.
Defined.
