(* ===== verification/FlatState.v ===== *)
(** FlatState: the traits of [blockchain/src/state.rs] and the overlay that
    collects a changeset on top of a flat state. *)
From S2P Require Import Prelude Block ForkTree.

(** [trait FlatState<FT>]. *)
Class FlatState (FS FT Key Value Identifier QueryError : Type) : Type :=
  fs_get : FS → Key → Identifier → FT → outcome QueryError (option Value).
#[global] Hint Mode FlatState ! ! - - - - : typeclass_instances.

(** [trait FlatStateMut<FT>]. *)
Class FlatStateMut (FS FT Key Value Identifier ApplyError : Type) : Type :=
  fs_apply : list (Key * option Value) → Identifier → FT → stateful FS ApplyError unit.
#[global] Hint Mode FlatStateMut ! ! - - - - : typeclass_instances.

(** [trait FlatStateTransactional<FT>]. *)
Class FlatStateTransactional (FS FT Transaction Key Value Identifier ApplyError : Type) : Type :=
  fs_apply_transactional :
    FS → list (Key * option Value) → Identifier → FT → stateful Transaction ApplyError unit.

(** [struct OverlayedFlatState]. *)
Record OverlayedFlatState (FS FT Key Value Identifier : Type) `{Countable Key} : Type := mk_overlay {
  flat_state : FS;
  fork_tree : FT;
  overlay_block_id : Identifier;
  changeset : gmap Key (option Value)
}.
Arguments mk_overlay {FS FT Key Value Identifier _ _} _ _ _ _.
Arguments flat_state {FS FT Key Value Identifier _ _} _.
Arguments fork_tree {FS FT Key Value Identifier _ _} _.
Arguments overlay_block_id {FS FT Key Value Identifier _ _} _.
Arguments changeset {FS FT Key Value Identifier _ _} _.

Module Overlay.
Section overlay.
Context {FS FT Key Value Identifier QueryError : Type} `{Countable Key}.
Context `{!FlatState FS FT Key Value Identifier QueryError}.
Abbreviation O := (OverlayedFlatState FS FT Key Value Identifier).
Implicit Types (o : O) (k : Key) (v : Value).

(** [FlatState::overlayed], the provided method. *)
Definition overlayed (s : FS) (block_id : Identifier) (ft : FT) : O :=
  mk_overlay s ft block_id ∅.

(** [OverlayedFlatState::get]. *)
Definition get o k : outcome QueryError (option Value) :=
  match changeset o !! k with
  | Some value => Ok value
  | None => fs_get (flat_state o) k (overlay_block_id o) (fork_tree o)
  end.

(** [OverlayedFlatState::insert]. *)
Definition insert k v o : O :=
  mk_overlay (flat_state o) (fork_tree o) (overlay_block_id o) (<[k := Some v]> (changeset o)).

(** [OverlayedFlatState::remove]. *)
Definition remove k o : O :=
  mk_overlay (flat_state o) (fork_tree o) (overlay_block_id o) (<[k := None]> (changeset o)).

(** [OverlayedFlatState::into_changeset]; the order is that of the hash map. *)
Definition into_changeset `{!HashIter Key} o : list (Key * option Value) :=
  hash_iter (changeset o).

(** A sequence of edits of an overlay. *)
Inductive edit : Type := Insert (k : Key) (v : Value) | Remove (k : Key).
Definition run_edit (e : edit) o : O :=
  match e with Insert k v => insert k v o | Remove k => remove k o end.
Definition run_edits (es : list edit) o : O := foldl (flip run_edit) o es.

(** What the last edit of [k] in a sequence leaves there, if any. *)
Definition last_edit k (es : list edit) : option (option Value) :=
  foldl (λ r e, match e with
    | Insert k' v => if decide (k' = k) then Some (Some v) else r
    | Remove k' => if decide (k' = k) then Some None else r
    end) None es.

Lemma run_edits_frame es o :
  flat_state (run_edits es o) = flat_state o ∧ fork_tree (run_edits es o) = fork_tree o ∧
  overlay_block_id (run_edits es o) = overlay_block_id o.
Proof.
  revert o. induction es as [|e es IH]; intros o; [done|].
  specialize (IH (run_edit e o)). by destruct e.
Qed.

Lemma changeset_run_edits k es o :
  changeset (run_edits es o) !! k =
    match last_edit k es with Some r => Some r | None => changeset o !! k end.
Proof.
  induction es as [|e es IH] using rev_ind; [done|].
  unfold run_edits, last_edit in *. rewrite !foldl_app. simpl.
  destruct e as [k' v|k']; simpl; rewrite lookup_insert; case_decide; congruence || done.
Qed.

(** An overlay behaves as the flat state with its edits on top: reading a key
    gives the value of the last [insert] (or nothing after a [remove]) when the key
    was edited, and otherwise what the flat state holds at the overlay's block. *)
Theorem get_after_edits (s : FS) (block_id : Identifier) (ft : FT) (es : list edit) k :
  get (run_edits es (overlayed s block_id ft)) k =
    match last_edit k es with Some r => Ok r | None => fs_get s k block_id ft end.
Proof.
  unfold get. rewrite changeset_run_edits. simpl. rewrite lookup_empty.
  destruct (run_edits_frame es (overlayed s block_id ft)) as (-> & -> & ->).
  by destruct (last_edit k es).
Qed.

Lemma into_changeset_spec `{!HashIter Key} o :
  NoDup (into_changeset o).*1 ∧ list_to_map (into_changeset o) = changeset o.
Proof. split; [apply hash_iter_NoDup_fst|apply list_to_map_hash_iter]. Qed.
End overlay.
End Overlay.
