(* ===== verification/MemoryFlatState.v ===== *)
(** MemoryFlatState: the in-memory flat state of [blockchain/src/memory/state.rs]. *)
From S2P Require Import Prelude Block SimpleBlock ForkTree MemoryForkTree.
From S2P Require Import MemoryForkTreeInv MemoryForkTreeWalk FlatState.

(** [struct MemoryFlatState]: per key, per depth, per block, the new value
    ([None] for a removal). *)
Record MemoryFlatState (K V Identifier : Type) `{Countable K, Countable Identifier} : Type := mk_state {
  state : gmap K (gmap N (gmap Identifier (option V)))
}.
Arguments mk_state {K V Identifier _ _ _ _} _.
Arguments state {K V Identifier _ _ _ _} _.

Section memory_flat_state.
Context {K V Identifier Block FT QueryError : Type} `{Countable K, Countable Identifier}.
Context `{!Identified Block Identifier, !ForkTree FT Block Identifier QueryError}.
Context `{!HashIter Identifier}.
Abbreviation MS := (MemoryFlatState K V Identifier).
Implicit Types (s : MS) (ft : FT) (k : K) (i p x : Identifier).

(** [MemoryFlatState::new]. *)
Definition new_state : MS := mk_state ∅.

(** The inner [for] of [get]: the first block of a depth that is an ancestor. *)
Fixpoint search_ids (is_anc : Identifier → outcome QueryError bool)
    (l : list (Identifier * option V)) : outcome QueryError (option (option V)) :=
  match l with
  | [] => Ok None
  | (search_id, search_value) :: l =>
    found ← is_anc search_id;
    if found : bool then Ok (Some search_value) else search_ids is_anc l
  end.

(** The outer [for] of [get], over the depths. *)
Fixpoint search_depths (is_anc : Identifier → outcome QueryError bool)
    (l : list (N * gmap Identifier (option V))) : outcome QueryError (option V) :=
  match l with
  | [] => Ok None
  | (_, search_id_to_value) :: l =>
    r ← search_ids is_anc (hash_iter search_id_to_value);
    match r with
    | Some search_value => Ok search_value
    | None => search_depths is_anc l
    end
  end.

(** [<MemoryFlatState as FlatState>::get]. *)
Definition get_value s k (block_id : Identifier) ft : outcome QueryError (option V) :=
  match state s !! k with
  | Some depth_to_id_value =>
    depth ← ft_block_depth ft block_id;
    search_depths (is_ancestor ft block_id) (btree_range_rev depth_to_id_value depth)
  | None => Ok None
  end.

(** One iteration of the [for] of [apply]. *)
Definition record_change (depth : N) (block_id : Identifier) s (change : K * option V) : MS :=
  let per_depth := default ∅ (state s !! change.1) in
  let per_id := default ∅ (per_depth !! depth) in
  mk_state (<[change.1 := <[depth := <[block_id := change.2]> per_id]> per_depth]> (state s)).

(** [<MemoryFlatState as FlatStateMut>::apply]. *)
Definition apply_changes (changes : list (K * option V)) (block_id : Identifier) ft
    : stateful MS QueryError unit :=
  depth ← query (λ _, ft_block_depth ft block_id);
  modify (λ s, foldl (record_change depth block_id) s changes).

#[global] Instance memory_flat_state : FlatState MS FT K V Identifier QueryError := get_value.
#[global] Instance memory_flat_state_mut : FlatStateMut MS FT K V Identifier QueryError :=
  apply_changes.
End memory_flat_state.

(** * Reading the state on a tree that honours the contract *)
Section reading.
Context {K V Identifier Block FT QueryError : Type} `{Countable K, Countable Identifier}.
Context `{!Identified Block Identifier, !ForkTree FT Block Identifier QueryError}.
Context `{!HashIter Identifier}.
Abbreviation MS := (MemoryFlatState K V Identifier).
Implicit Types (s : MS) (ft : FT) (k : K) (i p x j : Identifier) (v : option V).

(** The change of key [k] recorded for block [i] at depth [d]. *)
Definition change_at s k (d : N) i : option (option V) :=
  per_depth ← state s !! k; per_id ← per_depth !! d; per_id !! i.

(** Changes are recorded for known blocks, under their depth. *)
Definition state_wf ft s : Prop := ∀ k d i v,
  change_at s k d i = Some v → ft_block_depth ft i = Ok d.

(** The reference semantics of a read: the change of the block itself, or else
    what its parent inherits; nothing when no ancestor changed the key. *)
Inductive inherits ft s k : Identifier → option V → Prop :=
| inherits_here i d v :
    ft_block_depth ft i = Ok d → change_at s k d i = Some v → inherits ft s k i v
| inherits_parent i d p v :
    ft_block_depth ft i = Ok d → change_at s k d i = None → parent_of ft i p →
    inherits ft s k p v → inherits ft s k i v
| inherits_nothing i d b :
    ft_block_depth ft i = Ok d → change_at s k d i = None → ft_block ft i = Ok b →
    parent_id b = None → inherits ft s k i None.

Lemma search_ids_point (is_anc : Identifier → outcome QueryError bool)
    (l : list (Identifier * option V)) x :
  (∀ j v, (j, v) ∈ l → is_anc j = Ok (bool_decide (j = x))) →
  search_ids is_anc l = Ok ((list_to_map l : gmap Identifier (option V)) !! x).
Proof.
  induction l as [|[j v] l IH]; intros Hl; simpl; [done|].
  rewrite (Hl j v) by left. simpl. case_bool_decide as Heq.
  - by rewrite Heq, lookup_insert_eq.
  - rewrite lookup_insert_ne by done. apply IH. intros j' v' Hin. eapply Hl. by right.
Qed.

Lemma search_ids_ext (f g : Identifier → outcome QueryError bool) (l : list (Identifier * option V)) :
  (∀ j v, (j, v) ∈ l → f j = g j) → search_ids f l = search_ids g l.
Proof.
  induction l as [|[j v] l IH]; intros Hl; simpl; [done|].
  rewrite (Hl j v) by left. destruct (g j) as [[]| | |]; simpl; try done.
  apply IH. intros j' v' Hin. eapply Hl. by right.
Qed.

Lemma search_depths_ext (f g : Identifier → outcome QueryError bool)
    (l : list (N * gmap Identifier (option V))) :
  (∀ d m j v, (d, m) ∈ l → m !! j = Some v → f j = g j) → search_depths f l = search_depths g l.
Proof.
  induction l as [|[d m] l IH]; intros Hl; simpl; [done|].
  rewrite (search_ids_ext f g).
  - destruct (search_ids g _) as [[]| | |]; simpl; try done.
    apply IH. intros d' m' j v Hin. eapply Hl. by right.
  - intros j v Hjv%elem_of_hash_iter. eapply Hl; [by left|done].
Qed.

Section contract.
Context (ft : FT) (Hspec : ForkTreeSpec ft).

Lemma is_ancestor_self_depth i j (d : N) :
  ft_block_depth ft i = Ok d → ft_block_depth ft j = Ok d →
  is_ancestor ft i j = Ok (bool_decide (j = i)).
Proof using Hspec.
  intros Hi Hj. destruct (is_ancestor_shallower ft i j d d) as (answer & -> & Hans); [done..|].
  f_equal. destruct answer; symmetry.
  - apply bool_decide_eq_true. apply (ancestor_at_depth_unique ft Hspec i j i d); [by apply Hans|done..].
  - apply bool_decide_eq_false. intros ->. discriminate (proj2 Hans (rtc_refl _ _)).
Qed.

(** A block shallower than [i] is an ancestor of [i] when it is one of its parent. *)
Lemma is_ancestor_via_parent i p j (d e : N) :
  parent_of ft i p → ft_block_depth ft i = Ok d → ft_block_depth ft j = Ok e → (e < d)%N →
  is_ancestor ft i j = is_ancestor ft p j.
Proof using Hspec.
  intros Hp Hi Hj Hlt. destruct (parent_of_depth ft Hspec _ _ _ Hp Hi) as (dp & Hdp & ->).
  destruct (is_ancestor_shallower ft i j (dp + 1) e) as (a1 & -> & H1); [done..|lia|].
  destruct (is_ancestor_shallower ft p j dp e) as (a2 & -> & H2); [done..|lia|].
  f_equal. apply eq_true_iff_eq. rewrite H1, H2. split; [|by apply rtc_l].
  intros [<-|(q & Hq & Hr)]%rtc_inv; [assert (e = dp + 1)%N by congruence; lia|].
  by rewrite (parent_of_functional ft _ _ _ Hp Hq).
Qed.

Lemma known_parent i (d : N) :
  ft_block_depth ft i = Ok d →
  ∃ b, ft_block ft i = Ok b ∧
    match parent_id b with
    | None => d = 0%N
    | Some p => d ≠ 0%N ∧ ft_block_depth ft p = Ok (d - 1)%N
    end.
Proof using Hspec.
  intros Hd. pose proof (proj2 (spec_known _ Hspec i)) as Hk. rewrite Hd in Hk.
  destruct (ft_block ft i) as [b| | |] eqn:Hb; try (by destruct Hk). exists b. split; [done|].
  destruct (parent_id b) as [p|] eqn:Hp.
  - destruct (parent_of_depth ft Hspec i p d) as (dp & -> & ->); [by exists b|done|].
    split; [lia|]. f_equal. lia.
  - pose proof (spec_genesis _ Hspec _ _ Hb Hp). congruence.
Qed.

(** The search over the depths is a walk up the parents. *)
Lemma get_value_unfold s k i (d : N) :
  state_wf ft s → ft_block_depth ft i = Ok d →
  get_value s k i ft =
    match change_at s k d i with
    | Some v => Ok v
    | None =>
      match ft_block ft i with
      | Ok b => match parent_id b with Some p => get_value s k p ft | None => Ok None end
      | _ => Ok None
      end
    end.
Proof using Hspec.
  intros Hwf Hd. destruct (known_parent i d Hd) as (b & Hb & Hpar). rewrite Hb.
  unfold get_value. destruct (state s !! k) as [dm|] eqn:Hk.
  2: { unfold change_at. rewrite Hk. simpl. by destruct (parent_id b). }
  assert (∀ e m j v, dm !! e = Some m → m !! j = Some v → ft_block_depth ft j = Ok e) as Hdm.
  { intros e m j v He Hj. apply (Hwf k e j v). unfold change_at. rewrite Hk. simpl.
    by rewrite He. }
  rewrite Hd. simpl. rewrite btree_range_rev_unfold.
  set (rest := if decide (d = 0%N) then [] else _).
  assert (search_depths (is_ancestor ft i) rest =
    match parent_id b with
    | Some p => depth ← ft_block_depth ft p; search_depths (is_ancestor ft p) (btree_range_rev dm depth)
    | None => Ok None
    end) as Hrest.
  { destruct (parent_id b) as [p|] eqn:Hp; [|unfold rest; by rewrite decide_True].
    destruct Hpar as [Hne Hdp]. unfold rest. rewrite decide_False, Hdp by done. simpl.
    apply search_depths_ext. intros e m j v [He Hle]%elem_of_btree_range_rev Hj.
    eapply is_ancestor_via_parent; [by exists b|done|by eapply Hdm|lia]. }
  unfold change_at. rewrite Hk. simpl. destruct (dm !! d) as [m|] eqn:Hm; simpl; [|done].
  rewrite (search_ids_point _ _ i), list_to_map_hash_iter.
  - by destruct (m !! i).
  - intros j v Hj%elem_of_hash_iter. by eapply is_ancestor_self_depth, Hdm.
Qed.

Lemma get_value_total s k i (d : N) :
  state_wf ft s → ft_block_depth ft i = Ok d →
  ∃ v, get_value s k i ft = Ok v ∧ inherits ft s k i v.
Proof using Hspec.
  intros Hwf. revert i. induction d as [d IH] using (well_founded_induction N.lt_wf_0). intros i Hd.
  rewrite (get_value_unfold s k i d Hwf Hd). destruct (known_parent i d Hd) as (b & Hb & Hpar).
  rewrite Hb. destruct (change_at s k d i) as [v|] eqn:Hc; [exists v; eauto using inherits_here|].
  destruct (parent_id b) as [p|] eqn:Hp; [|exists None; eauto using inherits_nothing].
  destruct Hpar as [Hne Hdp]. destruct (IH (d - 1)%N ltac:(lia) p Hdp) as (v & Hv & Hin).
  exists v. split; [done|]. eapply inherits_parent; [done..|by exists b|done].
Qed.

Lemma inherits_get_value s k i v :
  state_wf ft s → inherits ft s k i v → get_value s k i ft = Ok v.
Proof using Hspec.
  intros Hwf. induction 1 as [i d v Hd Hc|i d p v Hd Hc (b & Hb & Hp) _ IH|i d b Hd Hc Hb Hp];
    rewrite (get_value_unfold s k i d Hwf Hd), Hc; [done|by rewrite Hb, Hp|by rewrite Hb, Hp].
Qed.
End contract.

(** * Writing *)

(** The change of key [k] that prevails in a changeset: the last one. *)
Definition last_change k (changes : list (K * option V)) : option (option V) :=
  (list_to_map (reverse changes) : gmap K (option V)) !! k.

Lemma change_at_record (depth : N) b s c k d i :
  change_at (record_change depth b s c) k d i =
    if decide (k = c.1 ∧ d = depth ∧ i = b) then Some c.2 else change_at s k d i.
Proof.
  unfold change_at, record_change. simpl. rewrite lookup_insert.
  case_decide as Hk; simpl; [|rewrite decide_False by naive_solver; done].
  rewrite lookup_insert. case_decide as Hd; simpl.
  - rewrite lookup_insert. case_decide as Hi; simpl; subst.
    + by rewrite decide_True.
    + rewrite decide_False by naive_solver. destruct (state s !! c.1) as [dm|]; simpl; [|done].
      by destruct (dm !! d).
  - rewrite decide_False by naive_solver. subst. by destruct (state s !! c.1).
Qed.

Lemma change_at_foldl (depth : N) b changes s k d i :
  change_at (foldl (record_change depth b) s changes) k d i =
    if decide (d = depth ∧ i = b) then
      match last_change k changes with Some v => Some v | None => change_at s k d i end
    else change_at s k d i.
Proof.
  unfold last_change. induction changes as [|[k' v] changes IH] using rev_ind; [by case_decide|].
  rewrite foldl_snoc, change_at_record, IH, reverse_snoc. simpl. rewrite lookup_insert.
  repeat case_decide; naive_solver.
Qed.

(** [apply] records the changeset for the given block and nothing else: the
    last change of a key wins, other blocks and other keys keep their changes, and
    an unknown block is an error that leaves the state untouched. *)
Theorem apply_changes_result changes b ft s :
  match ft_block_depth ft b with
  | Ok depth =>
    ∃ s', apply_changes changes b ft s = (s', Ok tt) ∧
      ∀ k d i, change_at s' k d i =
        if decide (d = depth ∧ i = b) then
          match last_change k changes with Some v => Some v | None => change_at s k d i end
        else change_at s k d i
  | Err e => apply_changes changes b ft s = (s, Err e)
  | Panicked => apply_changes changes b ft s = (s, Panicked)
  | OutOfFuel => apply_changes changes b ft s = (s, OutOfFuel)
  end.
Proof.
  unfold apply_changes, query, modify, mbind, stateful_bind.
  destruct (ft_block_depth ft b) as [depth| | |]; try done.
  eexists. split; [done|]. intros. apply change_at_foldl.
Qed.



End reading.

(** * What reads return *)
Section results.
Context {K V Identifier Block FT QueryError : Type} `{Countable K, Countable Identifier}.
Context `{!Identified Block Identifier, !ForkTree FT Block Identifier QueryError}.
Context `{!HashIter Identifier}.
Abbreviation MS := (MemoryFlatState K V Identifier).
Implicit Types (s : MS) (ft : FT) (k : K) (i p x j c : Identifier) (v : option V).

(** C10: on a tree that honours the contract, [get] returns for every known block,
    and its result is the change of the nearest ancestor (the block included) that
    changed the key, whatever the iteration order of the hash maps. *)
Theorem get_value_correct ft s k i (d : N) :
  ForkTreeSpec ft → state_wf ft s → ft_block_depth ft i = Ok d →
  (∃ v, get_value s k i ft = Ok v) ∧
  (∀ v, get_value s k i ft = Ok v ↔ inherits ft s k i v).
Proof.
  intros Hspec Hwf Hd. destruct (get_value_total ft Hspec s k i d Hwf Hd) as (v & Hv & Hin).
  split; [by exists v|]. intros v'. split; [|by apply inherits_get_value].
  intros Hv'. by replace v' with v by congruence.
Qed.

Lemma apply_changes_state_wf ft s changes b (d : N) :
  state_wf ft s → ft_block_depth ft b = Ok d →
  state_wf ft (foldl (record_change d b) s changes).
Proof.
  intros Hwf Hd k e i v. rewrite change_at_foldl. case_decide as Heq; [|by apply Hwf].
  destruct Heq as [-> ->]. by intros _.
Qed.

(** Blocks that do not descend from [c] do not see the changes made at [c]. *)
Lemma get_value_frame ft s changes c (dc : N) k i (d : N) :
  ForkTreeSpec ft → state_wf ft s → ft_block_depth ft c = Ok dc → ft_block_depth ft i = Ok d →
  ¬ ancestor_of ft i c →
  get_value (foldl (record_change dc c) s changes) k i ft = get_value s k i ft.
Proof.
  intros Hspec Hwf Hdc. pose proof (apply_changes_state_wf ft s changes c dc Hwf Hdc) as Hwf'.
  revert i. induction d as [d IH] using (well_founded_induction N.lt_wf_0). intros i Hd Hnot.
  rewrite (get_value_unfold ft Hspec _ k i d Hwf' Hd), (get_value_unfold ft Hspec _ k i d Hwf Hd).
  rewrite change_at_foldl, decide_False.
  2: { intros [_ ->]. by apply Hnot. }
  destruct (change_at s k d i); [done|]. destruct (known_parent ft Hspec i d Hd) as (b & Hb & Hpar).
  rewrite Hb. destruct (parent_id b) as [p|] eqn:Hp; [|done]. destruct Hpar as [Hne Hdp].
  apply (IH (d - 1)%N); [lia|done|]. intros Hr. apply Hnot. eapply rtc_l; [by exists b|done].
Qed.

(** A changeset drained from an overlay holds the overlay's changes. *)
Lemma last_change_into_changeset `{!HashIter K} (o : OverlayedFlatState MS FT K V Identifier) k :
  last_change k (Overlay.into_changeset o) = changeset o !! k.
Proof.
  destruct (Overlay.into_changeset_spec o) as [Hnd Hmap]. unfold last_change.
  rewrite <-Hmap at 1. f_equal. apply list_to_map_proper; [|apply reverse_Permutation].
  by rewrite reverse_Permutation.
Qed.

(** C11: committing an overlay, over any fork tree that honours the contract of the
    trait ([ForkTreeSpec]; [MemoryForkTree] as written does so only while it holds
    genesis blocks alone, see [source_contract_only_genesis]): after the edits of an
    overlay opened at [p] are applied to a child [c] of [p] that had no change yet,
    reading a key at [c] gives what the overlay gave, and every block that does not
    descend from [c] reads as before: forks are isolated. *)
Theorem commit_overlay `{!HashIter K} ft s p c (dc : N) (es : list (Overlay.edit (Key := K) (Value := V))) :
  ForkTreeSpec ft → state_wf ft s → parent_of ft c p → ft_block_depth ft c = Ok dc →
  (∀ k, change_at s k dc c = None) →
  let o := Overlay.run_edits es (Overlay.overlayed s p ft) in
  ∃ s', apply_changes (Overlay.into_changeset o) c ft s = (s', Ok tt) ∧
    state_wf ft s' ∧
    (∀ k, get_value s' k c ft = Overlay.get o k) ∧
    (∀ k i d, ft_block_depth ft i = Ok d → ¬ ancestor_of ft i c →
       get_value s' k i ft = get_value s k i ft).
Proof.
  intros Hspec Hwf Hpc Hdc Hnone o.
  destruct (parent_of_depth ft Hspec _ _ _ Hpc Hdc) as (dp & Hdp & Hdc').
  exists (foldl (record_change dc c) s (Overlay.into_changeset o)).
  unfold apply_changes, query, modify, mbind, stateful_bind. rewrite Hdc.
  assert (state_wf ft (foldl (record_change dc c) s (Overlay.into_changeset o))) as Hwf'
    by by apply apply_changes_state_wf.
  split_and!; [done|done| |].
  - intros k. rewrite (get_value_unfold ft Hspec _ k c dc Hwf' Hdc), change_at_foldl.
    rewrite decide_True by done. rewrite Hnone. destruct Hpc as (b & Hb & Hp). rewrite Hb, Hp.
    rewrite last_change_into_changeset.
    unfold Overlay.get. destruct (changeset o !! k); [done|]. subst o.
    destruct (Overlay.run_edits_frame es (Overlay.overlayed s p ft)) as (-> & -> & ->). simpl.
    apply (get_value_frame ft s _ c dc k p dp); [done..|].
    intros Hr. destruct (ancestor_depth ft Hspec _ _ _ Hr Hdp) as (dx & Hdx & Hle & _).
    assert (dx = dc) by congruence. lia.
  - intros k i d Hd Hnot. by eapply get_value_frame.
Qed.
End results.

(** * Reads on the tree as written *)
Section source.
Context {K V Identifier Block : Type} `{Countable K, Countable Identifier}.
Context `{!Identified Block Identifier} `{!HashIter Identifier}.
Abbreviation MS := (MemoryFlatState K V Identifier).
Abbreviation Tree := (MemoryForkTree Block Identifier).
Implicit Types (s : MS) (t : Tree) (k : K) (i j : Identifier) (v : option V).

Lemma search_ids_refused {E} (e : E) (f : Identifier → outcome E bool) (l : list (Identifier * option V)) :
  (∀ j v, (j, v) ∈ l → f j = Err e) →
  search_ids f l = match l with [] => Ok None | _ :: _ => Err e end.
Proof. destruct l as [|[j v] l]; intros Hl; simpl; [done|]. by rewrite (Hl j v) by left. Qed.

Lemma search_depths_refused {E} (e : E) (f : Identifier → outcome E bool)
    (l : list (N * gmap Identifier (option V))) :
  (∀ d m j v, (d, m) ∈ l → m !! j = Some v → f j = Err e) →
  (search_depths f l = Ok None ∧ ∀ d m, (d, m) ∈ l → m = ∅) ∨
  (search_depths f l = Err e ∧ ∃ d m j v, (d, m) ∈ l ∧ m !! j = Some v).
Proof.
  induction l as [|[d m] l IH]; intros Hl; simpl.
  - left. split; [done|]. intros d m Hin. by apply not_elem_of_nil in Hin.
  - rewrite (search_ids_refused e).
    2: { intros j v Hj%elem_of_hash_iter. eapply Hl; [by left|done]. }
    destruct (hash_iter m) as [|[j v] r] eqn:Hm; simpl.
    + assert (m = ∅) as ->.
      { apply map_to_list_empty_iff, Permutation_nil. by rewrite <-hash_iter_perm, Hm. }
      destruct IH as [[Hs Hall]|[Hs (d' & m' & j & v & Hin & Hj)]].
      * intros d' m' j v Hin. eapply Hl. by right.
      * left. split; [done|]. intros d' m' [[= -> ->]|Hin]%elem_of_cons; [done|by eapply Hall].
      * right. split; [done|]. exists d', m', j, v. split; [by right|done].
    + right. split; [done|]. exists d, m, j, v. split; [by left|]. apply elem_of_hash_iter.
      rewrite Hm. by left.
Qed.

Lemma change_at_known s k dm (d : N) i :
  state s !! k = Some dm → change_at s k d i = dm !! d ≫= λ m, m !! i.
Proof. intros Hk. unfold change_at. by rewrite Hk. Qed.

(** The blocks with a recorded change are stored at the recorded depth. *)
Lemma state_wf_stored s k t dm (d : N) m j v :
  state_wf t s → state s !! k = Some dm → dm !! d = Some m → m !! j = Some v →
  ∃ jt, blocks t !! j = Some jt ∧ item_depth jt = d.
Proof.
  intros Hswf Hk Hd Hj. apply block_depth_ok, (Hswf k d j v).
  by rewrite (change_at_known _ _ _ _ _ Hk), Hd.
Qed.

(** Below the depth of the block, the search fails at the first change it meets. *)
Lemma source_search_below s k t i it dm :
  state_wf t s → blocks t !! i = Some it → state s !! k = Some dm →
  let rest := if decide (item_depth it = 0%N) then [] else btree_range_rev dm (item_depth it - 1) in
  ((∃ d j v, (d < item_depth it)%N ∧ change_at s k d j = Some v) ∧
     search_depths (is_ancestor t i) rest = Err InvalidAncestorDepth) ∨
  ((∀ d j, (d < item_depth it)%N → change_at s k d j = None) ∧
     search_depths (is_ancestor t i) rest = Ok None).
Proof.
  intros Hswf Hi Hk rest.
  assert (∀ e m, (e, m) ∈ rest ↔ dm !! e = Some m ∧ (e < item_depth it)%N) as Hrest.
  { intros e m. unfold rest. case_decide; [|rewrite elem_of_btree_range_rev; intuition lia].
    split; [by intros ?%not_elem_of_nil|lia]. }
  destruct (search_depths_refused InvalidAncestorDepth (is_ancestor t i) rest)
    as [[Hs Hall]|[Hs (d & m & j & v & Hin & Hj)]].
  - intros d m j v [Hm Hlt]%Hrest Hj.
    destruct (state_wf_stored _ _ _ _ _ _ _ _ Hswf Hk Hm Hj) as (jt & Hjt & Hd).
    rewrite (is_ancestor_exact _ _ _ _ _ Hi Hjt). by rewrite decide_False by lia.
  - right. split; [|done]. intros d j Hlt. rewrite (change_at_known _ _ _ _ _ Hk).
    destruct (dm !! d) as [m|] eqn:Hm; [|done]. simpl. by rewrite (Hall d m) by by apply Hrest.
  - left. apply Hrest in Hin as [Hm Hlt]. split; [|done]. exists d, j, v. split; [done|].
    by rewrite (change_at_known _ _ _ _ _ Hk), Hm.
Qed.

(** The three results of a read, by what was recorded. *)
Lemma source_get_value_cases s k t i it :
  wf t → state_wf t s → blocks t !! i = Some it →
  match change_at s k (item_depth it) i with
  | Some v => get_value s k i t = Ok v
  | None =>
    ((∃ d j v, (d < item_depth it)%N ∧ change_at s k d j = Some v) ∧
       get_value s k i t = Err InvalidAncestorDepth) ∨
    ((∀ d j, (d < item_depth it)%N → change_at s k d j = None) ∧ get_value s k i t = Ok None)
  end.
Proof.
  intros Hwf Hswf Hi. unfold get_value. destruct (state s !! k) as [dm|] eqn:Hk.
  2: { assert (∀ d j, change_at s k d j = None) as Hno by (intros; unfold change_at; by rewrite Hk).
       rewrite Hno. by right. }
  assert (ft_block_depth t i = Ok (item_depth it)) as -> by (apply block_depth_ok; eauto).
  cbn [mbind outcome_bind]. rewrite btree_range_rev_unfold.
  pose proof (source_search_below s k t i it dm Hswf Hi Hk) as Hbelow.
  rewrite (change_at_known _ _ _ _ _ Hk).
  destruct (dm !! item_depth it) as [m|] eqn:Hm; simpl; [|done].
  rewrite (search_ids_point _ _ i), list_to_map_hash_iter; [by destruct (m !! i)|].
  intros j v Hj%elem_of_hash_iter.
  destruct (state_wf_stored _ _ _ _ _ _ _ _ Hswf Hk Hm Hj) as (jt & Hjt & Hd).
  rewrite (is_ancestor_exact _ _ _ _ _ Hi Hjt), decide_True by done.
  rewrite (wf_id _ Hwf _ _ Hi). by rewrite (bool_decide_ext _ _ (eq_comm i j)).
Qed.

(** C13: [get] over the in-memory tree as written: a change recorded for the block
    itself is returned; without one, any change of the key recorded at a smaller
    depth, be it of an ancestor or of an unrelated block, makes the call fail with
    [InvalidAncestorDepth]; the answer is [None] only when the key was never
    changed below that depth. *)
Theorem source_get_value s k t i it :
  wf t → state_wf t s → blocks t !! i = Some it →
  match change_at s k (item_depth it) i with
  | Some v => get_value s k i t = Ok v
  | None =>
    ((∃ d j v, (d < item_depth it)%N ∧ change_at s k d j = Some v) ∧
       get_value s k i t = Err InvalidAncestorDepth) ∨
    ((∀ d j, (d < item_depth it)%N → change_at s k d j = None) ∧ get_value s k i t = Ok None)
  end.
Proof. apply source_get_value_cases. Qed.

(** Storing more blocks keeps the recorded changes valid. *)
Lemma state_wf_extends t t' s : extends t t' → state_wf t s → state_wf t' s.
Proof.
  intros Hext Hwf k d i v Hc. destruct (proj1 (block_depth_ok t i d) (Hwf _ _ _ _ Hc)) as (it & Hi & Hd).
  destruct (Hext _ _ Hi) as (it' & Hi' & _ & Hd' & _). apply block_depth_ok. exists it'.
  split; [done|congruence].
Qed.
End source.

(** * Concrete states *)
Section witnesses.
#[local] Existing Instance default_hash_iter.
#[local] Existing Instance reference_fork_tree.

Lemma new_state_wf `{Countable K, Countable Identifier, !Identified Block Identifier,
    !ForkTree FT Block Identifier QueryError} (V : Type) (ft : FT) :
  state_wf ft (new_state : MemoryFlatState K V Identifier).
Proof. by intros k d i v. Qed.

(** Key 100 set at the genesis of the line of six blocks. *)
Definition sample_state : MemoryFlatState N N BlockId :=
  foldl (record_change 0 (id sample_genesis)) new_state [(100%N, Some 100%N)].

Lemma sample_state_wf : state_wf (ForkTree0 := reference_fork_tree) deep_tree sample_state.
Proof. apply apply_changes_state_wf; [apply new_state_wf|vm_compute; reflexivity]. Qed.

Lemma get_value_correct_witness :
  (∃ v, get_value sample_state 100%N (id sample_5) deep_tree = Ok v) ∧
  (∀ v, get_value sample_state 100%N (id sample_5) deep_tree = Ok v ↔
        inherits deep_tree sample_state 100%N (id sample_5) v).
Proof.
  apply (get_value_correct deep_tree sample_state 100%N (id sample_5) 5).
  - apply reference_spec, deep_tree_wf.
  - apply sample_state_wf.
  - vm_compute. reflexivity.
Defined.

Example get_value_inherited :
  get_value sample_state 100%N (id sample_5) deep_tree = Ok (Some 100%N).
Proof. vm_compute. reflexivity. Qed.

Lemma commit_overlay_witness :
  let o := Overlay.run_edits [Overlay.Insert 100%N 7%N; Overlay.Remove 3%N]
             (Overlay.overlayed sample_state (id sample_4) deep_tree) in
  ∃ s', apply_changes (Overlay.into_changeset o) (id sample_5) deep_tree sample_state = (s', Ok tt) ∧
    state_wf deep_tree s' ∧
    (∀ k, get_value s' k (id sample_5) deep_tree = Overlay.get o k) ∧
    (∀ k i d, ft_block_depth deep_tree i = Ok d → ¬ ancestor_of deep_tree i (id sample_5) →
       get_value s' k i deep_tree = get_value sample_state k i deep_tree).
Proof.
  apply (commit_overlay deep_tree sample_state (id sample_4) (id sample_5) 5).
  - apply reference_spec, deep_tree_wf.
  - apply sample_state_wf.
  - exists sample_5. split; vm_compute; reflexivity.
  - vm_compute. reflexivity.
  - intros k. unfold change_at, sample_state. cbn [foldl]. unfold record_change. simpl state.
    rewrite lookup_insert. case_decide; reflexivity.
Defined.

End witnesses.

Section source_witness.
#[local] Existing Instance default_hash_iter.

(** Key 100 set at the genesis, read at its child: the read fails. *)
Lemma source_get_value_witness :
  get_value sample_state 100%N (id sample_1) (insert_all [sample_genesis; sample_1; sample_fork]) =
    Err InvalidAncestorDepth ∧
  (((∃ d j v, (d < 1)%N ∧ change_at sample_state 100%N d j = Some v) ∧
     get_value sample_state 100%N (id sample_1) (insert_all [sample_genesis; sample_1; sample_fork]) =
       Err InvalidAncestorDepth) ∨
   ((∀ d j, (d < 1)%N → change_at sample_state 100%N d j = None) ∧
     get_value sample_state 100%N (id sample_1) (insert_all [sample_genesis; sample_1; sample_fork]) =
       Ok None)).
Proof.
  split; [vm_compute; reflexivity|].
  apply (source_get_value sample_state 100%N (insert_all [sample_genesis; sample_1; sample_fork])
    (id sample_1) (mk_item sample_1 1 [] [])).
  - exact fork_wf.
  - apply apply_changes_state_wf; [apply new_state_wf|vm_compute; reflexivity].
  - vm_compute. reflexivity.
Defined.
End source_witness.
