(* ===== verification/Transactional.v ===== *)
(** Transactional: [MemoryTransactional] of [blockchain/src/memory/mod.rs], two
    copies of a state on which an operation is run one after the other. *)
From S2P Require Import Prelude.

(** [struct MemoryTransactional]. *)
Record MemoryTransactional (Inner : Type) : Type := mk_tx { first : Inner; second : Inner }.
Arguments mk_tx {Inner} _ _.
Arguments first {Inner} _.
Arguments second {Inner} _.

Section transactional.
Context {Inner : Type}.
Abbreviation MT := (MemoryTransactional Inner).
Implicit Types (mt : MT) (x : Inner).

(** [MemoryTransactional::new]. *)
Definition new_tx x : MT := mk_tx x x.

(** [MemoryTransactional::apply].  The closure is an [Fn(&mut Inner)]: besides the
    state it may read and change what it captures ([Env], for instance through
    interior mutability), so its two runs need not agree. *)
Definition apply_tx {Env E R} (f : stateful (Env * Inner) E R) : stateful (Env * MT) E R :=
  λ '(env, mt),
    match f (env, first mt) with
    | ((env1, first1), Ok first_ret) =>
      match f (env1, second mt) with
      | ((env2, second1), Ok _) => ((env2, mk_tx first1 second1), Ok first_ret)
      | ((env2, _), Err _) => ((env2, mk_tx first1 first1), Ok first_ret)
      | ((env2, second1), Panicked) => ((env2, mk_tx first1 second1), Panicked)
      | ((env2, second1), OutOfFuel) => ((env2, mk_tx first1 second1), OutOfFuel)
      end
    | ((env1, _), Err first_err) => ((env1, mk_tx (second mt) (second mt)), Err first_err)
    | ((env1, first1), Panicked) => ((env1, mk_tx first1 (second mt)), Panicked)
    | ((env1, first1), OutOfFuel) => ((env1, mk_tx first1 (second mt)), OutOfFuel)
    end.

(** [Deref::deref]. *)
Definition deref mt : Inner := first mt.

(** [DerefMut::deref_mut], as the write through the returned reference. *)
Definition deref_mut_write (g : Inner → Inner) mt : MT := mk_tx (g (first mt)) (second mt).

(** A closure whose result depends on the state only. *)
Definition pure_closure {Env E R} (f : stateful Inner E R) : stateful (Env * Inner) E R :=
  λ '(env, x), let '(x', r) := f x in ((env, x'), r).

(** [apply] with such a closure. *)
Definition apply_pure {E R} (f : stateful Inner E R) : stateful MT E R := λ mt,
  let '((_, mt'), r) := apply_tx (pure_closure f) (tt, mt) in (mt', r).

(** The two copies agree. *)
Definition in_sync mt : Prop := first mt = second mt.

Lemma apply_pure_eq {E R} (f : stateful Inner E R) x :
  apply_pure f (new_tx x) =
    match f x with
    | (x', Ok a) => (new_tx x', Ok a)
    | (_, Err e) => (new_tx x, Err e)
    | (x', Panicked) => (mk_tx x' x, Panicked)
    | (x', OutOfFuel) => (mk_tx x' x, OutOfFuel)
    end.
Proof.
  unfold apply_pure, apply_tx, pure_closure, new_tx; simpl.
  destruct (f x) as [x' [a|e| |]] eqn:Hf; simpl; by rewrite ?Hf.
Qed.

Lemma in_sync_new mt : in_sync mt ↔ mt = new_tx (deref mt).
Proof.
  unfold in_sync, new_tx, deref. destruct mt as [a b]; simpl. split; [by intros ->|congruence].
Qed.

(** C16: atomicity: on two copies that agree, an operation that depends on the state
    only either succeeds on both copies, with the result of running it once, or
    fails and leaves the structure exactly as it was, partial changes included. *)
Theorem apply_atomic {E R} (f : stateful Inner E R) mt :
  in_sync mt → returns (f (deref mt)).2 →
  match f (deref mt) with
  | (x', Ok a) => apply_pure f mt = (new_tx x', Ok a)
  | (_, Err e) => apply_pure f mt = (mt, Err e)
  | _ => False
  end.
Proof.
  intros Hsync%in_sync_new. rewrite Hsync, apply_pure_eq. unfold deref, new_tx at 1 2. simpl.
  by destruct (f (first mt)) as [x' [a|e| |]].
Qed.



(** A write through [deref_mut] is not part of any transaction: the next
    operation that fails discards it. *)
Theorem deref_mut_lost_on_error {E R} (f : stateful Inner E R) (g : Inner → Inner) mt x' e :
  in_sync mt → f (g (deref mt)) = (x', Err e) →
  apply_pure f (deref_mut_write g mt) = (mt, Err e).
Proof.
  intros Hsync%in_sync_new Hf. rewrite Hsync in Hf |- *. unfold deref, new_tx in *. simpl in *.
  unfold apply_pure, apply_tx, pure_closure, deref_mut_write. simpl. by rewrite Hf.
Qed.
End transactional.

(** * Concrete operations *)

(** Adds to a counter, then fails above ten: a partial change before an error. *)
Definition sample_op (n : N) : stateful N unit N := λ x,
  ((x + n)%N, if decide (x + n ≤ 10)%N then Ok x else Err tt).

Lemma apply_atomic_witness : apply_pure (sample_op 20) (new_tx 1%N) = (new_tx 1%N, Err tt).
Proof. apply (apply_atomic (sample_op 20) (new_tx 1%N)); [reflexivity|exact I]. Defined.


Lemma deref_mut_lost_on_error_witness :
  apply_pure (sample_op 20) (deref_mut_write (N.add 5) (new_tx 1%N)) = (new_tx 1%N, Err tt).
Proof.
  apply (deref_mut_lost_on_error (sample_op 20) (N.add 5) (new_tx 1%N) 26%N tt);
    [reflexivity|vm_compute; reflexivity].
Defined.
