(* ===== verification/SimpleChain.v ===== *)
(** SimpleChain: the chain of [blockchain/tests/simple.rs], the implementation of
    [ImportBlock] and [BlockBuilder] in the repository: a fork tree and a flat state
    kept in a [MemoryTransactional]. *)
From S2P Require Import Prelude Block SimpleBlock ForkTree MemoryForkTree.
From S2P Require Import MemoryForkTreeInv MemoryForkTreeWalk FlatState MemoryFlatState Transactional.

Abbreviation SimpleTree := (MemoryForkTree SimpleBlock BlockId).
Abbreviation SimpleState := (MemoryFlatState N N BlockId).

(** [struct ChainData]. *)
Record ChainData : Type := mk_data { data_fork_tree : SimpleTree; data_state : SimpleState }.

(** [struct Chain]. *)
Record Chain : Type := mk_chain { data : MemoryTransactional ChainData }.

(** [enum ChainError], its [From] conversions being the last two constructors. *)
Inductive ChainError : Type :=
| ErrInvalidSeal
| CantImportGenesis
| ForkTreeInsert (err : MemoryForkTreeInsertError)
| ForkTreeQuery (err : MemoryForkTreeQueryError).

(** [data.fork_tree.f(...)?] and [data.state.f(...)?]. *)
Definition on_fork_tree {A} (m : stateful SimpleTree MemoryForkTreeInsertError A) :
    stateful ChainData ChainError A :=
  zoom data_fork_tree (λ t d, mk_data t (data_state d)) ForkTreeInsert m.
Definition on_state {A} (m : stateful SimpleState MemoryForkTreeQueryError A) :
    stateful ChainData ChainError A :=
  zoom data_state (λ s d, mk_data (data_fork_tree d) s) ForkTreeQuery m.

Section chain.
Context `{!HashIter BlockId, !HashIter N}.

Abbreviation SimpleOverlay := (OverlayedFlatState SimpleState SimpleTree N N BlockId).

(** The [for extrinsic in &block.extrinsics] of [import]. *)
Definition run_extrinsics (xs : list Extrinsic) (o : SimpleOverlay) : SimpleOverlay :=
  foldl (λ o x, match x with Set_ key value => Overlay.insert key value o end) o xs.

(** The closure [import] passes to [MemoryTransactional::apply]. *)
Definition import_closure (b : SimpleBlock) : stateful ChainData ChainError unit :=
  parent ← query (λ _, ok_or (parent_id b) CantImportGenesis);
  _ ← on_fork_tree (insert b);
  changes ← query (λ d, Ok (Overlay.into_changeset
    (run_extrinsics (block_extrinsics b)
      (Overlay.overlayed (data_state d) parent (data_fork_tree d)))));
  tree ← query (λ d, Ok (data_fork_tree d));
  on_state (apply_changes changes (id b) tree).

(** [<Chain as ImportBlock>::import]. *)
Definition import_block (b : SimpleBlock) : stateful Chain ChainError unit := λ c,
  if decide (block_seal b ≠ ValidSeal) then (c, Err ErrInvalidSeal)
  else let '(d, r) := apply_pure (import_closure b) (data c) in (mk_chain d, r).

#[global] Instance simple_import : ImportBlock Chain SimpleBlock ChainError := import_block.

(** [struct ChainBlockBuilder]. *)
Record ChainBlockBuilder : Type := mk_builder {
  builder_chain : Chain;
  builder_block : SimpleBlock;
  builder_overlay : SimpleOverlay
}.

(** [<ChainBlockBuilder as BlockBuilder>::initialize]. *)
Definition initialize_block (c : Chain) (parent : BlockId) (_ : unit) :
    outcome ChainError ChainBlockBuilder :=
  let tree := data_fork_tree (deref (data c)) in
  _ ← map_err ForkTreeQuery (block tree parent);
  id_number ← u32_add (number parent) 1;
  block_number ← u32_add (number parent) 1;
  mret (mk_builder c
    (mk_block InvalidSeal (mk_block_id (fork parent) id_number) (Some parent) block_number [])
    (Overlay.overlayed (data_state (deref (data c))) parent tree)).

(** [<ChainBlockBuilder as BlockBuilder>::apply_extrinsic]. *)
Definition push_extrinsic (x : Extrinsic) : stateful ChainBlockBuilder ChainError unit :=
  modify (λ bb, let b := builder_block bb in
    mk_builder (builder_chain bb)
      (mk_block (block_seal b) (block_id b) (block_parent_id b) (block_number b)
        (block_extrinsics b ++ [x]))
      (builder_overlay bb)).

(** [<ChainBlockBuilder as BlockBuilder>::finalize]. *)
Definition finalize_block (bb : ChainBlockBuilder) (post_log : Seal) : outcome ChainError SimpleBlock :=
  let b := builder_block bb in
  Ok (mk_block post_log (block_id b) (block_parent_id b) (block_number b) (block_extrinsics b)).

#[global] Instance simple_builder :
    BlockBuilder ChainBlockBuilder Chain SimpleBlock BlockId Extrinsic ChainError unit Seal := {|
  initialize := initialize_block;
  apply_extrinsic := push_extrinsic;
  finalize := finalize_block
|}.

(** The empty chain, and the closure that imports a genesis with its state (the
    body of the test, its [assert!] included). *)
Definition empty_chain : Chain := mk_chain (new_tx (mk_data new new_state)).

Definition genesis_closure (g : SimpleBlock) (genesis_state : list (N * option N)) :
    stateful ChainData ChainError unit :=
  _ ← on_fork_tree (insert g);
  _ ← query (λ _, match block_extrinsics g with [] => Ok tt | _ :: _ => Panicked end);
  tree ← query (λ d, Ok (data_fork_tree d));
  on_state (apply_changes genesis_state (id g) tree).

Definition import_genesis (g : SimpleBlock) (genesis_state : list (N * option N)) :
    stateful Chain ChainError unit := λ c,
  let '(d, r) := apply_pure (genesis_closure g genesis_state) (data c) in (mk_chain d, r).

(** * Results *)
#[local] Arguments parent_id : simpl never.
#[local] Arguments id : simpl never.

(** What the extrinsics of a block leave at key [k]. *)
Definition last_set (k : N) (xs : list Extrinsic) : option N :=
  foldl (λ r x, match x with Set_ key value => if decide (key = k) then Some value else r end) None xs.

Lemma changeset_run_extrinsics k xs (o : SimpleOverlay) :
  changeset (run_extrinsics xs o) !! k =
    match last_set k xs with Some v => Some (Some v) | None => changeset o !! k end.
Proof.
  unfold run_extrinsics, last_set. induction xs as [|[key value] xs IH] using rev_ind; [done|].
  rewrite !foldl_snoc. simpl. rewrite lookup_insert. case_decide; congruence || done.
Qed.

(** The changes an imported block makes. *)
Definition block_changes (b : SimpleBlock) (parent : BlockId) (t : SimpleTree) (s : SimpleState) :=
  Overlay.into_changeset (run_extrinsics (block_extrinsics b) (Overlay.overlayed s parent t)).

Lemma last_change_block_changes b parent t s k :
  last_change k (block_changes b parent t s) = Some <$> last_set k (block_extrinsics b).
Proof.
  unfold block_changes. rewrite last_change_into_changeset, changeset_run_extrinsics. simpl.
  rewrite lookup_empty. by destruct (last_set _ _).
Qed.

Lemma on_fork_tree_eq {A} (m : stateful SimpleTree MemoryForkTreeInsertError A) d :
  on_fork_tree m d = (mk_data (m (data_fork_tree d)).1 (data_state d),
                      map_err ForkTreeInsert (m (data_fork_tree d)).2).
Proof. unfold on_fork_tree, zoom. by destruct (m (data_fork_tree d)). Qed.

Lemma on_state_eq {A} (m : stateful SimpleState MemoryForkTreeQueryError A) d :
  on_state m d = (mk_data (data_fork_tree d) (m (data_state d)).1,
                  map_err ForkTreeQuery (m (data_state d)).2).
Proof. unfold on_state, zoom. by destruct (m (data_state d)). Qed.

Lemma store_depth b (depth : N) ancestors (t : SimpleTree) :
  block_depth (store b depth ancestors t) (id b) = Ok depth.
Proof. apply block_depth_ok. eexists. simpl. by rewrite lookup_insert_eq. Qed.

(** The tree and the state of an accepted block. *)
Definition imported (b : SimpleBlock) p parent (d : ChainData) : ChainData :=
  let depth := (item_depth parent + 1)%N in
  let t := store b depth [] (linked (id b) p parent (data_fork_tree d)) in
  mk_data t (foldl (record_change depth (id b)) (data_state d) (block_changes b p t (data_state d))).

Lemma import_closure_eq b d :
  import_closure b d =
    match parent_id b with
    | None => (d, Err CantImportGenesis)
    | Some p =>
      match blocks (data_fork_tree d) !! p with
      | None => (d, Err (ForkTreeInsert UnknownParent))
      | Some parent =>
        let t1 := linked (id b) p parent (data_fork_tree d) in
        let depth := (item_depth parent + 1)%N in
        if decide (usize_max < depth)%N then (mk_data t1 (data_state d), Panicked)
        else if decide (depth `mod` 4 = 0)%N
        then (mk_data t1 (data_state d), Err (ForkTreeInsert (Query InvalidAncestorDepth)))
        else (imported b p parent d, Ok tt)
      end
    end.
Proof.
  unfold import_closure, query, mbind, stateful_bind. destruct d as [t s]. simpl.
  destruct (parent_id b) as [p|] eqn:Hp; simpl; [|done].
  rewrite on_fork_tree_eq, insert_eq, Hp. simpl. destruct (blocks t !! p) as [parent|]; simpl; [|done].
  repeat case_decide; simpl; try done. rewrite on_state_eq. simpl.
  unfold apply_changes, query, modify, mbind, stateful_bind.
  assert (ft_block_depth (store b (item_depth parent + 1) [] (linked (id b) p parent t)) (id b) =
    Ok (item_depth parent + 1)%N) as -> by apply store_depth.
  done.
Qed.

(** The chain whose two copies hold [d]. *)
Definition chain_of (d : ChainData) : Chain := mk_chain (new_tx d).

Lemma import_block_eq b d :
  block_seal b = ValidSeal →
  import_block b (chain_of d) =
    match import_closure b d with
    | (d', Ok a) => (chain_of d', Ok a)
    | (_, Err e) => (chain_of d, Err e)
    | (d', Panicked) => (mk_chain (mk_tx d' d), Panicked)
    | (d', OutOfFuel) => (mk_chain (mk_tx d' d), OutOfFuel)
    end.
Proof.
  intros Hseal. unfold import_block, chain_of. rewrite decide_False by naive_solver.
  simpl. rewrite apply_pure_eq. by destruct (import_closure b d) as [d' []].
Qed.

(** C20: importing a block is atomic and its result is determined by the block and
    the tree: an unsealed block, a genesis, a block with an unknown parent and a
    block at a depth that is a multiple of four are refused, each with its error and
    with the chain unchanged; every other block is stored and its extrinsics are
    recorded for it. *)
Theorem import_block_result b d :
  (∀ i it, blocks (data_fork_tree d) !! i = Some it → (item_depth it < usize_max)%N) →
  import_block b (chain_of d) =
    if decide (block_seal b ≠ ValidSeal) then (chain_of d, Err ErrInvalidSeal) else
    match parent_id b with
    | None => (chain_of d, Err CantImportGenesis)
    | Some p =>
      match blocks (data_fork_tree d) !! p with
      | None => (chain_of d, Err (ForkTreeInsert UnknownParent))
      | Some parent =>
        if decide ((item_depth parent + 1) `mod` 4 = 0)%N
        then (chain_of d, Err (ForkTreeInsert (Query InvalidAncestorDepth)))
        else (chain_of (imported b p parent d), Ok tt)
      end
    end.
Proof.
  intros Hmax. case_decide as Hseal; [unfold import_block; by rewrite decide_True|].
  rewrite import_block_eq by (destruct (block_seal b); naive_solver). rewrite import_closure_eq.
  destruct (parent_id b) as [p|]; [|done].
  destruct (blocks (data_fork_tree d) !! p) as [parent|] eqn:Hp; [|done]. cbv zeta.
  specialize (Hmax _ _ Hp). rewrite decide_False by lia. by case_decide.
Qed.

(** * Reachable chains *)

(** The chains that the genesis import and [import] lead to. *)
Inductive chain_reachable : Chain → Prop :=
| chain_empty : chain_reachable empty_chain
| chain_genesis c g gs :
    chain_reachable c → block_extrinsics g = [] → chain_reachable (import_genesis g gs c).1
| chain_import c b : chain_reachable c → chain_reachable (import_block b c).1.

Definition chain_inv (c : Chain) : Prop := ∃ d, c = chain_of d ∧ shallow (data_fork_tree d).

Lemma shallow_lt_usize (t : SimpleTree) :
  shallow t → ∀ i it, blocks t !! i = Some it → (item_depth it < usize_max)%N.
Proof. intros Ht i it Hi. destruct (Ht _ _ Hi). unfold usize_max. lia. Qed.

Lemma import_closure_shallow b d :
  shallow (data_fork_tree d) →
  shallow (data_fork_tree (import_closure b d).1) ∧ returns (import_closure b d).2.
Proof.
  intros Hd. pose proof (insert_shallow b _ Hd) as Hi.
  rewrite insert_eq in Hi. rewrite import_closure_eq. destruct (parent_id b) as [p|]; [|done].
  destruct (blocks (data_fork_tree d) !! p) as [parent|] eqn:Hp; [|done]. cbv zeta in *.
  pose proof (shallow_lt_usize _ Hd _ _ Hp).
  destruct (decide (usize_max < item_depth parent + 1)%N); [lia|].
  by destruct (decide ((item_depth parent + 1) `mod` 4 = 0)%N).
Qed.

Lemma genesis_closure_shallow g gs d :
  shallow (data_fork_tree d) → block_extrinsics g = [] →
  shallow (data_fork_tree (genesis_closure g gs d).1) ∧ returns (genesis_closure g gs d).2.
Proof.
  intros Hd Hx. pose proof (insert_shallow g _ Hd) as Hi.
  unfold genesis_closure, query, mbind, stateful_bind. rewrite on_fork_tree_eq, Hx.
  assert (returns (insert g (data_fork_tree d)).2) as Hr.
  { rewrite insert_eq. destruct (parent_id g) as [p|]; [|done].
    destruct (blocks (data_fork_tree d) !! p) as [parent|] eqn:Hp; [|done]. cbv zeta.
    pose proof (shallow_lt_usize _ Hd _ _ Hp). rewrite decide_False by lia. by case_decide. }
  destruct (insert g (data_fork_tree d)) as [t r]. simpl in *.
  destruct r as [[]|e| |]; simpl; try done. rewrite on_state_eq. simpl. split; [done|].
  unfold apply_changes, query, modify, mbind, stateful_bind. simpl. unfold block_depth.
  by destruct (blocks t !! id g).
Qed.

Lemma apply_pure_chain {f : stateful ChainData ChainError unit} d :
  shallow (data_fork_tree d) → shallow (data_fork_tree (f d).1) → returns (f d).2 →
  chain_inv (mk_chain (apply_pure f (new_tx d)).1).
Proof.
  intros Hd Hd' Hr. rewrite apply_pure_eq. destruct (f d) as [d' [a|e| |]]; simpl in *; try done.
  - by exists d'.
  - by exists d.
Qed.

Lemma chain_reachable_inv c : chain_reachable c → chain_inv c.
Proof.
  induction 1 as [|c g gs _ (d & -> & Hd) Hx|c b _ (d & -> & Hd)].
  - by exists (mk_data new new_state).
  - destruct (genesis_closure_shallow g gs d Hd Hx) as [Hs Hr]. unfold import_genesis.
    pose proof (apply_pure_chain d Hd Hs Hr) as Hinv.
    simpl. by destruct (apply_pure (genesis_closure g gs) (new_tx d)).
  - destruct (import_closure_shallow b d Hd) as [Hs Hr]. unfold import_block.
    case_decide; [by exists d|]. pose proof (apply_pure_chain d Hd Hs Hr) as Hinv.
    simpl. by destruct (apply_pure (import_closure b) (new_tx d)).
Qed.

(** C21: in every reachable chain the two copies agree, no block is deeper than
    three, and importing a child of a block at depth three always fails and changes
    nothing: the chain cannot grow past four blocks. *)
Theorem chain_cannot_grow c :
  chain_reachable c →
  in_sync (data c) ∧
  (∀ i it, blocks (data_fork_tree (deref (data c))) !! i = Some it → (item_depth it ≤ 3)%N) ∧
  (∀ b p parent, block_seal b = ValidSeal → parent_id b = Some p →
     blocks (data_fork_tree (deref (data c))) !! p = Some parent → item_depth parent = 3%N →
     import_block b c = (c, Err (ForkTreeInsert (Query InvalidAncestorDepth)))).
Proof.
  intros (d & -> & Hd)%chain_reachable_inv. split_and!; [done|by intros i it [? _]%Hd|].
  intros b p parent Hseal Hpar Hp H3. simpl in Hp.
  rewrite import_block_eq, import_closure_eq, Hpar, Hp by done. cbv zeta. by rewrite H3.
Qed.

(** * Reading back what a block wrote *)

Lemma imported_tree b p parent d :
  parent_id b = Some p → blocks (data_fork_tree d) !! p = Some parent →
  (item_depth parent < usize_max)%N → ((item_depth parent + 1) `mod` 4 ≠ 0)%N →
  data_fork_tree (imported b p parent d) = (insert b (data_fork_tree d)).1.
Proof.
  intros Hpar Hp Hmax Hmod. rewrite insert_eq, Hpar, Hp. cbv zeta. by rewrite !decide_False by lia.
Qed.

Lemma imported_extends b p parent d :
  blocks (data_fork_tree d) !! p = Some parent → blocks (data_fork_tree d) !! id b = None →
  extends (data_fork_tree d) (data_fork_tree (imported b p parent d)).
Proof.
  intros Hp Hfresh i it Hi. destruct (linked_extends (id b) _ _ _ Hp _ _ Hi) as (it' & Hi' & Hrest).
  exists it'. split; [|done]. simpl in *. rewrite lookup_insert_ne by congruence. done.
Qed.

(** What the import of an accepted block leaves. *)
Lemma import_stores b p parent d :
  wf (data_fork_tree d) → state_wf (data_fork_tree d) (data_state d) →
  block_seal b = ValidSeal → parent_id b = Some p →
  blocks (data_fork_tree d) !! p = Some parent → blocks (data_fork_tree d) !! id b = None →
  (item_depth parent < usize_max)%N → ((item_depth parent + 1) `mod` 4 ≠ 0)%N →
  ∃ d', import_block b (chain_of d) = (chain_of d', Ok tt) ∧
    wf (data_fork_tree d') ∧ state_wf (data_fork_tree d') (data_state d') ∧
    block (data_fork_tree d') (id b) = Ok b ∧
    (∀ k v, last_set k (block_extrinsics b) = Some v →
       get_value (data_state d') k (id b) (data_fork_tree d') = Ok (Some v)).
Proof.
  intros Hwf Hswf Hseal Hpar Hp Hfresh Hmax Hmod. exists (imported b p parent d).
  assert (wf (data_fork_tree (imported b p parent d))) as Hwf'.
  { rewrite imported_tree by done. by apply insert_with_wf; [|apply source_find_sound|]. }
  assert (state_wf (data_fork_tree (imported b p parent d)) (data_state (imported b p parent d))) as Hswf'.
  { apply apply_changes_state_wf; [|apply store_depth].
    eapply state_wf_extends; [by apply imported_extends|done]. }
  split_and!; [|done|done|apply block_ok; eexists; simpl; by rewrite lookup_insert_eq|].
  - rewrite import_block_eq, import_closure_eq, Hpar, Hp by done. cbv zeta.
    by rewrite !decide_False by lia.
  - intros k v Hk.
    pose proof (source_get_value_cases (data_state (imported b p parent d)) k
      (data_fork_tree (imported b p parent d)) (id b)
      (mk_item b (item_depth parent + 1) [] []) Hwf' Hswf') as Hget.
    simpl in Hget. rewrite lookup_insert_eq, change_at_foldl, decide_True in Hget by done.
    rewrite last_change_block_changes, Hk in Hget. by apply Hget.
Qed.
(** C22: a block that is accepted can be read back: its import keeps the tree and
    the state well-formed, and every key its extrinsics set then reads, at the
    block, as the value of the last extrinsic that set it. *)
Theorem import_then_read b p parent d :
  wf (data_fork_tree d) → state_wf (data_fork_tree d) (data_state d) →
  block_seal b = ValidSeal → parent_id b = Some p →
  blocks (data_fork_tree d) !! p = Some parent → blocks (data_fork_tree d) !! id b = None →
  (item_depth parent < usize_max)%N → ((item_depth parent + 1) `mod` 4 ≠ 0)%N →
  ∃ d', import_block b (chain_of d) = (chain_of d', Ok tt) ∧
    wf (data_fork_tree d') ∧ state_wf (data_fork_tree d') (data_state d') ∧
    (∀ k v, last_set k (block_extrinsics b) = Some v →
       get_value (data_state d') k (id b) (data_fork_tree d') = Ok (Some v)).
Proof.
  intros. destruct (import_stores b p parent d) as (d' & ? & ? & ? & _ & ?); [done..|]. by exists d'.
Qed.

(** * Building and importing *)

(** A client of the builder: it applies the extrinsics in order and seals the block. *)
Fixpoint apply_extrinsics (xs : list Extrinsic) : stateful ChainBlockBuilder ChainError unit :=
  match xs with
  | [] => mret tt
  | x :: xs => _ ← push_extrinsic x; apply_extrinsics xs
  end.
Definition build_block (c : Chain) (parent : BlockId) (xs : list Extrinsic) (seal : Seal) :
    outcome ChainError SimpleBlock :=
  bb ← initialize_block c parent tt;
  let '(bb, r) := apply_extrinsics xs bb in
  _ ← r;
  finalize_block bb seal.

Lemma apply_extrinsics_eq xs bb :
  let b := builder_block bb in
  apply_extrinsics xs bb =
    (mk_builder (builder_chain bb)
       (mk_block (block_seal b) (block_id b) (block_parent_id b) (block_number b)
         (block_extrinsics b ++ xs)) (builder_overlay bb), Ok tt).
Proof.
  revert bb. induction xs as [|x xs IH]; intros [c [seal i par n ys] o]; simpl.
  - by rewrite app_nil_r.
  - unfold push_extrinsic, modify, mbind, stateful_bind. rewrite IH. simpl.
    by rewrite <-(assoc_L (++)).
Qed.

Lemma build_block_eq d parent pit xs seal :
  blocks (data_fork_tree d) !! parent = Some pit → (number parent < u32_max)%N →
  build_block (chain_of d) parent xs seal =
    Ok (mk_block seal (mk_block_id (fork parent) (number parent + 1)) (Some parent)
          (number parent + 1) xs).
Proof.
  intros Hp Hn. unfold build_block, initialize_block, block. simpl. rewrite Hp. simpl.
  unfold u32_add. rewrite decide_True by lia. simpl. by rewrite apply_extrinsics_eq.
Qed.

(** C23: building and importing fit together: on a chain whose tree and state are
    well-formed, for every stored parent whose child number is in range, whose child id
    is unused and whose child depth is not a multiple of four, the builder returns for
    every list of extrinsics the block with the next id and number, that parent and
    those extrinsics.  Sealed validly, it is accepted by [import]: the block is stored,
    tree and state stay well-formed, and every key the extrinsics set reads at it as the
    last value set.  Without a valid seal it is refused and the chain is unchanged. *)
Theorem build_then_import d parent pit xs :
  wf (data_fork_tree d) → state_wf (data_fork_tree d) (data_state d) →
  blocks (data_fork_tree d) !! parent = Some pit → (number parent < u32_max)%N →
  blocks (data_fork_tree d) !! mk_block_id (fork parent) (number parent + 1) = None →
  (item_depth pit < usize_max)%N → ((item_depth pit + 1) `mod` 4 ≠ 0)%N →
  (∃ b d', build_block (chain_of d) parent xs ValidSeal = Ok b ∧
    id b = mk_block_id (fork parent) (number parent + 1) ∧ parent_id b = Some parent ∧
    block_number b = (number parent + 1)%N ∧ block_extrinsics b = xs ∧
    import_block b (chain_of d) = (chain_of d', Ok tt) ∧
    wf (data_fork_tree d') ∧ state_wf (data_fork_tree d') (data_state d') ∧
    block (data_fork_tree d') (id b) = Ok b ∧
    (∀ k v, last_set k xs = Some v →
       get_value (data_state d') k (id b) (data_fork_tree d') = Ok (Some v))) ∧
  (∃ b, build_block (chain_of d) parent xs InvalidSeal = Ok b ∧
    import_block b (chain_of d) = (chain_of d, Err ErrInvalidSeal)).
Proof.
  intros Hwf Hswf Hp Hn Hfresh Hmax Hmod. split.
  - set (b := mk_block ValidSeal (mk_block_id (fork parent) (number parent + 1)) (Some parent)
      (number parent + 1) xs).
    destruct (import_stores b parent pit d) as (d' & ?); [done..|].
    exists b, d'. split; [by eapply build_block_eq|done].
  - eexists. split; [by eapply build_block_eq|]. unfold import_block. by rewrite decide_True.
Qed.
End chain.

(** * The test of the repository *)
Section basic_build_and_import.
#[local] Existing Instance default_hash_iter.

Definition test_genesis : SimpleBlock := mk_block InvalidSeal (mk_block_id 0 0) None 0 [].
Definition test_genesis_state : list (N * option N) := [(100, Some 100); (200, Some 200)]%N.

(** The statements of [basic_build_and_import], in order; the values are those of
    its three [assert_eq!]. *)
Definition basic_build_and_import : outcome ChainError (list (option N)) :=
  let '(c0, r0) := import_genesis test_genesis test_genesis_state empty_chain in
  _ ← r0;
  bb ← initialize_block c0 (id test_genesis) tt;
  let '(bb, r1) := push_extrinsic (Set_ 100 200) bb in
  _ ← r1;
  b ← finalize_block bb ValidSeal;
  let '(c1, r2) := import_block b c0 in
  _ ← r2;
  let read c i := map_err ForkTreeQuery
    (get_value (data_state (deref (data c))) 100%N i (data_fork_tree (deref (data c)))) in
  v0 ← read c1 (id test_genesis);
  v1 ← read c1 (id b);
  let b2 := mk_block (block_seal b) (mk_block_id 1 (number (block_id b))) (block_parent_id b)
              (block_number b) [Set_ 100 300] in
  let '(c2, r3) := import_block b2 c1 in
  _ ← r3;
  v2 ← read c2 (id b2);
  mret [v0; v1; v2].

(** The test passes: the genesis reads 100, the built block 200 and its fork 300. *)
Example basic_build_and_import_passes :
  basic_build_and_import = Ok [Some 100; Some 200; Some 300]%N.
Proof. vm_compute. reflexivity. Qed.

(** The chain of the test with its genesis only. *)
Definition genesis_chain : ChainData :=
  deref (data (import_genesis test_genesis test_genesis_state empty_chain).1).

Definition long_chain : Chain :=
  foldl (λ c b, (import_block b c).1) (import_genesis sample_genesis [] empty_chain).1
    [sample_1; sample_2; sample_3].

Lemma import_block_result_witness :
  import_block (sample_child 0 test_genesis [Set_ 5 6]) (chain_of genesis_chain) =
    (chain_of (imported (sample_child 0 test_genesis [Set_ 5 6]) (id test_genesis)
       (mk_item test_genesis 0 [] []) genesis_chain), Ok tt).
Proof.
  apply (import_block_result (sample_child 0 test_genesis [Set_ 5 6]) genesis_chain).
  apply shallow_lt_usize. change (shallow (insert test_genesis new).1).
  apply insert_shallow. by intros i it.
Defined.

Lemma chain_cannot_grow_witness :
  import_block sample_4 long_chain = (long_chain, Err (ForkTreeInsert (Query InvalidAncestorDepth))).
Proof.
  apply (proj2 (proj2 (chain_cannot_grow long_chain
    (chain_import _ sample_3 (chain_import _ sample_2 (chain_import _ sample_1
      (chain_genesis _ sample_genesis [] chain_empty eq_refl))))))
    sample_4 (id sample_3) (mk_item sample_3 3 [] [])).
  - reflexivity.
  - reflexivity.
  - vm_compute. reflexivity.
  - reflexivity.
Defined.

Lemma genesis_chain_wf :
  wf (data_fork_tree genesis_chain) ∧ state_wf (data_fork_tree genesis_chain) (data_state genesis_chain).
Proof.
  split.
  - change (wf (insert test_genesis new).1).
    apply insert_with_wf; [apply new_wf|apply source_find_sound|reflexivity].
  - apply (apply_changes_state_wf _ new_state test_genesis_state (id test_genesis) 0);
      [apply new_state_wf|vm_compute; reflexivity].
Qed.

(** Two extrinsics on one key, built on the genesis: the second value is read. *)
Lemma build_then_import_witness :
  ∃ b d', build_block (chain_of genesis_chain) (id test_genesis) [Set_ 100 7; Set_ 100 8] ValidSeal = Ok b ∧
    import_block b (chain_of genesis_chain) = (chain_of d', Ok tt) ∧
    get_value (data_state d') 100%N (id b) (data_fork_tree d') = Ok (Some 8%N).
Proof.
  destruct (build_then_import genesis_chain (id test_genesis) (mk_item test_genesis 0 [] [])
    [Set_ 100 7; Set_ 100 8]) as [(b & d' & Hb & _ & _ & _ & _ & Hi & _ & _ & _ & Hr) _].
  - apply genesis_chain_wf.
  - apply genesis_chain_wf.
  - vm_compute. reflexivity.
  - vm_compute. reflexivity.
  - vm_compute. reflexivity.
  - vm_compute. reflexivity.
  - vm_compute. discriminate.
  - exists b, d'. split_and!; [exact Hb|exact Hi|]. apply Hr. reflexivity.
Defined.

Lemma import_then_read_witness :
  ∃ d', import_block (sample_child 0 test_genesis [Set_ 5 6]) (chain_of genesis_chain) =
      (chain_of d', Ok tt) ∧
    wf (data_fork_tree d') ∧ state_wf (data_fork_tree d') (data_state d') ∧
    (∀ k v, last_set k [Set_ 5 6] = Some v →
       get_value (data_state d') k (id (sample_child 0 test_genesis [Set_ 5 6])) (data_fork_tree d') =
         Ok (Some v)).
Proof.
  apply (import_then_read (sample_child 0 test_genesis [Set_ 5 6]) (id test_genesis)
    (mk_item test_genesis 0 [] []) genesis_chain).
  - apply genesis_chain_wf.
  - apply genesis_chain_wf.
  - reflexivity.
  - reflexivity.
  - vm_compute. reflexivity.
  - vm_compute. reflexivity.
  - vm_compute. reflexivity.
  - vm_compute. discriminate.
Defined.
End basic_build_and_import.
