(* ===== verification/PeerInfoProtocol.v ===== *)
(** PeerInfoProtocol: the peer information exchanged between nodes and its JSON
    codec: [blocknet/src/libp2p/peer_info/protocol.rs], [codec.rs] and [json.rs].

    The byte streams ([AsyncRead], [AsyncWrite] of the futures crate) and
    [serde_json] are parameters: classes of operations, with the documented
    behaviour the codec relies on as classes of laws. *)
From S2P Require Import Prelude.

Abbreviation bytes := (list Byte.byte).

(** [trait Info]: [into_push] is the bound [Push: From<Self>]. *)
Class Info (TInfo Push : Type) : Type := {
  into_push : TInfo → Push;
  merge : TInfo → Push → TInfo
}.
#[global] Hint Mode Info ! - : typeclass_instances.

(** [enum UpgradeError]; the payload types are those of the libraries. *)
Inductive UpgradeError (IoError MultiaddrError DecodingError : Type) : Type :=
| CodecError (msg : string)
| Io (e : IoError)
| StreamClosed
| Multiaddr (e : MultiaddrError)
| PublicKey (e : DecodingError).
Arguments CodecError {_ _ _} msg.
Arguments Io {_ _ _} e.
Arguments StreamClosed {_ _ _}.
Arguments Multiaddr {_ _ _} e.
Arguments PublicKey {_ _ _} e.

(** [trait Codec]: a read or a write of the stream that may still be waiting
    ([Pending]). *)
Class Codec (Stream TInfo Push Error : Type) : Type := {
  read_info : Stream → Poll (outcome Error TInfo);
  read_push_info : Stream → Poll (outcome Error Push);
  write_info : Stream → TInfo → Stream * Poll (outcome Error unit);
  write_push_info : Stream → Push → Stream * Poll (outcome Error unit)
}.

(** * The libraries *)

(** Streams: [io.take(limit).read_to_end(..)] and [io.write_all(..)]. *)
Class AsyncIo (Stream IoError : Type) : Type := {
  take_read_to_end : N → Stream → Poll (outcome IoError bytes);
  write_all : bytes → Stream → Stream * Poll (outcome IoError unit)
}.
#[global] Hint Mode AsyncIo ! - : typeclass_instances.

(** How the bytes that a stream delivers end. *)
Inductive stream_end (IoError : Type) : Type := Eof | Fails (e : IoError) | Stalls.
Arguments Eof {_}.
Arguments Fails {_} e.
Arguments Stalls {_}.

(** The documented behaviour of reading: [delivers s bs e] says that the peer sends
    [bs] and then ends with [e]; [take] stops at its limit without looking further. *)
Class AsyncIoLaws (Stream IoError : Type) `{AsyncIo Stream IoError} : Type := {
  delivers : Stream → bytes → stream_end IoError → Prop;
  take_read_limit : ∀ limit s bs e,
    delivers s bs e → (limit ≤ N.of_nat (length bs))%N →
    take_read_to_end limit s = Ready (Ok (take (N.to_nat limit) bs));
  take_read_all : ∀ limit s bs e,
    delivers s bs e → (N.of_nat (length bs) < limit)%N →
    take_read_to_end limit s =
      match e with Eof => Ready (Ok bs) | Fails err => Ready (Err err) | Stalls => Pending end
}.

(** The documented behaviour of writing: a [write_all] that returns [Ok] has appended its
    bytes to those the stream has accepted. *)
Class AsyncWriteLaws (Stream IoError : Type) `{AsyncIo Stream IoError} : Type := {
  written : Stream → bytes;
  write_all_written : ∀ data s s',
    write_all data s = (s', Ready (Ok tt)) → written s' = written s ++ data
}.

(** [serde_json] for one type, and its [Debug] rendering of errors. *)
Class SerdeJson (SerdeError T : Type) : Type := {
  to_vec : T → outcome SerdeError bytes;
  from_slice : bytes → outcome SerdeError T
}.
Class DebugFmt (E : Type) : Type := debug_fmt : E → string.

(** What [serde_json] writes it reads back (derived implementations). *)
Class SerdeRoundtrip (SerdeError T : Type) `{SerdeJson SerdeError T} : Prop :=
  serde_roundtrip : ∀ (x : T) bs, to_vec x = Ok bs → from_slice bs = Ok x.

(** * The JSON codec *)

(** [SIZE_MAXIMUM: u64]. *)
Definition SIZE_MAXIMUM : N := (1024 * 1024)%N.

Section json.
Context {Stream IoError MultiaddrError DecodingError SerdeError TInfo Push : Type}.
Context `{!AsyncIo Stream IoError, !DebugFmt SerdeError}.
Context `{!SerdeJson SerdeError TInfo, !SerdeJson SerdeError Push}.
Abbreviation Error := (UpgradeError IoError MultiaddrError DecodingError).

(** [map_err(|e| UpgradeError::Codec(format!("{:?}", e)))]. *)
Definition codec_error (e : SerdeError) : Error := CodecError (debug_fmt e).

(** [from_slice(..).map_err(..)]. *)
Definition decode `{!SerdeJson SerdeError T} (bs : bytes) : outcome Error T :=
  map_err codec_error (from_slice bs).

(** The body of [read_info], for the type it decodes. *)
Definition read_json `{!SerdeJson SerdeError T} (io : Stream) : Poll (outcome Error T) :=
  r ← take_read_to_end SIZE_MAXIMUM io;
  Ready (vec ← map_err Io r; decode vec).

(** The body of [write_info], for the type it encodes. *)
Definition write_json `{!SerdeJson SerdeError T} (io : Stream) (info : T) :
    Stream * Poll (outcome Error unit) :=
  match map_err codec_error (to_vec info) with
  | Ok data => let '(io', r) := write_all data io in (io', map_err Io <$> r)
  | Err e => (io, Ready (Err e))
  | Panicked => (io, Ready Panicked)
  | OutOfFuel => (io, Ready OutOfFuel)
  end.

Definition json_read_info : Stream → Poll (outcome Error TInfo) := read_json.
Definition json_read_push_info : Stream → Poll (outcome Error Push) := read_json.
Definition json_write_info : Stream → TInfo → Stream * Poll (outcome Error unit) := write_json.
Definition json_write_push_info : Stream → Push → Stream * Poll (outcome Error unit) := write_json.

(** [impl Codec for json::Codec]. *)
#[global] Instance json_codec : Codec Stream TInfo Push Error := {|
  read_info := json_read_info;
  read_push_info := json_read_push_info;
  write_info := json_write_info;
  write_push_info := json_write_push_info
|}.

Section theorems.
Context `{!AsyncIoLaws Stream IoError}.

Lemma read_json_result `{!SerdeJson SerdeError T} (io : Stream) bs e :
  delivers io bs e →
  read_json (T := T) io =
    if decide (SIZE_MAXIMUM ≤ N.of_nat (length bs))%N
    then Ready (decode (take (N.to_nat SIZE_MAXIMUM) bs))
    else match e with
         | Eof => Ready (decode bs)
         | Fails err => Ready (Err (Io err))
         | Stalls => Pending
         end.
Proof.
  intros Hd. unfold read_json. case_decide as Hlen.
  - by rewrite (take_read_limit _ _ _ _ Hd Hlen).
  - rewrite (take_read_all _ _ _ _ Hd) by lia. by destruct e.
Qed.

(** C39: the result of [read_info] on every stream: at most [SIZE_MAXIMUM] bytes are
    looked at; a longer message is cut there and decoded as it stands, so that
    nothing after the limit matters; a shorter one is decoded at the end of the
    stream, and a read error before the limit is reported as [Io]. *)
Theorem read_info_result (io : Stream) bs e :
  delivers io bs e →
  json_read_info io =
    if decide (SIZE_MAXIMUM ≤ N.of_nat (length bs))%N
    then Ready (decode (take (N.to_nat SIZE_MAXIMUM) bs))
    else match e with
         | Eof => Ready (decode bs)
         | Fails err => Ready (Err (Io err))
         | Stalls => Pending
         end.
Proof. apply read_json_result. Qed.

Lemma json_roundtrip `{!SerdeJson SerdeError T, !SerdeRoundtrip SerdeError T}
    (out inp out' : Stream) (x : T) (data : bytes) :
  to_vec x = Ok data → write_all data out = (out', Ready (Ok tt)) → delivers inp data Eof →
  (N.of_nat (length data) ≤ SIZE_MAXIMUM)%N →
  write_json out x = (out', Ready (Ok tt)) ∧ read_json inp = Ready (Ok x).
Proof.
  intros Hx Hw Hd Hlen. unfold write_json. rewrite Hx. simpl. rewrite Hw. split; [done|].
  rewrite (read_json_result _ _ _ Hd). unfold decode. case_decide.
  - rewrite firstn_all2 by lia. by rewrite (serde_roundtrip _ _ Hx).
  - by rewrite (serde_roundtrip _ _ Hx).
Qed.

(** C40: round trip: an info of at most [SIZE_MAXIMUM] encoded bytes that is written
    to one end and arrives whole at the other is read back unchanged; the same for
    a pushed info. *)
Theorem peer_info_roundtrip `{!SerdeRoundtrip SerdeError TInfo, !SerdeRoundtrip SerdeError Push}
    (out inp out' : Stream) (data : bytes) :
  write_all data out = (out', Ready (Ok tt)) → delivers inp data Eof →
  (N.of_nat (length data) ≤ SIZE_MAXIMUM)%N →
  (∀ info : TInfo, to_vec info = Ok data →
     json_write_info out info = (out', Ready (Ok tt)) ∧ json_read_info inp = Ready (Ok info)) ∧
  (∀ push : Push, to_vec push = Ok data →
     json_write_push_info out push = (out', Ready (Ok tt)) ∧
     json_read_push_info inp = Ready (Ok push)).
Proof. intros. split; intros; by eapply json_roundtrip. Qed.
(** What the writer has written to a fresh stream, delivered to the reader, is read
    back. *)
Lemma written_read_back `{!AsyncWriteLaws Stream IoError}
    `{!SerdeJson SerdeError T, !SerdeRoundtrip SerdeError T} (out out' inp : Stream) (x : T) :
  written out = [] → write_json out x = (out', Ready (Ok tt)) → delivers inp (written out') Eof →
  (N.of_nat (length (written out')) ≤ SIZE_MAXIMUM)%N →
  read_json inp = Ready (Ok x).
Proof.
  intros Hnew Hw Hd Hlen. unfold write_json in Hw.
  destruct (to_vec x) as [data|e| |] eqn:Hx; simpl in Hw; try done.
  destruct (write_all data out) as [io' [[[]|e| |]|]] eqn:Hall; simpl in Hw; try done.
  injection Hw as <-. rewrite (write_all_written _ _ _ Hall), Hnew in Hd, Hlen. simpl in Hd, Hlen.
  by apply (json_roundtrip out inp io' x data).
Qed.
End theorems.
End json.

(** * A concrete stream and format *)

(** A stream that holds what the peer sends and collects what is written. *)
Record BufferStream : Type := mk_buffer {
  buffer_in : bytes;
  buffer_end : stream_end unit;
  buffer_out : bytes
}.

#[global] Instance buffer_io : AsyncIo BufferStream unit := {|
  take_read_to_end limit s :=
    if decide (limit ≤ N.of_nat (length (buffer_in s)))%N
    then Ready (Ok (take (N.to_nat limit) (buffer_in s)))
    else match buffer_end s with
         | Eof => Ready (Ok (buffer_in s))
         | Fails err => Ready (Err err)
         | Stalls => Pending
         end;
  write_all data s := (mk_buffer (buffer_in s) (buffer_end s) (buffer_out s ++ data), Ready (Ok tt))
|}.

#[global] Instance buffer_io_laws : AsyncIoLaws BufferStream unit.
Proof.
  refine {| delivers s bs e := buffer_in s = bs ∧ buffer_end s = e |}.
  - intros limit s bs e [<- <-] Hlen. simpl. by rewrite decide_True.
  - intros limit s bs e [<- <-] Hlen. simpl. by rewrite decide_False by lia.
Defined.

#[global] Instance buffer_write_laws : AsyncWriteLaws BufferStream unit.
Proof. refine {| written s := buffer_out s |}. by intros data s s' [= <-]. Defined.

(** A peer info that is one byte, written as itself. *)
#[global] Instance byte_serde : SerdeJson unit Byte.byte := {|
  to_vec b := Ok [b];
  from_slice bs := match bs with [b] => Ok b | _ => Err tt end
|}.
#[global] Instance byte_roundtrip : SerdeRoundtrip unit Byte.byte.
Proof. by intros x bs [= <-]. Qed.
#[global] Instance unit_debug : DebugFmt unit := λ _, "error"%string.
#[global] Instance byte_info : Info Byte.byte Byte.byte := {|
  into_push b := b;
  merge _ push := push
|}.
Abbreviation SampleError := (UpgradeError unit unit unit).

Lemma read_info_result_witness :
  (json_read_info (mk_buffer [Byte.x41] Eof []) : Poll (outcome SampleError Byte.byte)) =
    if decide (SIZE_MAXIMUM ≤ N.of_nat 1)%N
    then Ready (decode (take (N.to_nat SIZE_MAXIMUM) [Byte.x41]))
    else Ready (decode [Byte.x41]).
Proof.
  apply (read_info_result (MultiaddrError := unit) (DecodingError := unit)
    (mk_buffer [Byte.x41] Eof []) [Byte.x41] Eof).
  split; reflexivity.
Defined.

Lemma peer_info_roundtrip_witness :
  (∀ info : Byte.byte, to_vec info = Ok [Byte.x41] →
     json_write_info (mk_buffer [] Eof []) info =
       (mk_buffer [] Eof [Byte.x41], Ready (Ok tt : outcome SampleError unit)) ∧
     json_read_info (mk_buffer [Byte.x41] Eof []) = Ready (Ok info : outcome SampleError Byte.byte)) ∧
  (∀ push : Byte.byte, to_vec push = Ok [Byte.x41] →
     json_write_push_info (mk_buffer [] Eof []) push =
       (mk_buffer [] Eof [Byte.x41], Ready (Ok tt : outcome SampleError unit)) ∧
     json_read_push_info (mk_buffer [Byte.x41] Eof []) = Ready (Ok push : outcome SampleError Byte.byte)).
Proof.
  apply (peer_info_roundtrip (mk_buffer [] Eof []) (mk_buffer [Byte.x41] Eof [])
    (mk_buffer [] Eof [Byte.x41]) [Byte.x41]).
  - reflexivity.
  - split; reflexivity.
  - vm_compute. discriminate.
Defined.
