(* ===== verification/PeerInfoHandler.v ===== *)
(** PeerInfoHandler: the connection handler of the peer-info protocol,
    [blocknet/src/libp2p/peer_info/handler.rs].

    The bounded set of running streams ([futures_bounded::FuturesSet]), the timer
    ([futures_timer::Delay]), the protocol set and the errors of libp2p are
    parameters; the laws the theorems use are stated in [FuturesSetLaws]. *)
From S2P Require Import Prelude PeerInfoProtocol.

(** * The libraries *)

(** [Duration::from_secs]: durations are in nanoseconds. *)
Definition from_secs (secs : N) : N := (secs * 1000000000)%N.

(** [futures_timer::Delay]. *)
Class Timer (Delay Ctx : Type) : Type := {
  delay_new : N → Delay;
  delay_reset : N → Delay → Delay;
  delay_poll : Ctx → Delay → Delay * Poll unit
}.

(** [futures_bounded::Timeout]. *)
Inductive Timeout : Type := mk_timeout.

(** [futures_bounded::FuturesSet]: a set of at most [capacity] futures, each given up
    after a timeout. *)
Class FuturesSet (FSet Ctx Task Output : Type) : Type := {
  fset_new : N → N → FSet;
  fset_try_push : Task → FSet → FSet * result Task unit;
  fset_poll : Ctx → FSet → FSet * Poll (result Timeout Output)
}.

(** Its documented behaviour: [try_push] refuses a future at capacity and else adds
    it; [poll] removes a future that completed, with its output, or that timed out. *)
Class FuturesSetLaws (FSet Ctx Task Output : Type) `{FuturesSet FSet Ctx Task Output}
    (completes : Task → Output → Prop) : Type := {
  fset_tasks : FSet → list Task;
  fset_capacity : FSet → N;
  fset_new_laws : ∀ timeout capacity,
    fset_tasks (fset_new timeout capacity) = [] ∧
    fset_capacity (fset_new timeout capacity) = capacity;
  fset_try_push_laws : ∀ task s,
    if decide (N.of_nat (length (fset_tasks s)) < fset_capacity s)%N
    then ∃ s', fset_try_push task s = (s', ROk tt) ∧ fset_tasks s' = fset_tasks s ++ [task] ∧
           fset_capacity s' = fset_capacity s
    else fset_try_push task s = (s, RErr task);
  fset_poll_laws : ∀ cx s s' r,
    fset_poll cx s = (s', r) → fset_capacity s' = fset_capacity s ∧
    match r with
    | Pending => fset_tasks s' ≡ₚ fset_tasks s
    | Ready (RErr _) => ∃ task, fset_tasks s ≡ₚ task :: fset_tasks s'
    | Ready (ROk output) => ∃ task, fset_tasks s ≡ₚ task :: fset_tasks s' ∧ completes task output
    end
}.

(** [libp2p::swarm::SupportedProtocols], [StreamProtocol] and [StreamUpgradeError]. *)
Class SwarmTypes (StreamProtocol SupportedProtocols ProtocolsChange DialError Error SUError : Type) : Type := {
  protocol_to_string : StreamProtocol → string;
  no_protocols : SupportedProtocols;
  protocols_iter : SupportedProtocols → list StreamProtocol;
  on_protocols_change : ProtocolsChange → SupportedProtocols → SupportedProtocols * bool;
  upgrade_timeout : SUError;
  upgrade_apply : Error → SUError;
  upgrade_dial : DialError → SUError
}.

(** * The handler *)

(** [STREAM_TIMEOUT] and [MAX_CONCURRENT_STREAMS_PER_CONNECTION]. *)
Definition STREAM_TIMEOUT : N := from_secs 60.
Definition MAX_CONCURRENT_STREAMS_PER_CONNECTION : N := 10.

(** [either::Either], also [futures::future::Either]. *)
Inductive Either (A B : Type) : Type := Left (a : A) | Right (b : B).
Arguments Left {A B} a.
Arguments Right {A B} b.

(** [enum InEvent]. *)
Inductive InEvent (Addresses : Type) : Type := AddressesChanged (addresses : Addresses) | Push.
Arguments AddressesChanged {_} addresses.
Arguments Push {_}.

(** [enum handler::Event]. *)
Inductive HandlerEvent (TInfo TPush SUError : Type) : Type :=
| Identified (info : TInfo)
| Identification
| IdentificationPushed (info : TPush)
| IdentificationError (error : SUError).
Arguments Identified {_ _ _} info.
Arguments Identification {_ _ _}.
Arguments IdentificationPushed {_ _ _} info.
Arguments IdentificationError {_ _ _} error.

(** [enum Success]. *)
Inductive Success (TInfo TPush : Type) : Type :=
| SentIdentify
| ReceivedIdentify (info : TInfo)
| SentIdentifyPush (info : TPush)
| ReceivedIdentifyPush (info : TPush).
Arguments SentIdentify {_ _}.
Arguments ReceivedIdentify {_ _} info.
Arguments SentIdentifyPush {_ _} info.
Arguments ReceivedIdentifyPush {_ _} info.

(** [ConnectionHandlerEvent]: the two forms the handler produces. *)
Inductive HandlerOutput (StreamProtocol Event : Type) : Type :=
| OutboundSubstreamRequest (protocol : Either StreamProtocol StreamProtocol)
| NotifyBehaviour (event : Event).
Arguments OutboundSubstreamRequest {_ _} protocol.
Arguments NotifyBehaviour {_ _} event.

(** [ConnectionEvent]: the arms of [on_connection_event]. *)
Inductive ConnectionEvent (Stream DialError ProtocolsChange : Type) : Type :=
| FullyNegotiatedInbound (protocol : Either Stream Stream)
| FullyNegotiatedOutbound (protocol : Either Stream Stream)
| DialUpgradeError (error : DialError)
| LocalProtocolsChange (change : ProtocolsChange)
| OtherConnectionEvent.
Arguments FullyNegotiatedInbound {_ _ _} protocol.
Arguments FullyNegotiatedOutbound {_ _ _} protocol.
Arguments DialUpgradeError {_ _ _} error.
Arguments LocalProtocolsChange {_ _ _} change.
Arguments OtherConnectionEvent {_ _ _}.

(** The futures the handler runs: one codec call on a stream each. *)
Inductive StreamTask (Stream TInfo TPush : Type) : Type :=
| WriteInfoTask (stream : Stream) (info : TInfo)
| ReadPushInfoTask (stream : Stream)
| ReadInfoTask (stream : Stream)
| WritePushInfoTask (stream : Stream) (info : TPush).
Arguments WriteInfoTask {_ _ _} stream info.
Arguments ReadPushInfoTask {_ _ _} stream.
Arguments ReadInfoTask {_ _ _} stream.
Arguments WritePushInfoTask {_ _ _} stream info.

(** [struct Handler]. *)
Record Handler (PeerId Output FSet Delay TInfo SupportedProtocols Addresses StreamProtocol : Type) : Type :=
mk_handler {
  remote_peer_id : PeerId;
  events : list Output;
  active_streams : FSet;
  trigger_next_identify : Delay;
  exchanged_one_periodic_identify : bool;
  interval : N;
  handler_local_info : TInfo;
  remote_info : option TInfo;
  local_supported_protocols : SupportedProtocols;
  handler_external_addresses : Addresses;
  protocol_name : StreamProtocol;
  push_protocol_name : StreamProtocol
}.
Arguments mk_handler {_ _ _ _ _ _ _ _} _ _ _ _ _ _ _ _ _ _ _ _.
Arguments remote_peer_id {_ _ _ _ _ _ _ _} _.
Arguments events {_ _ _ _ _ _ _ _} _.
Arguments active_streams {_ _ _ _ _ _ _ _} _.
Arguments trigger_next_identify {_ _ _ _ _ _ _ _} _.
Arguments exchanged_one_periodic_identify {_ _ _ _ _ _ _ _} _.
Arguments interval {_ _ _ _ _ _ _ _} _.
Arguments handler_local_info {_ _ _ _ _ _ _ _} _.
Arguments remote_info {_ _ _ _ _ _ _ _} _.
Arguments local_supported_protocols {_ _ _ _ _ _ _ _} _.
Arguments handler_external_addresses {_ _ _ _ _ _ _ _} _.
Arguments protocol_name {_ _ _ _ _ _ _ _} _.
Arguments push_protocol_name {_ _ _ _ _ _ _ _} _.

(** [TryFutureExt::map_ok]. *)
Definition map_ok {E A B} (f : A → B) (p : Poll (outcome E A)) : Poll (outcome E B) :=
  match p with Ready r => Ready (f <$> r) | Pending => Pending end.

(** [SmallVec::pop]: the last element. *)
Definition pop_back {A} (l : list A) : list A * option A :=
  match last l with Some x => (take (length l - 1) l, Some x) | None => (l, None) end.

Section handler.
Context {Stream Ctx TInfo TPush Error SUError : Type}.
Context {PeerId FSet Delay Addresses StreamProtocol SupportedProtocols ProtocolsChange DialError : Type}.
Context `{!Info TInfo TPush, !Codec Stream TInfo TPush Error, !Timer Delay Ctx}.
Abbreviation Task := (StreamTask Stream TInfo TPush).
Abbreviation Result := (result Error (Success TInfo TPush)).
Context `{!FuturesSet FSet Ctx Task Result}.
Context `{!SwarmTypes StreamProtocol SupportedProtocols ProtocolsChange DialError Error SUError}.
Abbreviation Event := (HandlerEvent TInfo TPush SUError).
Abbreviation Output := (HandlerOutput StreamProtocol Event).
Abbreviation H := (Handler PeerId Output FSet Delay TInfo SupportedProtocols Addresses StreamProtocol).
Implicit Types (h : H).

(** Assignments to the fields of the handler. *)
Definition set_events (es : list Output) h : H :=
  mk_handler (remote_peer_id h) es (active_streams h) (trigger_next_identify h)
    (exchanged_one_periodic_identify h) (interval h) (handler_local_info h) (remote_info h)
    (local_supported_protocols h) (handler_external_addresses h) (protocol_name h) (push_protocol_name h).
Definition set_active_streams (s : FSet) h : H :=
  mk_handler (remote_peer_id h) (events h) s (trigger_next_identify h)
    (exchanged_one_periodic_identify h) (interval h) (handler_local_info h) (remote_info h)
    (local_supported_protocols h) (handler_external_addresses h) (protocol_name h) (push_protocol_name h).
Definition set_trigger (d : Delay) h : H :=
  mk_handler (remote_peer_id h) (events h) (active_streams h) d
    (exchanged_one_periodic_identify h) (interval h) (handler_local_info h) (remote_info h)
    (local_supported_protocols h) (handler_external_addresses h) (protocol_name h) (push_protocol_name h).
Definition set_exchanged (x : bool) h : H :=
  mk_handler (remote_peer_id h) (events h) (active_streams h) (trigger_next_identify h)
    x (interval h) (handler_local_info h) (remote_info h)
    (local_supported_protocols h) (handler_external_addresses h) (protocol_name h) (push_protocol_name h).
Definition set_remote_info (i : option TInfo) h : H :=
  mk_handler (remote_peer_id h) (events h) (active_streams h) (trigger_next_identify h)
    (exchanged_one_periodic_identify h) (interval h) (handler_local_info h) i
    (local_supported_protocols h) (handler_external_addresses h) (protocol_name h) (push_protocol_name h).
Definition set_protocols (p : SupportedProtocols) h : H :=
  mk_handler (remote_peer_id h) (events h) (active_streams h) (trigger_next_identify h)
    (exchanged_one_periodic_identify h) (interval h) (handler_local_info h) (remote_info h)
    p (handler_external_addresses h) (protocol_name h) (push_protocol_name h).
Definition set_addresses (a : Addresses) h : H :=
  mk_handler (remote_peer_id h) (events h) (active_streams h) (trigger_next_identify h)
    (exchanged_one_periodic_identify h) (interval h) (handler_local_info h) (remote_info h)
    (local_supported_protocols h) a (protocol_name h) (push_protocol_name h).
Definition push_event (e : Output) h : H := set_events (events h ++ [e]) h.

(** [Handler::new]. *)
Definition new_handler (interval : N) (remote_peer_id : PeerId) (external_addresses : Addresses)
    (local_info : TInfo) (protocol_name push_protocol_name : StreamProtocol) : H :=
  mk_handler remote_peer_id [] (fset_new STREAM_TIMEOUT MAX_CONCURRENT_STREAMS_PER_CONNECTION)
    (delay_new 0) false interval local_info None no_protocols external_addresses
    protocol_name push_protocol_name.

(** [self.active_streams.try_push(future)] and its [is_err()]. *)
Definition try_push (task : Task) h : H * bool :=
  let '(s, r) := fset_try_push task (active_streams h) in
  (set_active_streams s h, match r with RErr _ => true | ROk _ => false end).

(** [Handler::on_fully_negotiated_inbound]. *)
Definition on_fully_negotiated_inbound (output : Either Stream Stream) h : H :=
  match output with
  | Left stream =>
    let info := handler_local_info h in
    let '(h, is_err) := try_push (WriteInfoTask stream info) h in
    if is_err then h else set_exchanged true h
  | Right stream => let '(h, _) := try_push (ReadPushInfoTask stream) h in h
  end.

(** [Handler::on_fully_negotiated_outbound]. *)
Definition on_fully_negotiated_outbound (output : Either Stream Stream) h : H :=
  match output with
  | Left stream => let '(h, _) := try_push (ReadInfoTask stream) h in h
  | Right stream =>
    let info := into_push (handler_local_info h) in
    let '(h, _) := try_push (WritePushInfoTask stream info) h in h
  end.

(** What a future of the handler yields: the codec call and its [map_ok]. *)
Definition task_result (task : Task) : Poll (outcome Error (Success TInfo TPush)) :=
  match task with
  | WriteInfoTask stream info => map_ok (λ _, SentIdentify) (write_info stream info).2
  | ReadPushInfoTask stream => map_ok ReceivedIdentifyPush (read_push_info stream)
  | ReadInfoTask stream => map_ok ReceivedIdentify (read_info stream)
  | WritePushInfoTask stream info => map_ok (λ _, SentIdentifyPush info) (write_push_info stream info).2
  end.

(** A task is done with a result when its future returned it. *)
Definition task_completes (task : Task) (r : Result) : Prop := task_result task = Ready (returned r).

(** [Handler::handle_incoming_info]. *)
Definition handle_incoming_info (info : TInfo) h : H := set_remote_info (Some info) h.

(** [Handler::local_protocols_to_string]. *)
Definition local_protocols_to_string h : string :=
  String.concat ", " (protocol_to_string <$> protocols_iter (local_supported_protocols h)).

(** [ConnectionHandler::listen_protocol]. *)
Definition listen_protocol h : StreamProtocol * StreamProtocol :=
  (protocol_name h, push_protocol_name h).

(** [ConnectionHandler::on_behaviour_event]. *)
Definition on_behaviour_event (event : InEvent Addresses) h : H :=
  match event with
  | AddressesChanged addresses => set_addresses addresses h
  | Push => push_event (OutboundSubstreamRequest (Right (push_protocol_name h))) h
  end.

(** The [match] on [self.active_streams.poll_unpin(cx)]. *)
Definition poll_active_streams (cx : Ctx) h : H * Poll Output :=
  let '(s, r) := fset_poll cx (active_streams h) in
  let h := set_active_streams s h in
  match r with
  | Ready (ROk (ROk (ReceivedIdentify info))) =>
    (handle_incoming_info info h, Ready (NotifyBehaviour (Identified info)))
  | Ready (ROk (ROk (SentIdentifyPush info))) =>
    (h, Ready (NotifyBehaviour (IdentificationPushed info)))
  | Ready (ROk (ROk SentIdentify)) => (h, Ready (NotifyBehaviour Identification))
  | Ready (ROk (ROk (ReceivedIdentifyPush push))) =>
    match remote_info h with
    | Some info =>
      let info := merge info push in
      (handle_incoming_info info h, Ready (NotifyBehaviour (Identified info)))
    | None => (h, Pending)
    end
  | Ready (ROk (RErr e)) =>
    (h, Ready (NotifyBehaviour (IdentificationError (upgrade_apply e))))
  | Ready (RErr mk_timeout) =>
    (h, Ready (NotifyBehaviour (IdentificationError upgrade_timeout)))
  | Pending => (h, Pending)
  end.

(** [ConnectionHandler::poll]. *)
Definition handler_poll (cx : Ctx) h : H * Poll Output :=
  match pop_back (events h) with
  | (es, Some event) => (set_events es h, Ready event)
  | (_, None) =>
    let '(d, r) := delay_poll cx (trigger_next_identify h) in
    let h := set_trigger d h in
    match r with
    | Ready _ =>
      (set_trigger (delay_reset (interval h) (trigger_next_identify h)) h,
       Ready (OutboundSubstreamRequest (Left (protocol_name h))))
    | Pending => poll_active_streams cx h
    end
  end.

(** [ConnectionHandler::on_connection_event]. *)
Definition on_connection_event (event : ConnectionEvent Stream DialError ProtocolsChange) h : H :=
  match event with
  | FullyNegotiatedInbound protocol => on_fully_negotiated_inbound protocol h
  | FullyNegotiatedOutbound protocol => on_fully_negotiated_outbound protocol h
  | DialUpgradeError error =>
    let h := push_event (NotifyBehaviour (IdentificationError (upgrade_dial error))) h in
    set_trigger (delay_reset (interval h) (trigger_next_identify h)) h
  | LocalProtocolsChange change =>
    let '(p, protocols_changed) := on_protocols_change change (local_supported_protocols h) in
    let h := set_protocols p h in
    if protocols_changed && exchanged_one_periodic_identify h
    then push_event (OutboundSubstreamRequest (Right (push_protocol_name h))) h
    else h
  | OtherConnectionEvent => h
  end.
End handler.

(** * Runs of the handler *)
Section runs.
Context {Stream Ctx TInfo TPush Error SUError : Type}.
Context {PeerId FSet Delay Addresses StreamProtocol SupportedProtocols ProtocolsChange DialError : Type}.
Context `{!Info TInfo TPush, !Codec Stream TInfo TPush Error, !Timer Delay Ctx}.
Abbreviation Task := (StreamTask Stream TInfo TPush).
Abbreviation Result := (result Error (Success TInfo TPush)).
Context `{!FuturesSet FSet Ctx Task Result}.
Context `{!SwarmTypes StreamProtocol SupportedProtocols ProtocolsChange DialError Error SUError}.
Context `{!FuturesSetLaws FSet Ctx Task Result task_completes}.
Abbreviation Event := (HandlerEvent TInfo TPush SUError).
Abbreviation Output := (HandlerOutput StreamProtocol Event).
Abbreviation H := (Handler PeerId Output FSet Delay TInfo SupportedProtocols Addresses StreamProtocol).
Implicit Types (h : H) (info : TInfo) (cx : Ctx).

(** The calls the swarm makes on a handler. *)
Inductive handler_input : Type :=
| FromBehaviour (event : InEvent Addresses)
| FromConnection (event : ConnectionEvent Stream DialError ProtocolsChange)
| Polled (cx : Ctx).

(** One call, with the event it returns to the swarm, if any. *)
Definition handler_step (input : handler_input) h : H * option Output :=
  match input with
  | FromBehaviour event => (on_behaviour_event event h, None)
  | FromConnection event => (on_connection_event event h, None)
  | Polled cx =>
    match handler_poll cx h with
    | (h, Ready out) => (h, Some out)
    | (h, Pending) => (h, None)
    end
  end.

(** A sequence of calls, with the events returned in order. *)
Fixpoint handler_run (inputs : list handler_input) h : H * list Output :=
  match inputs with
  | [] => (h, [])
  | input :: inputs =>
    let '(h, out) := handler_step input h in
    let '(h, outs) := handler_run inputs h in
    (h, option_list out ++ outs)
  end.

Lemma pop_back_snoc {A} (l : list A) x : pop_back (l ++ [x]) = (l, Some x).
Proof.
  unfold pop_back. rewrite last_snoc, length_app. simpl.
  replace (length l + 1 - 1)%nat with (length l) by lia. by rewrite take_app_length.
Qed.

(** The order of [poll]: a queued event is returned first, the latest one before
    the others; then, when the timer fires, it is restarted and an identification
    request is opened; only then the running streams are looked at. *)
Theorem handler_poll_order cx h :
  (∀ es e, events h = es ++ [e] → handler_poll cx h = (set_events es h, Ready e)) ∧
  (events h = [] → ∀ d, delay_poll cx (trigger_next_identify h) = (d, Ready tt) →
     handler_poll cx h = (set_trigger (delay_reset (interval h) d) h,
       Ready (OutboundSubstreamRequest (Left (protocol_name h))))) ∧
  (events h = [] → ∀ d, delay_poll cx (trigger_next_identify h) = (d, Pending) →
     handler_poll cx h = poll_active_streams cx (set_trigger d h)).
Proof.
  unfold handler_poll. split_and!.
  - intros es e ->. by rewrite pop_back_snoc.
  - intros -> d ->. done.
  - intros -> d ->. done.
Qed.

(** * The number of running streams *)

Definition streams_bounded h : Prop :=
  fset_capacity (active_streams h) = MAX_CONCURRENT_STREAMS_PER_CONNECTION ∧
  (N.of_nat (length (fset_tasks (active_streams h))) ≤ MAX_CONCURRENT_STREAMS_PER_CONNECTION)%N.

Lemma try_push_result task h :
  if decide (N.of_nat (length (fset_tasks (active_streams h))) < fset_capacity (active_streams h))%N
  then ∃ s, try_push task h = (set_active_streams s h, false) ∧
         fset_tasks s = fset_tasks (active_streams h) ++ [task] ∧
         fset_capacity s = fset_capacity (active_streams h)
  else try_push task h = (set_active_streams (active_streams h) h, true).
Proof.
  unfold try_push. pose proof (fset_try_push_laws task (active_streams h)) as Hlaw.
  case_decide.
  - destruct Hlaw as (s & -> & Ht & Hc). eauto.
  - by rewrite Hlaw.
Qed.

Lemma try_push_bounded task h : streams_bounded h → streams_bounded (try_push task h).1.
Proof.
  intros [Hcap Hlen]. pose proof (try_push_result task h) as Hr. case_decide as Hd.
  - destruct Hr as (s & -> & Ht & Hc). split; simpl; [congruence|]. rewrite Ht, length_app. simpl. lia.
  - by rewrite Hr.
Qed.

Lemma poll_active_streams_bounded cx h :
  streams_bounded h → streams_bounded (poll_active_streams cx h).1.
Proof.
  intros [Hcap Hlen]. unfold poll_active_streams.
  destruct (fset_poll cx (active_streams h)) as [s r] eqn:Hp.
  destruct (fset_poll_laws _ _ _ _ Hp) as [Hc Ht].
  assert (streams_bounded (set_active_streams s h)) as Hs.
  { split; simpl; [congruence|]. destruct r as [[o|e]|].
    - destruct Ht as (task & Ht%Permutation_length & _). simpl in Ht. lia.
    - destruct Ht as (task & Ht%Permutation_length). simpl in Ht. lia.
    - apply Permutation_length in Ht. lia. }
  destruct r as [[[[]|]|[]]|]; simpl; try done. by destruct (remote_info h).
Qed.

Lemma handler_step_bounded input h : streams_bounded h → streams_bounded (handler_step input h).1.
Proof.
  intros Hh. destruct input as [[]|[[]|[]| | |]|cx]; simpl; try done.
  - unfold on_fully_negotiated_inbound.
    pose proof (try_push_bounded (WriteInfoTask a (handler_local_info h)) h Hh) as Hb.
    destruct (try_push _ h) as [h' []]; done.
  - unfold on_fully_negotiated_inbound.
    pose proof (try_push_bounded (ReadPushInfoTask b) h Hh). by destruct (try_push _ h).
  - unfold on_fully_negotiated_outbound.
    pose proof (try_push_bounded (ReadInfoTask a) h Hh). by destruct (try_push _ h).
  - unfold on_fully_negotiated_outbound.
    pose proof (try_push_bounded (WritePushInfoTask b (into_push (handler_local_info h))) h Hh).
    by destruct (try_push _ h).
  - destruct (on_protocols_change _ _) as [p []]; simpl; [|done].
    by destruct (exchanged_one_periodic_identify h).
  - unfold handler_poll. destruct (pop_back (events h)) as [es [e|]]; [done|].
    destruct (delay_poll cx (trigger_next_identify h)) as [d []]; [done|].
    pose proof (poll_active_streams_bounded cx (set_trigger d h) Hh).
    by destruct (poll_active_streams cx (set_trigger d h)) as [h' []].
Qed.

(** An invariant of single calls holds after every sequence of calls. *)
Lemma handler_run_invariant (P : H → Prop) inputs h :
  (∀ input h, P h → P (handler_step input h).1) → P h → P (handler_run inputs h).1.
Proof.
  intros Hstep. revert h. induction inputs as [|input inputs IH]; intros h Hh; simpl; [done|].
  specialize (Hstep input h Hh). destruct (handler_step input h) as [h' out].
  specialize (IH h' Hstep). by destruct (handler_run inputs h').
Qed.

(** The handler never runs more streams than the capacity it asks for. *)
Lemma run_streams_bounded inputs (i : N) (peer : PeerId) (addrs : Addresses) (local : TInfo)
    (proto push_proto : StreamProtocol) :
  streams_bounded (handler_run inputs (new_handler i peer addrs local proto push_proto)).1.
Proof.
  apply handler_run_invariant; [apply handler_step_bounded|]. unfold streams_bounded. simpl.
  destruct (fset_new_laws STREAM_TIMEOUT MAX_CONCURRENT_STREAMS_PER_CONNECTION) as [-> ->]. done.
Qed.

(** * When a change of the protocols is pushed *)

(** The calls from [h] contain an identification request of the remote that found fewer
    than the maximal number of streams running. *)
Definition served inputs h : Prop := ∃ inputs1 stream inputs2,
  inputs = inputs1 ++ FromConnection (FullyNegotiatedInbound (Left stream)) :: inputs2 ∧
  (N.of_nat (length (fset_tasks (active_streams (handler_run inputs1 h).1))) <
     MAX_CONCURRENT_STREAMS_PER_CONNECTION)%N.

Lemma served_cons input inputs h :
  served (input :: inputs) h ↔
  ((∃ stream, input = FromConnection (FullyNegotiatedInbound (Left stream))) ∧
     (N.of_nat (length (fset_tasks (active_streams h))) < MAX_CONCURRENT_STREAMS_PER_CONNECTION)%N) ∨
  served inputs (handler_step input h).1.
Proof.
  unfold served. split.
  - intros ([|input' inputs1] & stream & inputs2 & [= -> ->] & Hlt); [left; eauto|right].
    exists inputs1, stream, inputs2. split; [done|]. simpl in Hlt.
    destruct (handler_step input' h) as [h' out]. simpl in *. by destruct (handler_run inputs1 h').
  - intros [[[stream ->] Hlt]|(inputs1 & stream & inputs2 & -> & Hlt)]; [by exists [], stream, inputs|].
    exists (input :: inputs1), stream, inputs2. split; [done|]. simpl.
    destruct (handler_step input h) as [h' out]. simpl in *. by destruct (handler_run inputs1 h').
Qed.

(** One call sets the flag exactly if it is such a request, and keeps the name of the
    push protocol. *)
Lemma handler_step_exchanged input h :
  streams_bounded h →
  (exchanged_one_periodic_identify (handler_step input h).1 = true ↔
     exchanged_one_periodic_identify h = true ∨
     (∃ stream, input = FromConnection (FullyNegotiatedInbound (Left stream))) ∧
       (N.of_nat (length (fset_tasks (active_streams h))) < MAX_CONCURRENT_STREAMS_PER_CONNECTION)%N) ∧
  push_protocol_name (handler_step input h).1 = push_protocol_name h.
Proof.
  intros [Hcap _]. destruct input as [[]|[[stream|stream]|[stream|stream]|error|change|]|cx]; simpl.
  3: { pose proof (try_push_result (WriteInfoTask stream (handler_local_info h)) h) as Hr.
       rewrite Hcap in Hr. case_decide; [destruct Hr as (s & -> & _)|rewrite Hr]; simpl; naive_solver. }
  3-5: unfold on_fully_negotiated_inbound, on_fully_negotiated_outbound, try_push;
    destruct (fset_try_push _ _) as [s r]; simpl; naive_solver.
  4: { destruct (on_protocols_change _ _) as [p []]; simpl; [|naive_solver].
       destruct (exchanged_one_periodic_identify h) eqn:Hx; simpl; rewrite ?Hx; naive_solver. }
  1-4: naive_solver.
  unfold handler_poll. destruct (pop_back (events h)) as [es [e|]]; [simpl; naive_solver|].
  destruct (delay_poll cx (trigger_next_identify h)) as [d []]; [simpl; naive_solver|].
  unfold poll_active_streams. simpl. destruct (fset_poll cx (active_streams h)) as [s r].
  destruct r as [[[[]|]|[]]|]; simpl; try naive_solver. destruct (remote_info h); simpl; naive_solver.
Qed.

Lemma handler_run_exchanged inputs h :
  streams_bounded h →
  (exchanged_one_periodic_identify (handler_run inputs h).1 = true ↔
     exchanged_one_periodic_identify h = true ∨ served inputs h) ∧
  push_protocol_name (handler_run inputs h).1 = push_protocol_name h.
Proof.
  revert h. induction inputs as [|input inputs IH]; intros h Hh; simpl.
  - split; [|done]. split; [by left|]. intros [?|([|] & ? & ? & [=] & _)]; done.
  - destruct (handler_step_exchanged input h Hh) as [Hx Hp].
    specialize (IH _ (handler_step_bounded input h Hh)). rewrite served_cons.
    destruct (handler_step input h) as [h' out]. simpl in *. destruct (handler_run inputs h') as [h'' outs].
    simpl in *. destruct IH as [IH ->]. split; [|done]. rewrite IH, Hx. tauto.
Qed.

(** C37: when a change of the supported protocols is pushed to the remote: after any
    sequence of calls on a new handler, [exchanged_one_periodic_identify] holds exactly
    if some identification request of the remote was accepted, that is, came when fewer
    than [MAX_CONCURRENT_STREAMS_PER_CONNECTION] streams were running (a refused request
    does not count).  In that case an effective change of the protocols queues one push
    request after what was queued, and in the other case it queues nothing; a change
    without effect never queues anything. *)
Theorem protocol_change_pushed inputs (i : N) (peer : PeerId) (addrs : Addresses) (local : TInfo)
    (proto push_proto : StreamProtocol) (change : ProtocolsChange) :
  let h0 := new_handler i peer addrs local proto push_proto in
  let h := (handler_run inputs h0).1 in
  let h' := on_connection_event (LocalProtocolsChange change) h in
  (exchanged_one_periodic_identify h = true ↔ served inputs h0) ∧
  local_supported_protocols h' = (on_protocols_change change (local_supported_protocols h)).1 ∧
  (served inputs h0 → events h' = events h ++
     if (on_protocols_change change (local_supported_protocols h)).2
     then [OutboundSubstreamRequest (Right push_proto)] else []) ∧
  (¬ served inputs h0 → events h' = events h).
Proof.
  intros h0 h h'. pose proof (run_streams_bounded [] i peer addrs local proto push_proto) as Hb.
  destruct (handler_run_exchanged inputs h0 Hb) as [Hx Hp]. fold h in Hx, Hp. simpl in Hx, Hp.
  assert (exchanged_one_periodic_identify h = true ↔ served inputs h0) as Hiff by naive_solver.
  subst h'. simpl. destruct (on_protocols_change _ _) as [p changed]. simpl.
  destruct (exchanged_one_periodic_identify h) eqn:Hh, changed; simpl; rewrite ?Hh, ?app_nil_r, ?Hp;
    naive_solver.
Qed.

(** * What the handler reports about the remote *)

(** The info an event reports. *)
Definition identified_info (out : Output) : option TInfo :=
  match out with NotifyBehaviour (Identified info) => Some info | _ => None end.

(** The last info reported by a sequence of events, [old] if there is none. *)
Definition last_reported (old : option TInfo) (outs : list Output) : option TInfo :=
  foldl (λ r out, match identified_info out with Some info => Some info | None => r end) old outs.

(** Queued events never report an info of the remote. *)
Definition queue_silent h : Prop := Forall (λ out, identified_info out = None) (events h).

Lemma poll_active_streams_reports cx h :
  let '(h', r) := poll_active_streams cx h in
  events h' = events h ∧
  remote_info h' =
    match r with
    | Ready out => match identified_info out with Some info => Some info | None => remote_info h end
    | Pending => remote_info h
    end.
Proof.
  unfold poll_active_streams. destruct (fset_poll cx (active_streams h)) as [s r].
  destruct r as [[[[]|]|[]]|]; simpl; try done. by destruct (remote_info h) eqn:Hi.
Qed.

Lemma pop_back_cases {A} (l : list A) :
  pop_back l = (l, None) ∨ ∃ l' x, l = l' ++ [x] ∧ pop_back l = (l', Some x).
Proof.
  destruct (last l) as [x|] eqn:Hl; [|left; unfold pop_back; by rewrite Hl].
  right. apply last_Some in Hl as [l' ->]. exists l', x. by rewrite pop_back_snoc.
Qed.

Lemma handler_step_reports input h :
  queue_silent h →
  let '(h', out) := handler_step input h in
  queue_silent h' ∧ remote_info h' = last_reported (remote_info h) (option_list out).
Proof.
  unfold queue_silent, last_reported. intros Hq.
  destruct input as [[]|[[]|[]| | |]|cx]; simpl; try done.
  - split; [|done]. by apply Forall_app_2; [|repeat constructor].
  - unfold on_fully_negotiated_inbound, try_push. by destruct (fset_try_push _ _) as [s []].
  - unfold on_fully_negotiated_inbound, try_push. by destruct (fset_try_push _ _) as [s []].
  - unfold on_fully_negotiated_outbound, try_push. by destruct (fset_try_push _ _) as [s []].
  - unfold on_fully_negotiated_outbound, try_push. by destruct (fset_try_push _ _) as [s []].
  - split; [|done]. by apply Forall_app_2; [|repeat constructor].
  - destruct (on_protocols_change _ _) as [p []]; simpl; [|done].
    destruct (exchanged_one_periodic_identify h); simpl; [|done].
    split; [|done]. by apply Forall_app_2; [|repeat constructor].
  - unfold handler_poll. destruct (pop_back_cases (events h)) as [->|(es & e & He & ->)]; simpl.
    + destruct (delay_poll cx (trigger_next_identify h)) as [d []]; [done|].
      by run_spec (poll_active_streams_reports cx (set_trigger d h)) as [h' [out|]] in [-> ->].
    + rewrite He in Hq. apply Forall_app in Hq as [? [-> _]%Forall_cons]. done.
Qed.

Lemma handler_run_reports inputs h h' outs :
  queue_silent h → handler_run inputs h = (h', outs) →
  remote_info h' = last_reported (remote_info h) outs.
Proof.
  revert h outs. induction inputs as [|input inputs IH]; intros h outs Hq; simpl.
  - by intros [= <- <-].
  - run_spec (handler_step_reports input h Hq) as [h1 out] in [Hq1 Hr1].
    destruct (handler_run inputs h1) as [h2 outs2] eqn:Hrun. intros [= <- <-].
    rewrite (IH _ _ Hq1 Hrun), Hr1. unfold last_reported. by rewrite foldl_app.
Qed.

(** C38: the handler's record of the remote is what it reported: after any sequence of
    calls on a new handler, [remote_info] is the info of the last [Identified] event
    it returned, and [None] as long as there was none. *)
Theorem remote_info_reported inputs (i : N) (peer : PeerId) (addrs : Addresses) (local : TInfo)
    (proto push_proto : StreamProtocol) :
  let '(h, outs) := handler_run inputs (new_handler i peer addrs local proto push_proto) in
  remote_info h = last_reported None outs.
Proof.
  destruct (handler_run _ _) as [h outs] eqn:Hrun.
  refine (handler_run_reports inputs (new_handler i peer addrs local proto push_proto) h outs _ Hrun).
  apply Forall_nil_2.
Qed.

(** Where an info that is being reported comes from. *)
Definition info_source h (info : TInfo) : Prop :=
  (∃ stream, ReadInfoTask stream ∈ fset_tasks (active_streams h) ∧
     read_info stream = Ready (Ok info)) ∨
  (∃ stream push old, ReadPushInfoTask stream ∈ fset_tasks (active_streams h) ∧
     read_push_info stream = Ready (Ok push) ∧ remote_info h = Some old ∧ info = merge old push).

(** A task that completes with a received info read it from its stream. *)
Lemma received_info_source task info :
  task_completes task (ROk (ReceivedIdentify info)) →
  ∃ stream, task = ReadInfoTask stream ∧ read_info stream = Ready (Ok info).
Proof.
  unfold task_completes, map_ok. destruct task as [s i|s|s|s p]; simpl.
  - destruct (write_info s i) as [? [[]|]]; done.
  - destruct (read_push_info s) as [[]|]; done.
  - destruct (read_info s) as [[]|] eqn:Hr; try done. intros [= ->]. eauto.
  - destruct (write_push_info s p) as [? [[]|]]; done.
Qed.

Lemma received_push_source task push :
  task_completes task (ROk (ReceivedIdentifyPush push)) →
  ∃ stream, task = ReadPushInfoTask stream ∧ read_push_info stream = Ready (Ok push).
Proof.
  unfold task_completes, map_ok. destruct task as [s i|s|s|s p]; simpl.
  - destruct (write_info s i) as [? [[]|]]; done.
  - destruct (read_push_info s) as [[]|] eqn:Hr; try done. intros [= ->]. eauto.
  - destruct (read_info s) as [[]|]; done.
  - destruct (write_push_info s p) as [? [[]|]]; done.
Qed.

Lemma poll_identified_source cx h h' info :
  queue_silent h →
  handler_poll cx h = (h', Ready (NotifyBehaviour (Identified info))) → info_source h info.
Proof.
  unfold queue_silent. intros Hq. unfold handler_poll.
  destruct (pop_back_cases (events h)) as [->|(es & e & He & ->)].
  2: { intros [= <- ->]. rewrite He in Hq. by apply Forall_app in Hq as [_ [? _]%Forall_cons]. }
  destruct (delay_poll cx (trigger_next_identify h)) as [d []]; [done|].
  unfold poll_active_streams. simpl.
  destruct (fset_poll cx (active_streams h)) as [s r] eqn:Hp.
  destruct (fset_poll_laws _ _ _ _ Hp) as [_ Ht].
  destruct r as [[[[|i|i|i]|]|[]]|]; simpl; try done.
  - intros [= <- ->]. destruct Ht as (task & Hperm & Hc).
    destruct (received_info_source _ _ Hc) as (stream & -> & Hread).
    left. exists stream. split; [|done]. rewrite Hperm. by left.
  - destruct (remote_info h) as [old|] eqn:Hold; [|done]. intros [= <- <-].
    destruct Ht as (task & Hperm & Hc). destruct (received_push_source _ _ Hc) as (stream & -> & Hread).
    right. exists stream, i, old. split_and!; [|done..]. rewrite Hperm. by left.
Qed.

(** A reported info is never invented: when [poll] returns [Identified], a
    running stream delivered that info, or delivered a push that was merged into the
    info known so far. *)
Theorem identified_has_source cx h h' info :
  queue_silent h →
  handler_poll cx h = (h', Ready (NotifyBehaviour (Identified info))) → info_source h info.
Proof. apply poll_identified_source. Qed.

(** A push that arrives before the first identification is lost: the stream is
    consumed, nothing is recorded, and [poll] returns [Pending] although a stream
    completed. *)
Theorem early_push_dropped cx h d s push :
  events h = [] → delay_poll cx (trigger_next_identify h) = (d, Pending) →
  fset_poll cx (active_streams h) = (s, Ready (ROk (ROk (ReceivedIdentifyPush push)))) →
  remote_info h = None →
  handler_poll cx h = (set_active_streams s (set_trigger d h), Pending) ∧
  length (fset_tasks (active_streams h)) = S (length (fset_tasks s)).
Proof.
  intros He Hd Hs Hi. unfold handler_poll, poll_active_streams. rewrite He, Hd. simpl.
  rewrite Hs. simpl. rewrite Hi. split; [done|].
  destruct (fset_poll_laws _ _ _ _ Hs) as [_ (task & Hperm & _)].
  by rewrite Hperm.
Qed.
End runs.

(** * A concrete handler *)

(** A timer that fires when its delay is zero, and a set that polls its futures in
    the order they were pushed. *)
#[global] Instance sample_timer : Timer N unit := {|
  delay_new d := d;
  delay_reset d _ := d;
  delay_poll _ d := (d, if decide (d = 0%N) then Ready tt else Pending)
|}.

Section list_set.
Context {Stream TInfo TPush Error : Type} `{!Codec Stream TInfo TPush Error}.
Abbreviation Task := (StreamTask Stream TInfo TPush).
Abbreviation Result := (result Error (Success TInfo TPush)).

(** The first future that is done, with its result, and the others. *)
Fixpoint poll_tasks (tasks : list Task) : list Task * option Result :=
  match tasks with
  | [] => ([], None)
  | task :: tasks =>
    match task_result task with
    | Ready (Ok x) => (tasks, Some (ROk x))
    | Ready (Err e) => (tasks, Some (RErr e))
    | _ => let '(tasks, r) := poll_tasks tasks in (task :: tasks, r)
    end
  end.

Lemma poll_tasks_spec tasks tasks' r :
  poll_tasks tasks = (tasks', r) →
  match r with
  | Some x => ∃ task, tasks ≡ₚ task :: tasks' ∧ task_completes task x
  | None => tasks' = tasks
  end.
Proof.
  unfold task_completes. revert tasks' r.
  induction tasks as [|task tasks IH]; intros tasks' r; simpl; [by intros [= <- <-]|].
  assert ((let '(ts, x) := poll_tasks tasks in (task :: ts, x)) = (tasks', r) →
    match r with
    | Some x => ∃ t, task :: tasks ≡ₚ t :: tasks' ∧ task_result t = Ready (returned x)
    | None => tasks' = task :: tasks
    end) as Hlater.
  { destruct (poll_tasks tasks) as [ts r']. intros [= <- <-]. specialize (IH _ _ eq_refl).
    destruct r' as [x|]; [|by subst]. destruct IH as (t & Hperm & Hc). exists t. split; [|done].
    rewrite Hperm. apply Permutation_swap. }
  destruct (task_result task) as [[x|e| |]|] eqn:Ht; try done.
  - intros [= <- <-]. by exists task.
  - intros [= <- <-]. by exists task.
Qed.

#[global] Instance list_futures : FuturesSet (N * list Task) unit Task Result := {|
  fset_new _ capacity := (capacity, []);
  fset_try_push task s :=
    if decide (N.of_nat (length s.2) < s.1)%N then ((s.1, s.2 ++ [task]), ROk tt) else (s, RErr task);
  fset_poll _ s :=
    match poll_tasks s.2 with
    | (tasks, Some r) => ((s.1, tasks), Ready (ROk r))
    | (tasks, None) => ((s.1, tasks), Pending)
    end
|}.

#[global] Instance list_futures_laws : FuturesSetLaws (N * list Task) unit Task Result task_completes.
Proof.
  refine {| fset_tasks s := s.2; fset_capacity s := s.1 |}.
  - done.
  - intros task s. simpl. case_decide; [|done]. eauto.
  - intros [] s s' r. simpl. destruct (poll_tasks s.2) as [ts r'] eqn:Hp.
    apply poll_tasks_spec in Hp. destruct r' as [x|]; intros [= <- <-]; simpl; [done|by subst].
Defined.
End list_set.

(** Stream upgrade errors and protocol names of the sample. *)
Inductive sample_upgrade_error : Type := SampleTimeout | SampleApply (e : SampleError) | SampleDial.
#[global] Instance sample_swarm : SwarmTypes string (list string) (list string) unit SampleError sample_upgrade_error := {|
  protocol_to_string p := p;
  no_protocols := [];
  protocols_iter ps := ps;
  on_protocols_change new old := (new, bool_decide (new ≠ old));
  upgrade_timeout := SampleTimeout;
  upgrade_apply := SampleApply;
  upgrade_dial _ := SampleDial
|}.

#[global] Instance sample_codec : Codec BufferStream Byte.byte Byte.byte SampleError := json_codec.

Abbreviation SampleHandler :=
  (Handler N (HandlerOutput string (HandlerEvent Byte.byte Byte.byte sample_upgrade_error))
    (N * list (StreamTask BufferStream Byte.byte Byte.byte)) N Byte.byte (list string) (list N) string).
Abbreviation SampleInput := (@handler_input BufferStream unit (list N) (list string) unit).
Definition sample_handler : SampleHandler := new_handler 300 7%N [] Byte.x41 "/info"%string "/push"%string.
Definition sample_stream : BufferStream := mk_buffer [Byte.x42] Eof [].

(** The timer fires, the remote answers the request, then a push arrives. *)
Example sample_run :
  handler_run ([Polled tt; FromConnection (FullyNegotiatedOutbound (Left sample_stream)); Polled tt;
    FromConnection (FullyNegotiatedInbound (Right (mk_buffer [Byte.x43] Eof []))); Polled tt] : list SampleInput)
    sample_handler =
  (set_remote_info (Some Byte.x43) (set_trigger 300%N sample_handler),
   [OutboundSubstreamRequest (Left "/info"%string); NotifyBehaviour (Identified Byte.x42);
    NotifyBehaviour (Identified Byte.x43)]).
Proof. vm_compute. reflexivity. Qed.

(** The handler that waits for the answer, and the one that waits for a push only. *)
Definition awaiting_handler : SampleHandler :=
  (handler_run ([Polled tt; FromConnection (FullyNegotiatedOutbound (Left sample_stream))] : list SampleInput)
    sample_handler).1.
Definition pushed_handler : SampleHandler :=
  (handler_run ([Polled tt; FromConnection (FullyNegotiatedInbound (Right sample_stream))] : list SampleInput)
    sample_handler).1.

Lemma handler_poll_order_witness :
  handler_poll tt sample_handler =
    (set_trigger 300%N sample_handler, Ready (OutboundSubstreamRequest (Left "/info"%string))).
Proof.
  refine (proj1 (proj2 (handler_poll_order tt sample_handler)) _ 0%N _); reflexivity.
Defined.

Lemma identified_has_source_witness : info_source awaiting_handler Byte.x42.
Proof.
  apply (identified_has_source tt awaiting_handler (handler_poll tt awaiting_handler).1 Byte.x42).
  - apply Forall_nil_2.
  - vm_compute. reflexivity.
Defined.

Lemma early_push_dropped_witness :
  handler_poll tt pushed_handler =
    (set_active_streams (10%N, []) (set_trigger 300%N pushed_handler), Pending) ∧
  length (fset_tasks (active_streams pushed_handler)) = 1.
Proof.
  refine (early_push_dropped tt pushed_handler 300%N (10%N, []) Byte.x42 _ _ _ _); vm_compute; reflexivity.
Defined.

(** A handler that answered the remote pushes a change of its protocols. *)
Lemma protocol_change_pushed_witness :
  events (on_connection_event (LocalProtocolsChange ["/x"%string]) (handler_run
    ([FromConnection (FullyNegotiatedInbound (Left sample_stream))] : list SampleInput) sample_handler).1) =
  [] ++ [OutboundSubstreamRequest (Right "/push"%string)].
Proof.
  refine (proj1 (proj2 (proj2 (protocol_change_pushed
    ([FromConnection (FullyNegotiatedInbound (Left sample_stream))] : list SampleInput) 300 7%N [] Byte.x41
    "/info"%string "/push"%string ["/x"%string]))) _).
  exists [], sample_stream, []. split; [reflexivity|vm_compute; reflexivity].
Defined.
