(* ===== verification/PeerInfoBehaviour.v ===== *)
(** PeerInfoBehaviour: the network behaviour of the peer-info protocol,
    [blocknet/src/libp2p/peer_info/behaviour.rs].

    The address books of libp2p ([ListenAddresses], [ExternalAddresses]) are
    parameters, of which the code uses the default value, the iteration and the
    change flag of [on_swarm_event].  Of the events of the swarm that the behaviour itself
    does not match on, [AddressChange], which concerns a connection, is a constructor of
    its own in [FromSwarm]; the others are one constructor. *)
From S2P Require Import Prelude PeerInfoProtocol PeerInfoHandler.

(** * The libraries *)

(** [libp2p::swarm::ListenAddresses] and [ExternalAddresses]. *)
Class AddressBook (Book SwarmEvent Multiaddr : Type) : Type := {
  book_default : Book;
  book_iter : Book → list Multiaddr;
  book_on_swarm_event : SwarmEvent → Book → Book * bool
}.

(** [libp2p::core::ConnectedPoint]: the addresses the behaviour reads. *)
Inductive ConnectedPoint (Multiaddr : Type) : Type :=
| Dialer (address : Multiaddr)
| Listener (send_back_addr : Multiaddr).
Arguments Dialer {_} address.
Arguments Listener {_} send_back_addr.

(** [libp2p::swarm::FromSwarm]: the arms of [on_swarm_event]; the last two constructors
    fall in its [_] arm. *)
Inductive FromSwarm (PeerId ConnectionId Multiaddr Other : Type) : Type :=
| ConnectionEstablished (peer_id : PeerId) (connection_id : ConnectionId) (endpoint : ConnectedPoint Multiaddr)
| ConnectionClosed (peer_id : PeerId) (connection_id : ConnectionId) (remaining_established : N)
| AddressChange (peer_id : PeerId) (connection_id : ConnectionId) (old new : ConnectedPoint Multiaddr)
| OtherSwarmEvent (other : Other).
Arguments ConnectionEstablished {_ _ _ _} peer_id connection_id endpoint.
Arguments ConnectionClosed {_ _ _ _} peer_id connection_id remaining_established.
Arguments AddressChange {_ _ _ _} peer_id connection_id old new.
Arguments OtherSwarmEvent {_ _ _ _} other.

(** [libp2p::swarm::NotifyHandler]. *)
Inductive NotifyTarget (ConnectionId : Type) : Type := One (connection_id : ConnectionId) | Any.
Arguments One {_} connection_id.
Arguments Any {_}.

(** [libp2p::swarm::ToSwarm]: the two forms the behaviour produces. *)
Inductive ToSwarm (PeerId ConnectionId OutEvent Addresses : Type) : Type :=
| GenerateEvent (event : OutEvent)
| NotifyHandler (peer_id : PeerId) (handler : NotifyTarget ConnectionId) (event : InEvent Addresses).
Arguments GenerateEvent {_ _ _ _} event.
Arguments NotifyHandler {_ _ _ _} peer_id handler event.

(** * The behaviour *)

(** [struct Config]. *)
Record Config (PublicKey StreamProtocol : Type) : Type := mk_config {
  protocol_version : string;
  local_public_key : PublicKey;
  agent_version : string;
  config_interval : N;
  push_listen_addr_updates : bool;
  cache_size : N;
  config_protocol_name : StreamProtocol;
  config_push_protocol_name : StreamProtocol
}.
Arguments mk_config {_ _} _ _ _ _ _ _ _ _.
Arguments protocol_version {_ _} _.
Arguments local_public_key {_ _} _.
Arguments agent_version {_ _} _.
Arguments config_interval {_ _} _.
Arguments push_listen_addr_updates {_ _} _.
Arguments cache_size {_ _} _.
Arguments config_protocol_name {_ _} _.
Arguments config_push_protocol_name {_ _} _.

(** [env!("CARGO_PKG_VERSION")] of the crate [blocknet]. *)
Definition CARGO_PKG_VERSION : string := "0.1.0".

Section config.
Context {PublicKey StreamProtocol : Type}.
Abbreviation C := (Config PublicKey StreamProtocol).
Implicit Types (self : C).

(** [Config::new]. *)
Definition new_config (protocol_version : string) (local_public_key : PublicKey)
    (protocol_name push_protocol_name : StreamProtocol) : C :=
  mk_config protocol_version local_public_key ("rust-libp2p/" +:+ CARGO_PKG_VERSION) 
    (from_secs (5 * 60)) false 100
    protocol_name push_protocol_name.

(** [Config::with_agent_version]. *)
Definition with_agent_version self (v : string) : C :=
  mk_config (protocol_version self) (local_public_key self) v (config_interval self)
    (push_listen_addr_updates self) (cache_size self) (config_protocol_name self) (config_push_protocol_name self).

(** [Config::with_interval]. *)
Definition with_interval self (d : N) : C :=
  mk_config (protocol_version self) (local_public_key self) (agent_version self) d
    (push_listen_addr_updates self) (cache_size self) (config_protocol_name self) (config_push_protocol_name self).

(** [Config::with_push_listen_addr_updates]. *)
Definition with_push_listen_addr_updates self (b : bool) : C :=
  mk_config (protocol_version self) (local_public_key self) (agent_version self) (config_interval self)
    b (cache_size self) (config_protocol_name self) (config_push_protocol_name self).

(** [Config::with_cache_size]. *)
Definition with_cache_size self (cache_size : N) : C :=
  mk_config (protocol_version self) (local_public_key self) (agent_version self) (config_interval self)
    (push_listen_addr_updates self) cache_size (config_protocol_name self) (config_push_protocol_name self).
End config.

(** [enum Event]. *)
Inductive Event (PeerId TInfo TPush SUError : Type) : Type :=
| Received (peer_id : PeerId) (info : TInfo)
| Sent (peer_id : PeerId)
| Pushed (peer_id : PeerId) (info : TPush)
| Error (peer_id : PeerId) (error : SUError).
Arguments Received {_ _ _ _} peer_id info.
Arguments Sent {_ _ _ _} peer_id.
Arguments Pushed {_ _ _ _} peer_id info.
Arguments Error {_ _ _ _} peer_id error.

(** [struct Behaviour]. *)
Record Behaviour (Conf PeerId ConnectionId Multiaddr Listen External TInfo Output : Type)
    `{Countable PeerId, Countable ConnectionId} : Type := mk_behaviour {
  config : Conf;
  connected : gmap PeerId (gmap ConnectionId Multiaddr);
  our_observed_addresses : gmap ConnectionId Multiaddr;
  pending_events : list Output;
  listen_addresses : Listen;
  external_addresses : External;
  behaviour_local_info : TInfo
}.
Arguments mk_behaviour {_ _ _ _ _ _ _ _ _ _ _ _} _ _ _ _ _ _ _.
Arguments config {_ _ _ _ _ _ _ _ _ _ _ _} _.
Arguments connected {_ _ _ _ _ _ _ _ _ _ _ _} _.
Arguments our_observed_addresses {_ _ _ _ _ _ _ _ _ _ _ _} _.
Arguments pending_events {_ _ _ _ _ _ _ _ _ _ _ _} _.
Arguments listen_addresses {_ _ _ _ _ _ _ _ _ _ _ _} _.
Arguments external_addresses {_ _ _ _ _ _ _ _ _ _ _ _} _.
Arguments behaviour_local_info {_ _ _ _ _ _ _ _ _ _ _ _} _.

Section behaviour.
Context {PeerId ConnectionId Multiaddr : Type}.
Context `{Countable PeerId, Countable ConnectionId, Countable Multiaddr}.
Context `{!HashIter PeerId, !HashIter ConnectionId}.
Context {PublicKey StreamProtocol OtherEvent Listen External TInfo TPush SUError Ctx : Type}.
Abbreviation SwarmEvent := (FromSwarm PeerId ConnectionId Multiaddr OtherEvent).
Context `{!AddressBook Listen SwarmEvent Multiaddr, !AddressBook External SwarmEvent Multiaddr}.
Abbreviation Addresses := (gset Multiaddr).
Abbreviation OutEvent := (Event PeerId TInfo TPush SUError).
Abbreviation Output := (ToSwarm PeerId ConnectionId OutEvent Addresses).
Abbreviation Conf := (Config PublicKey StreamProtocol).
Abbreviation B := (Behaviour Conf PeerId ConnectionId Multiaddr Listen External TInfo Output).
Implicit Types (self : B).

(** Assignments to the fields of the behaviour. *)
Definition set_connected (c : gmap PeerId (gmap ConnectionId Multiaddr)) self : B :=
  mk_behaviour (config self) c (our_observed_addresses self) (pending_events self)
    (listen_addresses self) (external_addresses self) (behaviour_local_info self).
Definition set_observed (m : gmap ConnectionId Multiaddr) self : B :=
  mk_behaviour (config self) (connected self) m (pending_events self)
    (listen_addresses self) (external_addresses self) (behaviour_local_info self).
Definition set_pending (es : list Output) self : B :=
  mk_behaviour (config self) (connected self) (our_observed_addresses self) es
    (listen_addresses self) (external_addresses self) (behaviour_local_info self).
Definition set_books (l : Listen) (e : External) self : B :=
  mk_behaviour (config self) (connected self) (our_observed_addresses self) (pending_events self)
    l e (behaviour_local_info self).

(** [self.events.push_back(event)] and [self.events.extend(events)]. *)
Definition push_back (e : Output) self : B := set_pending (pending_events self ++ [e]) self.
Definition extend (es : list Output) self : B := set_pending (pending_events self ++ es) self.

(** [Behaviour::new]. *)
Definition new_behaviour (config : Conf) (local_info : TInfo) : B :=
  mk_behaviour config ∅ ∅ [] book_default book_default local_info.

(** [Behaviour::push]. *)
Fixpoint push (peers : list PeerId) self : B :=
  match peers with
  | [] => self
  | p :: peers =>
    match connected self !! p with
    | None => push peers self
    | Some _ => push peers (push_back (NotifyHandler p Any Push) self)
    end
  end.

(** [Behaviour::on_connection_established]. *)
Definition on_connection_established (peer_id : PeerId) (conn : ConnectionId)
    (endpoint : ConnectedPoint Multiaddr) self : B :=
  let addr := match endpoint with Dialer address => address | Listener send_back_addr => send_back_addr end in
  let entry := default ∅ (connected self !! peer_id) in
  set_connected (<[peer_id := <[conn := addr]> entry]> (connected self)) self.

(** [Behaviour::all_addresses]. *)
Definition all_addresses self : Addresses :=
  list_to_set (book_iter (listen_addresses self) ++ book_iter (external_addresses self)).

(** [NetworkBehaviour::on_connection_handler_event]. *)
Definition on_connection_handler_event (peer_id : PeerId) (_id : ConnectionId)
    (event : HandlerEvent TInfo TPush SUError) self : B :=
  match event with
  | Identified info => push_back (GenerateEvent (Received peer_id info)) self
  | Identification => push_back (GenerateEvent (Sent peer_id)) self
  | IdentificationPushed info => push_back (GenerateEvent (Pushed peer_id info)) self
  | IdentificationError error => push_back (GenerateEvent (Error peer_id error)) self
  end.

(** [NetworkBehaviour::poll]. *)
Definition behaviour_poll self : B * Poll Output :=
  match pending_events self with
  | event :: rest => (set_pending rest self, Ready event)
  | [] => (self, Pending)
  end.

(** [change_events] of [on_swarm_event]. *)
Definition change_events self : list Output :=
  (λ '(peer_id, connection_id),
     NotifyHandler peer_id (One connection_id) (AddressesChanged (all_addresses self))) <$>
  (hash_iter (connected self) ≫= λ '(peer, map), (λ id, (peer, id)) <$> (hash_iter map).*1).

(** [push_events] of [on_swarm_event]. *)
Definition push_events self : list Output :=
  (λ peer, NotifyHandler peer Any Push) <$> (hash_iter (connected self)).*1.

(** [ConnectionClosed] in [on_swarm_event]. *)
Definition on_connection_closed (peer_id : PeerId) (connection_id : ConnectionId)
    (remaining_established : N) self : B :=
  let self :=
    if decide (remaining_established = 0%N) then set_connected (delete peer_id (connected self)) self
    else match connected self !! peer_id with
         | Some addrs => set_connected (<[peer_id := delete connection_id addrs]> (connected self)) self
         | None => self
         end in
  set_observed (delete connection_id (our_observed_addresses self)) self.

(** [NetworkBehaviour::on_swarm_event]. *)
Definition on_swarm_event (event : SwarmEvent) self : B :=
  let '(listen, listen_addr_changed) := book_on_swarm_event event (listen_addresses self) in
  let '(external, external_addr_changed) := book_on_swarm_event event (external_addresses self) in
  let self := set_books listen external self in
  let self := if listen_addr_changed || external_addr_changed then extend (change_events self) self else self in
  let self := if listen_addr_changed && push_listen_addr_updates (config self)
              then extend (push_events self) self else self in
  match event with
  | ConnectionEstablished peer_id conn endpoint => on_connection_established peer_id conn endpoint self
  | ConnectionClosed peer_id connection_id remaining_established =>
    on_connection_closed peer_id connection_id remaining_established self
  | AddressChange _ _ _ _ | OtherSwarmEvent _ => self
  end.

(** * The handlers of new connections *)
Context {Stream Err Delay FSet SupportedProtocols ProtocolsChange DialError : Type}.
Context `{!Info TInfo TPush, !Codec Stream TInfo TPush Err, !Timer Delay Ctx}.
Context `{!FuturesSet FSet Ctx (StreamTask Stream TInfo TPush) (result Err (Success TInfo TPush))}.
Context `{!SwarmTypes StreamProtocol SupportedProtocols ProtocolsChange DialError Err SUError}.
Abbreviation Hd := (Handler PeerId (HandlerOutput StreamProtocol (HandlerEvent TInfo TPush SUError))
  FSet Delay TInfo SupportedProtocols Addresses StreamProtocol).

(** [NetworkBehaviour::handle_established_inbound_connection]. *)
Definition handle_established_inbound_connection {ConnectionDenied} (peer : PeerId) self :
    outcome ConnectionDenied Hd :=
  Ok (new_handler (config_interval (config self)) peer (all_addresses self) (behaviour_local_info self)
    (config_protocol_name (config self)) (config_push_protocol_name (config self))).

(** [NetworkBehaviour::handle_established_outbound_connection]. *)
Definition handle_established_outbound_connection {ConnectionDenied} (peer : PeerId) self :
    outcome ConnectionDenied Hd :=
  Ok (new_handler (config_interval (config self)) peer (all_addresses self) (behaviour_local_info self)
    (config_protocol_name (config self)) (config_push_protocol_name (config self))).
End behaviour.

(** * Runs of the behaviour *)
Section runs.
Context {PeerId ConnectionId Multiaddr : Type}.
Context `{Countable PeerId, Countable ConnectionId, Countable Multiaddr}.
Context `{!HashIter PeerId, !HashIter ConnectionId}.
Context {PublicKey StreamProtocol OtherEvent Listen External TInfo TPush SUError : Type}.
Abbreviation SwarmEvent := (FromSwarm PeerId ConnectionId Multiaddr OtherEvent).
Context `{!AddressBook Listen SwarmEvent Multiaddr, !AddressBook External SwarmEvent Multiaddr}.
Abbreviation Addresses := (gset Multiaddr).
Abbreviation OutEvent := (Event PeerId TInfo TPush SUError).
Abbreviation Output := (ToSwarm PeerId ConnectionId OutEvent Addresses).
Abbreviation Conf := (Config PublicKey StreamProtocol).
Abbreviation B := (Behaviour Conf PeerId ConnectionId Multiaddr Listen External TInfo Output).
Implicit Types (self b : B).

(** The calls made on a behaviour by the swarm and by its owner. *)
Inductive behaviour_input : Type :=
| SwarmCall (event : SwarmEvent)
| HandlerCall (peer_id : PeerId) (id : ConnectionId) (event : HandlerEvent TInfo TPush SUError)
| PushCall (peers : list PeerId)
| PollCall.

(** One call, with the event it returns, if any. *)
Definition behaviour_step (input : behaviour_input) b : B * option Output :=
  match input with
  | SwarmCall event => (on_swarm_event event b, None)
  | HandlerCall peer_id id event => (on_connection_handler_event peer_id id event b, None)
  | PushCall peers => (push peers b, None)
  | PollCall =>
    match behaviour_poll b with
    | (b, Ready out) => (b, Some out)
    | (b, Pending) => (b, None)
    end
  end.

(** * The connections of the swarm *)

(** Connections with the address of the remote they were established with. *)
Abbreviation Live := (gmap (PeerId * ConnectionId) Multiaddr).
Implicit Types (live : Live).

(** The connections to a peer. *)
Definition peer_connections (peer : PeerId) live : Live := filter (λ e, e.1.1 = peer) live.

Definition remote_address (endpoint : ConnectedPoint Multiaddr) : Multiaddr :=
  match endpoint with Dialer address => address | Listener send_back_addr => send_back_addr end.

(** A connection of the swarm: the address of the remote when it was established, and
    the address it has now. *)
Record Link : Type := mk_link { link_established : Multiaddr; link_current : Multiaddr }.
Abbreviation Links := (gmap (PeerId * ConnectionId) Link).
Implicit Types (links : Links).

(** The documented behaviour of the swarm: a connection is established once, closed
    when it is established, and [remaining_established] counts the other connections to
    that peer; [AddressChange] reports that a connection now has another address. *)
Inductive swarm_step : SwarmEvent → Links → Links → Prop :=
| swarm_established peer conn endpoint links :
  links !! (peer, conn) = None →
  swarm_step (ConnectionEstablished peer conn endpoint) links
    (<[(peer, conn) := mk_link (remote_address endpoint) (remote_address endpoint)]> links)
| swarm_closed peer conn remaining links :
  is_Some (links !! (peer, conn)) →
  remaining = N.of_nat (size (filter (λ e, e.1.1 = peer) (delete (peer, conn) links))) →
  swarm_step (ConnectionClosed peer conn remaining) links (delete (peer, conn) links)
| swarm_address_change peer conn old new link links :
  links !! (peer, conn) = Some link → remote_address old = link_current link →
  swarm_step (AddressChange peer conn old new) links
    (<[(peer, conn) := mk_link (link_established link) (remote_address new)]> links)
| swarm_other other links : swarm_step (OtherSwarmEvent other) links links.

(** The same for the addresses at establishment alone. *)
Inductive live_step : SwarmEvent → Live → Live → Prop :=
| live_established peer conn endpoint live :
  live !! (peer, conn) = None →
  live_step (ConnectionEstablished peer conn endpoint) live
    (<[(peer, conn) := remote_address endpoint]> live)
| live_closed peer conn remaining live :
  is_Some (live !! (peer, conn)) →
  remaining = N.of_nat (size (peer_connections peer (delete (peer, conn) live))) →
  live_step (ConnectionClosed peer conn remaining) live (delete (peer, conn) live)
| live_address_change peer conn old new live : live_step (AddressChange peer conn old new) live live
| live_other other live : live_step (OtherSwarmEvent other) live live.

Lemma swarm_live_step event links links' :
  swarm_step event links links' → live_step event (link_established <$> links) (link_established <$> links').
Proof.
  intros [peer conn endpoint l Hl|peer conn remaining l Hl ->|peer conn old new link l Hl _|other l].
  - rewrite fmap_insert. simpl. constructor. by rewrite lookup_fmap, Hl.
  - rewrite fmap_delete. constructor.
    + by rewrite lookup_fmap, fmap_is_Some.
    + unfold peer_connections. by rewrite <-fmap_delete, map_filter_fmap, map_size_fmap.
  - rewrite fmap_insert, insert_id; [constructor|]. by rewrite lookup_fmap, Hl.
  - constructor.
Qed.

(** The calls that are possible when the swarm has the connections [links]. *)
Inductive input_step : behaviour_input → Links → Links → Prop :=
| swarm_input event links links' : swarm_step event links links' → input_step (SwarmCall event) links links'
| handler_input_live peer id event links : input_step (HandlerCall peer id event) links links
| push_input peers links : input_step (PushCall peers) links links
| poll_input links : input_step PollCall links links.

(** The behaviours reachable from a new one, with the connections of the swarm. *)
Inductive behaviour_reachable (c : Conf) (i : TInfo) : Links → B → Prop :=
| reach_new : behaviour_reachable c i ∅ (new_behaviour c i)
| reach_step input links links' b :
  behaviour_reachable c i links b → input_step input links links' →
  behaviour_reachable c i links' (behaviour_step input b).1.

(** What [connected] promises: the connections of the swarm with the addresses they were
    established with, grouped by peer, with no empty group. *)
Definition tracks (m : gmap PeerId (gmap ConnectionId Multiaddr)) live : Prop :=
  (∀ peer conn, m !! peer ≫= (.!! conn) = live !! (peer, conn)) ∧
  (∀ peer conns, m !! peer = Some conns → conns ≠ ∅).

Lemma tracks_established peer conn addr m live :
  tracks m live →
  tracks (<[peer := <[conn := addr]> (default ∅ (m !! peer))]> m) (<[(peer, conn) := addr]> live).
Proof.
  intros [Hl Hne]. split.
  - intros p c. destruct (decide (p = peer)) as [->|Hp].
    + rewrite lookup_insert_eq. simpl. destruct (decide (c = conn)) as [->|Hc].
      * by rewrite !lookup_insert_eq.
      * rewrite !lookup_insert_ne by congruence. rewrite <-(Hl peer c).
        destruct (m !! peer); simpl; [done|apply lookup_empty].
    + rewrite !lookup_insert_ne by congruence. apply Hl.
  - intros p conns. destruct (decide (p = peer)) as [->|Hp].
    + rewrite lookup_insert_eq. intros [= <-]. apply insert_non_empty.
    + rewrite lookup_insert_ne by done. apply Hne.
Qed.

(** Closing the last connection of a peer. *)
Lemma tracks_closed_last peer conn m live :
  tracks m live → peer_connections peer (delete (peer, conn) live) = ∅ →
  tracks (delete peer m) (delete (peer, conn) live).
Proof.
  intros [Hl Hne] Hnone. split.
  - intros p c. destruct (decide (p = peer)) as [->|Hp].
    + rewrite lookup_delete_eq. simpl. symmetry. apply eq_None_not_Some. intros [a Ha].
      apply map_filter_empty_not_lookup with (i := (peer, c)) (x := a) in Hnone; naive_solver.
    + rewrite !lookup_delete_ne by congruence. apply Hl.
  - intros p conns. destruct (decide (p = peer)) as [->|Hp].
    + by rewrite lookup_delete_eq.
    + rewrite lookup_delete_ne by done. apply Hne.
Qed.

(** Closing one of several connections of a peer. *)
Lemma tracks_closed_one peer conn conns m live :
  tracks m live → m !! peer = Some conns → peer_connections peer (delete (peer, conn) live) ≠ ∅ →
  tracks (<[peer := delete conn conns]> m) (delete (peer, conn) live).
Proof.
  intros [Hl Hne] Hm Hsome.
  assert (∀ p c, <[peer := delete conn conns]> m !! p ≫= (.!! c) = delete (peer, conn) live !! (p, c)) as Hl'.
  { intros p c. destruct (decide (p = peer)) as [->|Hp].
    - rewrite lookup_insert_eq. simpl. destruct (decide (c = conn)) as [->|Hc].
      + by rewrite !lookup_delete_eq.
      + rewrite !lookup_delete_ne by congruence. rewrite <-(Hl peer c), Hm. done.
    - rewrite lookup_insert_ne, lookup_delete_ne by congruence. apply Hl. }
  split; [done|]. intros p conns'. destruct (decide (p = peer)) as [->|Hp].
  - intros Hp ->. apply map_choose in Hsome as ([p c] & a & Ha).
    apply map_lookup_filter_Some in Ha as [Ha Hpeer]. simpl in Hpeer. subst p.
    specialize (Hl' peer c). rewrite Hp, Ha in Hl'. simpl in Hl'. by rewrite lookup_empty in Hl'.
  - rewrite lookup_insert_ne by done. apply Hne.
Qed.

(** The fields that calls other than those of the swarm leave alone. *)
Lemma push_fields peers b :
  connected (push peers b) = connected b ∧ config (push peers b) = config b ∧
  our_observed_addresses (push peers b) = our_observed_addresses b ∧
  behaviour_local_info (push peers b) = behaviour_local_info b.
Proof.
  revert b. induction peers as [|p peers IH]; intros b; simpl; [done|].
  destruct (connected b !! p); [|done].
  apply (IH (push_back (NotifyHandler p Any Push) b)).
Qed.

Lemma on_swarm_event_fields event b :
  connected (on_swarm_event event b) =
    match event with
    | ConnectionEstablished peer conn endpoint =>
      <[peer := <[conn := remote_address endpoint]> (default ∅ (connected b !! peer))]> (connected b)
    | ConnectionClosed peer conn remaining =>
      if decide (remaining = 0%N) then delete peer (connected b)
      else match connected b !! peer with
           | Some addrs => <[peer := delete conn addrs]> (connected b)
           | None => connected b
           end
    | AddressChange _ _ _ _ | OtherSwarmEvent _ => connected b
    end ∧
  config (on_swarm_event event b) = config b ∧
  our_observed_addresses (on_swarm_event event b) =
    match event with
    | ConnectionClosed _ conn _ => delete conn (our_observed_addresses b)
    | _ => our_observed_addresses b
    end ∧
  behaviour_local_info (on_swarm_event event b) = behaviour_local_info b ∧
  listen_addresses (on_swarm_event event b) = (book_on_swarm_event event (listen_addresses b)).1 ∧
  external_addresses (on_swarm_event event b) = (book_on_swarm_event event (external_addresses b)).1.
Proof.
  unfold on_swarm_event.
  destruct (book_on_swarm_event event (listen_addresses b)) as [l []],
    (book_on_swarm_event event (external_addresses b)) as [e []]; simpl;
  destruct (push_listen_addr_updates (config b)); destruct event as [peer conn []|peer conn r| |]; simpl;
    try done; unfold on_connection_closed; case_decide; simpl; try done;
    destruct (connected b !! peer) eqn:Hc; simpl; rewrite ?Hc; done.
Qed.

Lemma on_swarm_event_addresses event b :
  all_addresses (on_swarm_event event b) =
  all_addresses (set_books (book_on_swarm_event event (listen_addresses b)).1
    (book_on_swarm_event event (external_addresses b)).1 b).
Proof. unfold all_addresses. by destruct (on_swarm_event_fields event b) as (_ & _ & _ & _ & -> & ->). Qed.

Lemma tracks_live_step event live live' b :
  live_step event live live' → tracks (connected b) live →
  tracks (connected (on_swarm_event event b)) live'.
Proof.
  destruct (on_swarm_event_fields event b) as [-> _].
  intros [peer conn endpoint live0 _|peer conn remaining live0 [a Ha] ->|peer conn old new live0|other live0] Ht; [| |done..].
  - by apply tracks_established.
  - case_decide as Hz.
    + apply tracks_closed_last; [done|]. apply map_size_empty_iff. lia.
    + assert (peer_connections peer (delete (peer, conn) live0) ≠ ∅) as Hne.
      { intros He. rewrite He, map_size_empty in Hz. lia. }
      destruct (connected b !! peer) as [addrs|] eqn:Hm; [by apply tracks_closed_one|].
      destruct Ht as [Hl _]. specialize (Hl peer conn). rewrite Hm, Ha in Hl. done.
Qed.

Lemma reachable_invariant c i links b :
  behaviour_reachable c i links b →
  tracks (connected b) (link_established <$> links) ∧ config b = c ∧ behaviour_local_info b = i ∧
  our_observed_addresses b = ∅.
Proof.
  induction 1 as [|input links links' b Hb IH Hin].
  - split_and!; [|done..]. split; simpl.
    + intros p conn. by rewrite lookup_fmap, !lookup_empty.
    + intros p conns. by rewrite lookup_empty.
  - destruct IH as (Ht & Hc & Hi & Ho).
    destruct Hin as [event links1 links2 Hs|peer id event links1|peers links1|links1]; simpl.
    + pose proof (tracks_live_step _ _ _ _ (swarm_live_step _ _ _ Hs) Ht).
      destruct (on_swarm_event_fields event b) as (_ & -> & -> & -> & _). split_and!; [done..|].
      destruct event; by rewrite ?Ho.
    + by destruct event.
    + by destruct (push_fields peers b) as (-> & -> & -> & ->).
    + unfold behaviour_poll. by destruct (pending_events b).
Qed.

(** C33: after every sequence of calls in which the swarm reports its connections
    truthfully, [connected] holds exactly the live connections, grouped by peer, with no
    peer without a connection.  The address recorded for a connection is the one it was
    established with: a later [AddressChange] is not followed.  The configuration and the
    local info are those the behaviour was created with, and no observed address is ever
    recorded. *)
Theorem connected_tracks_swarm c i links b :
  behaviour_reachable c i links b →
  tracks (connected b) (link_established <$> links) ∧ config b = c ∧ behaviour_local_info b = i ∧
  our_observed_addresses b = ∅.
Proof. apply reachable_invariant. Qed.

(** * Notifications of the handlers *)

(** What every live connection is told about changed addresses. *)
Definition address_notice (addresses : Addresses) (e : PeerId * ConnectionId) : Output :=
  NotifyHandler e.1 (One e.2) (AddressesChanged addresses).

(** What every connected peer is told about a push. *)
Definition push_notice (peer : PeerId) : Output := NotifyHandler peer Any Push.

(** The peers that have a live connection. *)
Definition live_peers live : gset PeerId := set_map fst (dom live).

Lemma connection_pairs_live m live :
  tracks m live →
  (hash_iter m ≫= λ '(peer, conns), (λ id, (peer, id)) <$> (hash_iter conns).*1) ≡ₚ (map_to_list live).*1.
Proof.
  intros [Hl _]. apply NoDup_Permutation.
  - apply NoDup_bind.
    + intros [p1 m1] [p2 m2] [p c] Hm1 Hm2 Hx1 Hx2.
      apply list_elem_of_fmap in Hx1 as (? & [= -> _] & _), Hx2 as (? & [= -> _] & _).
      apply elem_of_hash_iter in Hm1, Hm2. congruence.
    + intros [p1 m1] _. apply NoDup_fmap_2; [by intros ?? [= ->]|]. apply hash_iter_NoDup_fst.
    + apply (NoDup_fmap_1 fst), hash_iter_NoDup_fst.
  - apply NoDup_fst_map_to_list.
  - intros [p c]. rewrite list_elem_of_bind, list_elem_of_fmap. split.
    + intros ([p1 m1] & (c1 & [= <- <-] & ([c2 a] & -> & Ha)%list_elem_of_fmap)%list_elem_of_fmap & Hm).
      exists ((p, c2), a). split; [done|]. apply elem_of_map_to_list.
      apply elem_of_hash_iter in Hm, Ha. rewrite <-Hl, Hm. done.
    + intros ([[p1 c1] a] & [= <- <-] & Ha%elem_of_map_to_list).
      rewrite <-Hl in Ha. apply bind_Some in Ha as (m1 & Hm & Ha).
      exists (p, m1). split; [|by apply elem_of_hash_iter].
      apply list_elem_of_fmap. exists c. split; [done|]. apply list_elem_of_fmap.
      exists (c, a). split; [done|]. by apply elem_of_hash_iter.
Qed.

Lemma connected_peers_live m live :
  tracks m live → (hash_iter m).*1 ≡ₚ elements (live_peers live).
Proof.
  intros [Hl Hne]. apply NoDup_Permutation; [apply hash_iter_NoDup_fst|apply NoDup_elements|].
  intros p. unfold live_peers. rewrite elem_of_elements, elem_of_map, list_elem_of_fmap. split.
  - intros ([p1 m1] & -> & Hm%elem_of_hash_iter). destruct (map_choose m1) as (c & a & Ha); [by eapply Hne|].
    exists (p1, c). split; [done|]. apply elem_of_dom. exists a. rewrite <-Hl, Hm. done.
  - intros ([p1 c] & -> & [a Ha]%elem_of_dom). rewrite <-Hl in Ha.
    apply bind_Some in Ha as (m1 & Hm & _). exists (p1, m1). split; [done|]. by apply elem_of_hash_iter.
Qed.

(** The queue after a swarm event. *)
Lemma on_swarm_event_pending event b l lc e ec :
  book_on_swarm_event event (listen_addresses b) = (l, lc) →
  book_on_swarm_event event (external_addresses b) = (e, ec) →
  pending_events (on_swarm_event event b) = pending_events b ++
    (if lc || ec then change_events (set_books l e b) else []) ++
    (if lc && push_listen_addr_updates (config b) then push_events (set_books l e b) else []).
Proof.
  intros Hl He. unfold on_swarm_event. rewrite Hl, He.
  destruct (lc || ec), lc, (push_listen_addr_updates (config b)) eqn:Hp; simpl; rewrite ?Hp;
    destruct event; simpl; unfold on_connection_closed; rewrite ?app_nil_r, ?app_assoc;
    repeat (case_decide; simpl); try done; by destruct (connected b !! peer_id).
Qed.

(** What a swarm event queues. *)
Lemma swarm_event_queue event live b :
  tracks (connected b) live →
  let '(listen, listen_changed) := book_on_swarm_event event (listen_addresses b) in
  let '(external, external_changed) := book_on_swarm_event event (external_addresses b) in
  ∃ notices pushes,
    pending_events (on_swarm_event event b) = pending_events b ++ notices ++ pushes ∧
    notices ≡ₚ (if listen_changed || external_changed
                then address_notice (all_addresses (on_swarm_event event b)) <$> (map_to_list live).*1
                else []) ∧
    pushes ≡ₚ (if listen_changed && push_listen_addr_updates (config b)
               then push_notice <$> elements (live_peers live) else []).
Proof.
  intros Ht. pose proof (on_swarm_event_addresses event b) as Ha.
  destruct (book_on_swarm_event event (listen_addresses b)) as [l lc] eqn:Hlisten,
    (book_on_swarm_event event (external_addresses b)) as [e ec] eqn:Hexternal. simpl in Ha.
  exists (if lc || ec then change_events (set_books l e b) else []),
    (if lc && push_listen_addr_updates (config b) then push_events (set_books l e b) else []).
  split_and!; [by apply on_swarm_event_pending| |].
  - destruct (lc || ec); [|done]. rewrite Ha. unfold change_events. simpl.
    rewrite (connection_pairs_live _ _ Ht). erewrite list_fmap_ext; [done|]. by intros i [].
  - destruct (lc && _); [|done]. unfold push_events. simpl. by rewrite (connected_peers_live _ _ Ht).
Qed.

(** C34: what a swarm event queues, whatever the iteration order of the maps: if the
    listen or external addresses changed, exactly one notice with the new addresses per
    live connection; then, if the listen addresses changed and the configuration asks
    for it, exactly one push per connected peer; nothing else. *)
Theorem swarm_event_notifications event live b :
  tracks (connected b) live →
  let '(listen, listen_changed) := book_on_swarm_event event (listen_addresses b) in
  let '(external, external_changed) := book_on_swarm_event event (external_addresses b) in
  ∃ notices pushes,
    pending_events (on_swarm_event event b) = pending_events b ++ notices ++ pushes ∧
    notices ≡ₚ (if listen_changed || external_changed
                then address_notice (all_addresses (on_swarm_event event b)) <$> (map_to_list live).*1
                else []) ∧
    pushes ≡ₚ (if listen_changed && push_listen_addr_updates (config b)
               then push_notice <$> elements (live_peers live) else []).
Proof. apply swarm_event_queue. Qed.

(** * The queue *)

Lemma push_pending peers b :
  pending_events (push peers b) =
  pending_events b ++ (push_notice <$> filter (λ p, is_Some (connected b !! p)) peers).
Proof.
  revert b. induction peers as [|p peers IH]; intros b; simpl; [by rewrite app_nil_r|].
  rewrite filter_cons. destruct (connected b !! p) as [m|].
  - rewrite decide_True by done. rewrite IH. simpl. by rewrite <-app_assoc.
  - rewrite decide_False by (by intros []). apply IH.
Qed.

(** C36: [push] queues one push request per given peer that has a live connection, in
    the given order, and skips the others; what was queued stays in front. *)
Theorem push_only_connected peers live b :
  tracks (connected b) live →
  pending_events (push peers b) =
  pending_events b ++ (push_notice <$> filter (λ p, p ∈ live_peers live) peers).
Proof.
  intros Ht. rewrite push_pending. do 2 f_equal. apply list_filter_iff. intros p.
  rewrite <-elem_of_elements, <-(connected_peers_live _ _ Ht), list_elem_of_fmap. split.
  - intros [m Hm]. exists (p, m). split; [done|]. by apply elem_of_hash_iter.
  - intros ([p' m] & -> & Hm%elem_of_hash_iter). by exists m.
Qed.

(** A sequence of calls, with the events returned in order. *)
Fixpoint behaviour_run (inputs : list behaviour_input) b : B * list Output :=
  match inputs with
  | [] => (b, [])
  | input :: inputs =>
    let '(b, out) := behaviour_step input b in
    let '(b, outs) := behaviour_run inputs b in
    (b, option_list out ++ outs)
  end.

(** The events for the owner of the swarm among those the behaviour returns. *)
Definition generated (out : Output) : option OutEvent :=
  match out with GenerateEvent event => Some event | NotifyHandler _ _ _ => None end.

(** The event a report of a handler stands for. *)
Definition report (input : behaviour_input) : option OutEvent :=
  match input with
  | HandlerCall peer _ (Identified info) => Some (Received peer info)
  | HandlerCall peer _ Identification => Some (Sent peer)
  | HandlerCall peer _ (IdentificationPushed info) => Some (Pushed peer info)
  | HandlerCall peer _ (IdentificationError error) => Some (Error peer error)
  | _ => None
  end.

Lemma omap_generated_notices {A} (f : A → Output) (l : list A) :
  (∀ x, generated (f x) = None) → omap generated (f <$> l) = [].
Proof. intros Hf. induction l as [|x l IH]; simpl; [done|]. by rewrite Hf. Qed.

Lemma swarm_event_generates_nothing event b :
  omap generated (pending_events (on_swarm_event event b)) = omap generated (pending_events b).
Proof.
  destruct (book_on_swarm_event event (listen_addresses b)) as [l lc] eqn:Hl,
    (book_on_swarm_event event (external_addresses b)) as [e ec] eqn:He.
  rewrite (on_swarm_event_pending _ _ _ _ _ _ Hl He), !omap_app.
  unfold change_events, push_events.
  destruct (lc || ec), (lc && _); rewrite ?omap_generated_notices; simpl; rewrite ?app_nil_r; try done.
  all: by intros [].
Qed.

(** One call takes nothing away from the queue but what it returns. *)
Lemma behaviour_step_generated input b :
  let '(b', out) := behaviour_step input b in
  omap generated (option_list out ++ pending_events b') =
  omap generated (pending_events b) ++ option_list (report input).
Proof.
  destruct input as [event|peer id event|peers|]; simpl.
  - by rewrite swarm_event_generates_nothing, app_nil_r.
  - destruct event; simpl; by rewrite omap_app.
  - rewrite push_pending, omap_app, (omap_generated_notices push_notice) by done. done.
  - unfold behaviour_poll. destruct (pending_events b) as [|event rest] eqn:Hp; simpl; rewrite ?Hp; simpl.
    + done.
    + by rewrite app_nil_r.
Qed.

Lemma behaviour_run_generated inputs b :
  let '(b', outs) := behaviour_run inputs b in
  omap generated (outs ++ pending_events b') = omap generated (pending_events b) ++ omap report inputs.
Proof.
  revert b. induction inputs as [|input inputs IH]; intros b; simpl; [by rewrite app_nil_r|].
  pose proof (behaviour_step_generated input b) as Hs. destruct (behaviour_step input b) as [b1 out].
  specialize (IH b1). destruct (behaviour_run inputs b1) as [b2 outs].
  rewrite <-app_assoc, omap_app, IH, app_assoc, <-omap_app, Hs, <-app_assoc.
  f_equal. by destruct (report input).
Qed.

(** Polling as often as there are queued events empties the queue in order. *)
Lemma drain_queue b n :
  (length (pending_events b) ≤ n)%nat →
  behaviour_run (replicate n PollCall) b = (set_pending [] b, pending_events b).
Proof.
  revert b. induction n as [|n IH]; intros b Hn; simpl.
  - destruct b as [? ? ? [|] ? ? ?]; simpl in *; [done|lia].
  - unfold behaviour_poll. destruct (pending_events b) as [|event rest] eqn:Hp.
    + rewrite IH by (rewrite Hp; simpl; lia). by rewrite Hp.
    + rewrite IH by (simpl in *; lia). done.
Qed.

Lemma behaviour_run_app inputs inputs' b :
  behaviour_run (inputs ++ inputs') b =
  let '(b1, outs1) := behaviour_run inputs b in
  let '(b2, outs2) := behaviour_run inputs' b1 in (b2, outs1 ++ outs2).
Proof.
  revert b. induction inputs as [|input inputs IH]; intros b; simpl; [by destruct (behaviour_run inputs' b)|].
  destruct (behaviour_step input b) as [b1 out]. rewrite IH.
  destruct (behaviour_run inputs b1) as [b2 outs]. destruct (behaviour_run inputs' b2) as [b3 outs3].
  by rewrite app_assoc.
Qed.

(** C35: every report of a handler reaches the owner of the swarm exactly once and in
    order: for any sequence of calls on a new behaviour there is a number of polls after
    which the events generated are the reports of the handlers, and nothing is left. *)
Theorem reports_delivered (c : Conf) (i : TInfo) inputs :
  ∃ n, ∀ m, (n ≤ m)%nat →
    let '(b, outs) := behaviour_run (inputs ++ replicate m PollCall) (new_behaviour c i) in
    omap generated outs = omap report inputs ∧ pending_events b = [].
Proof.
  pose proof (behaviour_run_generated inputs (new_behaviour c i)) as Hg.
  destruct (behaviour_run inputs (new_behaviour c i)) as [b outs] eqn:Hrun.
  exists (length (pending_events b)). intros m Hm.
  rewrite behaviour_run_app, Hrun, (drain_queue _ _ Hm). by rewrite Hg.
Qed.
End runs.

(** * A concrete behaviour *)

(** Address books that record every reported address: a list of listen addresses and
    a set of external ones. *)
Abbreviation SampleEvent := (FromSwarm N N N (N + N)).
#[global] Instance sample_listen : AddressBook (list N) SampleEvent N := {|
  book_default := [];
  book_iter book := book;
  book_on_swarm_event event book :=
    match event with OtherSwarmEvent (inl a) => (a :: book, true) | _ => (book, false) end
|}.
#[global] Instance sample_external : AddressBook (gset N) SampleEvent N := {|
  book_default := ∅;
  book_iter book := elements book;
  book_on_swarm_event event book :=
    match event with
    | OtherSwarmEvent (inr a) => ({[a]} ∪ book, bool_decide (a ∉ book))
    | _ => (book, false)
    end
|}.
#[local] Instance sample_iter : HashIter N := default_hash_iter N.

Abbreviation SampleBehaviour :=
  (Behaviour (Config unit string) N N N (list N) (gset N) Byte.byte
    (ToSwarm N N (Event N Byte.byte Byte.byte sample_upgrade_error) (gset N))).
Abbreviation SampleCall := (@behaviour_input N N N (N + N) Byte.byte Byte.byte sample_upgrade_error).
Definition sample_config : Config unit string :=
  with_push_listen_addr_updates (new_config "/v0.1" tt "/info" "/push") true.

(** Two connections to peer 1 and one to peer 2; the second gets another address, and
    the first is closed. *)
Definition sample_calls : list SampleCall :=
  [SwarmCall (ConnectionEstablished 1%N 10%N (Dialer 100%N));
   SwarmCall (ConnectionEstablished 1%N 11%N (Listener 101%N));
   SwarmCall (ConnectionEstablished 2%N 20%N (Dialer 200%N));
   SwarmCall (AddressChange 1%N 11%N (Listener 101%N) (Listener 102%N));
   SwarmCall (ConnectionClosed 1%N 10%N 1)].
Definition sample_behaviour : SampleBehaviour :=
  (behaviour_run sample_calls (new_behaviour sample_config Byte.x41)).1.
Definition sample_links : gmap (N * N) Link :=
  delete (1%N, 10%N) (<[(1%N, 11%N) := mk_link 101%N 102%N]> (<[(2%N, 20%N) := mk_link 200%N 200%N]>
    (<[(1%N, 11%N) := mk_link 101%N 101%N]> (<[(1%N, 10%N) := mk_link 100%N 100%N]> ∅)))).
Definition sample_live : gmap (N * N) N := link_established <$> sample_links.

Lemma sample_reachable : behaviour_reachable sample_config Byte.x41 sample_links sample_behaviour.
Proof.
  eapply (reach_step _ _ (SwarmCall (ConnectionClosed 1%N 10%N 1)) _ _ (behaviour_run (take 4 sample_calls) _).1);
    [|by do 2 constructor; [eexists|]].
  eapply (reach_step _ _ (SwarmCall (AddressChange 1%N 11%N (Listener 101%N) (Listener 102%N))) _ _
    (behaviour_run (take 3 sample_calls) _).1);
    [|by apply swarm_input, (swarm_address_change 1%N 11%N (Listener 101%N) (Listener 102%N) (mk_link 101%N 101%N))].
  eapply (reach_step _ _ (SwarmCall (ConnectionEstablished 2%N 20%N (Dialer 200%N))) _ _
    (behaviour_run (take 2 sample_calls) _).1); [|by do 2 constructor].
  eapply (reach_step _ _ (SwarmCall (ConnectionEstablished 1%N 11%N (Listener 101%N))) _ _
    (behaviour_run (take 1 sample_calls) _).1); [|by do 2 constructor].
  eapply (reach_step _ _ (SwarmCall (ConnectionEstablished 1%N 10%N (Dialer 100%N)))); [constructor|].
  by do 2 constructor.
Qed.

Lemma connected_tracks_swarm_witness :
  tracks (connected sample_behaviour) (link_established <$> sample_links) ∧
  config sample_behaviour = sample_config ∧
  behaviour_local_info sample_behaviour = Byte.x41 ∧ our_observed_addresses sample_behaviour = ∅.
Proof. apply (connected_tracks_swarm sample_config Byte.x41 sample_links sample_behaviour sample_reachable). Defined.

(** The connection whose address changed is still listed with the old one. *)
Example address_change_not_followed :
  connected sample_behaviour !! 1%N ≫= (.!! 11%N) = Some 101%N ∧
  link_current <$> sample_links !! (1%N, 11%N) = Some 102%N.
Proof. split; vm_compute; reflexivity. Qed.

Lemma sample_tracks : tracks (connected sample_behaviour) sample_live.
Proof. apply (reachable_invariant _ _ _ _ sample_reachable). Qed.

Lemma swarm_event_notifications_witness :
  ∃ notices pushes,
    pending_events (on_swarm_event (OtherSwarmEvent (inl 7%N)) sample_behaviour) = [] ++ notices ++ pushes ∧
    notices ≡ₚ (address_notice
      (all_addresses (on_swarm_event (OtherSwarmEvent (inl 7%N)) sample_behaviour)) <$> (map_to_list sample_live).*1) ∧
    pushes ≡ₚ (push_notice <$> elements (live_peers sample_live)).
Proof.
  exact (swarm_event_notifications (OtherSwarmEvent (inl 7%N)) sample_live sample_behaviour sample_tracks).
Defined.

Lemma push_only_connected_witness :
  pending_events (push [2%N; 3%N; 1%N; 2%N] sample_behaviour) =
  [] ++ (push_notice <$> filter (λ p, p ∈ live_peers sample_live) [2%N; 3%N; 1%N; 2%N]).
Proof. exact (push_only_connected [2%N; 3%N; 1%N; 2%N] sample_live sample_behaviour sample_tracks). Defined.
