(* ===== verification/PeerInfoNode.v ===== *)
(** PeerInfoNode: the peer-info behaviour ([peer_info/behaviour.rs]) together with the
    connection handlers it creates ([peer_info/handler.rs]), as the swarm drives them.

    The swarm creates a handler for every connection through the behaviour.  What the
    behaviour's queue holds for a handler is put into the mailbox of the connection, from
    which the handler takes it later; what a handler reports is under way until the swarm
    gives it to the behaviour; what the queue holds for the owner of the swarm goes to
    the owner.  These deliveries are steps of their own, so that anything may happen in
    between.  A connection id is used once; a notice for a connection that is closed is
    dropped; a notice for any handler of a peer goes to a connection the swarm chooses;
    the reports of a connection arrive in order, and before its closing. *)
From S2P Require Import Prelude PeerInfoProtocol PeerInfoHandler PeerInfoBehaviour.

(** Documented behaviour of an address book: an event that reports no change leaves the
    addresses as they are, and a new connection never changes them. *)
Class AddressBookLaws (Book PeerId ConnectionId Multiaddr Other : Type) `{Countable Multiaddr}
    `{!AddressBook Book (FromSwarm PeerId ConnectionId Multiaddr Other) Multiaddr} : Type := {
  book_unchanged : ∀ event book book',
    book_on_swarm_event event book = (book', false) →
    (list_to_set (book_iter book') : gset Multiaddr) = list_to_set (book_iter book);
  book_established : ∀ peer conn endpoint book,
    (book_on_swarm_event (ConnectionEstablished peer conn endpoint) book).2 = false
}.

(** A connection: the address it was established with, its handler and the notices in its
    mailbox. *)
Record Connection (H Notice Multiaddr : Type) : Type := mk_connection {
  conn_address : Multiaddr;
  conn_handler : H;
  conn_inbox : list Notice
}.
Arguments mk_connection {_ _ _} _ _ _.
Arguments conn_address {_ _ _} _.
Arguments conn_handler {_ _ _} _.
Arguments conn_inbox {_ _ _} _.

(** A behaviour, its connections, the connection ids used so far, and the reports of
    handlers under way to the behaviour. *)
Record Node (B Conn Report PeerId ConnectionId : Type) `{Countable PeerId, Countable ConnectionId} : Type :=
mk_node {
  node_behaviour : B;
  connections : gmap (PeerId * ConnectionId) Conn;
  used_ids : gset ConnectionId;
  under_way : list ((PeerId * ConnectionId) * Report)
}.
Arguments mk_node {_ _ _ _ _ _ _ _ _} _ _ _ _.
Arguments node_behaviour {_ _ _ _ _ _ _ _ _} _.
Arguments connections {_ _ _ _ _ _ _ _ _} _.
Arguments used_ids {_ _ _ _ _ _ _ _ _} _.
Arguments under_way {_ _ _ _ _ _ _ _ _} _.

Section node.
Context {PeerId ConnectionId Multiaddr : Type}.
Context `{Countable PeerId, Countable ConnectionId, Countable Multiaddr}.
Context `{!HashIter PeerId, !HashIter ConnectionId}.
Context {PubKey StreamProtocol OtherEvent Listen External TInfo TPush SUError Ctx : Type}.
Context {Stream Err Delay FSet SupportedProtocols ProtocolsChange DialError ConnectionDenied : Type}.
Abbreviation SwarmEvent := (FromSwarm PeerId ConnectionId Multiaddr OtherEvent).
Context `{!AddressBook Listen SwarmEvent Multiaddr, !AddressBook External SwarmEvent Multiaddr}.
Context `{!Info TInfo TPush, !Codec Stream TInfo TPush Err, !Timer Delay Ctx}.
Abbreviation Task := (StreamTask Stream TInfo TPush).
Abbreviation Result := (result Err (Success TInfo TPush)).
Context `{!FuturesSet FSet Ctx Task Result}.
Context `{!SwarmTypes StreamProtocol SupportedProtocols ProtocolsChange DialError Err SUError}.
Abbreviation Addresses := (gset Multiaddr).
Abbreviation OutEvent := (Event PeerId TInfo TPush SUError).
Abbreviation Output := (ToSwarm PeerId ConnectionId OutEvent Addresses).
Abbreviation B := (Behaviour (Config PubKey StreamProtocol) PeerId ConnectionId Multiaddr Listen External TInfo Output).
Abbreviation Hd := (Handler PeerId (HandlerOutput StreamProtocol (HandlerEvent TInfo TPush SUError))
  FSet Delay TInfo SupportedProtocols Addresses StreamProtocol).
Abbreviation Report := (HandlerEvent TInfo TPush SUError).
Abbreviation Conn := (Connection Hd (InEvent Addresses) Multiaddr).
Abbreviation Nd := (Node B Conn Report PeerId ConnectionId).
Abbreviation Key := (PeerId * ConnectionId)%type.
Implicit Types (n : Nd) (b : B) (h : Hd) (cn : Conn) (key : Key) (q : list Output) (way : list (Key * Report)).

(** What happens to a node. *)
Inductive node_input : Type :=
| Established (peer : PeerId) (conn : ConnectionId) (endpoint : ConnectedPoint Multiaddr)
| Closed (peer : PeerId) (conn : ConnectionId)
| Moved (peer : PeerId) (conn : ConnectionId) (old new : ConnectedPoint Multiaddr)
| OtherReported (other : OtherEvent)
| PushRequested (peers : list PeerId)
| BehaviourPolled (choice : PeerId → ConnectionId)
| NoticeTaken (key : Key)
| HandlerNotified (key : Key) (event : ConnectionEvent Stream DialError ProtocolsChange)
| HandlerPolled (key : Key) (cx : Ctx)
| ReportDelivered (key : Key).

Definition on_behaviour (f : B → B) n : Nd :=
  mk_node (f (node_behaviour n)) (connections n) (used_ids n) (under_way n).
Definition on_connection key (f : Conn → Conn) n : Nd :=
  mk_node (node_behaviour n) (alter f key (connections n)) (used_ids n) (under_way n).
Definition set_under_way way n : Nd := mk_node (node_behaviour n) (connections n) (used_ids n) way.

(** A call on the handler of a connection, a notice put into its mailbox, and the first
    notice of the mailbox taken by the handler. *)
Definition on_handler (f : Hd → Hd) cn : Conn :=
  mk_connection (conn_address cn) (f (conn_handler cn)) (conn_inbox cn).
Definition post (event : InEvent Addresses) cn : Conn :=
  mk_connection (conn_address cn) (conn_handler cn) (conn_inbox cn ++ [event]).
Definition take_notice cn : Conn :=
  match conn_inbox cn with
  | [] => cn
  | event :: inbox => mk_connection (conn_address cn) (on_behaviour_event event (conn_handler cn)) inbox
  end.

(** The first report under way from a connection, and the others. *)
Fixpoint first_report key way : option (Report * list (Key * Report)) :=
  match way with
  | [] => None
  | (key', event) :: way =>
    if decide (key' = key) then Some (event, way)
    else '(event', way') ← first_report key way; Some (event', (key', event) :: way')
  end.

(** The handler the behaviour creates for a connection. *)
Definition create_handler (peer : PeerId) (endpoint : ConnectedPoint Multiaddr) b : outcome ConnectionDenied Hd :=
  match endpoint with
  | Dialer _ => handle_established_outbound_connection peer b
  | Listener _ => handle_established_inbound_connection peer b
  end.

(** One event of the behaviour's queue carried to where it belongs: the owner of the
    swarm, or the mailbox of a connection. *)
Definition carry (choice : PeerId → ConnectionId) (out : Output) n : Nd * option OutEvent :=
  match out with
  | GenerateEvent event => (n, Some event)
  | NotifyHandler peer (One conn) event => (on_connection (peer, conn) (post event) n, None)
  | NotifyHandler peer Any event => (on_connection (peer, choice peer) (post event) n, None)
  end.

(** One step: the node, the event given to the owner, and the report a handler made. *)
Definition node_step (input : node_input) n : Nd * option OutEvent * option (Key * Report) :=
  match input with
  | Established peer conn endpoint =>
    if decide (conn ∈ used_ids n) then (n, None, None)
    else match create_handler peer endpoint (node_behaviour n) with
         | Ok h =>
           (mk_node (on_swarm_event (ConnectionEstablished peer conn endpoint) (node_behaviour n))
              (<[(peer, conn) := mk_connection (remote_address endpoint) h []]> (connections n))
              ({[conn]} ∪ used_ids n) (under_way n), None, None)
         | _ => (n, None, None)
         end
  | Closed peer conn =>
    match connections n !! (peer, conn), first_report (peer, conn) (under_way n) with
    | Some _, None =>
      let rest := delete (peer, conn) (connections n) in
      let remaining := N.of_nat (size (filter (λ e, e.1.1 = peer) rest)) in
      (mk_node (on_swarm_event (ConnectionClosed peer conn remaining) (node_behaviour n)) rest
         (used_ids n) (under_way n), None, None)
    | _, _ => (n, None, None)
    end
  | Moved peer conn old new =>
    match connections n !! (peer, conn) with
    | Some _ => (on_behaviour (on_swarm_event (AddressChange peer conn old new)) n, None, None)
    | None => (n, None, None)
    end
  | OtherReported other => (on_behaviour (on_swarm_event (OtherSwarmEvent other)) n, None, None)
  | PushRequested peers => (on_behaviour (push peers) n, None, None)
  | BehaviourPolled choice =>
    match behaviour_poll (node_behaviour n) with
    | (b, Ready out) => (carry choice out (on_behaviour (λ _, b) n), None)
    | (b, Pending) => (n, None, None)
    end
  | NoticeTaken key => (on_connection key take_notice n, None, None)
  | HandlerNotified key event => (on_connection key (on_handler (on_connection_event event)) n, None, None)
  | HandlerPolled key cx =>
    match connections n !! key with
    | None => (n, None, None)
    | Some cn =>
      let '(h, r) := handler_poll cx (conn_handler cn) in
      let n := on_connection key (on_handler (λ _, h)) n in
      match r with
      | Ready (NotifyBehaviour event) =>
        (set_under_way (under_way n ++ [(key, event)]) n, None, Some (key, event))
      | _ => (n, None, None)
      end
    end
  | ReportDelivered key =>
    match first_report key (under_way n) with
    | Some (event, rest) =>
      (on_behaviour (on_connection_handler_event key.1 key.2 event) (set_under_way rest n), None, None)
    | None => (n, None, None)
    end
  end.

(** A sequence of steps, with the events given to the owner and the reports made. *)
Fixpoint node_run (inputs : list node_input) n : Nd * list OutEvent * list (Key * Report) :=
  match inputs with
  | [] => (n, [], [])
  | input :: inputs =>
    let '(n, out, rep) := node_step input n in
    let '(n, outs, reps) := node_run inputs n in
    (n, option_list out ++ outs, option_list rep ++ reps)
  end.

Definition new_node (c : Config PubKey StreamProtocol) (i : TInfo) : Nd := mk_node (new_behaviour c i) ∅ ∅ [].

Lemma node_run_app inputs inputs' n :
  node_run (inputs ++ inputs') n =
  let '(n1, outs1, reps1) := node_run inputs n in
  let '(n2, outs2, reps2) := node_run inputs' n1 in (n2, outs1 ++ outs2, reps1 ++ reps2).
Proof.
  revert n. induction inputs as [|input inputs IH]; intros n; simpl; [by destruct (node_run inputs' n) as [[]]|].
  destruct (node_step input n) as [[n1 out] rep]. rewrite IH.
  destruct (node_run inputs n1) as [[n2 outs] reps]. destruct (node_run inputs' n2) as [[n3 outs3] reps3].
  by rewrite !app_assoc.
Qed.

(** An invariant of single steps holds after every sequence of steps. *)
Lemma node_run_invariant (P : Nd → Prop) inputs n :
  (∀ input n, P n → P (node_step input n).1.1) → P n → P (node_run inputs n).1.1.
Proof.
  intros Hstep. revert n. induction inputs as [|input inputs IH]; intros n Hn; simpl; [done|].
  specialize (Hstep input n Hn). destruct (node_step input n) as [[n' out] rep]. simpl in *.
  specialize (IH n' Hstep). by destruct (node_run inputs n') as [[n'' outs] reps].
Qed.

(** * The addresses the handlers know *)
Context `{!AddressBookLaws Listen PeerId ConnectionId Multiaddr OtherEvent}.
Context `{!AddressBookLaws External PeerId ConnectionId Multiaddr OtherEvent}.

(** The addresses a handler has once it has taken the notices of its mailbox. *)
Definition absorb (a : Addresses) (event : InEvent Addresses) : Addresses :=
  match event with AddressesChanged a' => a' | Push => a end.
Definition known cn : Addresses :=
  foldl absorb (handler_external_addresses (conn_handler cn)) (conn_inbox cn).

(** The addresses it has then once the notices of the queue are carried to it too. *)
Definition receive key (a : Addresses) (out : Output) : Addresses :=
  match out with
  | NotifyHandler peer (One conn) (AddressesChanged a') => if decide ((peer, conn) = key) then a' else a
  | _ => a
  end.
Definition delivered q key (a : Addresses) : Addresses := foldl (receive key) a q.

Lemma delivered_app q q' key a : delivered (q ++ q') key a = delivered q' key (delivered q key a).
Proof. apply foldl_app. Qed.

(** A queue without a notice for the connection. *)
Lemma delivered_silent q key a :
  (∀ event, NotifyHandler key.1 (One key.2) event ∉ q) → delivered q key a = a.
Proof.
  unfold delivered. revert a. induction q as [|out q IH]; intros a Hq; simpl; [done|].
  assert (receive key a out = a) as ->.
  { destruct out as [|peer [conn|] [|]]; simpl; try done. case_decide as Heq; [|done].
    destruct (Hq (AddressesChanged addresses)). rewrite <-Heq. left. }
  apply IH. intros event Hin. apply (Hq event). by right.
Qed.

(** A queue of notices that all carry the same addresses. *)
Lemma delivered_notices q (keys : list Key) key (new a : Addresses) :
  q ≡ₚ (address_notice new <$> keys) → key ∈ keys → delivered q key a = new.
Proof.
  intros Hperm Hkey.
  assert (address_notice new key ∈ q) as Hin by (rewrite Hperm; by apply list_elem_of_fmap_2).
  assert (Forall (λ out, ∃ k, out = address_notice new k) q) as Hall.
  { rewrite Hperm. apply Forall_fmap, Forall_true. simpl. eauto. }
  clear Hperm Hkey. unfold delivered. revert a Hin.
  assert (∀ q, Forall (λ out, ∃ k, out = address_notice new k) q → foldl (receive key) new q = new) as Hnew.
  { induction 1 as [|out q' [k ->] _ IH]; simpl; [done|]. by case_decide. }
  induction Hall as [|out q [k ->] Hall IH]; intros a Hin; [by apply not_elem_of_nil in Hin|].
  simpl. rewrite <-surjective_pairing. apply elem_of_cons in Hin as [Heq|Hin].
  - assert (k = key) as -> by (destruct k, key; by injection Heq as -> ->).
    rewrite decide_True by done. by apply Hnew.
  - by apply IH.
Qed.

Lemma all_addresses_unchanged event b l e :
  book_on_swarm_event event (listen_addresses b) = (l, false) →
  book_on_swarm_event event (external_addresses b) = (e, false) →
  all_addresses (on_swarm_event event b) = all_addresses b.
Proof.
  intros Hl He. rewrite on_swarm_event_addresses, Hl, He. unfold all_addresses. simpl.
  rewrite !list_to_set_app_L. f_equal; by eapply book_unchanged.
Qed.

(** What a swarm event adds to the queue brings every live connection from the old to
    the new addresses. *)
Lemma swarm_event_delivers event live b :
  tracks (connected b) live →
  ∃ es, pending_events (on_swarm_event event b) = pending_events b ++ es ∧
    (∀ key, is_Some (live !! key) → delivered es key (all_addresses b) = all_addresses (on_swarm_event event b)) ∧
    (∀ peer conn e, NotifyHandler peer (One conn) e ∈ es → is_Some (live !! (peer, conn))) ∧
    (∀ peer e, NotifyHandler peer Any e ∈ es → e = Push).
Proof.
  intros Ht. pose proof (swarm_event_queue event live b Ht) as Hq.
  destruct (book_on_swarm_event event (listen_addresses b)) as [l lc] eqn:Hl,
    (book_on_swarm_event event (external_addresses b)) as [e ec] eqn:He.
  destruct Hq as (notices & pushes & Hpend & Hn & Hp). exists (notices ++ pushes).
  assert (∀ peer conn ev, NotifyHandler peer (One conn) ev ∉ pushes) as Hpushes.
  { intros peer conn ev. rewrite Hp. destruct (lc && _); [|by apply not_elem_of_nil].
    by intros (? & [=] & _)%list_elem_of_fmap. }
  split_and!; [done| | |].
  - intros key [addr Hkey]. rewrite delivered_app, (delivered_silent pushes) by auto.
    destruct (lc || ec) eqn:Hc.
    + eapply delivered_notices; [done|]. apply list_elem_of_fmap. exists (key, addr).
      split; [done|]. by apply elem_of_map_to_list.
    + apply orb_false_iff in Hc as [-> ->]. apply Permutation_nil_r in Hn as ->. simpl.
      symmetry. by eapply all_addresses_unchanged.
  - intros peer conn ev [Hin|Hin]%elem_of_app; [|by apply Hpushes in Hin]. rewrite Hn in Hin.
    destruct (lc || ec); [|by apply not_elem_of_nil in Hin].
    apply list_elem_of_fmap in Hin as ([p c] & [= -> -> _] & ([k a] & Hk & Ha)%list_elem_of_fmap).
    simpl in Hk. subst k. apply elem_of_map_to_list in Ha. eauto.
  - intros peer ev [Hin|Hin]%elem_of_app.
    + rewrite Hn in Hin. destruct (lc || ec); [|by apply not_elem_of_nil in Hin].
      by apply list_elem_of_fmap in Hin as (? & [=] & _).
    + rewrite Hp in Hin. destruct (lc && _); [|by apply not_elem_of_nil in Hin].
      by apply list_elem_of_fmap in Hin as (? & [= -> ->] & _).
Qed.

(** The connections as the swarm sees them. *)
Definition live_of n : gmap Key Multiaddr := conn_address <$> connections n.

(** The behaviour's table is that of the swarm, connection ids are not reused, and the
    queue brings every handler to the current addresses. *)
Record node_inv n : Prop := {
  inv_tracks : tracks (connected (node_behaviour n)) (live_of n);
  inv_used : ∀ peer conn, is_Some (connections n !! (peer, conn)) → conn ∈ used_ids n;
  inv_pending : ∀ peer conn e,
    NotifyHandler peer (One conn) e ∈ pending_events (node_behaviour n) → conn ∈ used_ids n;
  inv_any : ∀ peer e, NotifyHandler peer Any e ∈ pending_events (node_behaviour n) → e = Push;
  inv_addresses : ∀ key cn, connections n !! key = Some cn →
    delivered (pending_events (node_behaviour n)) key (known cn) = all_addresses (node_behaviour n)
}.

Lemma live_of_Some n key : is_Some (live_of n !! key) ↔ is_Some (connections n !! key).
Proof. unfold live_of. rewrite lookup_fmap. apply fmap_is_Some. Qed.

(** A swarm event on a node whose connections it leaves, or of which it closes some. *)
Lemma swarm_event_inv event n conns :
  node_inv n → conns ⊆ connections n →
  tracks (connected (on_swarm_event event (node_behaviour n))) (conn_address <$> conns) →
  node_inv (mk_node (on_swarm_event event (node_behaviour n)) conns (used_ids n) (under_way n)).
Proof.
  intros [Ht Hu Hp Hany Ha] Hsub Ht'.
  destruct (swarm_event_delivers event _ _ Ht) as (es & Hes & Hdel & Hlive & Hpush). split; simpl.
  - done.
  - intros peer conn [x Hx]. eapply (Hu peer). exists x. by eapply lookup_weaken.
  - intros peer conn e. rewrite Hes. intros [Hin|Hin]%elem_of_app; [by eapply Hp|].
    eapply (Hu peer), live_of_Some, Hlive, Hin.
  - intros peer e. rewrite Hes, elem_of_app. naive_solver.
  - intros key cn Hkey. assert (connections n !! key = Some cn) as Hkey' by by eapply lookup_weaken.
    rewrite Hes, delivered_app, (Ha _ _ Hkey'). apply Hdel, live_of_Some. eauto.
Qed.

(** A call that keeps the table and the addresses of the behaviour and queues nothing
    for a single handler. *)
Lemma behaviour_call_inv n (f : B → B) es :
  let b := node_behaviour n in
  connected (f b) = connected b → all_addresses (f b) = all_addresses b →
  pending_events (f b) = pending_events b ++ es →
  (∀ peer conn e, NotifyHandler peer (One conn) e ∉ es) → (∀ peer e, NotifyHandler peer Any e ∈ es → e = Push) →
  node_inv n → node_inv (on_behaviour f n).
Proof.
  intros b Hc Hall Hpend Hes Hpush [Ht Hu Hp Hany Ha]. split; simpl; fold b.
  - by rewrite Hc.
  - done.
  - intros peer conn e. rewrite Hpend. intros [Hin|Hin]%elem_of_app; [by eapply Hp|]. by apply Hes in Hin.
  - intros peer e. rewrite Hpend, elem_of_app. naive_solver.
  - intros key cn Hkey. rewrite Hpend, Hall, delivered_app, delivered_silent by eauto. by eapply Ha.
Qed.

(** A change of a connection that keeps its address and what its handler will know. *)
Lemma on_connection_inv n key (f : Conn → Conn) :
  (∀ cn, connections n !! key = Some cn → conn_address (f cn) = conn_address cn ∧ known (f cn) = known cn) →
  node_inv n → node_inv (on_connection key f n).
Proof.
  intros Hf [Ht Hu Hp Hany Ha]. split; simpl.
  - replace (live_of (on_connection key f n)) with (live_of n); [done|].
    unfold live_of. simpl. apply map_eq. intros k. rewrite !lookup_fmap, lookup_alter.
    case_decide as Hk; [|done]. subst k. destruct (connections n !! key) as [cn|] eqn:Hn; [|done].
    simpl. by destruct (Hf _ eq_refl) as [-> _].
  - intros peer conn. rewrite lookup_alter_is_Some. apply Hu.
  - done.
  - done.
  - intros k cn. rewrite lookup_alter. case_decide as Hk; [|apply Ha]. subst k.
    destruct (connections n !! key) as [cn'|] eqn:Hn; [|done]. intros [= <-].
    destruct (Hf _ eq_refl) as [_ ->]. by eapply Ha.
Qed.

(** The fields of a handler that its calls leave alone. *)
Lemma handler_step_frame (input : @handler_input Stream Ctx Addresses ProtocolsChange DialError) h :
  handler_local_info (handler_step input h).1 = handler_local_info h ∧
  handler_external_addresses (handler_step input h).1 =
    match input with FromBehaviour (AddressesChanged a) => a | _ => handler_external_addresses h end.
Proof.
  destruct input as [[]|[[]|[]| | |]|cx]; simpl; try done;
    unfold on_fully_negotiated_inbound, on_fully_negotiated_outbound, try_push;
    try (by destruct (fset_try_push _ _) as [? []]).
  - destruct (on_protocols_change _ _) as [p []]; simpl; [|done]. by destruct (exchanged_one_periodic_identify h).
  - unfold handler_poll. destruct (pop_back (events h)) as [es [e|]]; [done|].
    destruct (delay_poll cx (trigger_next_identify h)) as [d []]; [done|].
    unfold poll_active_streams. simpl. destruct (fset_poll cx (active_streams h)) as [s r].
    destruct r as [[[[]|]|[]]|]; simpl; try done. by destruct (remote_info h).
Qed.

Lemma handler_poll_frame cx h h' r :
  handler_poll cx h = (h', r) →
  handler_local_info h' = handler_local_info h ∧ handler_external_addresses h' = handler_external_addresses h.
Proof.
  intros Hp. pose proof (handler_step_frame (Polled cx) h) as Hf. simpl in Hf. rewrite Hp in Hf. by destruct r.
Qed.

(** Calls on a handler, and taking a notice, change nothing of what it will know. *)
Lemma on_handler_known (f : Hd → Hd) cn :
  handler_external_addresses (f (conn_handler cn)) = handler_external_addresses (conn_handler cn) →
  known (on_handler f cn) = known cn.
Proof. unfold known. simpl. by intros ->. Qed.

Lemma take_notice_known cn : conn_address (take_notice cn) = conn_address cn ∧ known (take_notice cn) = known cn.
Proof. destruct cn as [addr h [|[a|] inbox]]; done. Qed.

Lemma post_known event cn : known (post event cn) = absorb (known cn) event.
Proof. unfold known. simpl. by rewrite foldl_app. Qed.

Lemma push_addresses peers b : all_addresses (push peers b) = all_addresses b.
Proof.
  revert b. induction peers as [|p peers IH]; intros b; simpl; [done|].
  destruct (connected b !! p); [|done]. by rewrite IH.
Qed.

Lemma established_addresses peer conn endpoint b :
  all_addresses (on_swarm_event (ConnectionEstablished peer conn endpoint) b) = all_addresses b.
Proof.
  pose proof (book_established peer conn endpoint (listen_addresses b)) as Hl.
  pose proof (book_established peer conn endpoint (external_addresses b)) as He.
  destruct (book_on_swarm_event _ (listen_addresses b)) as [l lc] eqn:Hl'.
  destruct (book_on_swarm_event _ (external_addresses b)) as [e ec] eqn:He'.
  simpl in *. subst. by eapply all_addresses_unchanged.
Qed.

Lemma established_inv peer conn endpoint n h :
  conn ∉ used_ids n → handler_external_addresses h = all_addresses (node_behaviour n) → node_inv n →
  node_inv (mk_node (on_swarm_event (ConnectionEstablished peer conn endpoint) (node_behaviour n))
    (<[(peer, conn) := mk_connection (remote_address endpoint) h []]> (connections n))
    ({[conn]} ∪ used_ids n) (under_way n)).
Proof.
  intros Hfresh Hh [Ht Hu Hp Hany Ha].
  assert (∀ p, connections n !! (p, conn) = None) as Hnone.
  { intros p. destruct (connections n !! (p, conn)) eqn:Hc; [|done]. destruct Hfresh. eapply (Hu p). eauto. }
  destruct (swarm_event_delivers (ConnectionEstablished peer conn endpoint) _ _ Ht)
    as (es & Hes & Hdel & Hlive & Hpush). split; simpl.
  - replace (live_of _) with (<[(peer, conn) := remote_address endpoint]> (live_of n)).
    + eapply tracks_live_step; [|done]. constructor. unfold live_of. by rewrite lookup_fmap, Hnone.
    + unfold live_of. simpl. by rewrite fmap_insert.
  - intros p c. rewrite lookup_insert_is_Some. set_solver.
  - intros p c e. rewrite Hes, elem_of_app, elem_of_union. intros [Hin|Hin]; [eauto|].
    right. eapply (Hu p), live_of_Some, Hlive, Hin.
  - intros p e. rewrite Hes, elem_of_app. naive_solver.
  - intros key cn. rewrite lookup_insert_Some. intros [[<- [= <-]]|[Hne Hkey]]; rewrite Hes.
    + rewrite delivered_silent.
      * unfold known. simpl. by rewrite Hh, established_addresses.
      * intros event [Hin|Hin]%elem_of_app; simpl in Hin; [by apply Hfresh; eauto|].
        apply Hlive in Hin. apply live_of_Some in Hin. rewrite Hnone in Hin. by destruct Hin.
    + rewrite delivered_app, (Ha _ _ Hkey). apply Hdel, live_of_Some. eauto.
Qed.

Lemma closed_inv peer conn x n :
  connections n !! (peer, conn) = Some x → node_inv n →
  let rest := delete (peer, conn) (connections n) in
  node_inv (mk_node (on_swarm_event (ConnectionClosed peer conn
    (N.of_nat (size (filter (λ e, e.1.1 = peer) rest)))) (node_behaviour n)) rest (used_ids n) (under_way n)).
Proof.
  intros Hx Hn rest. apply swarm_event_inv; [done|apply delete_subseteq|].
  subst rest. rewrite fmap_delete. eapply tracks_live_step; [|apply Hn]. constructor.
  - apply live_of_Some. eauto.
  - unfold peer_connections, live_of. rewrite <-fmap_delete, map_filter_fmap, map_size_fmap. done.
Qed.

(** Taking the head off the queue, with mailboxes that received it. *)
Lemma popped_inv out rest conns n :
  pending_events (node_behaviour n) = out :: rest → node_inv n →
  conn_address <$> conns = live_of n →
  (∀ key cn', conns !! key = Some cn' → ∃ cn, connections n !! key = Some cn ∧
     receive key (known cn) out = known cn') →
  node_inv (mk_node (set_pending rest (node_behaviour n)) conns (used_ids n) (under_way n)).
Proof.
  intros Hq [Ht Hu Hp Hany Ha] Hlive Hrecv. rewrite Hq in Hp, Hany, Ha. split; simpl.
  - unfold live_of. simpl. by rewrite Hlive.
  - intros peer conn [cn' Hx]. destruct (Hrecv _ _ Hx) as (cn & Hcn & _). eapply (Hu peer). eauto.
  - intros peer conn e Hin. eapply Hp. by right.
  - intros peer e Hin. eapply Hany. by right.
  - intros key cn' Hx. destruct (Hrecv _ _ Hx) as (cn & Hcn & <-). exact (Ha _ _ Hcn).
Qed.

Lemma alter_live key (f : Conn → Conn) n :
  (∀ cn, conn_address (f cn) = conn_address cn) → conn_address <$> alter f key (connections n) = live_of n.
Proof.
  intros Hf. unfold live_of. apply map_eq. intros k. rewrite !lookup_fmap, lookup_alter. case_decide; [|done].
  subst k. destruct (connections n !! key) as [cn|]; simpl; [|done]. by rewrite Hf.
Qed.

(** The same for a notice put into one mailbox. *)
Lemma posted_inv out rest key0 event n :
  pending_events (node_behaviour n) = out :: rest → node_inv n →
  (∀ key a, receive key a out = if decide (key0 = key) then absorb a event else a) →
  node_inv (on_connection key0 (post event) (on_behaviour (λ _, set_pending rest (node_behaviour n)) n)).
Proof.
  intros Hq Hn Hf. unfold on_connection. simpl. apply (popped_inv out); [done..|by apply alter_live|].
  intros key cn'. rewrite lookup_alter. specialize (Hf key). case_decide.
  - subst key. destruct (connections n !! key0) as [cn|]; [|done]. intros [= <-].
    exists cn. by rewrite post_known.
  - eauto.
Qed.

Lemma polled_inv choice out rest n :
  pending_events (node_behaviour n) = out :: rest → node_inv n →
  node_inv (carry choice out (on_behaviour (λ _, set_pending rest (node_behaviour n)) n)).1.
Proof.
  intros Hq Hn. destruct out as [event|peer [conn|] event]; simpl.
  - apply (popped_inv (GenerateEvent event)); [done..|]. simpl. eauto.
  - eapply posted_inv; [done..|]. intros key a. simpl. destruct event; by case_decide.
  - assert (event = Push) as -> by (eapply (inv_any _ Hn); rewrite Hq; left).
    eapply posted_inv; [done..|]. intros key a. simpl. by case_decide.
Qed.

(** A report given to the behaviour. *)
Lemma reported_inv peer conn event n :
  node_inv n → node_inv (on_behaviour (on_connection_handler_event peer conn event) n).
Proof.
  intros Hn. destruct event; (eapply behaviour_call_inv; [done..| | |done]);
    (by intros ??? ?%list_elem_of_singleton) || (by intros ?? ?%list_elem_of_singleton).
Qed.

Lemma set_under_way_inv way n : node_inv n → node_inv (set_under_way way n).
Proof. by intros []. Qed.

Lemma node_step_inv input n : node_inv n → node_inv (node_step input n).1.1.
Proof.
  intros Hn.
  destruct input as [peer conn endpoint|peer conn|peer conn old new|other|peers|choice|key|key event|key cx|key]; simpl.
  - case_decide; [done|]. destruct endpoint; by apply established_inv.
  - destruct (connections n !! (peer, conn)) as [x|] eqn:Hx; [|done].
    destruct (first_report _ _); [done|]. by eapply closed_inv.
  - destruct (connections n !! (peer, conn)); [|done].
    apply swarm_event_inv; [done..|]. eapply tracks_live_step; [constructor|apply Hn].
  - apply swarm_event_inv; [done..|]. eapply tracks_live_step; [constructor|apply Hn].
  - destruct (push_fields peers (node_behaviour n)) as (Hc & _).
    eapply behaviour_call_inv; [done|apply push_addresses|apply push_pending| | |done].
    + by intros peer conn e (? & [=] & _)%list_elem_of_fmap.
    + by intros peer e (? & [= -> ->] & _)%list_elem_of_fmap.
  - unfold behaviour_poll. destruct (pending_events (node_behaviour n)) as [|out rest] eqn:Hq; [done|].
    pose proof (polled_inv choice out rest n Hq Hn) as Hinv. by destruct (carry _ _ _).
  - apply on_connection_inv; [|done]. intros cn _. apply take_notice_known.
  - apply on_connection_inv; [|done]. intros cn _. split; [done|].
    apply on_handler_known, (handler_step_frame (FromConnection event)).
  - destruct (connections n !! key) as [cn|] eqn:Hkey; [|done].
    destruct (handler_poll cx (conn_handler cn)) as [h' r] eqn:Hp. apply handler_poll_frame in Hp as [_ Haddr].
    assert (node_inv (on_connection key (on_handler (λ _, h')) n)) as Hn'.
    { apply on_connection_inv; [|done]. intros cn'. rewrite Hkey. intros [= <-]. split; [done|].
      by apply on_handler_known. }
    destruct r as [[|event]|]; [done| |done]. by apply set_under_way_inv.
  - destruct (first_report key (under_way n)) as [[event rest]|]; [|done].
    by apply reported_inv, set_under_way_inv.
Qed.

Lemma new_node_inv c i : node_inv (new_node c i).
Proof.
  split; simpl.
  - split; intros *; simpl; [|by rewrite lookup_empty]. unfold live_of. simpl.
    by rewrite !lookup_fmap, !lookup_empty.
  - intros peer conn. by rewrite lookup_empty, is_Some_alt.
  - by intros ??? ?%not_elem_of_nil.
  - by intros ?? ?%not_elem_of_nil.
  - intros key cn. by rewrite lookup_empty.
Qed.

Lemma reachable_inv inputs c i : node_inv (node_run inputs (new_node c i)).1.1.
Proof. apply node_run_invariant; [apply node_step_inv|apply new_node_inv]. Qed.

(** Polling the behaviour as often as its queue is long empties the queue, gives the
    owner its events in order, and leaves the connections and the addresses. *)
Lemma drain_behaviour choice n m :
  (length (pending_events (node_behaviour n)) ≤ m)%nat →
  let '(n', outs, reps) := node_run (replicate m (BehaviourPolled choice)) n in
  pending_events (node_behaviour n') = [] ∧ all_addresses (node_behaviour n') = all_addresses (node_behaviour n) ∧
  outs = omap generated (pending_events (node_behaviour n)) ∧ under_way n' = under_way n ∧
  (∀ key cn, connections n !! key = Some cn → ∃ inbox, connections n' !! key =
     Some (mk_connection (conn_address cn) (conn_handler cn) (conn_inbox cn ++ inbox)) ∧
     (length inbox ≤ length (pending_events (node_behaviour n)))%nat).
Proof.
  revert n. induction m as [|m IH]; intros n Hm; simpl.
  - destruct (pending_events (node_behaviour n)); [|simpl in Hm; lia]. split_and!; [done..|].
    intros key [addr h inbox] Hkey. exists []. by rewrite app_nil_r.
  - unfold behaviour_poll. destruct (pending_events (node_behaviour n)) as [|out rest] eqn:Hq.
    { specialize (IH n). rewrite Hq in IH. specialize (IH ltac:(simpl; lia)).
      destruct (node_run _ n) as [[n' outs] reps]. done. }
    set (n1 := on_behaviour _ n). destruct (carry choice out n1) as [n2 ev] eqn:Hc.
    assert (node_behaviour n2 = set_pending rest (node_behaviour n) ∧ under_way n2 = under_way n ∧
      ev = generated out ∧ ∀ key cn, connections n !! key = Some cn → ∃ inbox, connections n2 !! key =
        Some (mk_connection (conn_address cn) (conn_handler cn) (conn_inbox cn ++ inbox)) ∧ (length inbox ≤ 1)%nat)
      as (Hb & Hw & -> & Hconn).
    { destruct out as [event|peer [conn|] event]; simpl in Hc; injection Hc as <- <-; (split_and!; [done..|]);
        intros key [addr h inbox] Hkey; simpl; [exists []; by rewrite app_nil_r; eauto|..];
        rewrite lookup_alter; case_decide as Hk; try subst key; rewrite Hkey; simpl;
        [by exists [event]|exists []|by exists [event]|exists []]; rewrite app_nil_r; eauto. }
    specialize (IH n2). rewrite Hb in IH. specialize (IH ltac:(simpl in *; lia)).
    destruct (node_run (replicate m (BehaviourPolled choice)) n2) as [[n' outs] reps].
    destruct IH as (Hempty & Hall & -> & Hw' & Hconn'). split_and!; [done|done| |congruence|].
    + simpl. by destruct (generated out).
    + intros key cn Hkey. destruct (Hconn _ _ Hkey) as (inbox1 & Hin1 & Hl1).
      destruct (Hconn' _ _ Hin1) as (inbox2 & Hin2 & Hl2). simpl in Hin2, Hl2.
      exists (inbox1 ++ inbox2). rewrite app_assoc, length_app. split; [done|simpl; lia].
Qed.

(** A handler that takes as many notices as its mailbox holds has taken all of them. *)
Lemma drain_inbox key cn n m :
  connections n !! key = Some cn → (length (conn_inbox cn) ≤ m)%nat →
  let n' := (node_run (replicate m (NoticeTaken key)) n).1.1 in
  node_behaviour n' = node_behaviour n ∧
  ∃ h, connections n' !! key = Some (mk_connection (conn_address cn) h []) ∧
    handler_external_addresses h = known cn.
Proof.
  revert n cn. induction m as [|m IH]; intros n cn Hkey Hm; simpl.
  - destruct cn as [addr h [|]]; simpl in *; [eauto|lia].
  - assert (connections (on_connection key take_notice n) !! key = Some (take_notice cn)) as Hkey'.
    { simpl. by rewrite lookup_alter_eq, Hkey. }
    destruct (IH _ _ Hkey') as (Hb & h & Hh & Hk).
    { destruct cn as [addr h [|]]; simpl in *; lia. }
    destruct (node_run _ (on_connection key take_notice n)) as [[n' outs] reps]. simpl in *.
    split; [done|]. exists h. destruct (take_notice_known cn) as [<- <-]. done.
Qed.

(** C32: every handler learns the current addresses: in every state the node can reach,
    the notices in the mailbox of a connection followed by those still in the behaviour's
    queue give its handler exactly the behaviour's current listen and external addresses;
    when both are empty it has them already; and polling the behaviour and then the
    mailbox, each as often as there are notices, makes it have them. *)
Theorem handlers_learn_addresses inputs c i key cn choice m :
  let n := (node_run inputs (new_node c i)).1.1 in
  connections n !! key = Some cn →
  delivered (pending_events (node_behaviour n)) key (known cn) = all_addresses (node_behaviour n) ∧
  (pending_events (node_behaviour n) = [] → conn_inbox cn = [] →
     handler_external_addresses (conn_handler cn) = all_addresses (node_behaviour n)) ∧
  ((length (pending_events (node_behaviour n)) + length (conn_inbox cn) ≤ m)%nat →
     let n' := (node_run (replicate m (BehaviourPolled choice) ++ replicate m (NoticeTaken key)) n).1.1 in
     all_addresses (node_behaviour n') = all_addresses (node_behaviour n) ∧
     ∃ cn', connections n' !! key = Some cn' ∧
       handler_external_addresses (conn_handler cn') = all_addresses (node_behaviour n)).
Proof.
  intros n Hkey. pose proof (reachable_inv inputs c i) as Hn. fold n in Hn.
  pose proof (inv_addresses _ Hn _ _ Hkey) as Ha. split_and!; [done| |].
  - intros Hq Hi. rewrite Hq in Ha. unfold known in Ha. by rewrite Hi in Ha.
  - intros Hm. rewrite node_run_app.
    pose proof (node_run_invariant node_inv (replicate m (BehaviourPolled choice)) n node_step_inv Hn) as Hn1.
    pose proof (drain_behaviour choice n m ltac:(lia)) as Hd.
    destruct (node_run (replicate m (BehaviourPolled choice)) n) as [[n1 outs1] reps1]. simpl in Hn1.
    destruct Hd as (Hq1 & Hall & _ & _ & Hconn). destruct (Hconn _ _ Hkey) as (inbox & Hkey1 & Hlen).
    pose proof (inv_addresses _ Hn1 _ _ Hkey1) as Ha1. rewrite Hq1, Hall in Ha1. simpl in Ha1.
    destruct (drain_inbox key _ n1 m Hkey1) as (Hb & h & Hh & Hk); [simpl; rewrite length_app; lia|].
    destruct (node_run (replicate m (NoticeTaken key)) n1) as [[n2 outs2] reps2]. simpl in *.
    rewrite Hb. split; [done|]. eexists. split; [done|]. simpl. by rewrite Hk, Ha1.
Qed.

(** * The events the owner gets *)

(** The event of the owner that a report of a handler stands for. *)
Definition reported (e : Key * Report) : option OutEvent :=
  report (HandlerCall e.1.1 e.1.2 e.2 : @behaviour_input PeerId ConnectionId Multiaddr OtherEvent TInfo TPush SUError).

(** The events for the owner that are waiting in the queue, and those under way to it. *)
Definition waiting n : list OutEvent := omap generated (pending_events (node_behaviour n)).
Definition in_transit n : list OutEvent := omap reported (under_way n).

Lemma carry_waiting choice out n :
  let '(n', ev) := carry choice out n in
  waiting n' = waiting n ∧ in_transit n' = in_transit n ∧ ev = generated out.
Proof. by destruct out as [|peer [conn|] event]. Qed.

Lemma handler_event_waiting peer conn event b :
  omap generated (pending_events (on_connection_handler_event peer conn event b)) =
  omap generated (pending_events b) ++ option_list (reported ((peer, conn), event)).
Proof. destruct event; simpl; by rewrite omap_app. Qed.

Lemma first_report_perm key way event rest :
  first_report key way = Some (event, rest) → way ≡ₚ (key, event) :: rest.
Proof.
  revert rest. induction way as [|[key' event'] way IH]; intros rest; simpl; [done|]. case_decide as Hk.
  - intros [= -> ->]. by subst.
  - destruct (first_report key way) as [[ev way']|]; simpl; [|done]. intros [= -> <-].
    rewrite (IH _ eq_refl). apply Permutation_swap.
Qed.

(** A step loses no event and makes none up. *)
Lemma node_step_reports input n :
  let '(n', out, rep) := node_step input n in
  option_list out ++ waiting n' ++ in_transit n' ≡ₚ waiting n ++ in_transit n ++ option_list (rep ≫= reported).
Proof.
  destruct input as [peer conn endpoint|peer conn|peer conn old new|other|peers|choice|key|key event|key cx|key]; simpl.
  - case_decide; [by rewrite app_nil_r|]. unfold waiting.
    destruct endpoint; simpl; by rewrite swarm_event_generates_nothing, app_nil_r.
  - destruct (connections n !! (peer, conn)); simpl; [|by rewrite app_nil_r].
    destruct (first_report _ _); simpl; [by rewrite app_nil_r|].
    unfold waiting. simpl. by rewrite swarm_event_generates_nothing, app_nil_r.
  - destruct (connections n !! (peer, conn)); simpl; [|by rewrite app_nil_r].
    unfold waiting. simpl. by rewrite swarm_event_generates_nothing, app_nil_r.
  - unfold waiting. simpl. by rewrite swarm_event_generates_nothing, app_nil_r.
  - unfold waiting. simpl. by rewrite push_pending, omap_app, (omap_generated_notices push_notice), !app_nil_r.
  - unfold behaviour_poll. destruct (pending_events (node_behaviour n)) as [|out rest] eqn:Hq; simpl.
    + by rewrite app_nil_r.
    + set (n1 := on_behaviour _ n). run_spec (carry_waiting choice out n1) as [n' ev] in (-> & -> & ->).
      rewrite app_nil_r. unfold waiting at 2. rewrite Hq. simpl. by destruct (generated out).
  - by rewrite app_nil_r.
  - by rewrite app_nil_r.
  - destruct (connections n !! key) as [cn|]; simpl; [|by rewrite app_nil_r].
    destruct (handler_poll cx (conn_handler cn)) as [h' [[p|event]|]]; simpl; rewrite ?app_nil_r; try done.
    unfold in_transit. simpl. rewrite omap_app. simpl. by destruct (reported (key, event)).
  - destruct (first_report key (under_way n)) as [[event rest]|] eqn:Hf; simpl; [|by rewrite app_nil_r].
    apply first_report_perm in Hf. unfold waiting, in_transit. simpl.
    rewrite handler_event_waiting, <-surjective_pairing, Hf, app_nil_r, <-app_assoc. simpl.
    by destruct (reported (key, event)).
Qed.

Lemma node_run_reports inputs n :
  let '(n', outs, reps) := node_run inputs n in
  outs ++ waiting n' ++ in_transit n' ≡ₚ waiting n ++ in_transit n ++ omap reported reps.
Proof.
  revert n. induction inputs as [|input inputs IH]; intros n; simpl; [by rewrite app_nil_r|].
  pose proof (node_step_reports input n) as Hs. destruct (node_step input n) as [[n1 out] rep].
  specialize (IH n1). destruct (node_run inputs n1) as [[n2 outs] reps].
  rewrite <-app_assoc, IH, !app_assoc, <-(app_assoc (option_list out)), Hs, omap_app, !app_assoc.
  by destruct rep as [e|]; simpl; [destruct (reported e)|].
Qed.

(** Every report was made by the handler of a live connection. *)
Lemma node_step_report_source input n n' out key event :
  node_step input n = (n', out, Some (key, event)) →
  ∃ cx cn h, input = HandlerPolled key cx ∧ connections n !! key = Some cn ∧
    handler_poll cx (conn_handler cn) = (h, Ready (NotifyBehaviour event)).
Proof.
  destruct input as [peer conn endpoint|peer conn|peer conn old new|other|peers|choice|k|k ev|k cx|k]; simpl; try done.
  - case_decide; [done|]. by destruct endpoint.
  - destruct (connections n !! (peer, conn)); [|done]. by destruct (first_report _ _).
  - by destruct (connections n !! (peer, conn)).
  - by destruct (behaviour_poll _) as [b []].
  - destruct (connections n !! k) as [cn|] eqn:Hkey; [|done].
    destruct (handler_poll cx (conn_handler cn)) as [h [[p|ev]|]] eqn:Hp; try done. intros [= _ _ -> ->].
    by exists cx, cn, h.
  - by destruct (first_report _ _) as [[]|].
Qed.

Lemma node_run_report_source inputs n key event :
  (key, event) ∈ (node_run inputs n).2 →
  ∃ inputs1 cx inputs2 cn h,
    inputs = inputs1 ++ HandlerPolled key cx :: inputs2 ∧
    connections (node_run inputs1 n).1.1 !! key = Some cn ∧
    handler_poll cx (conn_handler cn) = (h, Ready (NotifyBehaviour event)).
Proof.
  revert n. induction inputs as [|input inputs IH]; intros n; simpl; [by intros ?%not_elem_of_nil|].
  destruct (node_step input n) as [[n1 out] rep] eqn:Hs. specialize (IH n1).
  destruct (node_run inputs n1) as [[n2 outs] reps] eqn:Hrun. simpl in *.
  intros [Hin|Hin]%elem_of_app.
  - destruct rep as [e|]; [|by apply not_elem_of_nil in Hin]. apply list_elem_of_singleton in Hin as <-.
    destruct (node_step_report_source _ _ _ _ _ _ Hs) as (cx & cn & h & -> & Hrest).
    exists [], cx, inputs, cn, h. done.
  - destruct (IH Hin) as (inputs1 & cx & inputs2 & cn & h & -> & Hkey & Hp).
    exists (input :: inputs1), cx, inputs2, cn, h. split_and!; [done| |done..].
    simpl. rewrite Hs. by destruct (node_run inputs1 n1) as [[n3 outs3] reps3].
Qed.

Context `{!FuturesSetLaws FSet Ctx Task Result task_completes}.

(** No handler has an info of the remote in its own queue. *)
Definition node_silent n : Prop := ∀ key cn, connections n !! key = Some cn → queue_silent (conn_handler cn).

Lemma on_connection_silent key (f : Conn → Conn) n :
  (∀ cn, connections n !! key = Some cn → queue_silent (conn_handler cn) → queue_silent (conn_handler (f cn))) →
  node_silent n → node_silent (on_connection key f n).
Proof.
  intros Hf Hn k cn. simpl. rewrite lookup_alter. case_decide; [|apply Hn]. subst k.
  destruct (connections n !! key) as [cn'|] eqn:Hkey; [|done]. intros [= <-].
  eapply Hf; [done|by eapply Hn].
Qed.

Lemma handler_call_silent (input : @handler_input Stream Ctx Addresses ProtocolsChange DialError) h :
  queue_silent h → queue_silent (handler_step input h).1.
Proof. intros Hq. by run_spec (handler_step_reports input h Hq) as [h' out] in [? _]. Qed.

Lemma node_step_silent input n : node_silent n → node_silent (node_step input n).1.1.
Proof.
  intros Hn.
  destruct input as [peer conn endpoint|peer conn|peer conn old new|other|peers|choice|key|key event|key cx|key]; simpl.
  - case_decide; [done|]. destruct endpoint; intros k cn; simpl;
      (rewrite lookup_insert_Some; intros [[_ [= <-]]|[_ Hk]]; [apply Forall_nil_2|by eapply Hn]).
  - destruct (connections n !! (peer, conn)); [|done]. destruct (first_report _ _); [done|]. intros k cn. simpl.
    rewrite lookup_delete_Some. intros [_ Hk]. by eapply Hn.
  - by destruct (connections n !! (peer, conn)).
  - exact Hn.
  - exact Hn.
  - unfold behaviour_poll. destruct (pending_events (node_behaviour n)) as [|out rest]; [done|].
    destruct out as [ev|peer [conn|] ev]; simpl; [exact Hn|..]; by apply on_connection_silent.
  - apply on_connection_silent; [|done]. intros [addr h [|ev inbox]] _; [done|].
    apply (handler_call_silent (FromBehaviour ev)).
  - apply on_connection_silent; [|done]. intros cn _. apply (handler_call_silent (FromConnection event)).
  - destruct (connections n !! key) as [cn|] eqn:Hkey; [|done].
    destruct (handler_poll cx (conn_handler cn)) as [h' r] eqn:Hp.
    assert (node_silent (on_connection key (on_handler (λ _, h')) n)) as Hn'.
    { apply on_connection_silent; [|done]. intros cn'. rewrite Hkey. intros [= <-] Hq.
      pose proof (handler_call_silent (Polled cx) _ Hq) as Hs. simpl in Hs. rewrite Hp in Hs.
      by destruct r. }
    by destruct r as [[|event]|].
  - by destruct (first_report key (under_way n)) as [[event rest]|].
Qed.

(** C31: what the owner of the swarm learns about a peer is true end to end: every
    [Received] event carries an info that the handler of a connection to that very peer,
    live at the time, read from a stream, or obtained by merging a push it read into the
    info it knew. *)
Theorem received_has_source inputs c i peer info :
  Received peer info ∈ (node_run inputs (new_node c i)).1.2 →
  ∃ inputs1 conn cx inputs2 cn,
    inputs = inputs1 ++ HandlerPolled (peer, conn) cx :: inputs2 ∧
    connections (node_run inputs1 (new_node c i)).1.1 !! (peer, conn) = Some cn ∧
    info_source (conn_handler cn) info.
Proof.
  intros Hin. pose proof (node_run_reports inputs (new_node c i)) as Hr.
  pose proof (node_run_report_source inputs (new_node c i)) as Hsrc.
  destruct (node_run inputs (new_node c i)) as [[n outs] reps]. simpl in *.
  assert (Received peer info ∈ omap reported reps) as ([[p conn] event] & He & Hev)%list_elem_of_omap.
  { rewrite <-Hr. set_solver. }
  destruct (Hsrc _ _ He) as (inputs1 & cx & inputs2 & cn & h & -> & Hkey & Hp).
  assert (event = Identified info ∧ p = peer) as [-> ->] by (unfold reported in Hev; destruct event; naive_solver).
  exists inputs1, conn, cx, inputs2, cn. split_and!; [done..|].
  eapply poll_identified_source; [|done].
  assert (node_silent (node_run inputs1 (new_node c i)).1.1) as Hsilent; [|by eapply Hsilent].
  apply node_run_invariant; [apply node_step_silent|]. intros k cn'. simpl. by rewrite lookup_empty.
Qed.

(** * An exchange between two nodes *)

(** Every handler answers with the info the behaviour was created with. *)
Definition answers_with (i : TInfo) n : Prop :=
  behaviour_local_info (node_behaviour n) = i ∧
  ∀ key cn, connections n !! key = Some cn → handler_local_info (conn_handler cn) = i.

Lemma on_connection_answers i key (f : Conn → Conn) n :
  (∀ cn, connections n !! key = Some cn →
     handler_local_info (conn_handler (f cn)) = handler_local_info (conn_handler cn)) →
  answers_with i n → answers_with i (on_connection key f n).
Proof.
  intros Hf [Hb Hn]. split; [done|]. intros k cn. simpl. rewrite lookup_alter. case_decide; [|apply Hn].
  subst k. destruct (connections n !! key) as [cn'|] eqn:Hkey; [|done]. intros [= <-].
  rewrite (Hf _ eq_refl). by eapply Hn.
Qed.

Lemma swarm_event_info event b :
  behaviour_local_info (on_swarm_event event b) = behaviour_local_info b.
Proof. apply on_swarm_event_fields. Qed.

Lemma node_step_answers i input n : answers_with i n → answers_with i (node_step input n).1.1.
Proof.
  intros Hn. pose proof Hn as [Hb Hh].
  destruct input as [peer conn endpoint|peer conn|peer conn old new|other|peers|choice|key|key event|key cx|key]; simpl.
  - case_decide; [done|]. destruct endpoint; (split; simpl; [by rewrite swarm_event_info|]); intros k cn;
      (rewrite lookup_insert_Some; intros [[_ [= <-]]|[_ Hk]]; [done|by eapply Hh]).
  - destruct (connections n !! (peer, conn)); [|done]. destruct (first_report _ _); [done|].
    split; simpl; [by rewrite swarm_event_info|].
    intros k cn. rewrite lookup_delete_Some. intros [_ Hk]. by eapply Hh.
  - destruct (connections n !! (peer, conn)); [|done]. split; simpl; [by rewrite swarm_event_info|done].
  - split; simpl; [by rewrite swarm_event_info|done].
  - split; simpl; [|done]. by destruct (push_fields peers (node_behaviour n)) as (_ & _ & _ & ->).
  - unfold behaviour_poll. destruct (pending_events (node_behaviour n)) as [|out rest]; [done|].
    destruct out as [ev|peer [conn|] ev]; simpl; [exact Hn|..]; by apply on_connection_answers.
  - apply on_connection_answers; [|done]. intros [addr h [|ev inbox]] _; [done|].
    apply (handler_step_frame (FromBehaviour ev)).
  - apply on_connection_answers; [|done]. intros cn _. apply (handler_step_frame (FromConnection event)).
  - destruct (connections n !! key) as [cn|] eqn:Hkey; [|done].
    destruct (handler_poll cx (conn_handler cn)) as [h' r] eqn:Hp. apply handler_poll_frame in Hp as [Hi _].
    assert (answers_with i (on_connection key (on_handler (λ _, h')) n)) as Hn'.
    { apply on_connection_answers; [|done]. intros cn'. rewrite Hkey. by intros [= <-]. }
    by destruct r as [[|event]|].
  - destruct (first_report key (under_way n)) as [[[] rest]|]; done.
Qed.

Lemma reachable_answers inputs c i : answers_with i (node_run inputs (new_node c i)).1.1.
Proof.
  apply node_run_invariant; [apply node_step_answers|]. split; [done|].
  intros key cn. simpl. by rewrite lookup_empty.
Qed.

(** A connection whose handler has no queued event and no running stream, and no report
    under way. *)
Definition idle key cn n : Prop :=
  connections n !! key = Some cn ∧ first_report key (under_way n) = None ∧
  events (conn_handler cn) = [] ∧ fset_tasks (active_streams (conn_handler cn)) = [] ∧
  (0 < fset_capacity (active_streams (conn_handler cn)))%N.

(** A context in which a single finished future is not yet timed out and is returned. *)
Definition prompt (cx : Ctx) : Prop := ∀ s task r,
  fset_tasks s = [task] → task_completes task r → ∃ s', fset_poll cx s = (s', Ready (ROk r)).

Lemma idle_push task h :
  fset_tasks (active_streams h) = [] → (0 < fset_capacity (active_streams h))%N →
  ∃ s, try_push task h = (set_active_streams s h, false) ∧ fset_tasks s = [task].
Proof.
  intros Ht Hc. pose proof (try_push_result task h) as Hr. rewrite Ht in Hr. simpl in Hr.
  rewrite decide_True in Hr by lia. destruct Hr as (s & Hs & Htasks & _). eauto.
Qed.

Lemma first_report_snoc key event way :
  first_report key way = None → first_report key (way ++ [(key, event)]) = Some (event, way).
Proof.
  induction way as [|[key' event'] way IH]; simpl; [by rewrite decide_True|].
  case_decide; [done|]. destruct (first_report key way) as [[]|]; [done|]. intros _. by rewrite IH.
Qed.

(** A handler that reports, with the report then given to the behaviour. *)
Lemma report_step key cn cx h event ev n :
  connections n !! key = Some cn → first_report key (under_way n) = None →
  handler_poll cx (conn_handler cn) = (h, Ready (NotifyBehaviour event)) → reported (key, event) = Some ev →
  let '(n', outs, _) := node_run [HandlerPolled key cx; ReportDelivered key] n in
  outs = [] ∧ pending_events (node_behaviour n') = pending_events (node_behaviour n) ++ [GenerateEvent ev] ∧
  connections n' !! key = Some (mk_connection (conn_address cn) h (conn_inbox cn)).
Proof.
  intros Hkey Hf Hp Hev. cbn -[handler_poll first_report]. rewrite Hkey, Hp. cbn -[first_report].
  rewrite (first_report_snoc _ _ _ Hf). split_and!; [done| |].
  - destruct event; simpl in *; by injection Hev as <-.
  - destruct event; simpl; by rewrite lookup_alter_eq, Hkey.
Qed.

(** The steps of the asking side: the timer fires, the stream that was asked for is
    opened, the answer is read, and the report reaches the behaviour. *)
Definition ask key cx1 stream cx2 : list node_input :=
  [HandlerPolled key cx1; HandlerNotified key (FullyNegotiatedOutbound (Left stream));
   HandlerPolled key cx2; ReportDelivered key].

(** The steps of the answering side: the remote opens a stream, the info is written to
    it, and the report reaches the behaviour. *)
Definition answer key stream cx : list node_input :=
  [HandlerNotified key (FullyNegotiatedInbound (Left stream)); HandlerPolled key cx; ReportDelivered key].

Lemma ask_once key cn stream info cx1 cx2 d1 d2 n :
  idle key cn n →
  delay_poll cx1 (trigger_next_identify (conn_handler cn)) = (d1, Ready tt) →
  delay_poll cx2 (delay_reset (interval (conn_handler cn)) d1) = (d2, Pending) → prompt cx2 →
  read_info stream = Ready (Ok info) →
  (handler_poll cx1 (conn_handler cn)).2 =
    Ready (OutboundSubstreamRequest (Left (protocol_name (conn_handler cn)))) ∧
  let '(n', outs, _) := node_run (ask key cx1 stream cx2) n in
  outs = [] ∧
  pending_events (node_behaviour n') =
    pending_events (node_behaviour n) ++ [GenerateEvent (Received key.1 info)] ∧
  ∃ cn', connections n' !! key = Some cn' ∧ remote_info (conn_handler cn') = Some info.
Proof.
  destruct cn as [addr h inbox]. intros (Hkey & Hf & He & Ht & Hc) Hd1 Hd2 Hcx Hread.
  cbn [conn_handler conn_address conn_inbox] in *.
  set (h1 := set_trigger (delay_reset (interval h) d1) h).
  assert (handler_poll cx1 h = (h1, Ready (OutboundSubstreamRequest (Left (protocol_name h))))) as Hp1.
  { unfold handler_poll. by rewrite He, Hd1. }
  destruct (idle_push (ReadInfoTask stream) h1 Ht Hc) as (s & Hs & Hst).
  destruct (Hcx s (ReadInfoTask stream) (ROk (ReceivedIdentify info)) Hst) as [s' Hs'].
  { unfold task_completes. simpl. by rewrite Hread. }
  set (h2 := set_remote_info (Some info) (set_active_streams s' (set_trigger d2 (set_active_streams s h1)))).
  assert (handler_poll cx2 (set_active_streams s h1) = (h2, Ready (NotifyBehaviour (Identified info)))) as Hp2.
  { unfold handler_poll. simpl. rewrite He. simpl. rewrite Hd2. unfold poll_active_streams. simpl. by rewrite Hs'. }
  split; [by rewrite Hp1|].
  change (ask key cx1 stream cx2) with
    ([HandlerPolled key cx1; HandlerNotified key (FullyNegotiatedOutbound (Left stream))] ++
     [HandlerPolled key cx2; ReportDelivered key]).
  set (rest := [HandlerPolled key cx2; ReportDelivered key]).
  rewrite node_run_app. cbn -[handler_poll try_push rest]. rewrite Hkey. cbn -[handler_poll try_push rest].
  rewrite Hp1. cbn -[handler_poll try_push rest]. set (n1 := on_connection _ _ (on_connection _ _ n)).
  assert (connections n1 !! key = Some (mk_connection addr (set_active_streams s h1) inbox)) as Hkey1.
  { subst n1. simpl. rewrite !lookup_alter_eq, Hkey. unfold on_handler. simpl.
    unfold on_fully_negotiated_outbound. by rewrite Hs. }
  pose proof (report_step key _ cx2 h2 (Identified info) (Received key.1 info) n1 Hkey1 Hf Hp2 eq_refl) as Hrep.
  fold rest in Hrep. destruct (node_run rest n1) as [[n2 outs] reps].
  destruct Hrep as (-> & -> & Hkey2). split_and!; [done|done|]. eexists. split; [done|]. done.
Qed.

Lemma answer_once key cn stream cx d n :
  idle key cn n →
  delay_poll cx (trigger_next_identify (conn_handler cn)) = (d, Pending) → prompt cx →
  (write_info stream (handler_local_info (conn_handler cn))).2 = Ready (Ok tt) →
  let '(n', outs, _) := node_run (answer key stream cx) n in
  outs = [] ∧
  pending_events (node_behaviour n') = pending_events (node_behaviour n) ++ [GenerateEvent (Sent key.1)].
Proof.
  destruct cn as [addr h inbox]. intros (Hkey & Hf & He & Ht & Hc) Hd Hcx Hwrite.
  cbn [conn_handler conn_address conn_inbox] in *.
  destruct (idle_push (WriteInfoTask stream (handler_local_info h)) h Ht Hc) as (s & Hs & Hst).
  destruct (Hcx s (WriteInfoTask stream (handler_local_info h)) (ROk SentIdentify) Hst) as [s' Hs'].
  { unfold task_completes. simpl. by rewrite Hwrite. }
  set (h1 := set_exchanged true (set_active_streams s h)).
  assert (handler_poll cx h1 =
    (set_active_streams s' (set_trigger d h1), Ready (NotifyBehaviour Identification))) as Hp.
  { unfold handler_poll. simpl. rewrite He. simpl. rewrite Hd. unfold poll_active_streams. simpl. by rewrite Hs'. }
  change (answer key stream cx) with
    ([HandlerNotified key (FullyNegotiatedInbound (Left stream))] ++ [HandlerPolled key cx; ReportDelivered key]).
  set (rest := [HandlerPolled key cx; ReportDelivered key]).
  rewrite node_run_app. cbn -[handler_poll try_push rest]. set (n1 := on_connection _ _ n).
  assert (connections n1 !! key = Some (mk_connection addr h1 inbox)) as Hkey1.
  { subst n1. simpl. rewrite lookup_alter_eq, Hkey. unfold on_handler. simpl.
    unfold on_fully_negotiated_inbound. by rewrite Hs. }
  pose proof (report_step key _ cx _ Identification (Sent key.1) n1 Hkey1 Hf Hp eq_refl) as Hrep.
  fold rest in Hrep. destruct (node_run rest n1) as [[n2 outs] reps].
  by destruct Hrep as (-> & -> & _).
Qed.

(** Steps that queue one event for the owner and give it none, then polls of the
    behaviour until its queue is empty. *)
Lemma hand_over steps ev choice m n :
  (let '(n1, outs, _) := node_run steps n in
   outs = [] ∧ pending_events (node_behaviour n1) = pending_events (node_behaviour n) ++ [GenerateEvent ev]) →
  (length (pending_events (node_behaviour n)) < m)%nat →
  let '(n', outs, _) := node_run (steps ++ replicate m (BehaviourPolled choice)) n in
  outs = waiting n ++ [ev] ∧
  ∀ key cn, connections (node_run steps n).1.1 !! key = Some cn →
    ∃ cn', connections n' !! key = Some cn' ∧ conn_handler cn' = conn_handler cn.
Proof.
  intros Hs Hm. rewrite node_run_app. destruct (node_run steps n) as [[n1 outs1] reps1].
  destruct Hs as [-> Hq]. pose proof (drain_behaviour choice n1 m) as Hd. rewrite Hq, length_app in Hd.
  specialize (Hd ltac:(simpl; lia)).
  destruct (node_run (replicate m (BehaviourPolled choice)) n1) as [[n2 outs2] reps2].
  destruct Hd as (_ & _ & -> & _ & Hconn). split.
  - unfold waiting. by rewrite omap_app.
  - intros key cn Hkey. destruct (Hconn _ _ Hkey) as (inbox & Hkey' & _). eauto.
Qed.
End node.

(** The exchange, with the JSON codec on both sides. *)
Section exchange.
Context {PeerId ConnectionId Multiaddr : Type}.
Context `{Countable PeerId, Countable ConnectionId, Countable Multiaddr}.
Context `{!HashIter PeerId, !HashIter ConnectionId}.
Context {PubKey StreamProtocol OtherEvent Listen External TInfo TPush SUError Ctx : Type}.
Context {Stream IoError MultiaddrError DecodingError SerdeError : Type}.
Context {Delay FSet SupportedProtocols ProtocolsChange DialError ConnectionDenied : Type}.
Abbreviation SwarmEvent := (FromSwarm PeerId ConnectionId Multiaddr OtherEvent).
Abbreviation Err := (UpgradeError IoError MultiaddrError DecodingError).
Abbreviation Task := (StreamTask Stream TInfo TPush).
Abbreviation Result := (result Err (Success TInfo TPush)).
Context `{!AddressBook Listen SwarmEvent Multiaddr, !AddressBook External SwarmEvent Multiaddr}.
Context `{!AddressBookLaws Listen PeerId ConnectionId Multiaddr OtherEvent}.
Context `{!AddressBookLaws External PeerId ConnectionId Multiaddr OtherEvent}.
Context `{!AsyncIo Stream IoError, !AsyncIoLaws Stream IoError, !AsyncWriteLaws Stream IoError}.
Context `{!DebugFmt SerdeError, !SerdeJson SerdeError TInfo, !SerdeJson SerdeError TPush}.
Context `{!SerdeRoundtrip SerdeError TInfo}.
Context `{!Info TInfo TPush, !Timer Delay Ctx, !FuturesSet FSet Ctx Task Result}.
Context `{!FuturesSetLaws FSet Ctx Task Result task_completes}.
Context `{!SwarmTypes StreamProtocol SupportedProtocols ProtocolsChange DialError Err SUError}.
Abbreviation Hd := (Handler PeerId (HandlerOutput StreamProtocol (HandlerEvent TInfo TPush SUError))
  FSet Delay TInfo SupportedProtocols (gset Multiaddr) StreamProtocol).
Abbreviation Nd := (Node (Behaviour (Config PubKey StreamProtocol) PeerId ConnectionId Multiaddr Listen External TInfo
    (ToSwarm PeerId ConnectionId (Event PeerId TInfo TPush SUError) (gset Multiaddr)))
  (Connection Hd (InEvent (gset Multiaddr)) Multiaddr) (HandlerEvent TInfo TPush SUError) PeerId ConnectionId).
Abbreviation Input := (@node_input PeerId ConnectionId Multiaddr OtherEvent Ctx Stream ProtocolsChange DialError).
Abbreviation idle_in key cn n := (idle (Ctx := Ctx) (Stream := Stream) (Err := Err) key cn (n : Nd)).
Abbreviation prompt_in := (prompt (Stream := Stream) (TInfo := TInfo) (TPush := TPush) (Err := Err) (FSet := FSet)).
Abbreviation run steps n :=
  (node_run (ConnectionDenied := ConnectionDenied) (Err := Err) (steps : list Input) (n : Nd)).

(** C30: a periodic identification works end to end.  Node A has a connection to node B
    ([connA], under B's peer id) and B has its end of it ([connB], under A's peer id), both
    idle; B was created with the info [i], and both use the JSON codec.  When the timer of A's
    handler fires it asks for a stream.  B's handler writes to its fresh end of the stream; if
    that write returns [Ok] and A's end delivers what B's end has accepted, then its end,
    within [SIZE_MAXIMUM] bytes, and both handlers are polled before the timeout, then polling
    the behaviours until their queues are empty gives A's owner, after what was queued for it,
    [Received] with B's peer id and [i], and B's owner [Sent] with A's peer id; A's handler
    has recorded [i]. *)
Theorem identify_exchange inputs c i peerA peerB connA connB cnA cnB (streamA streamB streamB' : Stream)
    (cx1 cx2 cx3 : Ctx) (d1 d2 d3 : Delay) choiceA choiceB mA mB (nA : Nd) :
  let nB := (run inputs (new_node c i)).1.1 in
  idle_in (peerB, connA) cnA nA → idle_in (peerA, connB) cnB nB →
  delay_poll cx1 (trigger_next_identify (conn_handler cnA)) = (d1, Ready tt) →
  delay_poll cx2 (delay_reset (interval (conn_handler cnA)) d1) = (d2, Pending) →
  delay_poll cx3 (trigger_next_identify (conn_handler cnB)) = (d3, Pending) →
  prompt_in cx2 → prompt_in cx3 →
  written streamB = [] → json_write_info (SerdeError := SerdeError) streamB i = (streamB', Ready (Ok tt : outcome Err unit)) →
  delivers streamA (written streamB') Eof → (N.of_nat (length (written streamB')) ≤ SIZE_MAXIMUM)%N →
  (length (pending_events (node_behaviour nA)) < mA)%nat →
  (length (pending_events (node_behaviour nB)) < mB)%nat →
  let '(nA', outsA, _) :=
    run (ask (peerB, connA) cx1 streamA cx2 ++ replicate mA (BehaviourPolled choiceA)) nA in
  let '(_, outsB, _) :=
    run (answer (peerA, connB) streamB cx3 ++ replicate mB (BehaviourPolled choiceB)) nB in
  (handler_poll cx1 (conn_handler cnA)).2 =
    Ready (OutboundSubstreamRequest (Left (protocol_name (conn_handler cnA)))) ∧
  outsA = waiting nA ++ [Received peerB i] ∧
  outsB = waiting nB ++ [Sent peerA] ∧
  ∃ cnA', connections nA' !! (peerB, connA) = Some cnA' ∧ remote_info (conn_handler cnA') = Some i.
Proof.
  intros nB HA HB Hd1 Hd2 Hd3 Hcx2 Hcx3 Hnew Hwrite Hdel Hlen HmA HmB.
  pose proof (written_read_back _ _ _ _ Hnew Hwrite Hdel Hlen
    : (json_read_info streamA : Poll (outcome Err TInfo)) = Ready (Ok i)) as Hread.
  assert (answers_with i nB) as [_ Hans] by apply reachable_answers.
  pose proof (Hans _ _ (proj1 HB)) as Hinfo.
  destruct (ask_once (ConnectionDenied := ConnectionDenied) (OtherEvent := OtherEvent) _ _ streamA i cx1 cx2 d1 d2 nA
    HA Hd1 Hd2 Hcx2 Hread) as [Hreq Hask].
  pose proof (answer_once (ConnectionDenied := ConnectionDenied) (OtherEvent := OtherEvent) _ _ streamB cx3 d3 nB
    HB Hd3 Hcx3) as Hanswer.
  rewrite Hinfo in Hanswer. specialize (Hanswer (f_equal snd Hwrite)).
  pose proof (hand_over (answer (peerA, connB) streamB cx3) (Sent peerA) choiceB mB nB Hanswer HmB) as HoverB.
  pose proof (hand_over (ConnectionDenied := ConnectionDenied) (Err := Err) (OtherEvent := OtherEvent)
    (ask (peerB, connA) cx1 streamA cx2 : list Input) (Received peerB i) choiceA mA nA) as HoverA.
  destruct (run (ask (peerB, connA) cx1 streamA cx2) nA) as [[nA1 outs1] reps1].
  destruct Hask as (Houts & Hpend & cn1 & Hkey1 & Hinfo1). specialize (HoverA (conj Houts Hpend) HmA).
  destruct (run (ask _ _ _ _ ++ _) nA) as [[nA' outsA] repsA].
  destruct (run (answer _ _ _ ++ _) nB) as [[nB' outsB] repsB].
  destruct HoverA as [-> Hconn], HoverB as [-> _]. split_and!; [done..|].
  destruct (Hconn _ _ Hkey1) as (cn' & Hkey' & Hh). exists cn'. by rewrite Hh.
Qed.
End exchange.

(** * Concrete nodes *)

#[global] Instance sample_listen_laws : AddressBookLaws (list N) N N N (N + N).
Proof.
  split; [|done]. intros event book book'. by destruct event as [| | |[]]; intros [= <-].
Qed.
#[global] Instance sample_external_laws : AddressBookLaws (gset N) N N N (N + N).
Proof.
  split; [|done]. intros event book book'.
  destruct event as [| | |[a|a]]; try (by intros [= <-]).
  intros [= <- Ha%bool_decide_eq_false%dec_stable]. simpl. apply set_eq. intros x.
  rewrite !elem_of_list_to_set, !elem_of_elements. set_solver.
Qed.
#[local] Instance node_iter : HashIter N := default_hash_iter N.

Lemma list_futures_prompt {Stream TInfo TPush Error} `{!Codec Stream TInfo TPush Error} :
  prompt (Stream := Stream) (TInfo := TInfo) (TPush := TPush) (Err := Error) (FSet := N * list (StreamTask Stream TInfo TPush)) tt.
Proof.
  intros [cap tasks] task r. simpl. intros ->. unfold task_completes. simpl. intros ->.
  destruct r; simpl; eauto.
Qed.

Abbreviation NodeHandler :=
  (Handler N (HandlerOutput string (HandlerEvent Byte.byte Byte.byte sample_upgrade_error))
    (N * list (StreamTask BufferStream Byte.byte Byte.byte)) N Byte.byte (list string) (gset N) string).
Abbreviation SampleConnection := (Connection NodeHandler (InEvent (gset N)) N).
Abbreviation SampleNode :=
  (Node SampleBehaviour SampleConnection (HandlerEvent Byte.byte Byte.byte sample_upgrade_error) N N).
Abbreviation SampleStep := (@node_input N N N (N + N) unit BufferStream (list string) unit).
Definition sample_run (inputs : list SampleStep) (i : Byte.byte) : SampleNode :=
  (node_run (ConnectionDenied := unit) (Err := SampleError) inputs (new_node sample_config i)).1.1.

(** Node A dials node B; B has already asked A once. *)
Definition node_a : SampleNode := sample_run [Established 2%N 20%N (Dialer 200%N)] Byte.x41.
Definition steps_b : list SampleStep :=
  [Established 1%N 10%N (Listener 100%N); HandlerPolled (1%N, 10%N) tt].
Definition node_b : SampleNode := sample_run steps_b Byte.x42.
Definition connection_a : SampleConnection :=
  mk_connection 200%N (new_handler (from_secs 300) 2%N ∅ Byte.x41 "/info" "/push") [].
Definition connection_b : SampleConnection :=
  mk_connection 100%N (set_trigger (from_secs 300)
    (new_handler (from_secs 300) 1%N ∅ Byte.x42 "/info" "/push")) [].

Lemma identify_exchange_witness :
  let '(nA', outsA, _) := node_run (ConnectionDenied := unit) (Err := SampleError)
    (ask (2%N, 20%N) tt (mk_buffer [Byte.x42] Eof []) tt ++ replicate 1 (BehaviourPolled (λ _, 0%N)) : list SampleStep)
    node_a in
  let '(_, outsB, _) := node_run (ConnectionDenied := unit) (Err := SampleError)
    (answer (1%N, 10%N) (mk_buffer [] Eof []) tt ++ replicate 1 (BehaviourPolled (λ _, 0%N)) : list SampleStep)
    node_b in
  (handler_poll tt (conn_handler connection_a)).2 = Ready (OutboundSubstreamRequest (Left "/info"%string)) ∧
  outsA = waiting node_a ++ [Received 2%N Byte.x42] ∧ outsB = waiting node_b ++ [Sent 1%N] ∧
  ∃ cnA', connections nA' !! (2%N, 20%N) = Some cnA' ∧ remote_info (conn_handler cnA') = Some Byte.x42.
Proof.
  refine (identify_exchange (ConnectionDenied := unit) steps_b sample_config Byte.x42 1%N 2%N 20%N 10%N
    connection_a connection_b (mk_buffer [Byte.x42] Eof []) (mk_buffer [] Eof []) (mk_buffer [] Eof [Byte.x42])
    tt tt tt 0%N (from_secs 300) (from_secs 300) (λ _, 0%N) (λ _, 0%N) 1 1 node_a
    _ _ _ _ _ _ _ _ _ _ _ _ _).
  - split_and!; vm_compute; reflexivity.
  - split_and!; vm_compute; reflexivity.
  - vm_compute. reflexivity.
  - vm_compute. reflexivity.
  - vm_compute. reflexivity.
  - apply list_futures_prompt.
  - apply list_futures_prompt.
  - vm_compute. reflexivity.
  - vm_compute. reflexivity.
  - split; vm_compute; reflexivity.
  - vm_compute. discriminate.
  - vm_compute. lia.
  - vm_compute. lia.
Defined.

(** Node B learns a listen address; the notice is in the mailbox of its connection, and
    a push is still queued. *)
Definition steps_listening : list SampleStep :=
  steps_b ++ [OtherReported (inl 7%N); BehaviourPolled (λ _, 0%N)].
Definition connection_listening : SampleConnection :=
  post (AddressesChanged {[7%N]}) connection_b.

Lemma handlers_learn_addresses_witness :
  let n := sample_run steps_listening Byte.x42 in
  delivered (pending_events (node_behaviour n)) (1%N, 10%N) (known connection_listening) = {[7%N]} ∧
  (pending_events (node_behaviour n) = [] → conn_inbox connection_listening = [] →
     handler_external_addresses (conn_handler connection_listening) = {[7%N]}) ∧
  ((length (pending_events (node_behaviour n)) + length (conn_inbox connection_listening) ≤ 2)%nat →
     let n' := (node_run (ConnectionDenied := unit) (Err := SampleError)
       (replicate 2 (BehaviourPolled (λ _, 10%N)) ++ replicate 2 (NoticeTaken (1%N, 10%N)) : list SampleStep) n).1.1 in
     all_addresses (node_behaviour n') = {[7%N]} ∧
     ∃ cn', connections n' !! (1%N, 10%N) = Some cn' ∧
       handler_external_addresses (conn_handler cn') = {[7%N]}).
Proof.
  refine (handlers_learn_addresses (ConnectionDenied := unit) (Err := SampleError) steps_listening sample_config
    Byte.x42 (1%N, 10%N) connection_listening (λ _, 10%N) 2 _).
  vm_compute. reflexivity.
Defined.

(** Node A asks, reads the answer and hands it to its owner. *)
Definition steps_a : list SampleStep :=
  [Established 2%N 20%N (Dialer 200%N)] ++ ask (2%N, 20%N) tt (mk_buffer [Byte.x42] Eof []) tt ++
  [BehaviourPolled (λ _, 0%N)].

Lemma received_has_source_witness :
  ∃ inputs1 conn cx inputs2 (cn : SampleConnection),
    steps_a = inputs1 ++ HandlerPolled (2%N, conn) cx :: inputs2 ∧
    connections (node_run (ConnectionDenied := unit) (Err := SampleError) inputs1
      (new_node sample_config Byte.x41)).1.1 !! (2%N, conn) = Some cn ∧
    info_source (conn_handler cn) Byte.x42.
Proof.
  refine (received_has_source (ConnectionDenied := unit) (Err := SampleError) steps_a sample_config Byte.x41 2%N Byte.x42 _).
  vm_compute. left.
Defined.
