(* ===== verification/SyncExtra.v ===== *)
(** SyncExtra: the crate [util/sync-extra] ([src/lib.rs]), and the locks and reference
    counted cells of the standard library that it and its client use.

    A lock is its value and the poison flag.  A guard gives the value and, when it is a
    write guard, the lock with another value.  Waiting for a lock is not modelled:
    the operations that take locks hold them only for one read or one assignment. *)
From S2P Require Import Prelude.

(** [std::sync::Mutex] and [std::sync::RwLock]. *)
Record Mutex (T : Type) : Type := mk_mutex { mutex_poisoned : bool; mutex_value : T }.
Record RwLock (T : Type) : Type := mk_rwlock { rwlock_poisoned : bool; rwlock_value : T }.
Arguments mk_mutex {T} _ _.
Arguments mutex_poisoned {T} _.
Arguments mutex_value {T} _.
Arguments mk_rwlock {T} _ _.
Arguments rwlock_poisoned {T} _.
Arguments rwlock_value {T} _.

(** A write guard on a place of type [L] that holds a [T]. *)
Record Guard (L T : Type) : Type := mk_guard { guard_value : T; guard_set : T → L }.
Arguments mk_guard {L T} _ _.
Arguments guard_value {L T} _.
Arguments guard_set {L T} _ _.

(** [Mutex::new], [RwLock::new]. *)
Definition mutex_new {T} (x : T) : Mutex T := mk_mutex false x.
Definition rwlock_new {T} (x : T) : RwLock T := mk_rwlock false x.

(** [Mutex::lock], [RwLock::read], [RwLock::write]: an error when the lock is
    poisoned. *)
Definition mutex_lock {T} (m : Mutex T) : outcome unit (Guard (Mutex T) T) :=
  if mutex_poisoned m then Err tt else Ok (mk_guard (mutex_value m) (mk_mutex (mutex_poisoned m))).
Definition rwlock_read {T} (l : RwLock T) : outcome unit T :=
  if rwlock_poisoned l then Err tt else Ok (rwlock_value l).
Definition rwlock_write {T} (l : RwLock T) : outcome unit (Guard (RwLock T) T) :=
  if rwlock_poisoned l then Err tt else Ok (mk_guard (rwlock_value l) (mk_rwlock (rwlock_poisoned l))).

(** [Result::expect]. *)
Definition expect {E E' A} (r : outcome E A) : outcome E' A :=
  match r with Ok a => Ok a | Err _ => Panicked | Panicked => Panicked | OutOfFuel => OutOfFuel end.

(** [MutexExtra::lock_unwrap]. *)
Definition lock_unwrap {E T} (m : Mutex T) : outcome E (Guard (Mutex T) T) := expect (mutex_lock m).

(** [RwLockExtra::read_unwrap]. *)
Definition read_unwrap {E T} (l : RwLock T) : outcome E T := expect (rwlock_read l).

(** [RwLockExtra::write_unwrap]. *)
Definition write_unwrap {E T} (l : RwLock T) : outcome E (Guard (RwLock T) T) := expect (rwlock_write l).

(** The traits. *)
Class MutexExtra (M : Type → Type) : Type := {
  trait_lock_unwrap : ∀ {E T}, M T → outcome E (Guard (M T) T)
}.
Class RwLockExtra (L : Type → Type) : Type := {
  trait_read_unwrap : ∀ {E T}, L T → outcome E T;
  trait_write_unwrap : ∀ {E T}, L T → outcome E (Guard (L T) T)
}.
#[global] Instance mutex_extra : MutexExtra Mutex := {| trait_lock_unwrap := @lock_unwrap |}.
#[global] Instance rwlock_extra : RwLockExtra RwLock := {|
  trait_read_unwrap := @read_unwrap;
  trait_write_unwrap := @write_unwrap
|}.

(** * Shared cells *)

(** [std::sync::Arc]: a reference to a cell of a store; a clone is the same reference. *)
Definition Arc : Type := N.

(** [Arc::new]. *)
Definition arc_new {T} (x : T) (cells : gmap Arc T) : gmap Arc T * Arc :=
  let a := fresh (dom cells) in (<[a := x]> cells, a).

(** [*arc]: a reference that is held is never dangling. *)
Definition arc_deref {E T} (a : Arc) (cells : gmap Arc T) : outcome E T :=
  match cells !! a with Some x => Ok x | None => Panicked end.

(** [self.cell.read_unwrap().clone()]. *)
Definition arc_read {E T} (a : Arc) (cells : gmap Arc (RwLock T)) : outcome E T :=
  l ← arc_deref a cells; read_unwrap l.

(** An assignment through [self.cell.write_unwrap()]. *)
Definition arc_write {E T} (a : Arc) (f : T → T) : stateful (gmap Arc (RwLock T)) E unit := λ cells,
  match (l ← arc_deref a cells; write_unwrap l) with
  | Ok g => (<[a := guard_set g (f (guard_value g))]> cells, Ok tt)
  | Err e => (cells, Err e)
  | Panicked => (cells, Panicked)
  | OutOfFuel => (cells, OutOfFuel)
  end.

(** A cell that can be locked, with its value. *)
Definition holds {T} (cells : gmap Arc (RwLock T)) (a : Arc) (x : T) : Prop :=
  cells !! a = Some (mk_rwlock false x).

Lemma arc_read_holds {E T} a (cells : gmap Arc (RwLock T)) x :
  holds cells a x → arc_read a cells = Ok x :> outcome E T.
Proof. intros Hx. unfold arc_read, arc_deref. by rewrite Hx. Qed.

Lemma arc_write_holds {E T} a f (cells : gmap Arc (RwLock T)) x :
  holds cells a x →
  arc_write (E := E) a f cells = (<[a := mk_rwlock false (f x)]> cells, Ok tt).
Proof. intros Hx. unfold arc_write, arc_deref. by rewrite Hx. Qed.

Lemma arc_new_holds {T} (x : T) (cells : gmap Arc (RwLock T)) :
  let '(cells', a) := arc_new (rwlock_new x) cells in
  holds cells' a x ∧ cells !! a = None ∧ ∀ a' y, holds cells a' y → holds cells' a' y.
Proof.
  simpl. assert (cells !! fresh (dom cells) = None) as Hf by apply not_elem_of_dom, is_fresh.
  split_and!; [by apply lookup_insert_eq|done|].
  intros a' y Hy. unfold holds in *. rewrite lookup_insert_ne; [done|congruence].
Qed.
