(* ===== verification/Service.v ===== *)
(** Service: the traits of the network layer, [blocknet/src/service.rs].

    Associated types are parameters of the classes.  A future is polled once and gives
    [Poll] of its outcome, a stream is a value of the type family [Stream]; a
    receiver [&mut self] is threaded. *)
From S2P Require Import Prelude.

(** [trait Service]: calls that return a plain value have no error. *)
Class Service (S PeerId PeerInfo : Type) : Type := {
  local_info : S → outcome Empty_set PeerInfo;
  set_local_info : PeerInfo → stateful S Empty_set unit;
  peers : S → outcome Empty_set (list (PeerId * PeerInfo))
}.

(** [trait Event]. *)
Class EventT (E Origin Value : Type) : Type := {
  origin : E → Origin;
  value : E → Value;
  into_value : E → Value
}.

(** [trait Message]. *)
Class Message (Msg Topic : Type) : Type := topic : Msg → Topic.

(** [trait BroadcastService]. *)
Class BroadcastService (S PeerId PeerInfo Error Msg Topic Ev : Type) (Stream : Type → Type)
    `{Service S PeerId PeerInfo, Message Msg Topic, EventT Ev PeerId Msg} : Type := {
  broadcast_listen : Topic → S → S * Stream (outcome Error Ev);
  broadcast : Msg → S → S * Poll (outcome Error unit)
}.

(** [trait NotifyService]. *)
Class NotifyService (S PeerId PeerInfo Error Not Ev : Type) (Stream : Type → Type)
    `{Service S PeerId PeerInfo, EventT Ev PeerId Not} : Type := {
  notify_listen : S → S * Stream (outcome Error Ev);
  notify : PeerId → Not → S → S * Poll (outcome Error unit)
}.

(** [trait RequestService]; [Response] is [Request::Response]. *)
Class RequestService (S PeerId PeerInfo Error Req Response Ev Channel : Type)
    `{Service S PeerId PeerInfo, EventT Ev PeerId Req} : Type := {
  request_listen : S → S * Poll (outcome Error (Channel * Ev));
  request : PeerId → Req → S → S * Poll (outcome Error Response);
  respond : Channel → Response → S → S * Poll (outcome Error unit)
}.
