(* ===== verification/Worker.v ===== *)
(** Worker: the network node, [blocknet/src/libp2p/mod.rs]: the worker that owns the
    swarm, and the service handles that talk to it.

    The libp2p swarm with its behaviours, gossipsub, and the channels of the futures
    crate are parameters; the laws used are in [ChannelLaws] and [NodeLaws].  [select!]
    is modelled by letting the caller of [step] choose the branch that is ready; a
    [send] that has to wait leaves [step] pending. *)
From S2P Require Import Prelude PeerInfoProtocol PeerInfoHandler PeerInfoBehaviour SyncExtra Service.

(** * The libraries *)

(** [futures::channel::mpsc]: channels of items [T], kept in a state [Ch]. *)
Class Channel (Ch Sender Receiver T SendError : Type) : Type := {
  channel : N → Ch → Ch * (Sender * Receiver);
  sender_clone : Sender → Ch → Ch * Sender;
  is_closed : Sender → Ch → bool;
  send : T → Sender → Ch → Ch * Poll (result SendError unit);
  next : Receiver → Ch → Ch * Poll (option T)
}.

(** Documented: sending to a closed channel fails and has no effect. *)
Class ChannelLaws (Ch Sender Receiver T SendError : Type) `{Channel Ch Sender Receiver T SendError} : Type := {
  send_closed : ∀ (x : T) s ch, is_closed s ch = true → ∃ e, send x s ch = (ch, Ready (RErr e))
}.

(** [libp2p::gossipsub]; [topic_hash] is [IdentTopic::new(topic).hash()]. *)
Class GossipsubLib (G Key TopicHash PublishError SubscriptionError BoxError : Type) : Type := {
  gossipsub_new : Key → result BoxError G;
  topic_hash : string → TopicHash;
  publish : TopicHash → bytes → G → G * result PublishError unit;
  subscribe : TopicHash → G → G * result SubscriptionError bool
}.

(** The other behaviours, and the swarm builder; [with_behaviour] stands for the call of
    that name and the final [build]. *)
Class NodeLib (Builder Key PubKey PeerId StreamProtocol Kad Identify Mdns ReqResp NB Swarm NoiseError BehaviourError BoxError : Type) : Type := {
  with_tcp : Builder → result NoiseError Builder;
  with_quic : Builder → Builder;
  with_behaviour : (Key → result BoxError NB) → Builder → result BehaviourError Swarm;
  box_error : BehaviourError → BoxError;
  public : Key → PubKey;
  from_public_key : PubKey → PeerId;
  kademlia_new : PeerId → Kad;
  identify_new : string → PubKey → Identify;
  mdns_new : PeerId → result BoxError Mdns;
  stream_protocol : string → StreamProtocol;
  request_response_new : StreamProtocol → ReqResp;
  behaviour : Swarm → NB;
  behaviour_mut : NB → Swarm → Swarm
}.

(** Documented: the builder runs the closure on its key and keeps the behaviour, which
    [behaviour_mut] gives access to. *)
Class NodeLaws (Builder Key PubKey PeerId StreamProtocol Kad Identify Mdns ReqResp NB Swarm NoiseError BehaviourError BoxError : Type)
    `{NodeLib Builder Key PubKey PeerId StreamProtocol Kad Identify Mdns ReqResp NB Swarm NoiseError BehaviourError BoxError} : Type := {
  builder_key : Builder → Key;
  with_behaviour_ok : ∀ f b swarm,
    with_behaviour f b = ROk swarm → f (builder_key b) = ROk (behaviour swarm);
  behaviour_of_mut : ∀ nb swarm, behaviour (behaviour_mut nb swarm) = nb
}.

(** * Data *)

(** [MESSAGE_CHANNEL_BUFFER_SIZE] and [ACTION_CHANNEL_BUFFER_SIZE]. *)
Definition MESSAGE_CHANNEL_BUFFER_SIZE : N := 16.
Definition ACTION_CHANNEL_BUFFER_SIZE : N := 64.

(** [struct AnyRequest], [struct AnyResponse], [struct AnyMessage]. *)
Record AnyRequest : Type := mk_request { request_protocol_id : string; request_serialized : bytes }.
Record AnyResponse : Type := mk_response { response_protocol_id : string; response_serialized : bytes }.
Record AnyMessage : Type := mk_message { message_topic : string; serialized : bytes }.

(** [enum ActionItem]. *)
Inductive ActionItem (Sender : Type) : Type :=
| BroadcastSend (message : AnyMessage)
| BroadcastListen (sender : Sender) (topic : string).
Arguments BroadcastSend {_} message.
Arguments BroadcastListen {_} sender topic.

(** [enum Error]. *)
Inductive NodeError (SendError SubscriptionError PublishError NoiseError BoxError : Type) : Type :=
| CodecFailed (msg : string)
| ChannelSend (e : SendError)
| GossipsubSubscription (e : SubscriptionError)
| GossipsubPublish (e : PublishError)
| Noise (e : NoiseError)
| Build (e : BoxError)
| UnknownOriginBroadcast (message : AnyMessage).
Arguments CodecFailed {_ _ _ _ _} msg.
Arguments ChannelSend {_ _ _ _ _} e.
Arguments GossipsubSubscription {_ _ _ _ _} e.
Arguments GossipsubPublish {_ _ _ _ _} e.
Arguments Noise {_ _ _ _ _} e.
Arguments Build {_ _ _ _ _} e.
Arguments UnknownOriginBroadcast {_ _ _ _ _} message.

(** [struct PeerFullInfo] and its [Info] implementation. *)
Record PeerFullInfo (PeerInfo : Type) : Type := mk_full_info { info : PeerInfo }.
Arguments mk_full_info {_} info.
Arguments info {_} _.
#[global] Instance full_info {PeerInfo} : Info (PeerFullInfo PeerInfo) (PeerFullInfo PeerInfo) := {|
  into_push i := i;
  merge _ push := push
|}.

(** [struct Behaviour]. *)
Record NodeBehaviour (G Kad Identify PeerInfoBehaviour Mdns ReqResp : Type) : Type := mk_node_behaviour {
  gossipsub : G;
  kademlia : Kad;
  identify : Identify;
  peer_info : PeerInfoBehaviour;
  mdns : Mdns;
  request_response : ReqResp
}.
Arguments mk_node_behaviour {_ _ _ _ _ _} _ _ _ _ _ _.
Arguments gossipsub {_ _ _ _ _ _} _.
Arguments kademlia {_ _ _ _ _ _} _.
Arguments identify {_ _ _ _ _ _} _.
Arguments peer_info {_ _ _ _ _ _} _.
Arguments mdns {_ _ _ _ _ _} _.
Arguments request_response {_ _ _ _ _ _} _.

(** [gossipsub::Message]: the fields that are read. *)
Record GossipMessage (PeerId TopicHash : Type) : Type := mk_gossip {
  source : option PeerId;
  data : bytes;
  gossip_topic : TopicHash
}.
Arguments mk_gossip {_ _} _ _ _.
Arguments source {_ _} _.
Arguments data {_ _} _.
Arguments gossip_topic {_ _} _.

(** [SwarmEvent]: the arms of the [match] in [step]. *)
Inductive WorkerEvent (PeerId TopicHash : Type) : Type :=
| GossipsubMessage (message : GossipMessage PeerId TopicHash)
| OtherWorkerEvent.
Arguments GossipsubMessage {_ _} message.
Arguments OtherWorkerEvent {_ _}.

(** [struct Worker]. *)
Record Worker (Swarm TopicHash Sender ActionSender ActionReceiver : Type) `{Countable TopicHash} : Type := mk_worker {
  swarm : Swarm;
  worker_peers : Arc;
  worker_local_info : Arc;
  broadcast_listen_senders : gmap TopicHash (string * list Sender);
  action_receiver : ActionReceiver;
  action_sender : ActionSender
}.
Arguments mk_worker {_ _ _ _ _ _ _} _ _ _ _ _ _.
Arguments swarm {_ _ _ _ _ _ _} _.
Arguments worker_peers {_ _ _ _ _ _ _} _.
Arguments worker_local_info {_ _ _ _ _ _ _} _.
Arguments broadcast_listen_senders {_ _ _ _ _ _ _} _.
Arguments action_receiver {_ _ _ _ _ _ _} _.
Arguments action_sender {_ _ _ _ _ _ _} _.

(** [struct Service]. *)
Record ServiceHandle (ActionSender : Type) : Type := mk_service {
  service_peers : Arc;
  service_local_info : Arc;
  service_action_sender : ActionSender
}.
Arguments mk_service {_} _ _ _.
Arguments service_peers {_} _.
Arguments service_local_info {_} _.
Arguments service_action_sender {_} _.

(** [struct Event] and its [EventT] implementation. *)
Record NodeEvent (PeerId Value : Type) : Type := mk_event { event_origin : PeerId; event_value : Value }.
Arguments mk_event {_ _} _ _.
Arguments event_origin {_ _} _.
Arguments event_value {_ _} _.
#[global] Instance node_event {PeerId Value} : EventT (NodeEvent PeerId Value) PeerId Value := {|
  origin e := event_origin e;
  value e := event_value e;
  into_value e := event_value e
|}.

(** The cells the worker and its services share. *)
Record Store (PeerId PeerInfo : Type) `{Countable PeerId} : Type := mk_store {
  peers_cells : gmap Arc (RwLock (gmap PeerId (PeerFullInfo PeerInfo)));
  info_cells : gmap Arc (RwLock (PeerFullInfo PeerInfo))
}.
Arguments mk_store {_ _ _ _} _ _.
Arguments peers_cells {_ _ _ _} _.
Arguments info_cells {_ _ _ _} _.

Section worker.
Context {PeerId ConnectionId Multiaddr TopicHash PeerInfo : Type}.
Context `{Countable PeerId, Countable ConnectionId, Countable Multiaddr, Countable TopicHash}.
Context {Builder Key PubKey StreamProtocol G Kad Identify Mdns ReqResp Swarm : Type}.
Context {SendError SubscriptionError PublishError NoiseError BehaviourError BoxError SUError : Type}.
Context {Listen External OtherEvent : Type}.
Context {Sender Receiver MCh ASender AReceiver ACh : Type}.
Abbreviation SwarmEvent := (FromSwarm PeerId ConnectionId Multiaddr OtherEvent).
Context `{!AddressBook Listen SwarmEvent Multiaddr, !AddressBook External SwarmEvent Multiaddr}.
Abbreviation Full := (PeerFullInfo PeerInfo).
Abbreviation PeerInfoBehaviour := (Behaviour (Config PubKey StreamProtocol) PeerId ConnectionId Multiaddr
  Listen External Full (ToSwarm PeerId ConnectionId (Event PeerId Full Full SUError) (gset Multiaddr))).
Abbreviation NB := (NodeBehaviour G Kad Identify PeerInfoBehaviour Mdns ReqResp).
Context `{!GossipsubLib G Key TopicHash PublishError SubscriptionError BoxError}.
Context `{!NodeLib Builder Key PubKey PeerId StreamProtocol Kad Identify Mdns ReqResp NB Swarm NoiseError BehaviourError BoxError}.
Abbreviation Err' := (NodeError SendError SubscriptionError PublishError NoiseError BoxError).
Abbreviation Item := (result Err' (PeerId * AnyMessage)).
Abbreviation Action := (ActionItem Sender).
Context `{!Channel MCh Sender Receiver Item SendError, !Channel ACh ASender AReceiver Action SendError}.
Abbreviation W := (Worker Swarm TopicHash Sender ASender AReceiver).
Abbreviation St := (Store PeerId PeerInfo).
Implicit Types (w : W).

(** * The worker *)

(** The closure of [with_behaviour] in [Worker::new]. *)
Definition build_behaviour (local_info : PeerInfo) (key : Key) : result BoxError NB :=
  let peer_id := from_public_key (public key) in
  match gossipsub_new key with
  | RErr e => RErr e
  | ROk gossipsub =>
    let kademlia := kademlia_new peer_id in
    let identify := identify_new "/blocknet/v0.1" (public key) in
    let peer_info := new_behaviour
      (new_config "/blocknet/v0.1" (public key) (stream_protocol "/blocknet/peer_info/v0.1")
        (stream_protocol "/blocknet/peer_info/push/v0.1"))
      (mk_full_info local_info) in
    match mdns_new peer_id with
    | RErr e => RErr e
    | ROk mdns =>
      let request_response := request_response_new (stream_protocol "/blocknet/request_response/v0.1") in
      ROk (mk_node_behaviour gossipsub kademlia identify peer_info mdns request_response)
    end
  end.

(** The swarm of [Worker::new]. *)
Definition build_swarm (builder : Builder) (local_info : PeerInfo) : outcome Err' Swarm :=
  b ← map_err Noise (returned (with_tcp builder));
  map_err (λ e, Build (box_error e)) (returned (with_behaviour (build_behaviour local_info) (with_quic b))).

(** [Worker::new]; [builder] is [SwarmBuilder::with_new_identity().with_tokio()]. *)
Definition new_worker (builder : Builder) (local_info : PeerInfo) : stateful (St * ACh) Err' W := λ '(st, ach),
  match build_swarm builder local_info with
  | Ok swarm =>
    let '(ach, (action_sender, action_receiver)) := channel ACTION_CHANNEL_BUFFER_SIZE ach in
    let '(peers_cells, peers) := arc_new (rwlock_new ∅) (peers_cells st) in
    let '(info_cells, info) := arc_new (rwlock_new (mk_full_info local_info)) (info_cells st) in
    ((mk_store peers_cells info_cells, ach),
     Ok (mk_worker swarm peers info ∅ action_receiver action_sender))
  | Err e => ((st, ach), Err e)
  | Panicked => ((st, ach), Panicked)
  | OutOfFuel => ((st, ach), OutOfFuel)
  end.

(** [Worker::service]. *)
Definition service w (ach : ACh) : ACh * ServiceHandle ASender :=
  let '(ach, sender) := sender_clone (action_sender w) ach in
  (ach, mk_service (worker_peers w) (worker_local_info w) sender).

(** Assignments to the fields of the worker. *)
Definition set_swarm (s : Swarm) w : W :=
  mk_worker s (worker_peers w) (worker_local_info w) (broadcast_listen_senders w)
    (action_receiver w) (action_sender w).
Definition set_senders (m : gmap TopicHash (string * list Sender)) w : W :=
  mk_worker (swarm w) (worker_peers w) (worker_local_info w) m (action_receiver w) (action_sender w).

(** [self.swarm.behaviour_mut().gossipsub] as the receiver of a call. *)
Definition on_gossipsub {A} (f : G → G * A) w : W * A :=
  let nb := behaviour (swarm w) in
  let '(g, a) := f (gossipsub nb) in
  (set_swarm (behaviour_mut (mk_node_behaviour g (kademlia nb) (identify nb) (peer_info nb)
     (mdns nb) (request_response nb)) (swarm w)) w, a).

(** The [match action] of [step]. *)
Definition handle_action (action : Action) : stateful W Err' unit := λ w,
  match action with
  | BroadcastSend message =>
    let topic := topic_hash (message_topic message) in
    match on_gossipsub (publish topic (serialized message)) w with
    | (w, RErr e) => (w, Err (GossipsubPublish e))
    | (w, ROk _) => (w, Ok tt)
    end
  | BroadcastListen sender topic =>
    let ident_topic := topic_hash topic in
    match on_gossipsub (subscribe ident_topic) w with
    | (w, RErr e) => (w, Err (GossipsubSubscription e))
    | (w, ROk _) =>
      let entry := default (topic, []) (broadcast_listen_senders w !! ident_topic) in
      (set_senders (<[ident_topic := (entry.1, entry.2 ++ [sender])]> (broadcast_listen_senders w)) w, Ok tt)
    end
  end.

(** The [for sender in &mut entry.1] loops of [step]. *)
Fixpoint send_all (item : Item) (senders : list Sender) (ch : MCh) : MCh * Poll (outcome Err' unit) :=
  match senders with
  | [] => (ch, Ready (Ok tt))
  | sender :: senders =>
    match send item sender ch with
    | (ch, Ready (ROk _)) => send_all item senders ch
    | (ch, Ready (RErr e)) => (ch, Ready (Err (ChannelSend e)))
    | (ch, Pending) => (ch, Pending)
    end
  end.

(** The arm for a gossipsub message in [step]. *)
Definition handle_message (message : GossipMessage PeerId TopicHash) w (ch : MCh) :
    W * MCh * Poll (outcome Err' unit) :=
  match broadcast_listen_senders w !! gossip_topic message with
  | None => (w, ch, Ready (Ok tt))
  | Some (topic, senders) =>
    let senders := filter (λ sender, is_closed sender ch = true) senders in
    let w := set_senders (<[gossip_topic message := (topic, senders)]> (broadcast_listen_senders w)) w in
    let any_message := mk_message topic (data message) in
    let item := match source message with
                | Some source => ROk (source, any_message)
                | None => RErr (UnknownOriginBroadcast any_message)
                end in
    let '(ch, r) := send_all item senders ch in (w, ch, r)
  end.

(** A worker with the channels it shares with others. *)
Record World : Type := mk_world { worker : W; actions : ACh; messages : MCh }.

(** The branch of [select!] that is ready. *)
Inductive Branch : Type :=
| ActionBranch
| SwarmBranch (swarm : Swarm) (event : WorkerEvent PeerId TopicHash).

(** [Worker::step]. *)
Definition step (branch : Branch) (s : World) : World * Poll (outcome Err' unit) :=
  match branch with
  | ActionBranch =>
    match next (action_receiver (worker s)) (actions s) with
    | (ach, Ready (Some action)) =>
      let '(w, r) := handle_action action (worker s) in (mk_world w ach (messages s), Ready r)
    | (ach, _) => (mk_world (worker s) ach (messages s), Pending)
    end
  | SwarmBranch swarm event =>
    let w := set_swarm swarm (worker s) in
    match event with
    | GossipsubMessage message =>
      let '(w, mch, r) := handle_message message w (messages s) in (mk_world w (actions s) mch, r)
    | OtherWorkerEvent => (mk_world w (actions s) (messages s), Ready (Ok tt))
    end
  end.

(** [Worker::run], for the branches that become ready one after the other; [Pending] when
    it waits for more. *)
Fixpoint run (branches : list Branch) (s : World) : World * Poll (outcome Err' Empty_set) :=
  match branches with
  | [] => (s, Pending)
  | branch :: branches =>
    match step branch s with
    | (s, Ready (Ok _)) => run branches s
    | (s, Ready (Err err)) => (s, Ready (Err err))
    | (s, Ready Panicked) => (s, Ready Panicked)
    | (s, Ready OutOfFuel) => (s, Ready OutOfFuel)
    | (s, Pending) => (s, Pending)
    end
  end.

(** * The service *)
Context `{!HashIter PeerId}.

(** [Service::local_info]. *)
Definition get_local_info (h : ServiceHandle ASender) (st : St) : outcome Empty_set PeerInfo :=
  info <$> arc_read (service_local_info h) (info_cells st).

(** [Service::set_local_info]. *)
Definition put_local_info (h : ServiceHandle ASender) (i : PeerInfo) : stateful St Empty_set unit :=
  zoom info_cells (λ cells st, mk_store (peers_cells st) cells) id
    (arc_write (service_local_info h) (λ _, mk_full_info i)).

(** [Service::peers]. *)
Definition get_peers (h : ServiceHandle ASender) (st : St) : outcome Empty_set (list (PeerId * PeerInfo)) :=
  (λ m, prod_map id info <$> hash_iter m) <$> arc_read (service_peers h) (peers_cells st).

(** [impl ServiceT for Service], a handle together with the cells it refers to. *)
#[global] Instance service_instance : Service (ServiceHandle ASender * St) PeerId PeerInfo := {|
  local_info '(h, st) := get_local_info h st;
  set_local_info i '(h, st) := let '(st, r) := put_local_info h i st in ((h, st), r);
  peers '(h, st) := get_peers h st
|}.

(** [Event] and [AnyMessage] of a message type. *)
Context {Msg Topic SerdeError : Type}.
Context `{!Message Msg Topic, !SerdeJson SerdeError Msg, !DebugFmt SerdeError}.
Context (topic_into : Topic → string).
Abbreviation Ev := (NodeEvent PeerId Msg).

(** [serde_json::to_vec(..).map_err(..)] and [from_slice(..).map_err(..)]. *)
Definition node_codec_error (e : SerdeError) : Err' := CodecFailed (debug_fmt e).

(** The [and_then] closure of [listen], on one item of the channel. *)
Definition listen_item (item : Item) : outcome Err' Ev :=
  '(origin, msg) ← returned item;
  value ← map_err node_codec_error (from_slice (serialized msg));
  Ok (mk_event origin value).

(** [self.action_sender.send(action).await?]. *)
Definition send_action (h : ServiceHandle ASender) (action : Action) (ach : ACh) : ACh * Poll (outcome Err' unit) :=
  let '(ach, r) := send action (service_action_sender h) ach in
  (ach, (λ r, map_err ChannelSend (returned r)) <$> r).

(** [BroadcastServiceT::listen]: the receiver whose items the stream maps with
    [listen_item], or the error the stream yields instead. *)
Definition listen (h : ServiceHandle ASender) (topic : Topic) (ach : ACh) (mch : MCh) :
    ACh * MCh * Poll (outcome Err' Receiver) :=
  let '(mch, (sender, receiver)) := channel MESSAGE_CHANNEL_BUFFER_SIZE mch in
  let '(ach, r) := send_action h (BroadcastListen sender (topic_into topic)) ach in
  (ach, mch, (λ r, r ≫= λ _, Ok receiver) <$> r).

(** The item [broadcast] sends to the worker. *)
Definition broadcast_item (message : Msg) : outcome Err' Action :=
  data ← map_err node_codec_error (to_vec message);
  Ok (BroadcastSend (mk_message (topic_into (topic message)) data)).

(** [BroadcastServiceT::broadcast]. *)
Definition broadcast_message (h : ServiceHandle ASender) (message : Msg) (ach : ACh) :
    ACh * Poll (outcome Err' unit) :=
  match broadcast_item message with
  | Ok item => send_action h item ach
  | Err e => (ach, Ready (Err e))
  | Panicked => (ach, Ready Panicked)
  | OutOfFuel => (ach, Ready OutOfFuel)
  end.

(** * Messages and listeners *)
Context `{!ChannelLaws MCh Sender Receiver Item SendError}.
Implicit Types (s : World) (item : Item).

(** The senders of a topic whose receiver is gone. *)
Definition closed_senders (ch : MCh) (senders : list Sender) : list Sender :=
  filter (λ sender, is_closed sender ch = true) senders.

(** Sending to closed channels: nothing is delivered, and the first send fails. *)
Lemma send_all_closed item senders ch :
  let '(ch', r) := send_all item (closed_senders ch senders) ch in
  ch' = ch ∧
  if decide (closed_senders ch senders = []) then r = Ready (Ok tt)
  else ∃ e, r = Ready (Err (ChannelSend e)).
Proof.
  destruct (closed_senders ch senders) as [|sender rest] eqn:Hc; simpl; [done|].
  assert (sender ∈ closed_senders ch senders) as [Hs _]%list_elem_of_filter by (rewrite Hc; by left).
  destruct (send_closed item sender ch Hs) as [e ->]. eauto.
Qed.

Lemma handle_message_cases message w ch :
  let '(w', ch', r) := handle_message message w ch in
  ch' = ch ∧
  match broadcast_listen_senders w !! gossip_topic message with
  | None => w' = w ∧ r = Ready (Ok tt)
  | Some (topic, senders) =>
    w' = set_senders (<[gossip_topic message := (topic, closed_senders ch senders)]>
           (broadcast_listen_senders w)) w ∧
    if decide (closed_senders ch senders = []) then r = Ready (Ok tt)
    else ∃ e, r = Ready (Err (ChannelSend e))
  end.
Proof.
  unfold handle_message. destruct (broadcast_listen_senders w !! gossip_topic message) as [[topic senders]|]; [|done].
  fold (closed_senders ch senders).
  match goal with |- context [send_all ?item _ _] => pose proof (send_all_closed item senders ch) as Hs end.
  destruct (send_all _ _ _) as [ch' r]. by destruct Hs as [-> Hs].
Qed.

(** C24: what a gossip message does to the listeners of its topic: the senders that are
    kept are those whose listener is gone, every open one is dropped, no channel
    receives anything, and the step fails as soon as one listener of the topic is gone. *)
Theorem gossip_message_result (sw : Swarm) message s :
  let '(s', r) := step (SwarmBranch sw (GossipsubMessage message)) s in
  messages s' = messages s ∧
  match broadcast_listen_senders (worker s) !! gossip_topic message with
  | None => broadcast_listen_senders (worker s') = broadcast_listen_senders (worker s) ∧ r = Ready (Ok tt)
  | Some (topic, senders) =>
    broadcast_listen_senders (worker s') =
      <[gossip_topic message := (topic, closed_senders (messages s) senders)]> (broadcast_listen_senders (worker s)) ∧
    if decide (closed_senders (messages s) senders = []) then r = Ready (Ok tt)
    else ∃ e, r = Ready (Err (ChannelSend e))
  end.
Proof.
  unfold step. run_spec (handle_message_cases message (set_swarm sw (worker s)) (messages s))
    as [[w' ch'] r] in [-> Hm]. simpl in *.
  destruct (broadcast_listen_senders (worker s) !! gossip_topic message) as [[topic senders]|].
  - by destruct Hm as [-> Hm].
  - by destruct Hm as [-> ->].
Qed.

(** No step of the worker delivers anything to any listener: the message channels
    are exactly as they were, whichever branch is ready. *)
Theorem step_delivers_nothing branch s : messages (step branch s).1 = messages s.
Proof.
  destruct branch as [|sw [message|]]; simpl; [| |done].
  - destruct (next (action_receiver (worker s)) (actions s)) as [ach [[action|]|]]; try done.
    by destruct (handle_action action (worker s)).
  - by run_spec (handle_message_cases message (set_swarm sw (worker s)) (messages s))
      as [[w' ch'] r] in [-> _].
Qed.

(** C25: one listener that is gone ends the whole worker: when its topic gets a message,
    [run] returns [ChannelSend], whatever would have become ready later. *)
Theorem gone_listener_ends_run (sw : Swarm) message branches s topic senders sender :
  broadcast_listen_senders (worker s) !! gossip_topic message = Some (topic, senders) →
  sender ∈ senders → is_closed sender (messages s) = true →
  ∃ e, (run (SwarmBranch sw (GossipsubMessage message) :: branches) s).2 = Ready (Err (ChannelSend e)).
Proof.
  intros Ht Hs Hc. unfold run. unfold step at 1.
  run_spec (handle_message_cases message (set_swarm sw (worker s)) (messages s))
    as [[w' ch'] r] in [-> Hm]. simpl in Hm. rewrite Ht in Hm.
  rewrite decide_False in Hm.
  - destruct Hm as (_ & e & ->). by exists e.
  - intros He. apply (not_elem_of_nil sender). rewrite <-He. by apply list_elem_of_filter.
Qed.

(** * Registration *)

Lemma on_gossipsub_senders {A} (f : G → G * A) w w' a :
  on_gossipsub f w = (w', a) → broadcast_listen_senders w' = broadcast_listen_senders w.
Proof. unfold on_gossipsub. destruct (f _). by intros [= <- _]. Qed.

(** The requests to listen among the branches that are taken. *)
Definition listens (branch : Branch) s : list (string * Sender) :=
  match branch with
  | ActionBranch =>
    match next (action_receiver (worker s)) (actions s) with
    | (_, Ready (Some (BroadcastListen sender topic))) => [(topic, sender)]
    | _ => []
    end
  | SwarmBranch _ _ => []
  end.

(** The worlds reachable from a worker without listeners, with the requests to listen so
    far; between two steps other tasks may use the channels. *)
Inductive worker_reachable : list (string * Sender) → World → Prop :=
| worker_start s : broadcast_listen_senders (worker s) = ∅ → worker_reachable [] s
| worker_step branch log s :
  worker_reachable log s → worker_reachable (log ++ listens branch s) (step branch s).1
| worker_others log s ach mch :
  worker_reachable log s → worker_reachable log (mk_world (worker s) ach mch).

(** Every entry is stored under the hash of its topic and holds senders that asked for
    that topic. *)
Definition senders_by_topic (log : list (string * Sender)) (table : gmap TopicHash (string * list Sender)) : Prop :=
  ∀ h topic senders, table !! h = Some (topic, senders) →
    h = topic_hash topic ∧ ∀ sender, sender ∈ senders → (topic, sender) ∈ log.

Lemma senders_by_topic_weaken log log' table :
  log ⊆ log' → senders_by_topic log table → senders_by_topic log' table.
Proof. intros Hlog Ht h topic senders Hl. destruct (Ht _ _ _ Hl) as [-> Hs]. set_solver. Qed.

Lemma senders_by_topic_register log table sender topic :
  Inj (=) (=) (topic_hash : string → TopicHash) → senders_by_topic log table →
  let entry := default (topic, []) (table !! topic_hash topic) in
  senders_by_topic (log ++ [(topic, sender)])
    (<[topic_hash topic := (entry.1, entry.2 ++ [sender])]> table).
Proof.
  intros Hinj Ht entry h topic' senders. subst entry. rewrite lookup_insert_Some.
  intros [[<- Heq]|[_ Hl]]; [|destruct (Ht _ _ _ Hl) as [-> Hs]; set_solver].
  destruct (table !! topic_hash topic) as [[t ss]|] eqn:Hl; simpl in Heq; injection Heq as <- <-.
  - destruct (Ht _ _ _ Hl) as [Hh%Hinj Hs]. subst t. set_solver.
  - set_solver.
Qed.

Lemma senders_by_topic_retain log table h topic senders ch :
  table !! h = Some (topic, senders) → senders_by_topic log table →
  senders_by_topic log (<[h := (topic, closed_senders ch senders)]> table).
Proof.
  intros Hl Ht h' topic' senders'. rewrite lookup_insert_Some.
  intros [[<- [= <- <-]]|[_ Hl']]; [|by apply Ht]. destruct (Ht _ _ _ Hl) as [-> Hs]. split; [done|].
  intros sender [_ ?]%list_elem_of_filter. auto.
Qed.

(** C28: in every reachable world the table of listeners is keyed by topic: an entry is
    stored under the hash of its topic, and its senders were registered for that topic. *)
Theorem listeners_by_topic log s :
  Inj (=) (=) (topic_hash : string → TopicHash) → worker_reachable log s →
  senders_by_topic log (broadcast_listen_senders (worker s)).
Proof.
  intros Hinj. induction 1 as [s He|branch log s Hr IH|log s ach mch Hr IH]; [|
    destruct branch as [|sw [message|]]; simpl|done].
  - rewrite He. intros h topic senders. by rewrite lookup_empty.
  - destruct (next (action_receiver (worker s)) (actions s)) as [ach [[action|]|]]; simpl;
      [|by rewrite app_nil_r..].
    destruct action as [m|sender topic]; simpl.
    + rewrite app_nil_r. destruct (on_gossipsub _ (worker s)) as [w' [a|e]] eqn:Hg;
        apply on_gossipsub_senders in Hg; simpl; by rewrite Hg.
    + destruct (on_gossipsub _ (worker s)) as [w' [a|e]] eqn:Hg; apply on_gossipsub_senders in Hg; simpl; rewrite Hg.
      * by apply senders_by_topic_register.
      * eapply senders_by_topic_weaken; [|done]. set_solver.
  - rewrite app_nil_r.
    run_spec (handle_message_cases message (set_swarm sw (worker s)) (messages s))
      as [[w' ch'] r] in [-> Hm]. simpl in *.
    destruct (broadcast_listen_senders (worker s) !! gossip_topic message) as [[topic senders]|] eqn:Hl.
    + destruct Hm as [-> _]. simpl. by apply senders_by_topic_retain.
    + by destruct Hm as [-> _].
  - by rewrite app_nil_r.
Qed.

Context `{!NodeLaws Builder Key PubKey PeerId StreamProtocol Kad Identify Mdns ReqResp NB Swarm NoiseError BehaviourError BoxError}.

(** The gossipsub behaviour of the worker. *)
Definition worker_gossipsub w : G := gossipsub (behaviour (swarm w)).

Lemma on_gossipsub_result {A} (f : G → G * A) w :
  let '(w', a) := on_gossipsub f w in
  f (worker_gossipsub w) = (worker_gossipsub w', a) ∧
  peer_info (behaviour (swarm w')) = peer_info (behaviour (swarm w)) ∧
  broadcast_listen_senders w' = broadcast_listen_senders w.
Proof.
  unfold on_gossipsub, worker_gossipsub. destruct (f (gossipsub (behaviour (swarm w)))) as [g a]. simpl.
  by rewrite behaviour_of_mut.
Qed.

(** What a request of a service does: a broadcast is published under the hash of its
    topic; a listener is appended to the senders of its topic once the subscription
    succeeded; a failure of gossipsub is returned and registers nothing; the messages
    channels and the peer-info behaviour are left alone. *)
Theorem action_result (ach : ACh) (action : Action) s :
  next (action_receiver (worker s)) (actions s) = (ach, Ready (Some action)) →
  let '(s', r) := step ActionBranch s in
  let table := broadcast_listen_senders (worker s) in
  let table' := broadcast_listen_senders (worker s') in
  actions s' = ach ∧ messages s' = messages s ∧
  peer_info (behaviour (swarm (worker s'))) = peer_info (behaviour (swarm (worker s))) ∧
  match action with
  | BroadcastSend m =>
    table' = table ∧
    ∃ res, publish (topic_hash (message_topic m)) (serialized m) (worker_gossipsub (worker s)) =
             (worker_gossipsub (worker s'), res) ∧
           r = Ready (match res with ROk _ => Ok tt | RErr e => Err (GossipsubPublish e) end)
  | BroadcastListen sender topic =>
    ∃ res, subscribe (topic_hash topic) (worker_gossipsub (worker s)) =
             (worker_gossipsub (worker s'), res) ∧
      match res with
      | RErr e => table' = table ∧ r = Ready (Err (GossipsubSubscription e))
      | ROk _ =>
        r = Ready (Ok tt) ∧
        (∀ h, h ≠ topic_hash topic → table' !! h = table !! h) ∧
        table' !! topic_hash topic =
          Some (match table !! topic_hash topic with
                | Some (t, senders) => (t, senders ++ [sender])
                | None => (topic, [sender])
                end)
      end
  end.
Proof.
  intros Hn. simpl. rewrite Hn. destruct action as [m|sender topic]; simpl.
  - run_spec (on_gossipsub_result (publish (topic_hash (message_topic m)) (serialized m)) (worker s))
      as [w' [a|e]] in (Hg & Hp & Ht); simpl;
      (split_and!; [done..|]); by eexists.
  - run_spec (on_gossipsub_result (subscribe (topic_hash topic)) (worker s))
      as [w' [a|e]] in (Hg & Hp & Ht); simpl;
      (split_and!; [done..|]); [|by eexists]. exists (ROk a). split_and!; [done..| |].
    + intros h Hh. rewrite lookup_insert_ne by done. by rewrite Ht.
    + rewrite lookup_insert_eq, Ht.
      by destruct (broadcast_listen_senders (worker s) !! topic_hash topic) as [[]|].
Qed.

(** * Encoding of messages *)

(** * The shared info *)

(** [set_local_info] on a sequence of handles. *)
Fixpoint set_all (calls : list (ServiceHandle ASender * PeerInfo)) : stateful St Empty_set unit :=
  match calls with
  | [] => mret tt
  | (h, i) :: calls => put_local_info h i;; set_all calls
  end.

(** The last info set through a handle on the cell [a]. *)
Definition last_set (a : Arc) (i : PeerInfo) (calls : list (ServiceHandle ASender * PeerInfo)) : PeerInfo :=
  foldl (λ i c, if decide (service_local_info c.1 = a) then c.2 else i) i calls.

Lemma set_all_result calls st a i :
  holds (info_cells st) a (mk_full_info i) →
  Forall (λ c, ∃ x, holds (info_cells st) (service_local_info c.1) x) calls →
  let '(st', r) := set_all calls st in
  r = Ok tt ∧ peers_cells st' = peers_cells st ∧
  holds (info_cells st') a (mk_full_info (last_set a i calls)).
Proof.
  revert st i. induction calls as [|[h j] calls IH]; intros st i Ha Hcalls; [done|].
  apply Forall_cons in Hcalls as [[x Hx] Hcalls]. simpl in Hx.
  simpl. unfold mbind, stateful_bind, put_local_info, zoom at 1.
  rewrite (arc_write_holds _ _ _ _ Hx). simpl.
  set (st1 := mk_store (peers_cells st) _).
  specialize (IH st1 (if decide (service_local_info h = a) then j else i)). apply IH.
  - unfold holds. simpl. case_decide as Hd.
    + subst a. by rewrite lookup_insert_eq.
    + by rewrite lookup_insert_ne.
  - eapply Forall_impl; [done|]. intros [h' j'] [y Hy]. simpl in *. unfold holds.
    destruct (decide (service_local_info h = service_local_info h')) as [<-|Hne].
    + rewrite lookup_insert_eq. eauto.
    + rewrite lookup_insert_ne by done. by exists y.
Qed.

Lemma new_worker_cells builder i st ach st' ach' w :
  new_worker builder i (st, ach) = ((st', ach'), Ok w) →
  holds (info_cells st') (worker_local_info w) (mk_full_info i) ∧
  holds (peers_cells st') (worker_peers w) ∅ ∧
  behaviour_local_info (peer_info (behaviour (swarm w))) = mk_full_info i.
Proof.
  unfold new_worker, build_swarm. destruct (with_tcp builder) as [b|e]; simpl; [|done].
  destruct (with_behaviour (build_behaviour i) (with_quic b)) as [sw|e] eqn:Hb; simpl; [|done].
  apply with_behaviour_ok in Hb. destruct (channel ACTION_CHANNEL_BUFFER_SIZE ach) as [ach1 [snd rcv]].
  intros [= <- <- <-]. simpl. split_and!.
  - exact (proj1 (arc_new_holds (mk_full_info i) (info_cells st))).
  - exact (proj1 (arc_new_holds ∅ (peers_cells st))).
  - revert Hb. unfold build_behaviour. destruct (gossipsub_new _); [|done].
    destruct (mdns_new _); [|done]. by intros [= <-].
Qed.

(** C29: all services of a worker share one info: after any sequence of
    [set_local_info] through live handles, of this worker or of others, no call has
    panicked, and every service of the worker reads the last info set through one of its
    own, or the initial one; [peers] is empty; and the info the peer-info protocol
    advertises is the initial one. *)
Theorem local_info_shared builder i st ach st' ach' w calls ach2 :
  new_worker builder i (st, ach) = ((st', ach'), Ok w) →
  Forall (λ c, ∃ x, holds (info_cells st') (service_local_info c.1) x) calls →
  let h := (service w ach2).2 in
  let '(st2, r) := set_all calls st' in
  r = Ok tt ∧ local_info (h, st2) = Ok (last_set (worker_local_info w) i calls) ∧ peers (h, st2) = Ok [] ∧
  behaviour_local_info (peer_info (behaviour (swarm w))) = mk_full_info i.
Proof.
  intros Hnew Hcalls. destruct (new_worker_cells _ _ _ _ _ _ _ Hnew) as (Hi & Hp & Hb).
  run_spec (set_all_result calls st' _ _ Hi Hcalls) as [st2 r] in (-> & Hp' & Hi'). unfold service. destruct (sender_clone _ _) as [? sender]. simpl.
  unfold get_local_info, get_peers. rewrite (arc_read_holds _ _ _ Hi'), Hp', (arc_read_holds _ _ _ Hp).
  split_and!; [done..| |done]. simpl. f_equal.
  assert (hash_iter (∅ : gmap PeerId Full) = []) as ->; [|done].
  apply Permutation_nil_r. by rewrite hash_iter_perm, map_to_list_empty.
Qed.
End worker.

(** The records of the worker's section. *)
Arguments mk_world {_ _ _ _ _ _ _ _ _} _ _ _.

(** * A concrete node *)

(** Channels in a table: whether the receiver is gone, the buffer size and the items. *)
Record ListChannel (T : Type) : Type := mk_list_channel { gone : bool; buffer : N; queue : list T }.
Arguments mk_list_channel {T} _ _ _.
Arguments gone {T} _.
Arguments buffer {T} _.
Arguments queue {T} _.

#[global] Instance list_channel T : Channel (list (ListChannel T)) nat nat T unit := {|
  channel size chs := (chs ++ [mk_list_channel false size []], (length chs, length chs));
  sender_clone sender chs := (chs, sender);
  is_closed sender chs := match chs !! sender with Some c => gone c | None => true end;
  send x sender chs :=
    match chs !! sender with
    | Some (mk_list_channel false size q) =>
      if decide (N.of_nat (length q) ≤ size)%N
      then (<[sender := mk_list_channel false size (q ++ [x])]> chs, Ready (ROk tt))
      else (chs, Pending)
    | _ => (chs, Ready (RErr tt))
    end;
  next receiver chs :=
    match chs !! receiver with
    | Some (mk_list_channel g size (x :: q)) => (<[receiver := mk_list_channel g size q]> chs, Ready (Some x))
    | _ => (chs, Pending)
    end
|}.

#[global] Instance list_channel_laws T : ChannelLaws (list (ListChannel T)) nat nat T unit.
Proof.
  split. intros x s ch. simpl. destruct (ch !! s) as [[g size q]|]; simpl; [intros ->|]; eauto.
Defined.

(** Gossipsub as the log of its calls, with topics as their own hashes. *)
#[global] Instance log_gossipsub : GossipsubLib (list (string * bytes)) unit string unit unit unit := {|
  gossipsub_new _ := ROk [];
  topic_hash topic := topic;
  publish topic data log := (log ++ [(topic, data)], ROk tt);
  subscribe topic log := (log ++ [(topic, [])], ROk true)
|}.

Abbreviation SampleNode :=
  (NodeBehaviour (list (string * bytes)) unit unit
    (Behaviour (Config unit string) N N N (list N) (gset N) (PeerFullInfo Byte.byte)
      (ToSwarm N N (Event N (PeerFullInfo Byte.byte) (PeerFullInfo Byte.byte) sample_upgrade_error) (gset N)))
    unit unit).
#[global] Instance sample_node : NodeLib unit unit unit N string unit unit unit unit SampleNode SampleNode unit unit unit := {|
  with_tcp b := ROk b;
  with_quic b := b;
  with_behaviour f _ := f tt;
  box_error e := e;
  public key := key;
  from_public_key _ := 1%N;
  kademlia_new _ := tt;
  identify_new _ _ := tt;
  mdns_new _ := ROk tt;
  stream_protocol name := name;
  request_response_new _ := tt;
  behaviour nb := nb;
  behaviour_mut nb _ := nb
|}.
#[global] Instance sample_node_laws :
  NodeLaws unit unit unit N string unit unit unit unit SampleNode SampleNode unit unit unit.
Proof. by refine {| builder_key _ := tt |}. Defined.

Abbreviation SampleItem := (result (NodeError unit unit unit unit unit) (N * AnyMessage)).
Abbreviation SampleMessages := (list (ListChannel SampleItem)).
Abbreviation SampleActions := (list (ListChannel (ActionItem nat))).
Abbreviation SampleWorker := (Worker SampleNode string nat nat nat).
Abbreviation SampleStore := (Store N Byte.byte).
#[local] Instance worker_iter : HashIter N := default_hash_iter N.

(** A new node, the first of its store. *)
Definition sample_start : (SampleStore * SampleActions) * outcome (NodeError unit unit unit unit unit) SampleWorker :=
  new_worker (PeerInfo := Byte.byte) tt Byte.x41 (mk_store ∅ ∅, []).
Definition sample_worker : SampleWorker :=
  mk_worker (match build_behaviour Byte.x41 tt with ROk nb => nb | RErr _ => mk_node_behaviour [] tt tt
    (new_behaviour (new_config "" tt "" "") (mk_full_info Byte.x00)) tt tt end) 0%N 0%N ∅ 0 0.
Example sample_start_ok : sample_start.2 = Ok sample_worker.
Proof. vm_compute. reflexivity. Qed.

(** A listener asks for a topic; the same after its receiver is gone. *)
Definition listening_world : World :=
  mk_world sample_worker [mk_list_channel false 64 [BroadcastListen 0 "blocks"]]
    ([mk_list_channel false 16 []] : SampleMessages).
Definition registered_world : World := (step ActionBranch listening_world).1.
Definition abandoned_world : World :=
  mk_world (worker registered_world) (actions registered_world) ([mk_list_channel true 16 []] : SampleMessages).
Definition sample_message : GossipMessage N string := mk_gossip (Some 2%N) [Byte.x42] "blocks".

(** The open listener gets nothing and is forgotten. *)
Example open_listener_forgotten :
  step (SwarmBranch (swarm sample_worker) (GossipsubMessage sample_message)) registered_world =
  (mk_world (set_senders {["blocks" := ("blocks", [])]} sample_worker) (actions registered_world)
     [mk_list_channel false 16 []], Ready (Ok tt)).
Proof. vm_compute. reflexivity. Qed.

Lemma gone_listener_ends_run_witness :
  ∃ e, (run [SwarmBranch (swarm sample_worker) (GossipsubMessage sample_message)] abandoned_world).2 =
    Ready (Err (ChannelSend e)).
Proof.
  apply (gone_listener_ends_run (swarm sample_worker) sample_message [] abandoned_world "blocks" [0] 0).
  - vm_compute. reflexivity.
  - by left.
  - reflexivity.
Defined.

Lemma listeners_by_topic_witness :
  senders_by_topic [("blocks", 0)] (broadcast_listen_senders (worker registered_world)).
Proof.
  apply (listeners_by_topic [("blocks", 0)] registered_world).
  - by intros ??.
  - exact (worker_step ActionBranch [] listening_world (worker_start listening_world eq_refl)).
Defined.

Lemma action_result_witness :
  broadcast_listen_senders (worker registered_world) !! "blocks" = Some ("blocks", [0]).
Proof.
  pose proof (action_result [mk_list_channel false 64 []] (BroadcastListen 0 "blocks") listening_world) as Hr.
  destruct Hr as (_ & _ & _ & res & _ & Hres); [vm_compute; reflexivity|].
  destruct res; [apply Hres|vm_compute; reflexivity].
Defined.

Definition sample_service : ServiceHandle nat := (service sample_worker ([] : SampleActions)).2.

Lemma local_info_shared_witness :
  let '(st2, r) := set_all [(sample_service, Byte.x42)] sample_start.1.1 in
  r = Ok tt ∧
  local_info (sample_service, st2) =
    Ok (last_set (worker_local_info sample_worker) Byte.x41 [(sample_service, Byte.x42)]) ∧
  peers (sample_service, st2) = Ok ([] : list (N * Byte.byte)) ∧
  behaviour_local_info (peer_info (behaviour (swarm sample_worker))) = mk_full_info Byte.x41.
Proof.
  refine (local_info_shared tt Byte.x41 (mk_store ∅ ∅) [] sample_start.1.1 sample_start.1.2 sample_worker
    [(sample_service, Byte.x42)] ([] : SampleActions) _ _).
  - vm_compute. reflexivity.
  - repeat constructor. exists (mk_full_info Byte.x41). vm_compute. reflexivity.
Defined.

#[local] Instance sample_topic : Message Byte.byte string := λ _, "blocks".

Abbreviation SampleError := (NodeError unit unit unit unit unit).
