(* ===== verification/WorkerRequests.v ===== *)
(** WorkerRequests: services and worker together ([blocknet/src/libp2p/mod.rs]): what
    [broadcast] and [listen] of a service put into the action channel, and what the worker
    makes of it.

    The channel of the futures crate is a queue: [QueueLaws] states its documented
    behaviour for the senders that belong to one receiver. *)
From S2P Require Import Prelude PeerInfoProtocol PeerInfoHandler PeerInfoBehaviour SyncExtra Service Worker.

(** The items on their way to a receiver, and the senders that feed it. *)
Class QueueLaws (Ch Sender Receiver T SendError : Type) `{Channel Ch Sender Receiver T SendError} : Type := {
  items : Receiver → Ch → list T;
  feeds : Sender → Receiver → Prop;
  channel_queue : ∀ size ch ch' s r,
    channel size ch = (ch', (s, r)) → feeds s r ∧ items r ch' = [];
  clone_queue : ∀ s ch ch' s' r,
    sender_clone s ch = (ch', s') → feeds s r → feeds s' r ∧ items r ch' = items r ch;
  send_queue : ∀ (x : T) s r ch ch',
    feeds s r → send x s ch = (ch', Ready (ROk tt)) → items r ch' = items r ch ++ [x];
  next_queue : ∀ r ch,
    match items r ch with
    | x :: rest => ∃ ch', next r ch = (ch', Ready (Some x)) ∧ items r ch' = rest
    | [] => ∀ ch' x, next r ch ≠ (ch', Ready (Some x))
    end
}.

Section requests.
Context {PeerId ConnectionId Multiaddr TopicHash PeerInfo : Type}.
Context `{Countable PeerId, Countable ConnectionId, Countable Multiaddr, Countable TopicHash}.
Context {Builder Key PubKey StreamProtocol G Kad Identify Mdns ReqResp Swarm : Type}.
Context {SendError SubscriptionError PublishError NoiseError BehaviourError BoxError SUError : Type}.
Context {Listen External OtherEvent : Type}.
Context {Sender Receiver MCh ASender AReceiver ACh : Type}.
Abbreviation SwarmEvent := (FromSwarm PeerId ConnectionId Multiaddr OtherEvent).
Context `{!AddressBook Listen SwarmEvent Multiaddr, !AddressBook External SwarmEvent Multiaddr}.
Abbreviation Full := (PeerFullInfo PeerInfo).
Abbreviation PeerInfoBehaviour := (Behaviour (Config PubKey StreamProtocol) PeerId ConnectionId Multiaddr
  Listen External Full (ToSwarm PeerId ConnectionId (Event PeerId Full Full SUError) (gset Multiaddr))).
Abbreviation NB := (NodeBehaviour G Kad Identify PeerInfoBehaviour Mdns ReqResp).
Context `{!GossipsubLib G Key TopicHash PublishError SubscriptionError BoxError}.
Context `{!NodeLib Builder Key PubKey PeerId StreamProtocol Kad Identify Mdns ReqResp NB Swarm NoiseError BehaviourError BoxError}.
Context `{!NodeLaws Builder Key PubKey PeerId StreamProtocol Kad Identify Mdns ReqResp NB Swarm NoiseError BehaviourError BoxError}.
Abbreviation Err' := (NodeError SendError SubscriptionError PublishError NoiseError BoxError).
Abbreviation Item := (result Err' (PeerId * AnyMessage)).
Abbreviation Action := (ActionItem Sender).
Context `{!Channel MCh Sender Receiver Item SendError, !Channel ACh ASender AReceiver Action SendError}.
Context `{!QueueLaws ACh ASender AReceiver Action SendError}.
Abbreviation W := (Worker Swarm TopicHash Sender ASender AReceiver).
Abbreviation St := (Store PeerId PeerInfo).
Abbreviation Wd := (@World TopicHash _ _ Swarm Sender MCh ASender AReceiver ACh).
Abbreviation handle := (handle_action (SendError := SendError)).
Implicit Types (w : W) (s : Wd) (h : ServiceHandle ASender).

(** * The queue of requests *)

(** The requests the worker has not seen yet. *)
Definition requests s : list Action := items (action_receiver (worker s)) (actions s).

(** A handle whose requests reach the worker. *)
Definition serves h w : Prop := feeds (service_action_sender h) (action_receiver w).

Lemma on_gossipsub_receiver {A} (f : G → G * A) w w' a :
  on_gossipsub f w = (w', a) → action_receiver w' = action_receiver w.
Proof. unfold on_gossipsub. destruct (f _). by intros [= <- _]. Qed.

Lemma handle_action_receiver (action : Action) w :
  action_receiver (handle action w).1 = action_receiver w.
Proof.
  destruct action; simpl; destruct (on_gossipsub _ w) as [w' [a|e]] eqn:Hg;
    apply on_gossipsub_receiver in Hg; done.
Qed.

(** One turn of the worker takes the oldest request. *)
Lemma step_request s action rest :
  requests s = action :: rest →
  ∃ s', step ActionBranch s = (s', Ready (handle action (worker s)).2) ∧
    worker s' = (handle action (worker s)).1 ∧ messages s' = messages s ∧ requests s' = rest.
Proof.
  unfold requests. intros Hq. pose proof (next_queue (action_receiver (worker s)) (actions s)) as Hn.
  rewrite Hq in Hn. destruct Hn as (ach & Hn & Hrest). simpl. rewrite Hn.
  pose proof (handle_action_receiver action (worker s)) as Hr.
  destruct (handle action (worker s)) as [w' r]. simpl in *.
  exists (mk_world w' ach (messages s)). simpl. by rewrite Hr.
Qed.

(** Without a request the branch is not taken. *)
Lemma step_no_request s :
  requests s = [] → (step ActionBranch s).2 = Pending.
Proof.
  unfold requests. intros Hq. pose proof (next_queue (action_receiver (worker s)) (actions s)) as Hn.
  rewrite Hq in Hn. simpl. destruct (next _ _) as [ach [[x|]|]]; simpl; try done. by destruct (Hn ach x).
Qed.

(** The requests handled one after the other, up to the first failure. *)
Fixpoint handle_all (acts : list Action) : stateful W Err' unit :=
  match acts with
  | [] => mret tt
  | action :: acts => handle action;; handle_all acts
  end.

Lemma run_requests acts rest s :
  requests s = acts ++ rest →
  let '(w', r) := handle_all acts (worker s) in
  let '(s', p) := run (replicate (length acts) ActionBranch) s in
  worker s' = w' ∧ messages s' = messages s ∧
  match r with
  | Ok _ => p = Pending ∧ requests s' = rest
  | Err e => p = Ready (Err e)
  | Panicked => p = Ready Panicked
  | OutOfFuel => p = Ready OutOfFuel
  end.
Proof.
  revert s. induction acts as [|action acts IH]; intros s Hq; simpl in *; [done|].
  destruct (step_request s action (acts ++ rest) Hq) as (s1 & Hs & Hw & Hm & Hrest).
  cbn [run replicate]. simpl in Hs. rewrite Hs. unfold mbind, stateful_bind.
  specialize (IH s1 Hrest). rewrite Hw in IH.
  destruct (handle action (worker s)) as [w1 [[]|e| |]]; simpl in *; try done.
  destruct (handle_all acts w1) as [w' r]. destruct (run _ s1) as [s' p].
  by destruct IH as (-> & -> & ?).
Qed.

(** * From a service to the worker *)

(** A new worker has no requests, and its services reach it. *)
Lemma new_worker_serves builder i st ach st' ach' w ach2 ach3 h mch :
  new_worker builder i (st, ach) = ((st', ach'), Ok w) → service w ach2 = (ach3, h) →
  serves h w ∧ requests (mk_world w ach' mch) = [].
Proof.
  unfold new_worker. destruct (build_swarm builder i) as [sw|e| |]; try done.
  destruct (channel ACTION_CHANNEL_BUFFER_SIZE ach) as [ach1 [snd rcv]] eqn:Hc.
  destruct (channel_queue _ _ _ _ _ Hc) as [Hf Hi]. intros [= <- <- <-]. unfold service. simpl.
  destruct (sender_clone snd ach2) as [ach4 snd'] eqn:Hclone. intros [= <- <-].
  destruct (clone_queue _ _ _ _ _ Hclone Hf) as [Hf' _]. done.
Qed.

Context {Msg Topic SerdeError : Type}.
Context `{!Message Msg Topic, !SerdeJson SerdeError Msg, !DebugFmt SerdeError}.
Context (topic_into : Topic → string).

(** The form a message has on the wire. *)
Definition encodes (message : Msg) (m : AnyMessage) : Prop :=
  message_topic m = topic_into (topic message) ∧ to_vec message = Ok (serialized m).

Lemma send_action_queues h w (action : Action) ach ach' :
  serves h w → send_action h action ach = (ach', Ready (Ok tt : outcome Err' unit)) →
  items (action_receiver w) ach' = items (action_receiver w) ach ++ [action].
Proof.
  intros Hs. unfold send_action. destruct (send action (service_action_sender h) ach) as [ach1 [[[]|e]|]] eqn:Hsend;
    simpl; try done. intros [= <-]. by eapply send_queue.
Qed.

(** [broadcast] of several messages, stopping when one fails or has to wait. *)
Fixpoint broadcast_all h (msgs : list Msg) (ach : ACh) : ACh * Poll (outcome Err' unit) :=
  match msgs with
  | [] => (ach, Ready (Ok tt))
  | message :: msgs =>
    match broadcast_message topic_into h message ach with
    | (ach, Ready (Ok _)) => broadcast_all h msgs ach
    | (ach, r) => (ach, r)
    end
  end.

Lemma broadcast_all_queues h w msgs ach ach' :
  serves h w → broadcast_all h msgs ach = (ach', Ready (Ok tt)) →
  ∃ ms, Forall2 encodes msgs ms ∧
    items (action_receiver w) ach' = items (action_receiver w) ach ++ (BroadcastSend <$> ms).
Proof.
  intros Hs. revert ach. induction msgs as [|message msgs IH]; intros ach; simpl.
  - intros [= <-]. exists []. split; [constructor|]. by rewrite app_nil_r.
  - unfold broadcast_message, broadcast_item. destruct (to_vec message) as [bs|e| |] eqn:Hv; simpl; try done.
    destruct (send_action h _ ach) as [ach1 r] eqn:Hsend. destruct r as [[[]|e| |]|]; try done.
    intros Hrest. destruct (IH ach1 Hrest) as (ms & Hms & Hitems).
    exists (mk_message (topic_into (topic message)) bs :: ms). split; [by constructor|].
    rewrite Hitems, (send_action_queues _ _ _ _ _ Hs Hsend), <-app_assoc. done.
Qed.

(** [publish] of several messages, up to the first failure. *)
Fixpoint publish_all (ms : list AnyMessage) (g : G) : G * result PublishError unit :=
  match ms with
  | [] => (g, ROk tt)
  | m :: ms =>
    match publish (topic_hash (message_topic m)) (serialized m) g with
    | (g, ROk _) => publish_all ms g
    | (g, RErr e) => (g, RErr e)
    end
  end.

Lemma handle_all_broadcasts ms w :
  let '(w', r) := handle_all (BroadcastSend <$> ms) w in
  let '(g, res) := publish_all ms (worker_gossipsub w) in
  worker_gossipsub w' = g ∧ broadcast_listen_senders w' = broadcast_listen_senders w ∧
  r = match res with ROk _ => Ok tt | RErr e => Err (GossipsubPublish e) end.
Proof.
  revert w. induction ms as [|m ms IH]; intros w; simpl; [done|]. unfold mbind, stateful_bind. simpl.
  run_spec (on_gossipsub_result (publish (topic_hash (message_topic m)) (serialized m)) w)
    as [w1 [[]|e]] in (-> & _ & Ht); [|done].
  specialize (IH w1). destruct (handle_all _ w1) as [w' r], (publish_all ms (worker_gossipsub w1)) as [g res].
  by rewrite <-Ht.
Qed.

(** C26: broadcasts reach gossipsub in order: when a service has broadcast a list of
    messages to a worker without other requests, as many turns of the worker publish
    exactly their encodings, in order, under the hashes of their topics, up to the first
    that gossipsub refuses, whose error then ends the worker; otherwise it keeps running
    with no request left. *)
Theorem broadcasts_published_in_order h msgs ach s :
  serves h (worker s) → requests s = [] → broadcast_all h msgs (actions s) = (ach, Ready (Ok tt)) →
  ∃ ms, Forall2 encodes msgs ms ∧
    let '(s', p) := run (replicate (length msgs) ActionBranch) (mk_world (worker s) ach (messages s)) in
    let '(g, res) := publish_all ms (worker_gossipsub (worker s)) in
    worker_gossipsub (worker s') = g ∧
    broadcast_listen_senders (worker s') = broadcast_listen_senders (worker s) ∧ messages s' = messages s ∧
    match res with
    | ROk _ => p = Pending ∧ requests s' = []
    | RErr e => p = Ready (Err (GossipsubPublish e))
    end.
Proof.
  intros Hserves Hempty Hall. destruct (broadcast_all_queues _ _ _ _ _ Hserves Hall) as (ms & Hms & Hitems).
  exists ms. split; [done|]. unfold requests in Hempty. rewrite Hempty in Hitems. simpl in Hitems.
  pose proof (run_requests (BroadcastSend <$> ms) [] (mk_world (worker s) ach (messages s))) as Hrun.
  rewrite app_nil_r in Hrun. specialize (Hrun Hitems).
  rewrite length_fmap, <-(Forall2_length _ _ _ Hms) in Hrun. simpl worker in Hrun.
  pose proof (handle_all_broadcasts ms (worker s)) as Hb.
  destruct (handle_all (BroadcastSend <$> ms) (worker s)) as [w' r].
  destruct (publish_all ms (worker_gossipsub (worker s))) as [g res].
  destruct (run _ _) as [s' p]. destruct Hrun as (-> & -> & Hp), Hb as (-> & -> & ->).
  split_and!; [done..|]. by destruct res.
Qed.

(** C27: a subscription is in place after one turn of the worker: once [listen] returned a
    receiver, a worker without other requests subscribes to the topic and appends the
    sender of that very receiver's channel to the senders of the topic, whatever other
    listeners there are. *)
Theorem listen_registers h (name : Topic) ach mch receiver g fresh s :
  serves h (worker s) → requests s = [] →
  listen topic_into h name (actions s) (messages s) = (ach, mch, Ready (Ok receiver : outcome Err' Receiver)) →
  subscribe (topic_hash (topic_into name)) (worker_gossipsub (worker s)) = (g, ROk fresh) →
  let '(s', r) := step ActionBranch (mk_world (worker s) ach mch) in
  r = Ready (Ok tt) ∧ worker_gossipsub (worker s') = g ∧ requests s' = [] ∧
  ∃ sender t senders, channel MESSAGE_CHANNEL_BUFFER_SIZE (messages s) = (mch, (sender, receiver)) ∧
    broadcast_listen_senders (worker s') !! topic_hash (topic_into name) = Some (t, senders ++ [sender]).
Proof.
  intros Hserves Hempty. unfold listen.
  destruct (channel MESSAGE_CHANNEL_BUFFER_SIZE (messages s)) as [mch1 [sender rcv]] eqn:Hc.
  destruct (send_action h _ (actions s)) as [ach1 r] eqn:Hsend.
  intros Hl Hsub. destruct r as [[[]|e| |]|]; simpl in Hl; try done. injection Hl as <- <- <-.
  apply (send_action_queues _ _ _ _ _ Hserves) in Hsend. unfold requests in Hempty. rewrite Hempty in Hsend.
  destruct (step_request (mk_world (worker s) ach1 mch1) (BroadcastListen sender (topic_into name)) [] Hsend)
    as (s' & Hs & Hw & Hm & Hrest). rewrite Hs. simpl in *.
  run_spec (on_gossipsub_result (subscribe (topic_hash (topic_into name))) (worker s)) as [w1 [a|e]] in (Hg & _ & Ht);
    rewrite Hg in Hsub; simplify_eq. simpl in *. rewrite Hw. simpl. split_and!; [done..|].
  eexists sender, _, _. split; [done|]. by rewrite lookup_insert_eq.
Qed.
End requests.

(** * A concrete node *)

#[global] Instance list_queue_laws T : QueueLaws (list (ListChannel T)) nat nat T unit.
Proof.
  refine {| items r chs := match chs !! r with Some c => queue c | None => [] end; feeds s r := s = r |}.
  - intros size ch ch' s r [= <- <- <-]. split; [done|]. by rewrite list_lookup_middle.
  - by intros s ch ch' s' r [= <- <-] ->.
  - intros x s r ch ch' ->. simpl. destruct (ch !! r) as [[[] size q]|] eqn:Hr; try done.
    case_decide; [|done]. intros [= <-]. rewrite list_lookup_insert_eq; [done|by eapply lookup_lt_Some].
  - intros r ch. simpl. destruct (ch !! r) as [[g size [|x q]]|] eqn:Hr; simpl; try done.
    eexists. split; [done|]. rewrite list_lookup_insert_eq; [done|by eapply lookup_lt_Some].
Defined.

#[local] Instance requests_topic : Message Byte.byte string := λ _, "blocks".

(** The worker of a new node, with its empty action channel. *)
Definition fresh_world : World :=
  mk_world sample_worker ([mk_list_channel false 64 []] : SampleActions) ([] : SampleMessages).

Lemma broadcasts_published_in_order_witness :
  ∃ ms, Forall2 (encodes id) [Byte.x41; Byte.x42] ms ∧
    let '(s', p) := run (replicate 2 ActionBranch) (mk_world sample_worker
      [mk_list_channel false 64 [BroadcastSend (mk_message "blocks" [Byte.x41]); BroadcastSend (mk_message "blocks" [Byte.x42])]]
      ([] : SampleMessages)) in
    let '(g, res) := publish_all ms (worker_gossipsub sample_worker) in
    worker_gossipsub (worker s') = g ∧
    broadcast_listen_senders (worker s') = broadcast_listen_senders sample_worker ∧ messages s' = [] ∧
    match res with
    | ROk _ => p = Pending ∧ requests s' = []
    | RErr e => p = Ready (Err (GossipsubPublish e))
    end.
Proof.
  apply (broadcasts_published_in_order id sample_service [Byte.x41; Byte.x42] _ fresh_world).
  - reflexivity.
  - reflexivity.
  - vm_compute. reflexivity.
Defined.

Lemma listen_registers_witness :
  let '(s', r) := step ActionBranch (mk_world sample_worker
    [mk_list_channel false 64 [BroadcastListen 0 "blocks"]] ([mk_list_channel false 16 []] : SampleMessages)) in
  r = Ready (Ok tt) ∧ worker_gossipsub (worker s') = [("blocks", [])] ∧ requests s' = [] ∧
  ∃ sender t senders,
    channel MESSAGE_CHANNEL_BUFFER_SIZE ([] : SampleMessages) = ([mk_list_channel false 16 []], (sender, 0)) ∧
    broadcast_listen_senders (worker s') !! "blocks" = Some (t, senders ++ [sender]).
Proof.
  refine (listen_registers id sample_service "blocks"%string [mk_list_channel false 64 [BroadcastListen 0 "blocks"]]
    [mk_list_channel false 16 []] 0 [("blocks", [])] true fresh_world _ _ _ _).
  - reflexivity.
  - reflexivity.
  - vm_compute. reflexivity.
  - vm_compute. reflexivity.
Defined.
