(* ===== verification/SimpleNode.v ===== *)
(** SimpleNode: the example program [blocknet/examples/simple_libp2p.rs], which starts a
    worker and waits for it, and the state type of [tinyjam/src/lib.rs].

    [tokio::spawn(..).await] is the outcome of the spawned task, with a panic turned into
    a [JoinError]; the boxed error of [main] keeps where it came from. *)
From S2P Require Import Prelude PeerInfoProtocol PeerInfoHandler PeerInfoBehaviour SyncExtra Service Worker.

(** [tinyjam::State]. *)
Record State (Consensus : Type) : Type := mk_jam_state { consensus : Consensus }.
Arguments mk_jam_state {_} _.
Arguments consensus {_} _.

(** [struct PeerInfo] of the example. *)
Record ExamplePeerInfo : Type := mk_peer_info { best_block : N }.

(** [Box<dyn Error>] of [main]: an error of the worker's construction or of the join. *)
Inductive MainError (E : Type) : Type := WorkerError (e : E) | JoinError.
Arguments WorkerError {E} e.
Arguments JoinError {E}.

(** [JoinHandle::await]: a task that panicked is a [JoinError]; one that never ends keeps
    the caller waiting. *)
Definition join {E A} (p : Poll (outcome E A)) : Poll (outcome (MainError E) (result E A)) :=
  match p with
  | Ready (Ok a) => Ready (Ok (ROk a))
  | Ready (Err e) => Ready (Ok (RErr e))
  | Ready Panicked => Ready (Err JoinError)
  | Ready OutOfFuel => Ready OutOfFuel
  | Pending => Pending
  end.

Section main.
Context {PeerId ConnectionId Multiaddr TopicHash : Type}.
Context `{Countable PeerId, Countable ConnectionId, Countable Multiaddr, Countable TopicHash}.
Context {Builder Key PubKey StreamProtocol G Kad Identify Mdns ReqResp Swarm : Type}.
Context {SendError SubscriptionError PublishError NoiseError BehaviourError BoxError SUError : Type}.
Context {Listen External OtherEvent : Type}.
Context {Sender Receiver MCh ASender AReceiver ACh : Type}.
Abbreviation SwarmEvent := (FromSwarm PeerId ConnectionId Multiaddr OtherEvent).
Context `{!AddressBook Listen SwarmEvent Multiaddr, !AddressBook External SwarmEvent Multiaddr}.
Abbreviation Full := (PeerFullInfo ExamplePeerInfo).
Abbreviation PeerInfoBehaviour := (Behaviour (Config PubKey StreamProtocol) PeerId ConnectionId Multiaddr
  Listen External Full (ToSwarm PeerId ConnectionId (Event PeerId Full Full SUError) (gset Multiaddr))).
Abbreviation NB := (NodeBehaviour G Kad Identify PeerInfoBehaviour Mdns ReqResp).
Context `{!GossipsubLib G Key TopicHash PublishError SubscriptionError BoxError}.
Context `{!NodeLib Builder Key PubKey PeerId StreamProtocol Kad Identify Mdns ReqResp NB Swarm NoiseError BehaviourError BoxError}.
Abbreviation Err' := (NodeError SendError SubscriptionError PublishError NoiseError BoxError).
Abbreviation Item := (result Err' (PeerId * AnyMessage)).
Context `{!Channel MCh Sender Receiver Item SendError, !Channel ACh ASender AReceiver (ActionItem Sender) SendError}.
Abbreviation St := (Store PeerId ExamplePeerInfo).

(** [main], for the branches of the worker that become ready. *)
Definition main (builder : Builder) (branches : list (@Branch PeerId TopicHash Swarm)) (st : St) (ach : ACh)
    (mch : MCh) : Poll (outcome (MainError Err') unit) :=
  match new_worker builder (mk_peer_info 1) (st, ach) with
  | ((_, ach), Ok worker) =>
    match join (run branches (mk_world worker ach mch)).2 with
    | Ready (Ok _) => Ready (Ok tt)
    | Ready (Err e) => Ready (Err e)
    | Ready Panicked => Ready Panicked
    | Ready OutOfFuel => Ready OutOfFuel
    | Pending => Pending
    end
  | (_, Err e) => Ready (Err (WorkerError e))
  | (_, Panicked) => Ready Panicked
  | (_, OutOfFuel) => Ready OutOfFuel
  end.

(** No step of the worker panics. *)
Lemma step_returns (branch : @Branch PeerId TopicHash Swarm) (s : @World TopicHash _ _ Swarm Sender MCh ASender AReceiver ACh) :
  match (step (SendError := SendError) branch s).2 with Ready r => returns r | Pending => True end.
Proof.
  assert (∀ (item : Item) senders ch, match (send_all item senders ch).2 with Ready r => returns r | Pending => True end)
    as Hsend.
  { intros item senders. induction senders as [|x senders IH]; intros ch; simpl; [done|].
    destruct (send item x ch) as [ch' [[[]|e]|]]; [apply IH|done|done]. }
  destruct branch as [|sw [message|]]; simpl; [| |done].
  - destruct (next _ _) as [ach [[action|]|]]; simpl; try done.
    destruct action; simpl; by destruct (on_gossipsub _ _) as [w' []].
  - unfold handle_message. destruct (_ !! gossip_topic message) as [[topic senders]|]; simpl; [|done].
    match goal with |- context [send_all ?item ?senders ?ch] => specialize (Hsend item senders ch) end.
    by destruct (send_all _ _ _).
Qed.

Lemma run_returns (branches : list (@Branch PeerId TopicHash Swarm)) (s : @World TopicHash _ _ Swarm Sender MCh ASender AReceiver ACh) :
  match (run (SendError := SendError) branches s).2 with Ready r => returns r | Pending => True end.
Proof.
  revert s. induction branches as [|branch branches IH]; intros s; simpl; [done|].
  pose proof (step_returns branch s) as Hs. destruct (step branch s) as [s' [[[]|e| |]|]]; simpl in *; try done.
  apply IH.
Qed.

(** Neither does its construction. *)
Lemma new_worker_returns (builder : Builder) (s : St * ACh) :
  returns (new_worker (SendError := SendError) builder (mk_peer_info 1) s).2.
Proof.
  destruct s as [st ach]. unfold new_worker, build_swarm. destruct (with_tcp builder); simpl; [|done].
  destruct (with_behaviour _ _); simpl; [|done]. by destruct (channel _ ach) as [? []].
Qed.

(** How the example ends: if the worker cannot be built, with that error; otherwise it
    runs as long as the worker does, and ends successfully when the worker fails: the
    error of the worker is dropped. *)
Theorem main_result builder branches st ach mch :
  match new_worker builder (mk_peer_info 1) (st, ach) with
  | ((_, ach'), Ok w) =>
    main builder branches st ach mch =
      match (run branches (mk_world w ach' mch)).2 with Ready _ => Ready (Ok tt) | Pending => Pending end
  | (_, Err e) => main builder branches st ach mch = Ready (Err (WorkerError e))
  | (_, Panicked) | (_, OutOfFuel) => False
  end.
Proof.
  unfold main. pose proof (new_worker_returns builder (st, ach)) as Hnew.
  destruct (new_worker builder (mk_peer_info 1) (st, ach)) as [[st' ach'] [w|e| |]]; try done.
  pose proof (run_returns branches (mk_world w ach' mch)) as Hr. by destruct (run _ _) as [s [[[]|e| |]|]].
Qed.
End main.
